(* ===== verification/_CoqProject ===== *)
-Q . S2P
Prelude.v
Ip.v
Checksum.v
Packet.v
Transport.v
Frame.v
Build.v
Fragment.v
Defrag.v
DefragRoundTrip.v
Bitmap.v
WgReplay.v
OvpnWindow.v
SeqSpace.v
SendBuf.v
RecvBuf.v
TcpCodec.v
AckOptions.v
Ports.v
NatPorts.v
OvpnControl.v
OvpnReliable.v
OvpnChannel.v
Icmp.v
HubStats.v
Depth.v
L3Hub.v
L2Hub.v
Topology.v
NatRewrite.v
NatTrack.v
NatMap.v
NatMapInv.v
NatExpiry.v
NatCreate.v
NatReach.v
NatFrag.v
NatDefrag.v
NatPath.v
NatPathInv.v
NatPathReach.v
NatPathFlow.v
