(* ===== verification/Prelude.v ===== *)
(** * pktkit: a verification development

    pktkit ([src/src/]) is a Rust toolkit of packet-handling parts: IP packets
    and Ethernet frames over byte buffers, hubs that switch and route them, a
    NAT, a TCP engine, and WireGuard and OpenVPN endpoints.  This library
    models the parts whose behaviour is a function of bytes, tables and clock
    readings, and proves what each of them promises.  This file is the root:
    it has the buffers, the integers and the tactics the others share.

    ** The program and the files

    Packets.  A buffer of bytes is read and patched in place by [packet.rs],
    built by [build.rs], summed by [checksum.rs], cut by [fragment.rs] and put
    together by [defrag.rs].
    - [Ip]: addresses and prefixes ([ip.rs], [protocol.rs]).
    - [Checksum]: every function of [checksum.rs].
    - [Packet], [Transport]: the accessors and mutators of [packet.rs], and
      transport checksums of whole packets.
    - [Frame]: [frame.rs], [mac.rs], and the VLAN tags of [build.rs].
    - [Build]: the builders of [build.rs].
    - [Fragment], [Defrag], [DefragRoundTrip]: [fragment.rs], [defrag.rs],
      and one against the other.
    - [Icmp]: the error messages of [icmp.rs], which the hub and the NAT send.

    Hubs.  A device attached to a hub hands it what it receives; the hub calls
    the devices it goes to, in the same thread.
    - [HubStats]: the counters of [stats.rs].
    - [Depth]: [DepthGuard] of [l2hub.rs], the count of nested forwarding.
    - [L3Hub]: [l3hub.rs]; [Hub] is its state, [route] the handler.
    - [L2Hub]: [l2hub.rs]; [L2Hub] is its state, [forward] the handler, [step]
      everything that happens to a switch over its life.
    - [Topology]: hubs, links ([connect.rs]) and devices calling each other;
      [call] is one call, with the thread's depth and stack.

    NAT.  A packet from inside is given an outside port, a packet from outside
    is led back by it; all tables are under one lock.
    - [Bitmap], [Ports], [NatPorts]: the port bitmap of [nat/ports.rs] and the
      tables of [nat/nat.rs] that hold ports.
    - [NatTrack]: quotas and remotes ([nat/track.rs]).
    - [NatMap]: the state under the lock, [NatInner], and every operation on
      it; [NatMapInv], [NatExpiry], [NatCreate], [NatReach] prove its
      invariant, operation by operation, then over every history
      ([nat_step], [nat_reached]).
    - [NatRewrite]: what translation does to the bytes of a packet.
    - [NatFrag], [NatDefrag]: the fragment table ([nat/frag.rs]) and the
      reassembler ([nat/defrag.rs]) of the NAT.
    - [NatPath]: the NAT around the lock and the way of a packet through it
      ([handle_outbound], [handle_inbound]), as programs of a state monad;
      [NatPathInv] is the logic they are judged by, [NatPathReach] their
      histories, [NatPathFlow] the course of a datagram out and back.

    TCP.  [SeqSpace], [SendBuf], [RecvBuf], [TcpCodec] are the files of those
    names under [vtcp/] ([options.rs] and [segment.rs] for the last), and
    [AckOptions] is where [conn.rs] joins the receive buffer and the codec.

    Tunnels.  [WgReplay] is [wg/replay.rs], [OvpnWindow] [ovpn/window.rs],
    [OvpnControl] the control packets ([ovpn/opcode.rs],
    [ovpn/packet_ctrl.rs]), [OvpnReliable] the reliable transport of
    [ovpn/reliable.rs] with what of [ovpn/peer.rs] drives it, [OvpnChannel] two of
    them on a network that loses, repeats and reorders.

    ** How the code is represented

    Bytes are [list Z] with [bytes_ok]; a [w]-bit integer is a [Z] that wraps
    where the code wraps and saturates where it saturates ([u32], [u64],
    [sat_sub]).  An index the code has checked is [byte_at]; where a panic is
    possible, the operation gives [None] for it.  A hash map is a [gmap]; where the order
    it is walked in could matter it is a parameter.  An [Instant] or a
    [Duration] is a [Z] of nanoseconds, and an operation has an argument for
    each time it reads the clock.  Errors are constructors or [None].  A method that
    changes its object returns the new one.

    ** What is proved

    - Checksums and packets: the deferred-carry checksum is RFC 1071's, and
      patching it is recomputing it; what is built, fragmented, marshalled or
      serialized reads back; reassembly hands out only what arrived, whole,
      within exactly counted memory.
    - Replay windows and the receive and send buffers refine the obvious
      window and stream they stand for, on every sequence of operations.
    - The OpenVPN control channel delivers a prefix of what was sent, always,
      and all of it once the network lets it.
    - The switch keeps VLANs apart, sends a frame where it is due, uses an
      address only as long as it is fresh and holds what a secure port has; the
      router follows longest-prefix rules; forwarding through any topology of
      them ends, within the limit on its depth.
    - The NAT's tables agree in every history: one mapping to a port, exact
      quotas, exact port bitmap; sweeping and creation do exactly what they
      should to each entry; translation changes only what it means to and keeps
      checksums as valid as they were.  Through its packet path: nothing leaves
      but from the public address, nothing comes in uninvited, what is
      answered in time reaches the host that asked, and fragments and
      reassembly stay within bounds.

    ** Fuel

    A loop that is not structural runs on fuel its caller gives, and a lemma
    shows it is enough: log2 of the sum plus two for the carry loop
    ([fold_loop_done]); the length of what is walked for TCP and IP options
    and fragments, of which each turn takes at least one byte
    ([copy_options_fuel], [fragment_loop_total], [parse_loop_total],
    [adjust_options_fuel]); the number of entries, of which each turn removes
    one, for eviction and for the queues of the control channel
    ([evict_loop_spec], [make_room_inv], [drain_in_spec], [flush_loop_spec],
    [send_acks_spec]).  The [stack] of [Topology.call] is not fuel of the
    model but the stack of the thread, and how much suffices is the theorem.

    ** What is assumed

    Locks and atomics are sequential steps: an operation under a lock runs
    alone, and a thread's forwarding is a sequence of calls, during which no
    limit on its depth is changed.  What the NAT
    hands to a side is recorded in order, and the side's reaction comes after
    the call.  The NAT's helpers are an interface, [PacketHelper] and
    [LocalHelper]; [lawful] says what the NAT relies on, that a helper changes
    the tables by the NAT's own operations and leaves header length, protocol
    and addresses of a packet alone.  It is not proved of the gateways in
    [nat/alg_*.rs].  Rate limiters, clocks, the devices of a hub, where a ring buffer splits
    and how a [Vec] grows are parameters.

    ** What is not modelled

    - Parts that are system calls or sockets: [tuntap/], [afpacket/],
      [afxdp/], [xdp/] (kernel programs, maps and netlink), [qemu.rs], [syscall.rs],
      [sys.rs], [pcap.rs], [slirp/], and [accept.rs].  Their behaviour is the
      operating system's.
    - Cryptography and the protocols made of it: [wg/] but for the replay
      window, [ovpn/] but for the control channel and its window.  The
      primitives are in other crates, and a model would assume what matters.
    - The TCP connection engine, [vtcp/conn.rs], with congestion control
      ([bbr.rs], [cubic.rs], floating point), loss recovery and timers:
      only its buffers, codec and acknowledgement options are modelled.
    - [vclient/], [dhcp/], [l2adapter.rs], [arp.rs], [ndp.rs],
      [nat/nat64.rs], [nat/upnp.rs], the gateways [nat/alg_*.rs],
      [impair.rs], [pipe.rs], [pool.rs]: not modelled yet.
    - Text forms: parsing and printing of addresses and prefixes.

    In the project's map, named constants, protocol numbers, record updates
    and the pieces a function's body is split into here have no entry of their
    own; the lines they come from are those of the function they belong to. *)

From stdpp Require Export prelude gmap list numbers.
From Stdlib Require Import ZArith Lia.

#[global] Open Scope Z_scope.

Declare Scope pkt_scope.
Delimit Scope pkt_scope with pkt.
#[global] Open Scope pkt_scope.

(** ** Buffers

    A Rust [[u8]], [Vec<u8>] or [VecDeque<u8>] is a [list Z] whose elements
    are in [0, 256) ([bytes_ok]); every length and index is a [Z]. *)

Definition zlen {A} (l : list A) : Z := Z.of_nat (length l).

Definition ztake {A} (n : Z) (l : list A) : list A := take (Z.to_nat n) l.

Definition zdrop {A} (n : Z) (l : list A) : list A := drop (Z.to_nat n) l.

(** [&l[a..b]]. *)
Definition slice {A} (l : list A) (a b : Z) : list A := ztake (b - a) (zdrop a l).

(** [l[i]] where the source has checked [i < l.len()]. *)
Definition byte_at (l : list Z) (i : Z) : Z := default 0 (l !! Z.to_nat i).

(** [l.get(i)]; also an index the source does not check, [None] being the
    panic. *)
Definition get {A} (l : list A) (i : Z) : option A :=
  if 0 <=? i then l !! Z.to_nat i else None.

(** [l.get(a..b)]. *)
Definition get_range {A} (l : list A) (a b : Z) : option (list A) :=
  if (0 <=? a) && (a <=? b) && (b <=? zlen l) then Some (slice l a b) else None.

(** [l[a..a+bs.len()].copy_from_slice(bs)], in range. *)
Definition splice {A} (l : list A) (a : Z) (bs : list A) : list A :=
  ztake a l ++ bs ++ zdrop (a + zlen bs) l.

(** [l[i] = b], in range. *)
Definition set_byte (l : list Z) (i b : Z) : list Z := <[Z.to_nat i := b]> l.

Notation "l .[ i ]" := (byte_at l i)
  (at level 1, format "l .[ i ]") : pkt_scope.

Definition byte_ok (b : Z) : Prop := 0 <= b < 256.
Definition bytes_ok (l : list Z) : Prop := Forall byte_ok l.

(** ** Fixed-width integers

    An unsigned w-bit integer is a [Z] in [0, 2^w); [as uN] casts and
    [wrapping_*] operations reduce modulo 2^w. *)

Definition u8 (z : Z) : Z := z mod 2 ^ 8.
Definition u16 (z : Z) : Z := z mod 2 ^ 16.
Definition u32 (z : Z) : Z := z mod 2 ^ 32.
Definition u64 (z : Z) : Z := z mod 2 ^ 64.

(** [x as i32] for a u32 [x]. *)
Definition i32 (x : Z) : Z := if x <? 2 ^ 31 then x else x - 2 ^ 32.

(** [!x] at 16 and 8 bits. *)
Definition not16 (x : Z) : Z := 65535 - x.
Definition not8 (x : Z) : Z := 255 - x.

(** [to_be_bytes] and [from_be_bytes]. *)
Definition be16 (x : Z) : list Z := [x / 256; x mod 256].
Definition be32 (x : Z) : list Z :=
  [x / 2 ^ 24; (x / 2 ^ 16) mod 256; (x / 256) mod 256; x mod 256].
Definition of_be16 (a b : Z) : Z := a * 256 + b.

Fixpoint be_bytes (n : nat) (x : Z) : list Z :=
  match n with
  | O => []
  | S k => (x / 256 ^ Z.of_nat k) mod 256 :: be_bytes k x
  end.

Fixpoint of_be_bytes (l : list Z) : Z :=
  match l with
  | [] => 0
  | b :: r => b * 256 ^ zlen r + of_be_bytes r
  end.

(** [a.saturating_sub(b)] on an unsigned type. *)
Definition sat_sub (a b : Z) : Z := Z.max 0 (a - b).

(** ** Automation *)

Create Rewrite HintDb zlen.
Create HintDb pkt.

(** Decide a goal about lengths: normalise every [zlen], then [lia]. *)
Ltac zl := autorewrite with zlen in *; try lia.

(** Turn the boolean tests of the code into propositions. *)
Ltac bool2prop :=
  repeat match goal with
  | H : _ && _ = true |- _ => apply andb_true_iff in H; destruct H
  | H : _ || _ = false |- _ => apply orb_false_iff in H; destruct H
  | H : negb _ = true |- _ => apply negb_true_iff in H
  | H : negb _ = false |- _ => apply negb_false_iff in H
  | H : (_ =? _) = true |- _ => apply Z.eqb_eq in H
  | H : (_ =? _) = false |- _ => apply Z.eqb_neq in H
  | H : (_ <? _) = true |- _ => apply Z.ltb_lt in H
  | H : (_ <? _) = false |- _ => apply Z.ltb_ge in H
  | H : (_ <=? _) = true |- _ => apply Z.leb_le in H
  | H : (_ <=? _) = false |- _ => apply Z.leb_gt in H
  end.

(** Split on the next [if] of the goal, keeping the test as a proposition. *)
Ltac case_if :=
  match goal with
  | |- context [if ?b then _ else _] =>
      lazymatch type of b with bool => destruct b eqn:? end
  end; bool2prop.

(** ** Lengths *)

Section Lengths.
Context {A : Type}.
Implicit Types l k : list A.

Lemma zlen_nonneg l : 0 <= zlen l.
Proof. unfold zlen; lia. Qed.

Lemma zlen_nil : zlen (@nil A) = 0.
Proof. done. Qed.

Lemma zlen_cons (x : A) l : zlen (x :: l) = zlen l + 1.
Proof. unfold zlen; cbn [length]; lia. Qed.

Lemma zlen_zero l : zlen l = 0 -> l = [].
Proof. destruct l; [done|]. rewrite zlen_cons. pose proof (zlen_nonneg l). lia. Qed.

Lemma zlen_app l k : zlen (l ++ k) = zlen l + zlen k.
Proof. unfold zlen; rewrite length_app; lia. Qed.

Lemma zlen_ztake n l : zlen (ztake n l) = Z.min (Z.max 0 n) (zlen l).
Proof. unfold zlen, ztake; rewrite length_take; lia. Qed.

Lemma zlen_zdrop n l : zlen (zdrop n l) = Z.max 0 (zlen l - Z.max 0 n).
Proof. unfold zlen, zdrop; rewrite length_drop; lia. Qed.

Lemma zlen_slice l a b :
  zlen (slice l a b) = Z.min (Z.max 0 (b - a)) (Z.max 0 (zlen l - Z.max 0 a)).
Proof. unfold slice; rewrite zlen_ztake, zlen_zdrop; lia. Qed.

Lemma zlen_splice l a k :
  0 <= a -> a + zlen k <= zlen l -> zlen (splice l a k) = zlen l.
Proof.
  intros; unfold splice.
  pose proof (zlen_nonneg k).
  rewrite !zlen_app, zlen_ztake, zlen_zdrop; lia.
Qed.

Lemma zlen_reverse l : zlen (reverse l) = zlen l.
Proof. unfold zlen; rewrite length_reverse; lia. Qed.

Lemma zlen_insert i (x : A) l : zlen (<[i := x]> l) = zlen l.
Proof. unfold zlen; rewrite length_insert; lia. Qed.

Lemma zlen_replicate n (x : A) : zlen (replicate n x) = Z.of_nat n.
Proof. unfold zlen; rewrite length_replicate; lia. Qed.

Lemma zlen_map {B} (f : A -> B) l : zlen (f <$> l) = zlen l.
Proof. unfold zlen; rewrite length_fmap; lia. Qed.
End Lengths.

Lemma zlen_set_byte l i b : zlen (set_byte l i b) = zlen l.
Proof. apply zlen_insert. Qed.

Lemma zlen_be16 x : zlen (be16 x) = 2.
Proof. done. Qed.

Lemma zlen_be32 x : zlen (be32 x) = 4.
Proof. done. Qed.

Lemma zlen_be_bytes n x : zlen (be_bytes n x) = Z.of_nat n.
Proof. induction n as [|n IH]; cbn [be_bytes]; [done|]. rewrite zlen_cons; lia. Qed.

#[export] Hint Rewrite @zlen_nil @zlen_cons @zlen_app @zlen_ztake @zlen_zdrop @zlen_slice
  @zlen_reverse @zlen_insert @zlen_replicate @zlen_map zlen_set_byte zlen_be16 zlen_be32
  zlen_be_bytes : zlen.

(** ** Take, drop, slice and splice *)

Section Slices.
Context {A : Type}.
Implicit Types l k : list A.

Lemma ztake_zdrop n l : ztake n l ++ zdrop n l = l.
Proof. apply take_drop. Qed.

Lemma ztake_all n l : zlen l <= n -> ztake n l = l.
Proof. intros; apply take_ge; unfold zlen in *; lia. Qed.

Lemma ztake_nonpos n l : n <= 0 -> ztake n l = [].
Proof. intros; unfold ztake; replace (Z.to_nat n) with O by lia; done. Qed.

Lemma zdrop_nonpos n l : n <= 0 -> zdrop n l = l.
Proof. intros; unfold zdrop; replace (Z.to_nat n) with O by lia; done. Qed.

Lemma zdrop_all n l : zlen l <= n -> zdrop n l = [].
Proof. intros; apply drop_ge; unfold zlen in *; lia. Qed.

Lemma ztake_app_le n l k : n <= zlen l -> ztake n (l ++ k) = ztake n l.
Proof. intros; apply take_app_le; unfold zlen in *; lia. Qed.

Lemma ztake_app_ge n l k :
  zlen l <= n -> ztake n (l ++ k) = l ++ ztake (n - zlen l) k.
Proof.
  intros; unfold ztake, zlen in *. rewrite take_app_ge by lia.
  do 2 f_equal; lia.
Qed.

Lemma ztake_app l k : ztake (zlen l) (l ++ k) = l.
Proof. rewrite ztake_app_le, ztake_all; done. Qed.

Lemma zdrop_app_le n l k : n <= zlen l -> zdrop n (l ++ k) = zdrop n l ++ k.
Proof. intros; apply drop_app_le; unfold zlen in *; lia. Qed.

Lemma zdrop_app_ge n l k : zlen l <= n -> zdrop n (l ++ k) = zdrop (n - zlen l) k.
Proof.
  intros; unfold zdrop, zlen in *. rewrite drop_app_ge by lia.
  f_equal; lia.
Qed.

Lemma zdrop_app l k : zdrop (zlen l) (l ++ k) = k.
Proof. rewrite zdrop_app_ge by lia. apply zdrop_nonpos; lia. Qed.

Lemma ztake_ztake n m l : 0 <= n <= m -> ztake n (ztake m l) = ztake n l.
Proof. intros; unfold ztake; rewrite take_take; f_equal; lia. Qed.

Lemma zdrop_zdrop n m l : 0 <= n -> 0 <= m -> zdrop n (zdrop m l) = zdrop (m + n) l.
Proof. intros; unfold zdrop; rewrite drop_drop; f_equal; lia. Qed.

Lemma zdrop_ztake n m l :
  0 <= n <= m -> zdrop n (ztake m l) = ztake (m - n) (zdrop n l).
Proof.
  intros; unfold zdrop, ztake. rewrite take_drop_commute; do 2 f_equal; lia.
Qed.

Lemma slice_full l : slice l 0 (zlen l) = l.
Proof. unfold slice. rewrite zdrop_nonpos, ztake_all by lia; done. Qed.

Lemma slice_nil l a b : b <= a -> slice l a b = [].
Proof. intros; apply ztake_nonpos; lia. Qed.

Lemma slice_to_end l a : slice l a (zlen l) = zdrop a l.
Proof.
  unfold slice. destruct (decide (a <= zlen l)).
  - apply ztake_all. rewrite zlen_zdrop; lia.
  - rewrite zdrop_all, ztake_nonpos by lia; done.
Qed.

Lemma slice_from_0 l b : slice l 0 b = ztake b l.
Proof. unfold slice. rewrite zdrop_nonpos by lia. f_equal; lia. Qed.

Lemma slice_clip l a b : slice l a b = slice l a (Z.min b (zlen l)).
Proof.
  unfold slice. destruct (decide (b <= zlen l)); [by rewrite Z.min_l|].
  rewrite Z.min_r by lia. destruct (decide (zlen l <= a)).
  - rewrite !(zdrop_all a l) by done. unfold ztake. by rewrite !take_nil.
  - rewrite !(ztake_all _ (zdrop a l)); [done| |]; rewrite zlen_zdrop; lia.
Qed.

Lemma slice_ztake n l a b : 0 <= a -> b <= n -> slice (ztake n l) a b = slice l a b.
Proof.
  intros. unfold slice. destruct (decide (b <= a)); [rewrite !ztake_nonpos by lia; done|].
  rewrite zdrop_ztake by lia. apply ztake_ztake. lia.
Qed.

Lemma slice_cat l a b c :
  0 <= a <= b -> b <= c -> slice l a b ++ slice l b c = slice l a c.
Proof.
  intros; unfold slice.
  rewrite <- (ztake_zdrop (b - a) (ztake (c - a) (zdrop a l))).
  rewrite ztake_ztake, zdrop_ztake, zdrop_zdrop by lia.
  do 2 f_equal; [lia|f_equal; lia].
Qed.

Lemma slice_app_l l k a b : 0 <= a -> b <= zlen l -> slice (l ++ k) a b = slice l a b.
Proof.
  intros; unfold slice. destruct (decide (a <= b)).
  - rewrite zdrop_app_le, ztake_app_le by zl; done.
  - rewrite !ztake_nonpos by lia; done.
Qed.

Lemma slice_app_r l k a b :
  zlen l <= a -> slice (l ++ k) a b = slice k (a - zlen l) (b - zlen l).
Proof.
  intros; unfold slice. rewrite zdrop_app_ge by lia. f_equal; lia.
Qed.

Lemma slice_slice l a b c d :
  0 <= a -> 0 <= c <= d -> d <= b - a ->
  slice (slice l a b) c d = slice l (a + c) (a + d).
Proof.
  intros; unfold slice. rewrite zdrop_ztake, ztake_ztake, zdrop_zdrop by lia.
  f_equal; lia.
Qed.

Lemma slice_decompose l a b :
  0 <= a <= b -> ztake a l ++ slice l a b ++ zdrop b l = l.
Proof.
  intros. rewrite <- (slice_from_0 l a), app_assoc, slice_cat by lia.
  rewrite slice_from_0. apply ztake_zdrop.
Qed.

Lemma splice_app l k r x :
  zlen x = zlen k -> splice (l ++ k ++ r) (zlen l) x = l ++ x ++ r.
Proof.
  intros Hx; unfold splice. rewrite ztake_app. do 2 f_equal.
  rewrite zdrop_app_ge by (rewrite Hx; pose proof (zlen_nonneg k); lia).
  replace (zlen l + zlen x - zlen l) with (zlen k) by lia. apply zdrop_app.
Qed.

Lemma splice_slice_same l a b : 0 <= a <= b -> b <= zlen l -> splice l a (slice l a b) = l.
Proof.
  intros; unfold splice.
  replace (a + zlen (slice l a b)) with b by (rewrite zlen_slice; lia).
  apply slice_decompose; lia.
Qed.

Lemma slice_splice_in l a x :
  0 <= a -> a + zlen x <= zlen l -> slice (splice l a x) a (a + zlen x) = x.
Proof.
  intros. unfold splice.
  assert (zlen (ztake a l) = a) as Ha by (pose proof (zlen_nonneg x); rewrite zlen_ztake; lia).
  rewrite slice_app_r by lia. rewrite slice_app_l by lia.
  rewrite Ha. replace (a - a) with 0 by lia. replace (a + zlen x - a) with (zlen x) by lia.
  apply slice_full.
Qed.

Lemma slice_splice_before l a x c d :
  0 <= c -> d <= a -> a + zlen x <= zlen l -> slice (splice l a x) c d = slice l c d.
Proof.
  intros. unfold splice. pose proof (zlen_nonneg x).
  destruct (decide (c <= d)); [|rewrite !slice_nil by lia; done].
  rewrite slice_app_l by (rewrite ?zlen_ztake; lia).
  rewrite <- (slice_app_l (ztake a l) (zdrop a l)) by (rewrite ?zlen_ztake; lia).
  f_equal; apply ztake_zdrop.
Qed.

Lemma slice_splice_after l a x c d :
  0 <= a -> a + zlen x <= c -> a + zlen x <= zlen l ->
  slice (splice l a x) c d = slice l c d.
Proof.
  intros. unfold splice. pose proof (zlen_nonneg x).
  assert (zlen (ztake a l) = a) as Ha by (rewrite zlen_ztake; lia).
  rewrite !slice_app_r by lia. rewrite Ha.
  set (n := a + zlen x) in *.
  rewrite <- (ztake_zdrop n l) at 2.
  assert (zlen (ztake n l) = n) as Hn by (rewrite zlen_ztake; lia).
  rewrite (slice_app_r (ztake n l)) by lia. rewrite Hn. f_equal; lia.
Qed.

Lemma ztake_splice_in l a x n :
  0 <= a -> a + zlen x <= n -> n <= zlen l -> ztake n (splice l a x) = splice (ztake n l) a x.
Proof.
  intros. pose proof (zlen_nonneg x). unfold splice.
  assert (zlen (ztake a l) = a) as Ha by (rewrite zlen_ztake; lia).
  rewrite ztake_app_ge, Ha by lia. rewrite ztake_app_ge by lia.
  rewrite ztake_ztake by lia. do 2 f_equal. rewrite zdrop_ztake by lia. f_equal. lia.
Qed.

Lemma splice_splice l a x y :
  0 <= a -> a + zlen x <= zlen l -> zlen x = zlen y -> splice (splice l a x) a y = splice l a y.
Proof.
  intros Ha Hl Hxy. pose proof (zlen_nonneg x). unfold splice at 1.
  assert (zlen (ztake a l) = a) as Hz by (rewrite zlen_ztake; lia).
  unfold splice. rewrite ztake_app_le, ztake_all by lia. do 2 f_equal.
  rewrite zdrop_app_ge, zdrop_app_ge by lia. rewrite Hz, <- Hxy.
  apply zdrop_nonpos. lia.
Qed.

Lemma slice_splice_inside l a b f x :
  0 <= a -> 0 <= f -> a + f + zlen x <= b -> b <= zlen l ->
  slice (splice l (a + f) x) a b = splice (slice l a b) f x.
Proof.
  intros. pose proof (zlen_nonneg x).
  assert (zlen (splice l (a + f) x) = zlen l) as Hl by (apply zlen_splice; lia).
  rewrite <- (slice_cat _ a (a + f) b), <- (slice_cat _ (a + f) (a + f + zlen x) b) by lia.
  rewrite slice_splice_before, slice_splice_in, slice_splice_after by lia.
  unfold splice. f_equal; [|f_equal].
  - rewrite <- (slice_from_0 (slice l a b)), slice_slice by lia. f_equal; lia.
  - rewrite <- (slice_to_end (slice l a b)), zlen_slice, slice_slice by lia. f_equal; lia.
Qed.

Lemma ztake_splice_before l a x n :
  n <= a -> a + zlen x <= zlen l -> ztake n (splice l a x) = ztake n l.
Proof.
  intros. destruct (decide (0 <= n)); [|rewrite !ztake_nonpos by lia; done].
  rewrite <- !slice_from_0. apply slice_splice_before; lia.
Qed.
End Slices.

(** ** Single bytes *)

Lemma byte_at_app_l l k i : i < zlen l -> 0 <= i -> (l ++ k).[i] = l.[i].
Proof. intros; unfold byte_at. rewrite lookup_app_l; [done|unfold zlen in *; lia]. Qed.

Lemma byte_at_app_r l k i : zlen l <= i -> (l ++ k).[i] = k.[i - zlen l].
Proof.
  intros; unfold byte_at. rewrite lookup_app_r by (unfold zlen in *; lia).
  do 2 f_equal; unfold zlen in *; lia.
Qed.

Lemma byte_at_ztake l n i : 0 <= i < n -> (ztake n l).[i] = l.[i].
Proof. intros; unfold byte_at, ztake. rewrite lookup_take_lt; [done|lia]. Qed.

Lemma byte_at_zdrop l n i : 0 <= n -> 0 <= i -> (zdrop n l).[i] = l.[n + i].
Proof. intros; unfold byte_at, zdrop. rewrite lookup_drop. do 2 f_equal; lia. Qed.

Lemma byte_at_slice l a b i : 0 <= a -> 0 <= i < b - a -> (slice l a b).[i] = l.[a + i].
Proof. intros; unfold slice. rewrite byte_at_ztake, byte_at_zdrop by lia; done. Qed.

Lemma byte_at_set_eq l i b : 0 <= i < zlen l -> (set_byte l i b).[i] = b.
Proof.
  intros; unfold byte_at, set_byte.
  rewrite list_lookup_insert_eq; [done|unfold zlen in *; lia].
Qed.

Lemma byte_at_set_ne l i j b : i <> j -> 0 <= i -> 0 <= j -> (set_byte l i b).[j] = l.[j].
Proof. intros; unfold byte_at, set_byte. rewrite list_lookup_insert_ne; [done|lia]. Qed.

Lemma byte_at_splice_in l a x i :
  0 <= a -> a + zlen x <= zlen l -> a <= i < a + zlen x -> (splice l a x).[i] = x.[i - a].
Proof.
  intros. unfold splice.
  assert (zlen (ztake a l) = a) as Ha by (rewrite zlen_ztake; lia).
  rewrite byte_at_app_r, byte_at_app_l by lia. f_equal; lia.
Qed.

Lemma byte_at_splice_out l a x i :
  0 <= a -> a + zlen x <= zlen l -> 0 <= i -> i < a \/ a + zlen x <= i ->
  (splice l a x).[i] = l.[i].
Proof.
  intros ??? Hi. unfold splice. pose proof (zlen_nonneg x).
  assert (zlen (ztake a l) = a) as Ha by (rewrite zlen_ztake; lia).
  destruct Hi.
  - rewrite byte_at_app_l, byte_at_ztake by lia; done.
  - rewrite !byte_at_app_r, byte_at_zdrop by lia. f_equal; lia.
Qed.

Lemma byte_at_overflow l i : zlen l <= i -> l.[i] = 0.
Proof.
  intros; unfold byte_at. rewrite lookup_ge_None_2; [done|unfold zlen in *; lia].
Qed.

Lemma slice_one l i : 0 <= i < zlen l -> slice l i (i + 1) = [l.[i]].
Proof.
  intros. unfold slice, ztake, zdrop, byte_at. replace (Z.to_nat (i + 1 - i)) with 1%nat by lia.
  destruct (lookup_lt_is_Some_2 l (Z.to_nat i)) as [x Hx]; [unfold zlen in *; lia|].
  rewrite Hx. erewrite drop_S by done. done.
Qed.

Lemma slice_two l i : 0 <= i -> i + 2 <= zlen l -> slice l i (i + 2) = [l.[i]; l.[i + 1]].
Proof.
  intros. rewrite <- (slice_cat l i (i + 1) (i + 2)) by lia.
  replace (i + 2) with (i + 1 + 1) by lia. rewrite !slice_one by lia. done.
Qed.

Lemma set_byte_splice l i b : 0 <= i < zlen l -> set_byte l i b = splice l i [b].
Proof.
  intros. unfold set_byte, splice, ztake, zdrop.
  rewrite insert_take_drop by (unfold zlen in *; lia).
  do 3 f_equal. change (zlen [b]) with 1. lia.
Qed.

Lemma set_byte_splice2 l i b :
  0 <= i -> i + 2 <= zlen l -> set_byte l i b = splice l i [b; l.[i + 1]].
Proof.
  intros. rewrite set_byte_splice by lia. unfold splice.
  replace (zdrop (i + zlen [b]) l) with (l.[i + 1] :: zdrop (i + zlen [b; l.[i + 1]]) l); [done|].
  change (zlen [b]) with 1. change (zlen [b; l.[i + 1]]) with 2.
  rewrite <- (slice_to_end l (i + 1)), <- (slice_cat l (i + 1) (i + 1 + 1)) by lia.
  rewrite slice_one by lia. rewrite slice_to_end. do 2 f_equal; lia.
Qed.

(** Two buffers of one length with the same bytes are equal. *)
Lemma bytes_ext l k :
  zlen l = zlen k -> (forall i, 0 <= i < zlen l -> l.[i] = k.[i]) -> l = k.
Proof.
  intros Hl H. apply list_eq_same_length with (length l); [unfold zlen in *; lia|done|].
  intros i x y Hi Hx Hy.
  specialize (H (Z.of_nat i)). unfold byte_at in H. rewrite Nat2Z.id, Hx, Hy in H.
  apply H. unfold zlen; lia.
Qed.

(** ** Well-formed bytes *)

(** ** 32-bit arithmetic *)

Lemma u32_bound x : 0 <= u32 x < 2 ^ 32.
Proof. apply Z.mod_pos_bound. lia. Qed.

Lemma u32_small x : 0 <= x < 2 ^ 32 -> u32 x = x.
Proof. apply Z.mod_small. Qed.

Lemma u32_sub_l a b : u32 (u32 a - b) = u32 (a - b).
Proof. apply Zminus_mod_idemp_l. Qed.
Lemma u32_sub_r a b : u32 (a - u32 b) = u32 (a - b).
Proof. apply Zminus_mod_idemp_r. Qed.
Lemma u32_add_l a b : u32 (u32 a + b) = u32 (a + b).
Proof. apply Zplus_mod_idemp_l. Qed.
Lemma u32_add_r a b : u32 (a + u32 b) = u32 (a + b).
Proof. apply Zplus_mod_idemp_r. Qed.
Lemma u32_u32 a : u32 (u32 a) = u32 a.
Proof. apply Zmod_mod. Qed.

(** [wrapping_sub(..) as i32] is the signed distance. *)
Lemma i32_u32 d : - 2 ^ 31 <= d < 2 ^ 31 -> i32 (u32 d) = d.
Proof.
  intros H. unfold i32, u32. destruct (decide (0 <= d)).
  - rewrite Z.mod_small by lia. destruct (d <? 2 ^ 31) eqn:E; bool2prop; lia.
  - rewrite <- (Z.mod_add d 1) by lia. rewrite Z.mod_small by lia.
    destruct (_ <? _) eqn:E; bool2prop; lia.
Qed.

Lemma i32_bound d : 0 <= d < 2 ^ 32 -> - 2 ^ 31 <= i32 d < 2 ^ 31.
Proof. intros H. unfold i32. destruct (_ <? _) eqn:E; bool2prop; lia. Qed.

Lemma u32_i32 d : 0 <= d < 2 ^ 32 -> u32 (i32 d) = d.
Proof.
  intros H. unfold i32, u32. destruct (_ <? _) eqn:E; bool2prop; [apply Z.mod_small; lia|].
  rewrite <- (Z.mod_add (d - 2 ^ 32) 1) by lia. rewrite Z.mod_small; lia.
Qed.

(** Concrete byte strings, checked by evaluation. *)
Lemma bytes_ok_eval l : forallb (fun b => (0 <=? b) && (b <? 256)) l = true -> bytes_ok l.
Proof.
  induction l as [|b l IH]; intros H; [constructor|]. cbn [forallb] in H. apply andb_prop in H as [H1 H2]. apply andb_prop in H1 as [H0 H1].
  constructor; [|by apply IH]. unfold byte_ok. lia.
Qed.

Lemma bytes_ok_nil : bytes_ok [].
Proof. constructor. Qed.

Lemma bytes_ok_cons b l : byte_ok b -> bytes_ok l -> bytes_ok (b :: l).
Proof. constructor; done. Qed.

Lemma bytes_ok_app l k : bytes_ok l -> bytes_ok k -> bytes_ok (l ++ k).
Proof. intros; apply Forall_app; done. Qed.

Lemma bytes_ok_ztake n l : bytes_ok l -> bytes_ok (ztake n l).
Proof. apply Forall_take. Qed.

Lemma bytes_ok_zdrop n l : bytes_ok l -> bytes_ok (zdrop n l).
Proof. apply Forall_drop. Qed.

Lemma bytes_ok_slice l a b : bytes_ok l -> bytes_ok (slice l a b).
Proof. intros; apply bytes_ok_ztake, bytes_ok_zdrop; done. Qed.

Lemma bytes_ok_splice l a x : bytes_ok l -> bytes_ok x -> bytes_ok (splice l a x).
Proof. intros; apply bytes_ok_app, bytes_ok_app; auto using bytes_ok_ztake, bytes_ok_zdrop. Qed.

Lemma bytes_ok_set_byte l i b : bytes_ok l -> byte_ok b -> bytes_ok (set_byte l i b).
Proof. intros; apply Forall_insert; done. Qed.

Lemma bytes_ok_replicate n b : byte_ok b -> bytes_ok (replicate n b).
Proof. intros; apply Forall_replicate; done. Qed.

Lemma byte_at_ok l i : bytes_ok l -> byte_ok l.[i].
Proof.
  intros Hl; unfold byte_at. destruct (l !! Z.to_nat i) eqn:E; cbn.
  - eapply Forall_lookup_1 in E; done.
  - unfold byte_ok; lia.
Qed.

Lemma byte_ok_u8 z : byte_ok (u8 z).
Proof. apply Z.mod_pos_bound; lia. Qed.

Lemma bytes_ok_be16 x : 0 <= x < 65536 -> bytes_ok (be16 x).
Proof.
  intros; unfold be16. repeat apply bytes_ok_cons; unfold byte_ok; [| |apply bytes_ok_nil].
  - split; [apply Z.div_pos; lia|apply Z.div_lt_upper_bound; lia].
  - apply Z.mod_pos_bound; lia.
Qed.

Lemma bytes_ok_be32 x : 0 <= x < 2 ^ 32 -> bytes_ok (be32 x).
Proof.
  intros; unfold be32. repeat apply bytes_ok_cons; unfold byte_ok; [| | | |apply bytes_ok_nil];
    try (apply Z.mod_pos_bound; lia).
  split; [apply Z.div_pos; lia|apply Z.div_lt_upper_bound; lia].
Qed.

Lemma bytes_ok_be_bytes n x : bytes_ok (be_bytes n x).
Proof.
  induction n; cbn [be_bytes]; [apply bytes_ok_nil|].
  apply bytes_ok_cons; [apply Z.mod_pos_bound; lia|done].
Qed.

#[export] Hint Resolve bytes_ok_nil bytes_ok_cons bytes_ok_app bytes_ok_ztake bytes_ok_zdrop
  bytes_ok_slice bytes_ok_splice bytes_ok_set_byte bytes_ok_replicate byte_at_ok byte_ok_u8
  bytes_ok_be16 bytes_ok_be32 bytes_ok_be_bytes : pkt.

(** Prove that a buffer built from known parts is well-formed. *)
Ltac bok :=
  repeat lazymatch goal with
  | |- bytes_ok (_ ++ _) => apply bytes_ok_app
  | |- bytes_ok (_ :: _) => apply bytes_ok_cons
  | |- bytes_ok [] => apply bytes_ok_nil
  | |- bytes_ok (ztake _ _) => apply bytes_ok_ztake
  | |- bytes_ok (zdrop _ _) => apply bytes_ok_zdrop
  | |- bytes_ok (slice _ _ _) => apply bytes_ok_slice
  | |- bytes_ok (splice _ _ _) => apply bytes_ok_splice
  | |- bytes_ok (set_byte _ _ _) => apply bytes_ok_set_byte
  | |- bytes_ok (be16 _) => apply bytes_ok_be16
  | |- bytes_ok (be32 _) => apply bytes_ok_be32
  | |- byte_ok (byte_at _ _) => apply byte_at_ok
  end; auto with pkt; try (unfold byte_ok in *; lia).

(** ** Big-endian integers *)

Lemma of_be16_be16 x : of_be16 (x / 256) (x mod 256) = x.
Proof. unfold of_be16. pose proof (Z.div_mod x 256). lia. Qed.

Lemma be16_of_be16 a b : byte_ok b -> be16 (of_be16 a b) = [a; b].
Proof.
  unfold byte_ok, of_be16, be16; intros.
  rewrite <- (Z.div_unique (a * 256 + b) 256 a b), <- (Z.mod_unique (a * 256 + b) 256 a b) by lia.
  done.
Qed.

Lemma of_be16_bound a b : byte_ok a -> byte_ok b -> 0 <= of_be16 a b < 65536.
Proof. unfold byte_ok, of_be16; lia. Qed.

Lemma of_be_bytes_bound l : bytes_ok l -> 0 <= of_be_bytes l < 256 ^ zlen l.
Proof.
  induction l as [|b l IH]; intros H; [done|]. apply Forall_cons_iff in H as [Hb Hl]. specialize (IH Hl).
  cbn [of_be_bytes]. rewrite zlen_cons. pose proof (zlen_nonneg l). rewrite Z.pow_add_r by lia. change (256 ^ 1) with 256. unfold byte_ok in Hb. nia.
Qed.

Lemma be_bytes_of_be_bytes l : bytes_ok l -> be_bytes (length l) (of_be_bytes l) = l.
Proof.
  assert (Hb : forall l, bytes_ok l -> 0 <= of_be_bytes l < 256 ^ zlen l).
  { induction 1 as [|b r Hb Hr IH]; cbn [of_be_bytes]; [done|].
    rewrite zlen_cons, Z.pow_add_r by (try apply zlen_nonneg; lia).
    unfold byte_ok in Hb. nia. }
  assert (Hm : forall n x y, be_bytes n (x * 256 ^ Z.of_nat n + y) = be_bytes n y).
  { induction n as [|n IH]; intros x y; [done|]. cbn [be_bytes].
    replace (x * 256 ^ Z.of_nat (S n)) with (x * 256 * 256 ^ Z.of_nat n)
      by (rewrite Nat2Z.inj_succ, Z.pow_succ_r by lia; ring).
    rewrite IH, Z.div_add_l, Z.add_comm, Z.mod_add by lia. done. }
  induction 1 as [|b r Hr Hrs IH]; [done|]. cbn [of_be_bytes length be_bytes].
  specialize (Hb r Hrs). unfold zlen in *.
  rewrite Z.div_add_l, (Z.div_small (of_be_bytes r)), Z.add_0_r by lia.
  rewrite Z.mod_small by (exact Hr). rewrite Hm, IH. done.
Qed.

Lemma of_be_bytes_be_bytes n x :
  0 <= x < 256 ^ Z.of_nat n -> of_be_bytes (be_bytes n x) = x.
Proof.
  assert (Hm : forall k, of_be_bytes (be_bytes k x) = x mod 256 ^ Z.of_nat k).
  { induction k as [|k IH]; cbn [be_bytes of_be_bytes].
    - rewrite Z.pow_0_r, Z.mod_1_r; done.
    - rewrite zlen_be_bytes, IH, Nat2Z.inj_succ, Z.pow_succ_r by lia.
      rewrite (Z.mul_comm 256), Z.rem_mul_r by lia. lia. }
  intros; rewrite Hm; apply Z.mod_small; lia.
Qed.

(** ** Bits *)

(** Fields that do not overlap: OR is addition. *)
Lemma lor_add a b k : 0 <= k -> 0 <= b < 2 ^ k -> Z.lor (a * 2 ^ k) b = a * 2 ^ k + b.
Proof.
  intros Hk Hb.
  assert (Z.land (a * 2 ^ k) b = 0) as Hl.
  { apply Z.bits_inj'; intros n Hn. rewrite Z.land_spec, Z.testbit_0_l.
    destruct (decide (n < k)); [rewrite Z.mul_pow2_bits_low by lia; done|].
    apply andb_false_iff; right. apply Z.testbit_false; [lia|].
    rewrite Z.div_small; [done|]. pose proof (Z.pow_le_mono_r 2 k n); lia. }
  rewrite <- Z.lxor_lor, <- Z.add_nocarry_lxor by done. lia.
Qed.

(** [w & (1 << k) != 0] is bit [k] of [w]. *)
Lemma land_bit_testbit w k :
  0 <= k -> negb (Z.land w (Z.shiftl 1 k) =? 0) = Z.testbit w k.
Proof.
  intros Hk. destruct (Z.testbit w k) eqn:E.
  - apply negb_true_iff, Z.eqb_neq. intros H0.
    assert (Z.testbit (Z.land w (Z.shiftl 1 k)) k = false) as H1
      by (rewrite H0; apply Z.testbit_0_l).
    rewrite Z.land_spec, E, Z.shiftl_spec, Z.sub_diag in H1 by lia. done.
  - apply negb_false_iff, Z.eqb_eq, Z.bits_inj'. intros n Hn.
    rewrite Z.land_spec, Z.shiftl_spec, Z.testbit_0_l by lia.
    destruct (decide (n = k)) as [->|Hne]; [rewrite E; done|].
    destruct (decide (n < k)); [rewrite (Z.testbit_neg_r 1), andb_false_r by lia; done|].
    replace (Z.testbit 1 (n - k)) with false; [apply andb_false_r|].
    symmetry. apply (Z.bits_above_log2 1); cbn; lia.
Qed.

(** Setting bit [k]. *)
Lemma testbit_lor_bit w k j :
  0 <= k -> 0 <= j -> Z.testbit (Z.lor w (Z.shiftl 1 k)) j = (j =? k) || Z.testbit w j.
Proof.
  intros Hk Hj. rewrite Z.lor_spec, Z.shiftl_spec by lia.
  destruct (j =? k) eqn:E; bool2prop.
  - subst. rewrite Z.sub_diag. cbn. apply orb_true_r.
  - destruct (decide (j < k)).
    + rewrite (Z.testbit_neg_r 1) by lia. apply orb_false_r.
    + replace (Z.testbit 1 (j - k)) with false; [apply orb_false_r|].
      symmetry. apply (Z.bits_above_log2 1); cbn; lia.
Qed.

(** A property of every byte, by evaluation. *)
Lemma byte_forall (P : Z -> bool) :
  forallb P (seqZ 0 256) = true -> forall b, byte_ok b -> P b = true.
Proof.
  intros H b Hb. rewrite forallb_forall in H. apply H.
  apply list_elem_of_In, elem_of_seqZ. unfold byte_ok in Hb; lia.
Qed.
