(* ===== verification/Ip.v ===== *)
(** * Addresses, protocols and prefixes ([src/src/ip.rs], [src/src/protocol.rs])

    [IpAddr] is std's enum with its payload as the big-endian integer of the
    address; [octets] is the byte form.  [IpPrefix] is the record of ip.rs
    with its operations.  The theorems say what [contains] and [masked] mean
    in terms of the leading bits of an address. *)

From S2P Require Import Prelude.

(** ** Addresses *)

Inductive IpAddr :=
| V4 (a : Z)
| V6 (a : Z).

#[export] Instance IpAddr_eq_dec : EqDecision IpAddr.
Proof. solve_decision. Defined.

Definition IpAddr_eqb (x y : IpAddr) : bool := bool_decide (x = y).

Definition octets (a : IpAddr) : list Z :=
  match a with
  | V4 x => be_bytes 4 x
  | V6 x => be_bytes 16 x
  end.

Definition addr_ok (a : IpAddr) : Prop :=
  match a with
  | V4 x => 0 <= x < 2 ^ 32
  | V6 x => 0 <= x < 2 ^ 128
  end.

(** Protocol numbers ([Protocol] is a newtype over [u8]). *)
Definition ICMP : Z := 1.
Definition TCP : Z := 6.
Definition UDP : Z := 17.
Definition ICMPV6 : Z := 58.

(** ** Prefixes *)

Record IpPrefix := mkPrefix { addr : IpAddr; bits : Z }.

Definition max_bits (a : IpAddr) : Z :=
  match a with V4 _ => 32 | V6 _ => 128 end.

Definition IpPrefix_new (a : IpAddr) (b : Z) : IpPrefix :=
  mkPrefix a (Z.min b (max_bits a)).

(** [MAX.checked_shl(w - bits).unwrap_or(0)] on a w-bit integer: the shift
    drops what leaves the width, and is refused from the width on. *)
Definition checked_shl_max (w s : Z) : Z :=
  if s <? w then Z.land (Z.shiftl (Z.ones w) s) (Z.ones w) else 0.

Definition v4_mask (b : Z) : Z := if b =? 0 then 0 else checked_shl_max 32 (32 - b).
Definition v6_mask (b : Z) : Z := if b =? 0 then 0 else checked_shl_max 128 (128 - b).

Definition v4_contains (net b ip : Z) : bool :=
  Z.land net (v4_mask b) =? Z.land ip (v4_mask b).
Definition v6_contains (net b ip : Z) : bool :=
  Z.land net (v6_mask b) =? Z.land ip (v6_mask b).

Definition contains (p : IpPrefix) (other : IpAddr) : bool :=
  match addr p, other with
  | V4 net, V4 ip => v4_contains net (bits p) ip
  | V6 net, V6 ip => v6_contains net (bits p) ip
  | _, _ => false
  end.

Definition masked (p : IpPrefix) : IpPrefix :=
  match addr p with
  | V4 a => mkPrefix (V4 (Z.land a (v4_mask (bits p)))) (bits p)
  | V6 a => mkPrefix (V6 (Z.land a (v6_mask (bits p)))) (bits p)
  end.

(** [is_valid]: not the unspecified address with zero bits. *)
Definition prefix_is_valid (p : IpPrefix) : bool :=
  match addr p with
  | V4 a => negb (a =? 0) || negb (bits p =? 0)
  | V6 a => negb (a =? 0) || negb (bits p =? 0)
  end.

Definition prefix_ok (p : IpPrefix) : Prop :=
  addr_ok (addr p) /\ 0 <= bits p <= max_bits (addr p).

(** The reference reading of a prefix: the leading [b] of [w] bits. *)
Definition top_bits (w b x : Z) : Z := x / 2 ^ (w - b).

(** ** Properties *)

Lemma zlen_octets a : zlen (octets a) = match a with V4 _ => 4 | V6 _ => 16 end.
Proof. destruct a; cbn [octets]; rewrite zlen_be_bytes; done. Qed.

Lemma bytes_ok_octets a : bytes_ok (octets a).
Proof. destruct a; cbn [octets]; auto with pkt. Qed.

#[export] Hint Resolve bytes_ok_octets : pkt.

(** The mask keeps exactly the leading [b] bits. *)
Lemma mask_land w b x :
  0 < w -> 0 <= b <= w -> 0 <= x < 2 ^ w ->
  Z.land x (if b =? 0 then 0 else checked_shl_max w (w - b)) = top_bits w b x * 2 ^ (w - b).
Proof.
  intros Hw Hb Hx. unfold top_bits. destruct (b =? 0) eqn:E; bool2prop.
  - subst. rewrite Z.land_0_r, Z.sub_0_r, Z.div_small by lia. lia.
  - unfold checked_shl_max. replace (w - b <? w) with true by (symmetry; apply Z.ltb_lt; lia).
    rewrite <- Z.shiftr_div_pow2, <- Z.shiftl_mul_pow2 by lia.
    apply Z.bits_inj'; intros n Hn. rewrite !Z.land_spec.
    destruct (decide (n < w - b)).
    + rewrite !Z.shiftl_spec_low by lia. rewrite andb_false_l, andb_false_r. done.
    + rewrite !Z.shiftl_spec, Z.shiftr_spec by lia.
      replace (n - (w - b) + (w - b)) with n by lia.
      destruct (decide (n < w)).
      * rewrite !Z.ones_spec_low by lia. rewrite !andb_true_r. done.
      * rewrite (Z.ones_spec_high w n) by lia. rewrite !andb_false_r.
        symmetry. destruct (decide (x = 0)) as [->|]; [apply Z.testbit_0_l|].
        apply Z.bits_above_log2; [lia|]. apply Z.log2_lt_pow2; [lia|].
        pose proof (Z.pow_le_mono_r 2 w n). lia.
Qed.

Lemma mask_eqb w b x y :
  0 < w -> 0 <= b <= w -> 0 <= x < 2 ^ w -> 0 <= y < 2 ^ w ->
  let m := if b =? 0 then 0 else checked_shl_max w (w - b) in
  (Z.land x m =? Z.land y m) = (top_bits w b x =? top_bits w b y).
Proof.
  intros Hw Hb Hx Hy m. subst m. rewrite !mask_land by done.
  assert (0 < 2 ^ (w - b)) by lia.
  destruct (top_bits w b x =? top_bits w b y) eqn:E; bool2prop.
  - apply Z.eqb_eq. congruence.
  - apply Z.eqb_neq. nia.
Qed.

Lemma contains_spec_gen p a :
  prefix_ok p -> addr_ok a ->
  contains p a = match addr p, a with
                 | V4 n, V4 x => top_bits 32 (bits p) n =? top_bits 32 (bits p) x
                 | V6 n, V6 x => top_bits 128 (bits p) n =? top_bits 128 (bits p) x
                 | _, _ => false
                 end.
Proof.
  intros [Ha Hb] Hx. unfold contains.
  destruct (addr p), a; cbn in *; try done.
  - apply (mask_eqb 32); lia.
  - apply (mask_eqb 128); lia.
Qed.

Lemma top_bits_masked w b x :
  0 < w -> 0 <= b <= w -> 0 <= x < 2 ^ w ->
  top_bits w b (Z.land x (if b =? 0 then 0 else checked_shl_max w (w - b))) = top_bits w b x.
Proof.
  intros. rewrite mask_land by done. unfold top_bits. apply Z.div_mul. lia.
Qed.

Lemma land_mask_bound w m x : 0 <= w -> 0 <= x < 2 ^ w -> 0 <= m -> 0 <= Z.land x m < 2 ^ w.
Proof.
  intros. split; [apply Z.land_nonneg; lia|].
  destruct (decide (Z.land x m = 0)); [lia|].
  apply Z.log2_lt_pow2; [pose proof (proj2 (Z.land_nonneg x m)); lia|].
  pose proof (Z.log2_land x m).
  assert (x <> 0) by (intros ->; rewrite Z.land_0_l in *; done).
  pose proof (proj1 (Z.log2_lt_pow2 x w ltac:(lia)) ltac:(lia)). lia.
Qed.

Lemma mask_nonneg w b : 0 <= w -> 0 <= (if b =? 0 then 0 else checked_shl_max w (w - b)).
Proof.
  intros. unfold checked_shl_max. repeat case_if; try lia.
  apply Z.land_nonneg; right. rewrite Z.ones_equiv. lia.
Qed.

Lemma masked_ok p : prefix_ok p -> prefix_ok (masked p).
Proof.
  intros [Ha Hb]. unfold masked, prefix_ok.
  destruct (addr p) eqn:E; cbn in *; split; try done;
    apply land_mask_bound; try lia; apply mask_nonneg; lia.
Qed.

(** A prefix has the same members as its network address. *)
Lemma contains_masked p a :
  prefix_ok p -> addr_ok a -> contains (masked p) a = contains p a.
Proof.
  intros Hp Ha. rewrite !contains_spec_gen by auto using masked_ok.
  destruct Hp as [Hx Hb]. unfold masked.
  destruct (addr p), a; cbn in *; try done; unfold v4_mask, v6_mask;
    rewrite top_bits_masked by lia; done.
Qed.
