(* ===== verification/Checksum.v ===== *)
(** * The Internet checksum ([src/src/checksum.rs])

    One definition per function of checksum.rs.  The accumulators are the
    source's u64 sums ([word_sum_no_overflow] bounds them), and the carry
    loop runs with a fuel of log2 of the sum plus two, which
    [fold_loop_done] shows always finishes it. *)

From S2P Require Import Prelude Ip.

(** The word loop shared by [checksum] and [word_sum]: the 16-bit big-endian
    words of the buffer, an odd last byte padded on the right. *)
Fixpoint word_sum (data : list Z) : Z :=
  match data with
  | a :: b :: rest => Z.lor (Z.shiftl a 8) b + word_sum rest
  | [a] => Z.shiftl a 8
  | [] => 0
  end.

Fixpoint ones_complement_words (data : list Z) : Z :=
  match data with
  | a :: b :: rest => not16 (Z.lor (Z.shiftl a 8) b) + ones_complement_words rest
  | [a] => not16 (Z.shiftl a 8)
  | [] => 0
  end.

(** [while sum >> 16 != 0 { sum = (sum & 0xFFFF) + (sum >> 16) }]. *)
Fixpoint fold_loop (fuel : nat) (sum : Z) : Z :=
  match fuel with
  | O => sum
  | S f =>
      if Z.shiftr sum 16 =? 0 then sum
      else fold_loop f (Z.land sum 0xFFFF + Z.shiftr sum 16)
  end.

Definition fold_fuel (sum : Z) : nat := S (S (Z.to_nat (Z.log2 sum))).

Definition fold (sum : Z) : Z := u16 (fold_loop (fold_fuel sum) sum).

Definition checksum (data : list Z) : Z := not16 (fold (word_sum data)).

Definition combine_checksums (a b : Z) : Z := fold (a + b).

Definition pseudo_header (proto : Z) (src dst : IpAddr) (length : Z) : option (list Z) :=
  match src, dst with
  | V4 _, V4 _ => Some (octets src ++ octets dst ++ [0; proto] ++ be16 length)
  | V6 _, V6 _ => Some (octets src ++ octets dst ++ [0; 0] ++ be16 length ++ [0; 0; 0; proto])
  | _, _ => None
  end.

Definition pseudo_header_checksum (proto : Z) (src dst : IpAddr) (length : Z) : Z :=
  match pseudo_header proto src dst length with
  | Some buf => not16 (checksum buf)
  | None => 0
  end.

Definition raw_transport_sum (proto : Z) (src dst : IpAddr) (pdu : list Z) : Z :=
  let length := Z.min (zlen pdu) 65535 in
  combine_checksums (pseudo_header_checksum proto src dst length) (not16 (checksum pdu)).

Definition transport_checksum (proto : Z) (src dst : IpAddr) (pdu : list Z) : Z :=
  not16 (raw_transport_sum proto src dst pdu).

Definition incremental_update (old_checksum : Z) (old new : list Z) : Z :=
  not16 (fold (not16 old_checksum + ones_complement_words old + word_sum new)).

Definition incremental_update_udp (old_checksum : Z) (old new : list Z) : Z :=
  if old_checksum =? 0 then 0
  else let sum := incremental_update old_checksum old new in
       if sum =? 0 then 0xFFFF else sum.

(** ** The carry loop *)

Lemma land_ffff s : Z.land s 65535 = s mod 65536.
Proof. apply (Z.land_ones s 16). lia. Qed.

Lemma shiftr_16 s : Z.shiftr s 16 = s / 65536.
Proof. apply (Z.shiftr_div_pow2 s 16). lia. Qed.

(** One step keeps the value modulo 65535, keeps it positive, and shrinks. *)
Lemma fold_step s :
  65536 <= s ->
  let s' := Z.land s 0xFFFF + Z.shiftr s 16 in
  s' mod 65535 = s mod 65535 /\ 0 < s' < s /\ (131072 <= s -> 2 * s' <= s + 1) /\
  (s < 131072 -> s' <= 65536).
Proof.
  intros Hs s'. subst s'. rewrite land_ffff, shiftr_16.
  pose proof (Z.div_mod s 65536 ltac:(lia)) as E.
  pose proof (Z.mod_pos_bound s 65536 ltac:(lia)).
  assert (1 <= s / 65536) by (apply Z.div_le_lower_bound; lia).
  split; [|repeat split; lia].
  rewrite E at 3.
  replace (65536 * (s / 65536) + s mod 65536)
    with (s mod 65536 + s / 65536 + (s / 65536) * 65535) by lia.
  rewrite Z.mod_add by lia. done.
Qed.

Lemma fold_loop_mod fuel s : 0 <= s ->
  fold_loop fuel s mod 65535 = s mod 65535 /\ 0 <= fold_loop fuel s /\
  (fold_loop fuel s = 0 <-> s = 0).
Proof.
  revert s. induction fuel as [|f IH]; intros s Hs; cbn [fold_loop]; [lia|].
  case_if; [lia|].
  assert (65536 <= s).
  { rewrite shiftr_16 in *. destruct (decide (s < 65536)); [|lia].
    rewrite Z.div_small in * by lia. lia. }
  pose proof (fold_step s ltac:(lia)) as (Hm & Hp & _).
  destruct (IH (Z.land s 65535 + Z.shiftr s 16) ltac:(lia)) as (H1 & H2 & H3).
  rewrite H1. split_and!; [done|done|]. rewrite H3. lia.
Qed.

(** The fuel is enough: the loop always ends with no carry left. *)
Lemma fold_loop_done fuel s :
  0 <= s -> (fold_fuel s <= fuel)%nat -> fold_loop fuel s < 65536.
Proof.
  revert s. induction fuel as [|f IH]; intros s Hs Hf; [unfold fold_fuel in Hf; lia|].
  cbn [fold_loop]. rewrite shiftr_16. case_if.
  { apply Z.div_small_iff in Heqb; lia. }
  assert (65536 <= s).
  { destruct (decide (s < 65536)); [|lia]. rewrite Z.div_small in * by lia. lia. }
  pose proof (fold_step s ltac:(lia)) as (_ & Hp & Hbig & Hsmall).
  rewrite shiftr_16 in *. set (s' := Z.land s 65535 + s / 65536) in *.
  unfold fold_fuel in Hf.
  destruct (decide (131072 <= s)).
  - apply IH; [lia|]. unfold fold_fuel.
    assert (Z.log2 s' <= Z.log2 s - 1); [|pose proof (Z.log2_nonneg s'); lia].
    assert (Z.log2 (s / 2) = Z.log2 s - 1) as <-.
    { rewrite <- (Z.div2_div s), Z.div2_spec, Z.log2_shiftr by lia.
      pose proof (Z.log2_le_mono 2 s ltac:(lia)). change (Z.log2 2) with 1 in *. lia. }
    destruct (decide (2 * s' <= s)).
    { apply Z.log2_le_mono. apply Z.div_le_lower_bound; lia. }
    (* 2 * s' = s + 1 would need s / 65536 * 65535 to be tiny *)
    exfalso. pose proof (Z.div_mod s 65536 ltac:(lia)).
    pose proof (Z.mod_pos_bound s 65536 ltac:(lia)).
    subst s'. rewrite land_ffff in *. lia.
  - specialize (Hsmall ltac:(lia)).
    assert (16 <= Z.log2 s) by (apply (Z.log2_le_mono 65536); lia).
    destruct f as [|f]; [lia|]. cbn [fold_loop]. rewrite shiftr_16.
    destruct (s' / 65536 =? 0) eqn:E; bool2prop; [apply Z.div_small_iff in E; lia|].
    assert (s' = 65536) as ->.
    { destruct (decide (s' < 65536)); [|lia]. rewrite Z.div_small in * by lia. lia. }
    change (Z.land 65536 65535 + 65536 / 65536) with 1. destruct f; done.
Qed.

(** What [fold] computes: the representative in 1..65535 modulo 65535, zero
    for zero only. *)
Lemma fold_spec s :
  0 <= s -> fold s = if s =? 0 then 0 else (s - 1) mod 65535 + 1.
Proof.
  intros Hs. unfold fold.
  pose proof (fold_loop_done (fold_fuel s) s Hs ltac:(lia)) as Hlt.
  destruct (fold_loop_mod (fold_fuel s) s Hs) as (Hm & Hnn & Hz).
  set (r := fold_loop (fold_fuel s) s) in *. unfold u16. rewrite Z.mod_small by lia.
  case_if; [lia|].
  assert (r - 1 = (s - 1) mod 65535); [|lia].
  rewrite <- (Z.mod_small (r - 1) 65535) by lia.
  rewrite (Zminus_mod r), Hm, <- Zminus_mod. done.
Qed.

Lemma fold_bound s : 0 <= s -> 0 <= fold s <= 65535.
Proof.
  intros. rewrite fold_spec by done. case_if; [lia|].
  pose proof (Z.mod_pos_bound (s - 1) 65535 ltac:(lia)). lia.
Qed.

Lemma fold_zero s : 0 <= s -> fold s = 0 <-> s = 0.
Proof.
  intros. rewrite fold_spec by done. case_if; [lia|].
  pose proof (Z.mod_pos_bound (s - 1) 65535 ltac:(lia)). lia.
Qed.

Lemma fold_mod s : 0 <= s -> fold s mod 65535 = s mod 65535.
Proof.
  intros. rewrite fold_spec by done. case_if; [subst; done|].
  rewrite Zplus_mod_idemp_l. f_equal; lia.
Qed.

(** [fold] is determined by the residue modulo 65535 and by being zero. *)
Lemma fold_congr s t :
  0 <= s -> 0 <= t -> (s = 0 <-> t = 0) -> s mod 65535 = t mod 65535 -> fold s = fold t.
Proof.
  intros Hs Ht Hz Hm. rewrite !fold_spec by done.
  destruct (s =? 0) eqn:E1, (t =? 0) eqn:E2; bool2prop; try lia.
  rewrite (Zminus_mod s), (Zminus_mod t), Hm. done.
Qed.

Lemma fold_eq_ffff s : 0 < s -> s mod 65535 = 0 -> fold s = 65535.
Proof.
  intros. rewrite (fold_congr s 65535); try done; try lia.
Qed.

Lemma fold_add a b : 0 <= a -> 0 <= b -> fold (fold a + fold b) = fold (a + b).
Proof.
  intros Ha Hb. pose proof (fold_bound a Ha). pose proof (fold_bound b Hb).
  apply fold_congr; try lia.
  - pose proof (fold_zero a Ha). pose proof (fold_zero b Hb). lia.
  - rewrite Zplus_mod, !fold_mod, <- Zplus_mod by done. done.
Qed.

(** ** Sums of words *)

Lemma word_of_bytes a b : byte_ok a -> byte_ok b -> Z.lor (Z.shiftl a 8) b = a * 256 + b.
Proof. unfold byte_ok; intros. rewrite Z.shiftl_mul_pow2 by lia. apply (lor_add a b 8); lia. Qed.

Lemma word_sum_cons a b l :
  byte_ok a -> byte_ok b -> word_sum (a :: b :: l) = a * 256 + b + word_sum l.
Proof. intros; cbn [word_sum]. rewrite word_of_bytes by done. lia. Qed.

(** Induction two bytes at a time. *)
Lemma pair_ind (P : list Z -> Prop) :
  P [] -> (forall a, P [a]) -> (forall a b l, P l -> P (a :: b :: l)) -> forall l, P l.
Proof.
  intros H0 H1 H2 l.
  enough (P l /\ forall a, P (a :: l)) as [? _] by done.
  induction l as [|x l [IH1 IH2]]; split; auto.
Qed.

(** The u64 accumulator cannot overflow on any buffer under 2^48 bytes. *)
Lemma word_sum_bound l : bytes_ok l -> 0 <= word_sum l <= 65535 * ((zlen l + 1) / 2).
Proof.
  induction l as [|a|a b l IH] using pair_ind; intros Hl.
  - done.
  - inversion_clear Hl. unfold byte_ok in *. cbn [word_sum].
    rewrite Z.shiftl_mul_pow2 by lia. change ((zlen [a] + 1) / 2) with 1. lia.
  - inversion_clear Hl as [|?? Ha Hr]. inversion_clear Hr as [|?? Hb Hr'].
    rewrite word_sum_cons by done. specialize (IH Hr'). unfold byte_ok in *.
    rewrite !zlen_cons. replace (zlen l + 1 + 1 + 1) with (zlen l + 1 + 1 * 2) by lia.
    rewrite Z.div_add by lia. lia.
Qed.

Lemma word_sum_nonneg l : bytes_ok l -> 0 <= word_sum l.
Proof. intros H. pose proof (word_sum_bound l H). lia. Qed.

Lemma word_sum_no_overflow l : bytes_ok l -> zlen l < 2 ^ 48 -> word_sum l < 2 ^ 64.
Proof.
  intros H Hl. pose proof (word_sum_bound l H).
  assert ((zlen l + 1) / 2 <= 2 ^ 47) by (apply Z.div_le_upper_bound; lia). lia.
Qed.

Lemma word_sum_app l k :
  Z.even (zlen l) = true -> word_sum (l ++ k) = word_sum l + word_sum k.
Proof.
  induction l as [|a|a b l IH] using pair_ind; intros He.
  - cbn. lia.
  - rewrite zlen_cons, zlen_nil in He. discriminate.
  - cbn [word_sum app]. rewrite IH; [lia|].
    rewrite !zlen_cons, <- Z.add_assoc in He. rewrite Z.even_add in He.
    destruct (Z.even (zlen l)); done.
Qed.

(** A zero sum means every byte is zero. *)
Lemma word_sum_zero l : bytes_ok l -> word_sum l = 0 <-> Forall (eq 0) l.
Proof.
  induction l as [|a|a b l IH] using pair_ind; intros Hl.
  - cbn. split; auto.
  - inversion_clear Hl. unfold byte_ok in *. cbn [word_sum].
    rewrite Z.shiftl_mul_pow2 by lia. rewrite Forall_singleton. lia.
  - inversion_clear Hl as [|?? Ha Hr]. inversion_clear Hr as [|?? Hb Hr'].
    rewrite word_sum_cons, !Forall_cons_iff by done. specialize (IH Hr').
    pose proof (word_sum_nonneg l Hr'). unfold byte_ok in *. rewrite <- IH. lia.
Qed.

Lemma word_sum_be16 x k : 0 <= x < 65536 -> word_sum (be16 x ++ k) = x + word_sum k.
Proof.
  intros Hx. pose proof (bytes_ok_be16 x Hx) as Hb. unfold be16 in *.
  inversion_clear Hb as [|?? Ha Hr]. inversion_clear Hr as [|?? Hr' _].
  cbn [app]. rewrite word_sum_cons by done.
  pose proof (of_be16_be16 x). unfold of_be16 in *. lia.
Qed.

(** The [~m] terms: 65535 per word, less the words. *)
Lemma ones_complement_words_spec l :
  bytes_ok l -> ones_complement_words l = 65535 * ((zlen l + 1) / 2) - word_sum l.
Proof.
  induction l as [|a|a b l IH] using pair_ind; intros Hl.
  - done.
  - cbn [ones_complement_words word_sum]. rewrite zlen_cons, zlen_nil. unfold not16. done.
  - inversion_clear Hl as [|?? Ha Hr]. inversion_clear Hr as [|?? Hb Hr'].
    cbn [ones_complement_words word_sum]. rewrite IH by done.
    rewrite !zlen_cons. replace (zlen l + 1 + 1 + 1) with (zlen l + 1 + 1 * 2) by lia.
    rewrite Z.div_add by lia. unfold not16. lia.
Qed.

Lemma checksum_bound l : bytes_ok l -> 0 <= checksum l <= 65535.
Proof.
  intros H. unfold checksum, not16.
  pose proof (fold_bound (word_sum l) (word_sum_nonneg l H)). lia.
Qed.

Lemma checksum_eq_0 l : bytes_ok l -> checksum l = 0 <-> fold (word_sum l) = 65535.
Proof. intros H. unfold checksum, not16. lia. Qed.

(** A region verifies when its words sum to all ones. *)
Lemma verifies_iff l :
  bytes_ok l -> checksum l = 0 <-> 0 < word_sum l /\ word_sum l mod 65535 = 0.
Proof.
  intros H. pose proof (word_sum_nonneg l H) as Hs. rewrite checksum_eq_0 by done.
  rewrite fold_spec by done. case_if; [lia|].
  split; intros Hm; [|destruct Hm as [Hp Hm]].
  - split; [lia|]. replace (word_sum l) with (word_sum l - 1 + 1) by lia.
    rewrite Zplus_mod. replace ((word_sum l - 1) mod 65535) with 65534 by lia. done.
  - rewrite Zminus_mod, Hm. done.
Qed.

(** Rewriting an even-sized part at an even offset changes the sum by the
    difference of the parts. *)
Lemma word_sum_splice l a x :
  0 <= a -> Z.even a = true -> Z.even (zlen x) = true -> a + zlen x <= zlen l ->
  word_sum (splice l a x) = word_sum l - word_sum (slice l a (a + zlen x)) + word_sum x.
Proof.
  intros Ha He Hx Hl. pose proof (zlen_nonneg x).
  assert (zlen (ztake a l) = a) as H1 by (rewrite zlen_ztake; lia).
  assert (zlen (slice l a (a + zlen x)) = zlen x) as H2 by (rewrite zlen_slice; lia).
  rewrite <- (slice_decompose l a (a + zlen x)) at 2 by lia. unfold splice.
  rewrite !word_sum_app by (rewrite ?H1, ?H2; done). lia.
Qed.

Lemma word_sum_pos l : bytes_ok l -> l.[0] <> 0 -> 0 < word_sum l.
Proof.
  intros Hl H0. pose proof (word_sum_nonneg l Hl).
  destruct (decide (word_sum l = 0)) as [E|]; [|lia].
  apply word_sum_zero in E; [|done]. destruct l as [|b l]; [done|].
  inversion_clear E. subst. done.
Qed.

(** ** Reference: RFC 1071 end-around carry *)

(** One's-complement addition of 16-bit values, the carry added back at
    once. *)
Definition oc_add (a b : Z) : Z := let s := a + b in if 65535 <? s then s - 65535 else s.

Fixpoint words (data : list Z) : list Z :=
  match data with
  | a :: b :: rest => of_be16 a b :: words rest
  | [a] => [of_be16 a 0]
  | [] => []
  end.

Definition rfc1071_sum (data : list Z) : Z := foldl oc_add 0 (words data).

Lemma oc_add_fold a b : 0 <= a <= 65535 -> 0 <= b <= 65535 -> oc_add a b = fold (a + b).
Proof.
  intros. unfold oc_add. rewrite fold_spec by lia. repeat case_if; try lia.
  - replace (a + b - 1) with (a + b - 65536 + 1 * 65535) by lia.
    rewrite Z.mod_add, Z.mod_small by lia. lia.
  - rewrite Z.mod_small by lia. lia.
Qed.

Lemma fold_small s : 0 <= s <= 65535 -> fold s = s.
Proof.
  intros. rewrite fold_spec by lia. case_if; [lia|]. rewrite Z.mod_small by lia. lia.
Qed.

Lemma foldl_oc_add l s : bytes_ok l -> 0 <= s ->
  foldl oc_add (fold s) (words l) = fold (s + word_sum l).
Proof.
  revert s. induction l as [|a|a b l IH] using pair_ind; intros s Hl Hs.
  - cbn. f_equal; lia.
  - inversion_clear Hl as [|?? Ha _]. pose proof (fold_bound s Hs). unfold byte_ok in Ha.
    cbn [words foldl word_sum]. unfold of_be16. rewrite oc_add_fold by lia.
    rewrite Z.shiftl_mul_pow2 by lia. change (2 ^ 8) with 256.
    rewrite <- (fold_small (a * 256 + 0)), fold_add by lia. f_equal; lia.
  - inversion_clear Hl as [|?? Ha Hr]. inversion_clear Hr as [|?? Hb Hr'].
    rewrite word_sum_cons by done. cbn [words foldl].
    pose proof (fold_bound s Hs). pose proof (of_be16_bound a b Ha Hb).
    rewrite oc_add_fold by lia. rewrite <- (fold_small (of_be16 a b)), fold_add by lia.
    rewrite IH by (done || lia). unfold of_be16. f_equal; lia.
Qed.

(** ** Properties *)

(** C23: The deferred-carry checksum of checksum.rs is the RFC 1071 checksum:
    the complement of the one's-complement sum of the buffer's 16-bit words,
    taken with an end-around carry at every addition. *)
Theorem checksum_is_rfc1071 (data : list Z) :
  bytes_ok data -> checksum data = not16 (rfc1071_sum data).
Proof.
  intros H. unfold checksum, rfc1071_sum. f_equal.
  rewrite <- (fold_small 0), foldl_oc_add by (done || lia). done.
Qed.

Lemma checksum_is_rfc1071_witness :
  checksum [0x00; 0x01; 0xf2; 0x03; 0xf4; 0xf5; 0xf6; 0xf7] = 0x220d /\
  checksum [0x00; 0x01; 0xf2] = not16 (rfc1071_sum [0x00; 0x01; 0xf2]).
Proof.
  split; [reflexivity|]. apply checksum_is_rfc1071. repeat constructor; lia.
Defined.

Lemma stored_checksum_verifies (a b : list Z) :
  bytes_ok a -> bytes_ok b -> Z.even (zlen a) = true ->
  checksum (a ++ be16 (checksum (a ++ [0; 0] ++ b)) ++ b) = 0.
Proof.
  intros Ha Hb He.
  assert (bytes_ok (a ++ [0; 0] ++ b)) as H0 by bok.
  pose proof (checksum_bound _ H0) as Hc. set (c := checksum (a ++ [0; 0] ++ b)) in *.
  assert (bytes_ok (a ++ be16 c ++ b)) by bok.
  rewrite verifies_iff by done. rewrite word_sum_app, word_sum_be16 by (done || lia).
  assert (c = 65535 - fold (word_sum a + word_sum b)) as Ec.
  { unfold c, checksum, not16. rewrite word_sum_app by done. done. }
  pose proof (word_sum_nonneg a Ha). pose proof (word_sum_nonneg b Hb).
  pose proof (fold_bound (word_sum a + word_sum b) ltac:(lia)).
  pose proof (fold_zero (word_sum a + word_sum b) ltac:(lia)).
  split; [lia|].
  replace (word_sum a + (c + word_sum b))
    with (word_sum a + word_sum b - fold (word_sum a + word_sum b) + 1 * 65535) by lia.
  rewrite Z.mod_add, Zminus_mod, fold_mod, Z.sub_diag by lia. done.
Qed.

(** The same for a field overwritten in place. *)
Lemma splice_checksum_verifies l a :
  bytes_ok l -> 0 <= a -> a + 2 <= zlen l -> Z.even a = true ->
  checksum (splice l a (be16 (checksum (splice l a [0; 0])))) = 0.
Proof.
  intros Hl Ha Hal He.
  assert (zlen (ztake a l) = a) as Hz by (rewrite zlen_ztake; lia).
  apply (stored_checksum_verifies (ztake a l) (zdrop (a + 2) l)); [bok|bok|].
  rewrite Hz. done.
Qed.

(** Storing the checksum of a region (computed with its field zero) in the
    field, at any even offset, makes the region verify: it then sums to all
    ones, so its own checksum is zero. *)
Theorem checksum_field_verifies (a b : list Z) :
  bytes_ok a -> bytes_ok b -> Z.even (zlen a) = true ->
  checksum (a ++ be16 (checksum (a ++ [0; 0] ++ b)) ++ b) = 0.
Proof. apply stored_checksum_verifies. Qed.

Lemma checksum_field_verifies_witness :
  checksum ([0x45; 0; 0; 20] ++ be16 (checksum ([0x45; 0; 0; 20] ++ [0; 0] ++ [10])) ++ [10]) = 0.
Proof. apply checksum_field_verifies; [repeat constructor; lia..|reflexivity]. Defined.

(** The congruence behind every incremental patch. *)
Lemma incremental_update_mod c old new :
  bytes_ok old -> bytes_ok new -> 0 <= c <= 65535 ->
  0 <= incremental_update c old new <= 65535 /\
  (incremental_update c old new + word_sum new) mod 65535 = (c + word_sum old) mod 65535.
Proof.
  intros Ho Hn Hc. unfold incremental_update. rewrite ones_complement_words_spec by done.
  pose proof (word_sum_bound old Ho). pose proof (word_sum_nonneg new Hn).
  set (n := (zlen old + 1) / 2) in *. set (s := not16 c + (65535 * n - word_sum old) + word_sum new).
  assert (0 <= s) by (unfold s, not16; lia).
  pose proof (fold_bound s ltac:(done)). unfold not16 at 1 2 3. split; [lia|].
  replace (65535 - fold s + word_sum new) with (word_sum new - fold s + 1 * 65535) by lia.
  rewrite Z.mod_add, Zminus_mod, fold_mod, <- Zminus_mod by lia.
  unfold s, not16.
  replace (word_sum new - (65535 - c + (65535 * n - word_sum old) + word_sum new))
    with (c + word_sum old + (-1 - n) * 65535) by lia.
  rewrite Z.mod_add by lia. done.
Qed.

(** A region that verifies still verifies once part of it is rewritten and
    its checksum patched, [rest] being the sum of everything else in it. *)
Lemma incremental_update_verifies c old new rest :
  bytes_ok old -> bytes_ok new -> 0 <= c <= 65535 ->
  (c + word_sum old + rest) mod 65535 = 0 ->
  (incremental_update c old new + word_sum new + rest) mod 65535 = 0.
Proof.
  intros Ho Hn Hc H. destruct (incremental_update_mod c old new Ho Hn Hc) as [_ Hm].
  rewrite Zplus_mod, Hm, <- Zplus_mod. done.
Qed.

(** C24: RFC 1624 equation 3 as checksum.rs applies it: for a rewrite at an even
    offset that keeps the length, patching the old checksum gives exactly the
    checksum of the rewritten buffer, unless the rewritten buffer is all
    zeros (the one value with two one's-complement forms). *)
Theorem incremental_update_correct (pre old new post : list Z) :
  bytes_ok pre -> bytes_ok old -> bytes_ok new -> bytes_ok post ->
  Z.even (zlen pre) = true -> zlen old = zlen new ->
  (Z.even (zlen old) = true \/ post = []) ->
  ~ Forall (eq 0) (pre ++ new ++ post) ->
  incremental_update (checksum (pre ++ old ++ post)) old new = checksum (pre ++ new ++ post).
Proof.
  intros Hpre Ho Hn Hpost He Hlen Hpost' Hnz.
  assert (bytes_ok (pre ++ old ++ post) /\ bytes_ok (pre ++ new ++ post)) as [H1 H2] by (split; bok).
  rewrite <- word_sum_zero in Hnz by done.
  assert (forall x, Z.even (zlen x) = true \/ post = [] ->
    word_sum (pre ++ x ++ post) = word_sum pre + word_sum x + word_sum post) as Hs.
  { intros x Hx. rewrite word_sum_app by done. destruct Hx as [Hx| ->].
    - rewrite word_sum_app by done. lia.
    - rewrite app_nil_r. cbn. lia. }
  rewrite Hs in Hnz by (rewrite <- Hlen; done).
  unfold incremental_update, checksum. f_equal. rewrite !Hs by (rewrite <- ?Hlen; done).
  pose proof (word_sum_nonneg pre Hpre). pose proof (word_sum_nonneg post Hpost).
  pose proof (word_sum_nonneg old Ho). pose proof (word_sum_nonneg new Hn).
  set (S := word_sum pre + word_sum old + word_sum post) in *.
  pose proof (fold_bound S ltac:(lia)). pose proof (fold_zero S ltac:(lia)).
  rewrite ones_complement_words_spec by done.
  pose proof (word_sum_bound old Ho) as Hwo. pose proof (word_sum_bound new Hn) as Hwn.
  rewrite <- Hlen in Hwn.
  set (n := (zlen old + 1) / 2) in *.
  replace (not16 (not16 (fold S))) with (fold S) by (unfold not16; lia).
  apply fold_congr; [lia|lia|lia|].
  replace (fold S + (65535 * n - word_sum old) + word_sum new)
    with (fold S + (word_sum new - word_sum old) + n * 65535) by lia.
  rewrite Z.mod_add, Zplus_mod, fold_mod, <- Zplus_mod by lia. f_equal; lia.
Qed.

Lemma incremental_update_correct_witness :
  incremental_update (checksum ([0x45; 0; 0; 0x14] ++ [0xde; 0xad] ++ [0; 0])) [0xde; 0xad] [0xbe; 0xef]
  = checksum ([0x45; 0; 0; 0x14] ++ [0xbe; 0xef] ++ [0; 0]).
Proof.
  apply incremental_update_correct; try (repeat constructor; lia); try reflexivity.
  intros H. inversion H; lia.
Defined.

(** Patching a UDP checksum: a datagram without a checksum keeps none; one
    with a checksum never ends up with zero (which would mean none), and a
    datagram that verified before the rewrite verifies after it. *)
Theorem incremental_update_udp_correct (c rest : Z) (old new : list Z) :
  bytes_ok old -> bytes_ok new -> 0 <= c <= 65535 -> 0 <= rest ->
  let c' := incremental_update_udp c old new in
  (c = 0 -> c' = 0) /\
  (c <> 0 -> 0 < c' <= 65535 /\
     (fold (c + word_sum old + rest) = 0xFFFF -> fold (c' + word_sum new + rest) = 0xFFFF)).
Proof.
  intros Ho Hn Hc Hr c'. unfold c', incremental_update_udp.
  split; intros Hz; [rewrite Hz; done|].
  replace (c =? 0) with false by (symmetry; apply Z.eqb_neq; done).
  destruct (incremental_update_mod c old new Ho Hn Hc) as [Hb _].
  pose proof (incremental_update_verifies c old new rest Ho Hn Hc) as Hv.
  pose proof (word_sum_nonneg old Ho). pose proof (word_sum_nonneg new Hn).
  split; [case_if; lia|]. intros Hf.
  assert ((c + word_sum old + rest) mod 65535 = 0) as Hm
    by (rewrite <- fold_mod, Hf by lia; done).
  specialize (Hv Hm). case_if; apply fold_eq_ffff; try lia.
  rewrite <- Hv, Heqb. replace (65535 + word_sum new + rest)
    with (0 + word_sum new + rest + 1 * 65535) by lia.
  apply Z.mod_add; lia.
Qed.

Lemma incremental_update_udp_correct_witness :
  incremental_update_udp 0 [0; 1] [0; 2] = 0 /\
  fold (0xFFFF + word_sum [0; 0] + 0) = 0xFFFF /\
  fold (incremental_update_udp 0xFFFF [0; 0] [0; 0] + word_sum [0; 0] + 0) = 0xFFFF.
Proof.
  split; [apply (incremental_update_udp_correct 0 0); try reflexivity; try lia;
          repeat constructor; lia|].
  split; [reflexivity|].
  apply (incremental_update_udp_correct 0xFFFF 0 [0; 0] [0; 0]); try reflexivity; try lia;
    try (repeat constructor; lia).
Defined.

(** ** Transport checksums *)

Lemma bytes_ok_pseudo_header proto src dst n ph :
  byte_ok proto -> 0 <= n < 65536 -> pseudo_header proto src dst n = Some ph -> bytes_ok ph.
Proof.
  unfold pseudo_header. destruct src, dst; intros Hp Hn H'; try discriminate H';
    apply Some_inj in H'; rewrite <- H'; bok.
Qed.

(** The raw transport sum is the folded sum of pseudo-header and PDU. *)
Lemma raw_transport_sum_spec proto src dst pdu ph :
  byte_ok proto -> bytes_ok pdu ->
  pseudo_header proto src dst (Z.min (zlen pdu) 65535) = Some ph ->
  raw_transport_sum proto src dst pdu = fold (word_sum ph + word_sum pdu).
Proof.
  intros Hp Hpdu Hph. unfold raw_transport_sum, combine_checksums, pseudo_header_checksum.
  rewrite Hph. unfold checksum.
  replace (not16 (not16 (fold (word_sum ph)))) with (fold (word_sum ph)) by (unfold not16; lia).
  replace (not16 (not16 (fold (word_sum pdu)))) with (fold (word_sum pdu)) by (unfold not16; lia).
  pose proof (zlen_nonneg pdu).
  apply fold_add; apply word_sum_nonneg; [|done].
  eapply bytes_ok_pseudo_header; [..|exact Hph]; [done|lia].
Qed.

(** The transport checksum, stored in its field at an even offset of the PDU,
    makes pseudo-header and PDU sum to all ones; so does 0xFFFF in place of a
    zero checksum (the UDP rule). *)
Lemma transport_checksum_verifies proto src dst a b ph :
  byte_ok proto -> bytes_ok a -> bytes_ok b -> Z.even (zlen a) = true ->
  pseudo_header proto src dst (Z.min (zlen (a ++ [0; 0] ++ b)) 65535) = Some ph ->
  let c := transport_checksum proto src dst (a ++ [0; 0] ++ b) in
  0 <= c <= 65535 /\
  raw_transport_sum proto src dst (a ++ be16 c ++ b) = 0xFFFF /\
  (c = 0 -> raw_transport_sum proto src dst (a ++ be16 0xFFFF ++ b) = 0xFFFF).
Proof.
  intros Hp Ha Hb He Hph c.
  assert (bytes_ok (a ++ [0; 0] ++ b)) as H0 by bok.
  assert (forall x, zlen (a ++ be16 x ++ b) = zlen (a ++ [0; 0] ++ b)) as Hlen.
  { intros; autorewrite with zlen. lia. }
  assert (c = 65535 - fold (word_sum ph + (word_sum a + word_sum b))) as Ec.
  { unfold c, transport_checksum, not16. rewrite (raw_transport_sum_spec _ _ _ _ ph) by done.
    rewrite word_sum_app by done. done. }
  assert (0 <= word_sum ph).
  { apply word_sum_nonneg. eapply bytes_ok_pseudo_header; [..|exact Hph]; [done|].
    pose proof (zlen_nonneg (a ++ [0; 0] ++ b)). lia. }
  pose proof (word_sum_nonneg a Ha). pose proof (word_sum_nonneg b Hb).
  set (s := word_sum ph + (word_sum a + word_sum b)) in *.
  pose proof (fold_bound s ltac:(lia)). pose proof (fold_zero s ltac:(lia)).
  assert (forall x, 0 <= x <= 65535 -> raw_transport_sum proto src dst (a ++ be16 x ++ b) = fold (s + x)) as Hr.
  { intros x Hx. rewrite (raw_transport_sum_spec _ _ _ _ ph); [|done|bok|rewrite Hlen; done].
    rewrite word_sum_app, word_sum_be16 by (done || lia). f_equal. unfold s; lia. }
  split; [lia|]. split; [|intros Hc0]; rewrite Hr by lia; apply fold_eq_ffff; try lia.
  - replace (s + c) with (s - fold s + 1 * 65535) by lia.
    rewrite Z.mod_add, Zminus_mod, fold_mod, Z.sub_diag by lia. done.
  - replace (s + 65535) with (s - fold s + 2 * 65535) by lia.
    rewrite Z.mod_add, Zminus_mod, fold_mod, Z.sub_diag by lia. done.
Qed.
