(* ===== verification/Packet.v ===== *)
(** * IP packets ([src/src/packet.rs])

    [Packet] is a transparent newtype over the byte slice, so every accessor
    is a function of a [list Z] and every mutator returns the new buffer.  A
    mutator the source makes a no-op on a short buffer returns it unchanged.
    The extension-header walk indexes the buffer at offsets taken from it;
    there an out-of-range index is [None] (the panic), and
    [skip_ipv6_ext_no_panic] shows it never happens. *)

From S2P Require Import Prelude Ip Checksum.

(** ** Extension headers *)

Definition HOPOPT : Z := 0.
Definition ROUTING : Z := 43.
Definition FRAGMENT : Z := 44.
Definition ESP : Z := 50.
Definition AH : Z := 51.
Definition NO_NEXT : Z := 59.
Definition DEST_OPTS : Z := 60.
Definition MOBILITY : Z := 135.
Definition HIP : Z := 139.
Definition SHIM6 : Z := 140.

Definition MAX_EXT_HEADERS : nat := 16.

(** Keep the sixteen-fold loops folded in proofs. *)
#[global] Opaque MAX_EXT_HEADERS.

Definition is_ipv6_ext_header (p : Z) : bool :=
  (p =? HOPOPT) || (p =? ROUTING) || (p =? FRAGMENT) || (p =? AH) || (p =? DEST_OPTS)
  || (p =? MOBILITY) || (p =? HIP) || (p =? SHIM6).

(** The Type-Length-Option headers of the walk, lengths in 8-octet units. *)
Definition is_tlv_header (p : Z) : bool :=
  (p =? HOPOPT) || (p =? ROUTING) || (p =? DEST_OPTS) || (p =? MOBILITY) || (p =? HIP)
  || (p =? SHIM6).

(** The [for _ in 0..MAX_EXT_HEADERS] loop of [skip_ipv6_ext]; [None] is an
    index out of bounds. *)
Fixpoint skip_ext_loop (n : nat) (buf : list Z) (next_header offset : Z) : option (Z * Z) :=
  match n with
  | O => Some (next_header, Z.min offset (zlen buf))
  | S n =>
      let go nh off :=
        if zlen buf <? off then Some (nh, zlen buf) else skip_ext_loop n buf nh off in
      if is_tlv_header next_header then
        if zlen buf <? offset + 2 then Some (next_header, offset)
        else nh ← get buf offset;
             l ← get buf (offset + 1);
             go nh (offset + (l + 1) * 8)
      else if next_header =? FRAGMENT then
        if zlen buf <? offset + 8 then Some (next_header, offset)
        else b2 ← get buf (offset + 2);
             b3 ← get buf (offset + 3);
             if negb (Z.land (of_be16 b2 b3) 0xFFF8 =? 0) then Some (FRAGMENT, offset)
             else nh ← get buf offset; go nh (offset + 8)
      else if next_header =? AH then
        if zlen buf <? offset + 2 then Some (next_header, offset)
        else nh ← get buf offset;
             l ← get buf (offset + 1);
             go nh (offset + (l + 2) * 4)
      else Some (next_header, offset)
  end.

Definition skip_ipv6_ext (buf : list Z) (next_header offset : Z) : option (Z * Z) :=
  skip_ext_loop MAX_EXT_HEADERS buf next_header offset.

(** ** ECN *)

Definition ip_ecn (pkt : list Z) : Z :=
  match get pkt 0, get pkt 1 with
  | Some b0, Some b =>
      if Z.shiftr b0 4 =? 4 then Z.land b 3
      else if Z.shiftr b0 4 =? 6 then Z.land (Z.shiftr b 4) 3
      else 0
  | _, _ => 0
  end.

Definition reassembled_ecn (seen : Z) : option (option Z) :=
  if negb (Z.land seen 1 =? 0) && negb (seen =? 1) then None
  else Some (if negb (Z.land seen 8 =? 0) then Some 3 else None).

Definition set_ip_ecn (pkt : list Z) (ecn : Z) : list Z :=
  let ecn := Z.land ecn 3 in
  match get pkt 0 with
  | Some b0 =>
      if (Z.shiftr b0 4 =? 4) && (20 <=? zlen pkt) then
        let old := [pkt.[0]; pkt.[1]] in
        let pkt1 := set_byte pkt 1 (Z.lor (Z.land pkt.[1] 0xFC) ecn) in
        let sum := of_be16 pkt1.[10] pkt1.[11] in
        splice pkt1 10 (be16 (incremental_update sum old [pkt1.[0]; pkt1.[1]]))
      else if (Z.shiftr b0 4 =? 6) && (2 <=? zlen pkt) then
        set_byte pkt 1 (Z.lor (Z.land pkt.[1] 0xCF) (Z.shiftl ecn 4))
      else pkt
  | None => pkt
  end.

(** ** IPv4 accessors *)

Definition version (p : list Z) : Z := if zlen p =? 0 then 0 else Z.shiftr p.[0] 4.

Definition ipv4_header_len (p : list Z) : Z :=
  if zlen p =? 0 then 0 else Z.land p.[0] 0x0F * 4.

Definition pkt_is_valid (p : list Z) : bool :=
  if version p =? 4 then
    let hl := ipv4_header_len p in
    (20 <=? zlen p) && (20 <=? hl) && (hl <=? zlen p)
  else if version p =? 6 then 40 <=? zlen p
  else false.

Definition ipv4_dscp (p : list Z) : Z := if zlen p <? 2 then 0 else Z.shiftr p.[1] 2.
Definition ipv4_ecn (p : list Z) : Z := if zlen p <? 2 then 0 else Z.land p.[1] 0x03.
Definition ipv4_total_len (p : list Z) : Z :=
  if zlen p <? 4 then 0 else of_be16 p.[2] p.[3].
Definition ipv4_id (p : list Z) : Z := if zlen p <? 6 then 0 else of_be16 p.[4] p.[5].
Definition ipv4_flags (p : list Z) : Z := if zlen p <? 7 then 0 else Z.shiftr p.[6] 5.
Definition ipv4_dont_fragment (p : list Z) : bool :=
  (7 <=? zlen p) && negb (Z.land p.[6] 0x40 =? 0).
Definition ipv4_more_fragments (p : list Z) : bool :=
  (7 <=? zlen p) && negb (Z.land p.[6] 0x20 =? 0).
Definition ipv4_fragment_offset (p : list Z) : Z :=
  if zlen p <? 8 then 0 else Z.land (of_be16 p.[6] p.[7]) 0x1FFF * 8.
Definition ipv4_is_fragment (p : list Z) : bool :=
  ipv4_more_fragments p || negb (ipv4_fragment_offset p =? 0).
Definition ipv4_ttl (p : list Z) : Z := if zlen p <? 9 then 0 else p.[8].
Definition ipv4_protocol (p : list Z) : Z := if zlen p <? 10 then 0 else p.[9].
Definition ipv4_checksum (p : list Z) : Z := if zlen p <? 12 then 0 else of_be16 p.[10] p.[11].
Definition ipv4_src_addr (p : list Z) : option Z :=
  if zlen p <? 16 then None else Some (of_be_bytes (slice p 12 16)).
Definition ipv4_dst_addr (p : list Z) : option Z :=
  if zlen p <? 20 then None else Some (of_be_bytes (slice p 16 20)).

Definition ipv4_options (p : list Z) : list Z :=
  let hl := ipv4_header_len p in
  if negb (version p =? 4) || (hl <=? 20) || (zlen p <? hl) then [] else slice p 20 hl.

Definition ipv4_payload (p : list Z) : list Z :=
  let hl := ipv4_header_len p in
  let tl := ipv4_total_len p in
  if (hl <? 20) || (tl <? hl) || (zlen p <? tl) then [] else slice p hl tl.

(** ** IPv4 mutators *)

Definition set_ipv4_dscp (p : list Z) (dscp : Z) : list Z :=
  if zlen p <? 2 then p
  else set_byte p 1 (Z.lor (u8 (Z.shiftl dscp 2)) (Z.land p.[1] 0x03)).
Definition set_ipv4_ecn (p : list Z) (ecn : Z) : list Z :=
  if zlen p <? 2 then p
  else set_byte p 1 (Z.lor (Z.land p.[1] 0xFC) (Z.land ecn 0x03)).
Definition set_ipv4_total_len (p : list Z) (len : Z) : list Z :=
  if zlen p <? 4 then p else splice p 2 (be16 len).
Definition set_ipv4_id (p : list Z) (id : Z) : list Z :=
  if zlen p <? 6 then p else splice p 4 (be16 id).
Definition set_ipv4_dont_fragment (p : list Z) (on : bool) : list Z :=
  if zlen p <? 7 then p
  else set_byte p 6 (if on then Z.lor p.[6] 0x40 else Z.land p.[6] (not8 0x40)).
Definition set_ipv4_more_fragments (p : list Z) (on : bool) : list Z :=
  if zlen p <? 7 then p
  else set_byte p 6 (if on then Z.lor p.[6] 0x20 else Z.land p.[6] (not8 0x20)).
Definition set_ipv4_fragment_offset (p : list Z) (bytes : Z) : list Z :=
  if zlen p <? 8 then p
  else let units := Z.land (u16 (bytes / 8)) 0x1FFF in
       let flags := Z.land (of_be16 p.[6] p.[7]) 0xE000 in
       splice p 6 (be16 (Z.lor flags units)).
Definition set_ipv4_ttl (p : list Z) (ttl : Z) : list Z :=
  if zlen p <? 9 then p else set_byte p 8 ttl.
Definition set_ipv4_protocol (p : list Z) (proto : Z) : list Z :=
  if zlen p <? 10 then p else set_byte p 9 proto.
Definition set_ipv4_checksum (p : list Z) (sum : Z) : list Z :=
  if zlen p <? 12 then p else splice p 10 (be16 sum).
Definition set_ipv4_src_addr (p : list Z) (a : Z) : list Z :=
  if zlen p <? 16 then p else splice p 12 (octets (V4 a)).
Definition set_ipv4_dst_addr (p : list Z) (a : Z) : list Z :=
  if zlen p <? 20 then p else splice p 16 (octets (V4 a)).

(** ** IPv6 accessors and mutators *)

Definition ipv6_traffic_class (p : list Z) : Z :=
  if zlen p <? 2 then 0 else Z.lor (u8 (Z.shiftl (Z.land p.[0] 0x0F) 4)) (Z.shiftr p.[1] 4).
Definition ipv6_dscp (p : list Z) : Z := Z.shiftr (ipv6_traffic_class p) 2.
Definition ipv6_ecn (p : list Z) : Z := Z.land (ipv6_traffic_class p) 0x03.
Definition ipv6_flow_label (p : list Z) : Z :=
  if zlen p <? 4 then 0
  else Z.lor (Z.lor (Z.shiftl (Z.land p.[1] 0x0F) 16) (Z.shiftl p.[2] 8)) p.[3].
Definition ipv6_payload_len (p : list Z) : Z :=
  if zlen p <? 6 then 0 else of_be16 p.[4] p.[5].
Definition ipv6_next_header (p : list Z) : Z := if zlen p <? 7 then 0 else p.[6].
Definition ipv6_hop_limit (p : list Z) : Z := if zlen p <? 8 then 0 else p.[7].
Definition ipv6_src_addr (p : list Z) : option Z :=
  if zlen p <? 24 then None else Some (of_be_bytes (slice p 8 24)).
Definition ipv6_dst_addr (p : list Z) : option Z :=
  if zlen p <? 40 then None else Some (of_be_bytes (slice p 24 40)).

Definition ipv6_payload (p : list Z) : list Z :=
  if zlen p <? 40 then []
  else let e := 40 + ipv6_payload_len p in
       if zlen p <? e then [] else slice p 40 e.

(** [skip_ipv6_ext] never panics ([skip_ipv6_ext_no_panic]); the fallback
    pair is unreachable. *)
Definition ipv6_transport (p : list Z) : Z * Z :=
  if negb (version p =? 6) || (zlen p <? 40) then (0, 0)
  else default (0, 0) (skip_ipv6_ext p p.[6] 40).

Fixpoint is_fragment_loop (n : nat) (p : list Z) (nh off : Z) : bool :=
  match n with
  | O => false
  | S n =>
      let go nh off := if zlen p <? off then false else is_fragment_loop n p nh off in
      if nh =? FRAGMENT then true
      else if is_tlv_header nh then
        if zlen p <? off + 2 then false else go p.[off] (off + (p.[off + 1] + 1) * 8)
      else if nh =? AH then
        if zlen p <? off + 2 then false else go p.[off] (off + (p.[off + 1] + 2) * 4)
      else false
  end.

Definition ipv6_is_fragment (p : list Z) : bool :=
  if negb (version p =? 6) || (zlen p <? 40) then false
  else is_fragment_loop MAX_EXT_HEADERS p p.[6] 40.

Definition set_ipv6_traffic_class (p : list Z) (tc : Z) : list Z :=
  if zlen p <? 2 then p
  else let p1 := set_byte p 0 (Z.lor (Z.land p.[0] 0xF0) (Z.shiftr tc 4)) in
       set_byte p1 1 (Z.lor (u8 (Z.shiftl (Z.land tc 0x0F) 4)) (Z.land p1.[1] 0x0F)).
Definition set_ipv6_flow_label (p : list Z) (label : Z) : list Z :=
  if zlen p <? 4 then p
  else let p1 := set_byte p 1 (Z.lor (Z.land p.[1] 0xF0) (Z.land (u8 (Z.shiftr label 16)) 0x0F)) in
       set_byte (set_byte p1 2 (u8 (Z.shiftr label 8))) 3 (u8 label).
Definition set_ipv6_payload_len (p : list Z) (len : Z) : list Z :=
  if zlen p <? 6 then p else splice p 4 (be16 len).
Definition set_ipv6_next_header (p : list Z) (proto : Z) : list Z :=
  if zlen p <? 7 then p else set_byte p 6 proto.
Definition set_ipv6_hop_limit (p : list Z) (hl : Z) : list Z :=
  if zlen p <? 8 then p else set_byte p 7 hl.
Definition set_ipv6_src_addr (p : list Z) (a : Z) : list Z :=
  if zlen p <? 24 then p else splice p 8 (octets (V6 a)).
Definition set_ipv6_dst_addr (p : list Z) (a : Z) : list Z :=
  if zlen p <? 40 then p else splice p 24 (octets (V6 a)).

(** ** Version-independent accessors *)

Definition src_addr (p : list Z) : option IpAddr :=
  if version p =? 4 then V4 <$> ipv4_src_addr p
  else if version p =? 6 then V6 <$> ipv6_src_addr p
  else None.
Definition dst_addr (p : list Z) : option IpAddr :=
  if version p =? 4 then V4 <$> ipv4_dst_addr p
  else if version p =? 6 then V6 <$> ipv6_dst_addr p
  else None.
Definition set_src_addr (p : list Z) (a : IpAddr) : list Z :=
  match a with
  | V4 x => if version p =? 4 then set_ipv4_src_addr p x else p
  | V6 x => if version p =? 6 then set_ipv6_src_addr p x else p
  end.
Definition set_dst_addr (p : list Z) (a : IpAddr) : list Z :=
  match a with
  | V4 x => if version p =? 4 then set_ipv4_dst_addr p x else p
  | V6 x => if version p =? 6 then set_ipv6_dst_addr p x else p
  end.

Definition total_len (p : list Z) : Z :=
  if version p =? 4 then ipv4_total_len p
  else if version p =? 6 then 40 + ipv6_payload_len p
  else 0.

Definition transport_protocol (p : list Z) : Z :=
  if version p =? 4 then ipv4_protocol p
  else if version p =? 6 then (ipv6_transport p).1
  else 0.

Definition transport_offset (p : list Z) : Z :=
  if version p =? 4 then
    let hl := ipv4_header_len p in
    if hl <? 20 then zlen p else Z.min hl (zlen p)
  else if version p =? 6 then (ipv6_transport p).2
  else 0.

(** The range of [transport_payload] (and of its mutable counterpart) in the
    buffer; [None] is the empty slice of a malformed packet. *)
Definition payload_range (p : list Z) : option (Z * Z) :=
  if version p =? 4 then
    let hl := ipv4_header_len p in
    let tl := ipv4_total_len p in
    if (hl <? 20) || (tl <? hl) || (zlen p <? tl) then None else Some (hl, tl)
  else if version p =? 6 then
    let off := (ipv6_transport p).2 in
    let e := Z.min (40 + ipv6_payload_len p) (zlen p) in
    if e <=? off then None else Some (off, e)
  else None.

Definition transport_payload (p : list Z) : list Z :=
  match payload_range p with
  | Some (a, b) => slice p a b
  | None => []
  end.

Definition is_fragment (p : list Z) : bool :=
  if version p =? 4 then ipv4_is_fragment p
  else if version p =? 6 then ipv6_is_fragment p
  else false.

Definition hop_limit (p : list Z) : Z :=
  if version p =? 4 then ipv4_ttl p
  else if version p =? 6 then ipv6_hop_limit p
  else 0.

Definition set_hop_limit (p : list Z) (value : Z) : list Z :=
  if version p =? 4 then
    if zlen p <? 12 then p
    else let old := ipv4_ttl p in
         if old =? value then p
         else let proto := p.[9] in
              let p1 := set_ipv4_ttl p value in
              let sum := incremental_update (ipv4_checksum p1) [old; proto] [value; proto] in
              set_ipv4_checksum p1 sum
  else if version p =? 6 then set_ipv6_hop_limit p value
  else p.

(** The forwarded packet, or [None] if it has expired ([false] with the
    packet left alone). *)
Definition decrement_hop_limit (p : list Z) : option (list Z) :=
  let cur := hop_limit p in
  if cur <=? 1 then None else Some (set_hop_limit p (cur - 1)).

Definition is_broadcast (p : list Z) : bool :=
  if negb (version p =? 4) || (zlen p <? 20) then false
  else bool_decide (slice p 16 20 = [255; 255; 255; 255]).
Definition is_multicast (p : list Z) : bool :=
  if version p =? 4 then (20 <=? zlen p) && (Z.land p.[16] 0xF0 =? 0xE0)
  else if version p =? 6 then (40 <=? zlen p) && (p.[24] =? 0xFF)
  else false.

(** ** Checksums *)

Definition verify_ipv4_checksum (p : list Z) : bool :=
  if version p =? 4 then
    let hl := ipv4_header_len p in
    if (hl <? 20) || (zlen p <? hl) then false else checksum (ztake hl p) =? 0
  else version p =? 6.

Definition recompute_ipv4_checksum (p : list Z) : list Z :=
  if negb (version p =? 4) then p
  else let hl := ipv4_header_len p in
       if (hl <? 20) || (zlen p <? hl) then p
       else let p0 := set_ipv4_checksum p 0 in
            set_ipv4_checksum p0 (checksum (ztake hl p0)).

(** The Length field of a UDP header, if a datagram can have it. *)
Definition udp_len (udp : list Z) : option Z :=
  a ← get udp 4; b ← get udp 5;
  let len := of_be16 a b in
  if (8 <=? len) && (len <=? zlen udp) then Some len else None.

(** [addr_at] of [pseudo_header_dst]: the i-th address of a Routing header of
    [len] bytes at [off]. *)
Definition routing_addr_at (b : list Z) (off len i : Z) : option IpAddr :=
  let start := off + 8 + 16 * i in
  if off + len <? start + 16 then None
  else V6 ∘ of_be_bytes <$> get_range b start (start + 16).

Fixpoint pseudo_dst_loop (n : nat) (b : list Z) (dst : IpAddr) (nh off : Z) : IpAddr :=
  match n with
  | O => dst
  | S n =>
      if nh =? ROUTING then
        match get_range b off (off + 8) with
        | None => dst
        | Some h =>
            let len := (h.[1] + 1) * 8 in
            let rtype := h.[2] in
            let segments_left := h.[3] in
            if segments_left =? 0 then dst
            else let n := (len - 8) / 16 in
                 let last :=
                   if (rtype =? 0) && (0 <? n) then routing_addr_at b off len (n - 1)
                   else if (rtype =? 2) || (rtype =? 4) then routing_addr_at b off len 0
                   else None in
                 default dst last
        end
      else if is_tlv_header nh then
        match get b (off + 1) with
        | None => dst
        | Some l => pseudo_dst_loop n b dst b.[off] (off + (l + 1) * 8)
        end
      else if nh =? FRAGMENT then
        match get b off with
        | None => dst
        | Some nh => pseudo_dst_loop n b dst nh (off + 8)
        end
      else if nh =? AH then
        match get b (off + 1) with
        | None => dst
        | Some l => pseudo_dst_loop n b dst b.[off] (off + (l + 2) * 4)
        end
      else dst
  end.

Definition pseudo_header_dst (p : list Z) : option IpAddr :=
  dst ← dst_addr p;
  if negb (version p =? 6) || (zlen p <? 40) then Some dst
  else Some (pseudo_dst_loop MAX_EXT_HEADERS p dst p.[6] 40).

(** The [match proto] of [verify_transport_checksum], on the transport
    payload of a version [v] packet. *)
Definition verify_payload (proto v : Z) (src dst : IpAddr) (payload : list Z) : option bool :=
  if (proto =? TCP) && (20 <=? zlen payload) then
    Some (raw_transport_sum proto src dst payload =? 0xFFFF)
  else if (proto =? UDP) && (8 <=? zlen payload) then
    if bool_decide (slice payload 6 8 = [0; 0]) && (v =? 4) then None
    else match udp_len payload with
         | Some len => Some (raw_transport_sum proto src dst (ztake len payload) =? 0xFFFF)
         | None => Some false
         end
  else if (proto =? ICMPV6) && (4 <=? zlen payload) then
    Some (raw_transport_sum proto src dst payload =? 0xFFFF)
  else if (proto =? ICMP) && (4 <=? zlen payload) then Some (checksum payload =? 0)
  else None.

Definition verify_transport_checksum (p : list Z) : option bool :=
  let proto := transport_protocol p in
  src ← src_addr p;
  dst ← pseudo_header_dst p;
  if is_fragment p then None
  else verify_payload proto (version p) src dst (transport_payload p).

(** Offset of the checksum field within the transport header. *)
Definition checksum_field (proto : Z) : option Z :=
  if proto =? TCP then Some 16
  else if proto =? UDP then Some 6
  else if (proto =? ICMP) || (proto =? ICMPV6) then Some 2
  else None.

(** The new buffer and whether a checksum was written.  The source takes the
    payload slice again to store the sum; it is where it was
    ([payload_range_splice]). *)
Definition recompute_transport_checksum (p : list Z) : list Z * bool :=
  let proto := transport_protocol p in
  match src_addr p, pseudo_header_dst p with
  | Some src, Some dst =>
      if is_fragment p then (p, false)
      else match checksum_field proto, payload_range p with
           | Some field, Some (a, b) =>
               let payload := slice p a b in
               if zlen payload <? field + 2 then (p, false)
               else
                 match (if proto =? UDP then udp_len payload else Some (zlen payload)) with
                 | None => (p, false)
                 | Some len =>
                     let p0 := splice p (a + field) [0; 0] in
                     let pdu := ztake len (slice p0 a b) in
                     let sum := if proto =? ICMP then checksum pdu
                                else transport_checksum proto src dst pdu in
                     let sum := if (proto =? UDP) && (sum =? 0) then 0xFFFF else sum in
                     let a' := (default (a, b) (payload_range p0)).1 in
                     (splice p0 (a' + field) (be16 sum), true)
                 end
           | _, _ => (p, false)
           end
  | _, _ => (p, false)
  end.

Definition recompute_checksums (p : list Z) : list Z :=
  (recompute_transport_checksum (recompute_ipv4_checksum p)).1.

(** ** Five-tuples *)

Record FiveTuple := mkTuple {
  ft_src : IpAddr; ft_dst : IpAddr; ft_src_port : Z; ft_dst_port : Z; ft_protocol : Z }.

Definition five_tuple (p : list Z) : option FiveTuple :=
  src ← src_addr p;
  dst ← dst_addr p;
  let proto := transport_protocol p in
  let ports :=
    if is_fragment p then (0, 0)
    else let t := transport_payload p in
         if ((proto =? TCP) || (proto =? UDP)) && (4 <=? zlen t)
         then (of_be16 t.[0] t.[1], of_be16 t.[2] t.[3]) else (0, 0) in
  Some (mkTuple src dst ports.1 ports.2 proto).

(** ** The extension-header walk *)

Lemma get_byte (buf : list Z) i :
  0 <= i < zlen buf -> get buf i = Some buf.[i].
Proof.
  intros. unfold get, byte_at. replace (0 <=? i) with true by (symmetry; apply Z.leb_le; lia).
  destruct (lookup_lt_is_Some_2 buf (Z.to_nat i)) as [x Hx]; [unfold zlen in *; lia|].
  rewrite Hx. done.
Qed.

(** Every index of the walk is in bounds, and it ends inside the buffer. *)
Lemma skip_ext_loop_ok n buf nh off :
  bytes_ok buf -> 0 <= off <= zlen buf ->
  exists nh' off', skip_ext_loop n buf nh off = Some (nh', off') /\ off <= off' <= zlen buf.
Proof.
  intros Hb. revert nh off. induction n as [|n IH]; intros nh off Hoff; cbn [skip_ext_loop].
  { eexists _, _; split; [done|]. lia. }
  assert (forall x d, 0 <= d -> exists nh' off',
    (if zlen buf <? off + d then Some (x, zlen buf) else skip_ext_loop n buf x (off + d))
      = Some (nh', off') /\ off <= off' <= zlen buf) as Hgo.
  { intros x d Hd. case_if; [eexists _, _; split; [done|lia]|].
    destruct (IH x (off + d)) as (nh' & off' & -> & Hr); [lia|].
    eexists _, _; split; [done|lia]. }
  assert (forall i, byte_ok buf.[i]) as Hby by (intros; bok). unfold byte_ok in Hby.
  assert (exists nh' off', Some (nh, off) = Some (nh', off') /\ off <= off' <= zlen buf) as Hstop
    by (eexists _, _; split; [done|lia]).
  destruct (is_tlv_header nh); [|destruct (nh =? FRAGMENT); [|destruct (nh =? AH); [|done]]].
  - destruct (zlen buf <? off + 2) eqn:?; bool2prop; [done|].
    rewrite !get_byte by lia. apply Hgo. specialize (Hby (off + 1)). lia.
  - destruct (zlen buf <? off + 8) eqn:?; bool2prop; [done|].
    rewrite !get_byte by lia. cbn [mbind option_bind].
    destruct (negb _); [eexists _, _; split; [done|lia]|].
    destruct (IH buf.[off] (off + 8)) as (nh' & off' & -> & Hr); [lia|].
    eexists _, _; split; [done|lia].
  - destruct (zlen buf <? off + 2) eqn:?; bool2prop; [done|].
    rewrite !get_byte by lia. apply Hgo. specialize (Hby (off + 1)). lia.
Qed.

(** Walking the IPv6 extension headers of any buffer, from any offset inside
    it, never reads out of bounds (no panic), always returns, and reports an
    offset between the start and the end of the buffer. *)
Theorem skip_ipv6_ext_no_panic (buf : list Z) (nh off : Z) :
  bytes_ok buf -> 0 <= off <= zlen buf ->
  exists nh' off', skip_ipv6_ext buf nh off = Some (nh', off') /\ off <= off' <= zlen buf.
Proof. apply skip_ext_loop_ok. Qed.

Lemma skip_ipv6_ext_no_panic_witness :
  exists nh' off', skip_ipv6_ext [6; 0; 0; 0; 0; 0; 0; 0; 1] HOPOPT 0 = Some (nh', off')
                   /\ 0 <= off' <= 9.
Proof.
  destruct (skip_ipv6_ext_no_panic [6; 0; 0; 0; 0; 0; 0; 0; 1] HOPOPT 0) as (a & b & H1 & H2).
  - repeat constructor; lia.
  - vm_compute; split; discriminate.
  - exists a, b. split; [exact H1|exact H2].
Defined.

(** ** Header checksums *)

Lemma version_byte p q : (zlen p = 0 <-> zlen q = 0) -> p.[0] = q.[0] -> version p = version q.
Proof.
  intros Hz Hb. unfold version. rewrite Hb.
  destruct (zlen p =? 0) eqn:E1, (zlen q =? 0) eqn:E2; bool2prop; tauto.
Qed.

Lemma header_len_byte p q :
  (zlen p = 0 <-> zlen q = 0) -> p.[0] = q.[0] -> ipv4_header_len p = ipv4_header_len q.
Proof.
  intros Hz Hb. unfold ipv4_header_len. rewrite Hb.
  destruct (zlen p =? 0) eqn:E1, (zlen q =? 0) eqn:E2; bool2prop; tauto.
Qed.

Lemma ipv4_header_len_le p : ipv4_header_len p <= 60.
Proof.
  unfold ipv4_header_len. case_if; [lia|]. change 15 with (Z.ones 4).
  rewrite Z.land_ones by lia. pose proof (Z.mod_pos_bound p.[0] (2 ^ 4) ltac:(lia)). lia.
Qed.

Lemma version_nonzero p : version p = 4 \/ version p = 6 -> p.[0] <> 0.
Proof.
  unfold version. case_if; [lia|]. intros H H0. rewrite H0 in H. change (Z.shiftr 0 4) with 0 in H. lia.
Qed.

(** Rewriting an even part of a header that verifies, outside the checksum
    field, and patching the field keeps it verifying. *)
Lemma header_patch p hl a x :
  bytes_ok p -> bytes_ok x -> hl <= zlen p -> 12 <= hl ->
  0 <= a -> Z.even a = true -> Z.even (zlen x) = true ->
  (a + zlen x <= 10 \/ (12 <= a /\ a + zlen x <= hl)) ->
  (splice p a x).[0] <> 0 ->
  checksum (ztake hl p) = 0 ->
  let c := incremental_update (of_be16 p.[10] p.[11]) (slice p a (a + zlen x)) x in
  checksum (ztake hl (splice (splice p a x) 10 (be16 c))) = 0.
Proof.
  intros Hp Hx Hhl H12 Ha He Hex Hin Hnz Hc c. pose proof (zlen_nonneg x).
  assert (0 <= of_be16 p.[10] p.[11] <= 65535) as Hold.
  { pose proof (of_be16_bound p.[10] p.[11] ltac:(bok) ltac:(bok)). lia. }
  assert (bytes_ok (slice p a (a + zlen x))) as Ho by bok.
  destruct (incremental_update_mod (of_be16 p.[10] p.[11]) (slice p a (a + zlen x)) x Ho Hx Hold)
    as [Hcb _]. fold c in Hcb.
  assert (zlen (splice p a x) = zlen p) as Hl1 by (apply zlen_splice; lia).
  apply verifies_iff; [bok|]. apply verifies_iff in Hc; [|bok]. destruct Hc as [_ Hm].
  split.
  { apply word_sum_pos; [bok|]. rewrite byte_at_ztake by lia.
    rewrite byte_at_splice_out; [done|lia|rewrite zlen_be16, Hl1; lia|lia|lia]. }
  rewrite ztake_splice_in by (rewrite ?zlen_be16, ?Hl1; lia).
  rewrite word_sum_splice; rewrite ?zlen_be16; [|lia|done|done|rewrite zlen_ztake; lia].
  rewrite ztake_splice_in by lia.
  rewrite word_sum_splice by (done || rewrite ?zlen_ztake; lia).
  replace (slice (splice (ztake hl p) a x) 10 (10 + 2)) with (slice (ztake hl p) 10 (10 + 2)).
  2:{ symmetry. destruct Hin.
      - apply slice_splice_after; rewrite ?zlen_ztake; lia.
      - apply slice_splice_before; rewrite ?zlen_ztake; lia. }
  rewrite slice_two by (rewrite ?zlen_ztake; lia). rewrite !byte_at_ztake by lia.
  replace (slice (ztake hl p) a (a + zlen x)) with (slice p a (a + zlen x))
    by (rewrite <- (slice_from_0 p hl), slice_slice by lia; f_equal; lia).
  rewrite <- (app_nil_r (be16 c)), word_sum_be16 by lia. change (word_sum []) with 0.
  change (10 + 1) with 11. rewrite word_sum_cons by bok. change (word_sum []) with 0.
  pose proof (incremental_update_verifies (of_be16 p.[10] p.[11]) (slice p a (a + zlen x)) x
    (word_sum (ztake hl p) - word_sum (slice p a (a + zlen x)) - of_be16 p.[10] p.[11])
    Ho Hx Hold) as Hv. fold c in Hv.
  etrans; [|apply Hv; etrans; [|exact Hm]]; f_equal; unfold of_be16; lia.
Qed.

Lemma set_ipv4_ttl_splice p v :
  10 <= zlen p -> set_ipv4_ttl p v = splice p 8 [v; p.[9]].
Proof.
  intros. unfold set_ipv4_ttl. case_if; [lia|]. apply set_byte_splice2; lia.
Qed.

Lemma set_ipv4_checksum_splice p c : 12 <= zlen p -> set_ipv4_checksum p c = splice p 10 (be16 c).
Proof. intros. unfold set_ipv4_checksum. case_if; [lia|done]. Qed.

(** The buffer [set_hop_limit] leaves on an IPv4 packet. *)
Definition ttl_patched (p : list Z) (v : Z) : list Z :=
  splice (splice p 8 [v; p.[9]]) 10
    (be16 (incremental_update (of_be16 p.[10] p.[11]) (slice p 8 (8 + 2)) [v; p.[9]])).

Lemma set_hop_limit_v4 p v :
  version p = 4 -> 12 <= zlen p -> p.[8] <> v -> set_hop_limit p v = ttl_patched p v.
Proof.
  intros E4 Hl Hv. unfold set_hop_limit. rewrite E4. cbn [Z.eqb Pos.eqb].
  case_if; [lia|].
  assert (ipv4_ttl p = p.[8]) as -> by (unfold ipv4_ttl; case_if; [lia|done]).
  case_if; [lia|]. rewrite set_ipv4_ttl_splice by lia. unfold ttl_patched.
  assert (zlen (splice p 8 [v; p.[9]]) = zlen p) as Hl1 by (apply zlen_splice; [|change (zlen [v; p.[9]]) with 2]; lia).
  rewrite set_ipv4_checksum_splice, slice_two by lia.
  unfold ipv4_checksum. rewrite Hl1. case_if; [lia|].
  rewrite !byte_at_splice_out by (change (zlen [v; p.[9]]) with 2; lia). done.
Qed.

Lemma ttl_patched_bytes p v :
  12 <= zlen p ->
  zlen (ttl_patched p v) = zlen p /\ (ttl_patched p v).[8] = v /\
  (forall i, 0 <= i -> i <> 8 -> i <> 10 -> i <> 11 -> (ttl_patched p v).[i] = p.[i]).
Proof.
  intros Hl. unfold ttl_patched. set (x := [v; p.[9]]). set (c := be16 _).
  assert (zlen x = 2 /\ zlen c = 2) as [Hx Hc] by done.
  assert (zlen (splice p 8 x) = zlen p) as Hl1 by (apply zlen_splice; lia).
  split_and!.
  - rewrite zlen_splice; lia.
  - rewrite byte_at_splice_out, byte_at_splice_in by lia. done.
  - intros i ????. rewrite byte_at_splice_out by lia.
    destruct (decide (i = 9)) as [->|]; [rewrite byte_at_splice_in by lia; done|].
    rewrite byte_at_splice_out by lia. done.
Qed.

(** Addresses read from a packet fit their family. *)
Lemma src_addr_ok p a : bytes_ok p -> src_addr p = Some a ->
  addr_ok a /\ version p = match a with V4 _ => 4 | V6 _ => 6 end.
Proof.
  intros Hb. unfold src_addr, ipv4_src_addr, ipv6_src_addr.
  destruct (version p =? 4) eqn:E4; [|destruct (version p =? 6) eqn:E6; [|done]]; bool2prop; case_if; try done; intros [= <-]; (split; [|done]).
  - pose proof (of_be_bytes_bound (slice p 12 16) ltac:(bok)) as B. rewrite zlen_slice in B. cbn [addr_ok].
    replace (Z.min _ _) with 4 in B by lia. exact B.
  - pose proof (of_be_bytes_bound (slice p 8 24) ltac:(bok)) as B. rewrite zlen_slice in B. cbn [addr_ok].
    replace (Z.min _ _) with 16 in B by lia. exact B.
Qed.

Lemma decrement_hop_limit_facts (p p' : list Z) :
  bytes_ok p -> pkt_is_valid p = true -> decrement_hop_limit p = Some p' ->
  hop_limit p' = hop_limit p - 1 /\ 1 <= hop_limit p' /\
  zlen p' = zlen p /\ version p' = version p /\
  (forall i, 0 <= i -> i <> 7 -> i <> 8 -> i <> 10 -> i <> 11 -> p'.[i] = p.[i]) /\
  (verify_ipv4_checksum p = true -> verify_ipv4_checksum p' = true).
Proof.
  intros Hb Hv Hd. unfold decrement_hop_limit in Hd.
  destruct (hop_limit p <=? 1) eqn:E1; [done|]. bool2prop. apply Some_inj in Hd.
  unfold pkt_is_valid in Hv. destruct (version p =? 4) eqn:E4; bool2prop.
  - (* IPv4 *)
    pose proof (ipv4_header_len_le p) as Hhl.
    assert (hop_limit p = p.[8]) as Et.
    { unfold hop_limit, ipv4_ttl. rewrite E4. cbn [Z.eqb Pos.eqb]. case_if; [lia|done]. }
    rewrite Et in *. rewrite set_hop_limit_v4 in Hd by lia. subst p'.
    destruct (ttl_patched_bytes p (p.[8] - 1)) as (Hl & H8 & Hsame); [lia|].
    set (p' := ttl_patched p (p.[8] - 1)) in *.
    assert (version p' = 4) as Hv' by (rewrite <- E4; apply version_byte; [lia|]; apply Hsame; lia).
    assert (hop_limit p' = p.[8] - 1) as ->.
    { unfold hop_limit, ipv4_ttl. rewrite Hv'. cbn [Z.eqb Pos.eqb]. case_if; lia. }
    split_and!; try lia; [intros; apply Hsame; lia|].
    unfold verify_ipv4_checksum. rewrite Hv', E4. cbn [Z.eqb Pos.eqb].
    rewrite (header_len_byte p' p) by (try apply Hsame; lia). rewrite Hl.
    case_if; [done|]. intros Hc. bool2prop. apply Z.eqb_eq.
    pose proof (byte_at_ok p 8 Hb) as H8b. unfold byte_ok in H8b.
    apply (header_patch p _ 8 [p.[8] - 1; p.[9]]); try done; try lia; [bok|change (zlen [p.[8] - 1; p.[9]]) with 2; lia|].
    rewrite byte_at_splice_out by (change (zlen [p.[8] - 1; p.[9]]) with 2; lia).
    apply version_nonzero. lia.
  - (* IPv6 *)
    destruct (version p =? 6) eqn:E6; [|done]. bool2prop.
    assert (p' = set_byte p 7 (hop_limit p - 1)) as ->.
    { rewrite <- Hd. unfold set_hop_limit. rewrite E6. cbn [Z.eqb Pos.eqb].
      unfold set_ipv6_hop_limit. case_if; [lia|done]. }
    assert (version (set_byte p 7 (hop_limit p - 1)) = version p) as Hv'.
    { apply version_byte; [zl|]. apply byte_at_set_ne; lia. }
    assert (hop_limit (set_byte p 7 (hop_limit p - 1)) = hop_limit p - 1) as ->.
    { unfold hop_limit at 1. rewrite Hv', E6. cbn [Z.eqb Pos.eqb].
      unfold ipv6_hop_limit. rewrite zlen_set_byte. case_if; [lia|]. apply byte_at_set_eq; lia. }
    rewrite zlen_set_byte. split_and!; try lia; try done.
    + intros i ?????. apply byte_at_set_ne; lia.
    + intros _. unfold verify_ipv4_checksum. rewrite Hv', E6. done.
Qed.

(** Forwarding a valid packet: the hop limit (TTL) goes down by exactly one,
    the length and every byte outside the TTL and the header checksum are
    unchanged, and an IPv4 header checksum that was right stays right. *)
Theorem decrement_hop_limit_correct (p p' : list Z) :
  bytes_ok p -> pkt_is_valid p = true -> decrement_hop_limit p = Some p' ->
  hop_limit p' = hop_limit p - 1 /\ 1 <= hop_limit p' /\
  zlen p' = zlen p /\ version p' = version p /\
  (forall i, 0 <= i -> i <> 7 -> i <> 8 -> i <> 10 -> i <> 11 -> p'.[i] = p.[i]) /\
  (verify_ipv4_checksum p = true -> verify_ipv4_checksum p' = true).
Proof. apply decrement_hop_limit_facts. Qed.

Lemma decrement_hop_limit_correct_witness :
  let p := [0x45;0;0;28;0;0;0;0;64;17;0x66;0xcf;10;0;0;1;10;0;0;2;0;0;0;0;0;0;0;0] in
  let p' := [0x45;0;0;28;0;0;0;0;63;17;0x67;0xcf;10;0;0;1;10;0;0;2;0;0;0;0;0;0;0;0] in
  verify_ipv4_checksum p = true /\ hop_limit p' = hop_limit p - 1 /\ verify_ipv4_checksum p' = true.
Proof.
  intros p p'. split; [reflexivity|].
  destruct (decrement_hop_limit_correct p p') as (H1 & _ & _ & _ & _ & H2).
  - repeat constructor; lia.
  - reflexivity.
  - vm_compute. reflexivity.
  - split; [exact H1|]. apply H2. reflexivity.
Defined.

(** ** Recomputing the header checksum *)

Lemma recompute_ipv4_splice p :
  version p = 4 -> 20 <= ipv4_header_len p <= zlen p ->
  recompute_ipv4_checksum p =
  splice p 10 (be16 (checksum (ztake (ipv4_header_len p) (splice p 10 [0; 0])))).
Proof.
  intros E4 Hhl. unfold recompute_ipv4_checksum. rewrite E4. cbn [Z.eqb Pos.eqb negb].
  case_if; [bool2prop; lia|].
  assert (zlen (splice p 10 (be16 0)) = zlen p) by (apply zlen_splice; rewrite ?zlen_be16; lia).
  rewrite (set_ipv4_checksum_splice p) by lia. rewrite set_ipv4_checksum_splice by lia. change (be16 0) with [0; 0].
  apply splice_splice; [lia|change (zlen [0; 0]) with 2; lia|done].
Qed.

(** A packet with a possible IPv4 header verifies once its header checksum
    is recomputed; only the checksum field changes. *)
Lemma recompute_ipv4_checksum_ok p :
  bytes_ok p -> version p = 4 -> 20 <= ipv4_header_len p <= zlen p ->
  let q := recompute_ipv4_checksum p in
  bytes_ok q /\ zlen q = zlen p /\ verify_ipv4_checksum q = true /\
  (forall i, 0 <= i -> i <> 10 -> i <> 11 -> q.[i] = p.[i]) /\ zdrop 12 q = zdrop 12 p.
Proof.
  intros Hb E4 Hhl q. unfold q. rewrite recompute_ipv4_splice by done.
  set (hl := ipv4_header_len p) in *. set (c := checksum _).
  assert (0 <= c <= 65535) as Hc.
  { apply checksum_bound. bok. }
  assert (zlen (splice p 10 (be16 c)) = zlen p) as Hl by (apply zlen_splice; rewrite ?zlen_be16; lia).
  assert (forall i, 0 <= i -> i <> 10 -> i <> 11 -> (splice p 10 (be16 c)).[i] = p.[i]) as Hs.
  { intros. apply byte_at_splice_out; rewrite ?zlen_be16; lia. }
  split_and!; [bok|done| |done|].
  - unfold verify_ipv4_checksum. rewrite (version_byte _ p) by (try apply Hs; lia).
    rewrite E4. cbn [Z.eqb Pos.eqb]. rewrite (header_len_byte _ p) by (try apply Hs; lia).
    fold hl. rewrite Hl. case_if; [bool2prop; lia|]. apply Z.eqb_eq.
    rewrite ztake_splice_in by (rewrite ?zlen_be16; lia). unfold c.
    rewrite ztake_splice_in by (change (zlen [0; 0]) with 2; lia).
    apply splice_checksum_verifies; [bok|lia|rewrite zlen_ztake; lia|done].
  - rewrite <- !slice_to_end, Hl. apply slice_splice_after; rewrite ?zlen_be16; lia.
Qed.
