(* ===== verification/Transport.v ===== *)
(** * Transport checksums of whole packets ([src/src/packet.rs])

    What the header accessors of Packet.v read lies before the transport
    payload, so rewriting the payload leaves them alone; from there,
    [recompute_transport_checksum] produces a packet that
    [verify_transport_checksum] accepts, over IPv4 and over IPv6 with any
    extension-header chain. *)

From S2P Require Import Prelude Ip Checksum Packet.

(** [p] and [q] have one length and agree on the first [m] bytes. *)
Definition same_upto (m : Z) (p q : list Z) : Prop :=
  zlen p = zlen q /\ forall i, 0 <= i < m -> p.[i] = q.[i].

Lemma same_upto_slice m p q a b :
  same_upto m p q -> 0 <= a -> b <= m -> slice p a b = slice q a b.
Proof.
  intros [Hl H] Ha Hb. apply bytes_ext.
  - rewrite !zlen_slice, Hl. done.
  - intros i Hi. rewrite zlen_slice in Hi. rewrite !byte_at_slice by lia. apply H. lia.
Qed.

Lemma same_upto_get m p q i : same_upto m p q -> 0 <= i < m -> get p i = get q i.
Proof.
  intros [Hl H] Hi. destruct (decide (i < zlen p)).
  - rewrite !get_byte by lia. rewrite H by lia. done.
  - unfold get. case_if; [|done]. rewrite !lookup_ge_None_2; [done|unfold zlen in *; lia..].
Qed.

Lemma same_upto_le m n p q : same_upto m p q -> n <= m -> same_upto n p q.
Proof. intros [Hl H] Hn. split; [done|]. intros; apply H; lia. Qed.

Lemma same_upto_splice p a m x :
  0 <= m <= a -> a + zlen x <= zlen p -> same_upto m p (splice p a x).
Proof.
  intros. split; [rewrite zlen_splice; lia|]. intros i Hi.
  rewrite byte_at_splice_out; [done|lia..].
Qed.

(** Not an extension header: where the walk came to a transport header. *)
Abbreviation not_ext nh := (is_ipv6_ext_header nh = false).

Lemma not_ext_cases nh :
  not_ext nh -> is_tlv_header nh = false /\ (nh =? FRAGMENT) = false /\ (nh =? AH) = false.
Proof.
  unfold is_ipv6_ext_header, is_tlv_header. intros H. bool2prop.
  split_and!; try (apply Z.eqb_neq; done).
  repeat (apply orb_false_iff; split); apply Z.eqb_neq; done.
Qed.

(** One step of the walk towards a transport header inside the buffer. *)
Lemma skip_ext_loop_step n p nh off nh' off' :
  bytes_ok p -> 0 <= off <= zlen p ->
  skip_ext_loop (S n) p nh off = Some (nh', off') -> not_ext nh' -> off' < zlen p ->
  (not_ext nh /\ nh' = nh /\ off' = off) \/
  exists d, 8 <= d /\ off + d <= off' /\
    skip_ext_loop n p p.[off] (off + d) = Some (nh', off') /\
    ((is_tlv_header nh = true /\ d = (p.[off + 1] + 1) * 8) \/
     (nh = FRAGMENT /\ Z.land (of_be16 p.[off + 2] p.[off + 3]) 0xFFF8 = 0 /\ d = 8) \/
     (nh = AH /\ d = (p.[off + 1] + 2) * 4)).
Proof.
  intros Hb Hoff Hs Hn Ho. cbn [skip_ext_loop] in Hs.
  assert (forall i, byte_ok p.[i]) as Hby by (intros; bok). unfold byte_ok in Hby.
  assert (forall x d, (if zlen p <? off + d then Some (x, zlen p) else skip_ext_loop n p x (off + d))
     = Some (nh', off') -> off + d <= zlen p /\ skip_ext_loop n p x (off + d) = Some (nh', off')) as Hgo.
  { intros x d H. case_match eqn:E; bool2prop; [simplify_eq; lia|]. split; [lia|done]. }
  assert (forall x d, 0 <= d -> off + d <= zlen p -> skip_ext_loop n p x (off + d) = Some (nh', off') ->
    off + d <= off') as Hmono.
  { intros x d ?? H. destruct (skip_ext_loop_ok n p x (off + d)) as (? & ? & E & ?); [done|lia|].
    rewrite H in E. simplify_eq. lia. }
  assert (not_ext nh -> Some (nh, off) = Some (nh', off') -> not_ext nh /\ nh' = nh /\ off' = off) as Hstop.
  { intros ? H. simplify_eq. done. }
  pose proof (Hby (off + 1)) as Hb1.
  destruct (is_tlv_header nh) eqn:Et.
  { destruct (zlen p <? off + 2) eqn:E; bool2prop.
    - simplify_eq. apply not_ext_cases in Hn as (Hn & _). congruence.
    - rewrite !get_byte in Hs by lia. apply Hgo in Hs as [? Hs]. right.
      exists ((p.[off + 1] + 1) * 8). eauto 10 with lia. }
  destruct (nh =? FRAGMENT) eqn:Ef; bool2prop.
  { destruct (zlen p <? off + 8) eqn:E; bool2prop; [simplify_eq; done|].
    rewrite !get_byte in Hs by lia. cbn [mbind option_bind] in Hs.
    destruct (negb _) eqn:E2; bool2prop; [simplify_eq; done|].
    right. exists 8. subst. split_and!; [lia|eapply Hmono; eauto; lia|done|]. right; left. done. }
  destruct (nh =? AH) eqn:Ea; bool2prop.
  { destruct (zlen p <? off + 2) eqn:E; bool2prop; [simplify_eq; done|].
    rewrite !get_byte in Hs by lia. apply Hgo in Hs as [? Hs]. right.
    exists ((p.[off + 1] + 2) * 4). eauto 10 with lia. }
  left. simplify_eq. done.
Qed.

Section Walks.
Context (p q : list Z) (m : Z).
Hypothesis Hp : bytes_ok p.
Hypothesis Hq : bytes_ok q.
Hypothesis Hsame : same_upto m p q.
Hypothesis Hm : m < zlen p.

(** The three walks of packet.rs agree on [p] and [q] when the transport
    header starts by [m]. *)
Lemma skip_ext_loop_same n nh off nh' off' :
  0 <= off <= zlen p -> off' <= m -> not_ext nh' ->
  skip_ext_loop n p nh off = Some (nh', off') -> skip_ext_loop n q nh off = Some (nh', off').
Proof.
  destruct Hsame as [Hl Hby].
  revert nh off. induction n as [|n IH]; intros nh off Hoff Ho Hn Hs.
  { cbn [skip_ext_loop] in *. rewrite <- Hl. done. }
  destruct (skip_ext_loop_step _ _ _ _ _ _ Hp Hoff Hs Hn ltac:(lia)) as
    [(Hne & -> & ->)|(d & Hd & Hle & Hs' & Hc)].
  - apply not_ext_cases in Hne as (E1 & E2 & E3). cbn [skip_ext_loop]. rewrite E1, E2, E3. done.
  - apply IH in Hs'; [|lia|done|done]. cbn [skip_ext_loop]. rewrite <- Hl.
    rewrite (Hby off) in Hs' by lia. rewrite ?(Hby (off + 1)), ?(Hby (off + 2)), ?(Hby (off + 3)) in Hc by lia.
    assert (forall x, x = off + d ->
      (if zlen p <? x then Some (q.[off], zlen p) else skip_ext_loop n q q.[off] x) = Some (nh', off')) as Hgo.
    { intros x ->. case_if; [lia|done]. }
    destruct Hc as [(-> & ->)|[(-> & E & ->)|(-> & ->)]].
    + case_if; [lia|]. rewrite !get_byte by lia. apply Hgo. done.
    + change (is_tlv_header FRAGMENT) with false. change (FRAGMENT =? FRAGMENT) with true. cbn match.
      destruct (zlen p <? off + 8) eqn:?; bool2prop; [lia|]. rewrite !get_byte by lia.
      cbn [mbind option_bind]. rewrite E. done.
    + change (is_tlv_header AH) with false. change (AH =? FRAGMENT) with false.
      change (AH =? AH) with true. cbn match.
      case_if; [lia|]. rewrite !get_byte by lia. apply Hgo. done.
Qed.

Lemma is_fragment_loop_same n nh off nh' off' :
  0 <= off <= zlen p -> off' <= m -> not_ext nh' ->
  skip_ext_loop n p nh off = Some (nh', off') ->
  is_fragment_loop n q nh off = is_fragment_loop n p nh off.
Proof.
  destruct Hsame as [Hl Hby].
  revert nh off. induction n as [|n IH]; intros nh off Hoff Ho Hn Hs; [done|].
  destruct (skip_ext_loop_step _ _ _ _ _ _ Hp Hoff Hs Hn ltac:(lia)) as
    [(Hne & -> & ->)|(d & Hd & Hle & Hs' & Hc)]; cbn [is_fragment_loop].
  - apply not_ext_cases in Hne as (E1 & E2 & E3). rewrite E1, E2, E3. done.
  - apply IH in Hs'; [|lia|done|done]. rewrite <- Hl, <- (Hby off), <- (Hby (off + 1)) by lia.
    destruct Hc as [(E & ->)|[(-> & E & ->)|(-> & ->)]]; [|done|].
    + rewrite E. destruct (nh =? FRAGMENT); [done|].
      case_if; [done|]. rewrite Hs'. done.
    + change (is_tlv_header AH) with false. change (AH =? FRAGMENT) with false.
      change (AH =? AH) with true. cbn match. case_if; [done|]. rewrite Hs'. done.
Qed.

Lemma pseudo_dst_loop_same n dst nh off nh' off' :
  0 <= off <= zlen p -> off' <= m -> not_ext nh' ->
  skip_ext_loop n p nh off = Some (nh', off') ->
  pseudo_dst_loop n q dst nh off = pseudo_dst_loop n p dst nh off.
Proof.
  destruct Hsame as [Hl Hby].
  revert nh off. induction n as [|n IH]; intros nh off Hoff Ho Hn Hs; [done|].
  destruct (skip_ext_loop_step _ _ _ _ _ _ Hp Hoff Hs Hn ltac:(lia)) as
    [(Hne & -> & ->)|(d & Hd & Hle & Hs' & Hc)]; cbn [pseudo_dst_loop].
  - assert ((nh =? ROUTING) = false) as ER.
    { unfold is_ipv6_ext_header in Hne. bool2prop. apply Z.eqb_neq. done. }
    apply not_ext_cases in Hne as (E1 & E2 & E3). rewrite ER, E1, E2, E3. done.
  - apply IH in Hs'; [|lia|done|done].
    rewrite <- (same_upto_get m p q off), <- (same_upto_get m p q (off + 1)) by (done || lia).
    rewrite (get_byte p off), (get_byte p (off + 1)) by lia. rewrite <- (Hby off) by lia.
    destruct Hc as [(E & ->)|[(-> & E & ->)|(-> & ->)]].
    + rewrite E. destruct (nh =? ROUTING) eqn:ER; [|done].
      unfold get_range. rewrite <- Hl.
      rewrite <- (same_upto_slice m p q off (off + 8)) by (done || lia).
      destruct ((0 <=? off) && (off <=? off + 8) && (off + 8 <=? zlen p)); [|done].
      rewrite (byte_at_slice p off (off + 8) 1) by lia.
      assert (forall i, 0 <= i -> routing_addr_at q off ((p.[off + 1] + 1) * 8) i
                          = routing_addr_at p off ((p.[off + 1] + 1) * 8) i) as Hr.
      { intros i Hi. unfold routing_addr_at. case_if; [done|]. unfold get_range. rewrite <- Hl.
        rewrite <- (same_upto_slice m p q) by (done || lia). done. }
      destruct (_ =? 0); [done|].
      rewrite (Hr 0) by done. destruct ((_ =? 0) && (0 <? _)) eqn:E2; bool2prop; [|done].
      rewrite Hr by lia. done.
    + change (FRAGMENT =? ROUTING) with false. change (is_tlv_header FRAGMENT) with false.
      change (FRAGMENT =? FRAGMENT) with true. cbn match. done.
    + change (AH =? ROUTING) with false. change (is_tlv_header AH) with false.
      change (AH =? FRAGMENT) with false. change (AH =? AH) with true. cbn match. done.
Qed.
End Walks.

(** ** Headers and payload *)

(** The quirk of a truncated IPv6 packet: with no transport header to point
    at, [transport_payload] returns the bytes of the header itself. *)
Lemma truncated_ipv6_payload : transport_payload [0x60; 0; 0; 0; 0; 4] = [0x60; 0; 0; 0; 0; 4].
Proof. reflexivity. Qed.

Lemma checksum_field_not_ext proto f :
  checksum_field proto = Some f ->
  not_ext proto /\ byte_ok proto /\ Z.even f = true /\ 0 <= f <= 16.
Proof.
  unfold checksum_field. destruct (proto =? TCP) eqn:E1; [|destruct (proto =? UDP) eqn:E2;
    [|destruct (proto =? ICMP) eqn:E3; [|destruct (proto =? ICMPV6) eqn:E4]]]; cbn [orb];
    intros; simplify_eq; bool2prop; subst; (split_and!; [done| |done|lia|lia]);
    vm_compute; split; done.
Qed.

Lemma ipv6_transport_short p : zlen p < 40 -> ipv6_transport p = (0, 0).
Proof.
  intros. unfold ipv6_transport. replace (zlen p <? 40) with true by (symmetry; apply Z.ltb_lt; lia).
  rewrite orb_true_r. done.
Qed.

Lemma ipv6_transport_eq p r :
  version p = 6 -> 40 <= zlen p -> skip_ext_loop MAX_EXT_HEADERS p p.[6] 40 = Some r ->
  ipv6_transport p = r.
Proof.
  intros E6 H40 Hs. unfold ipv6_transport, skip_ipv6_ext. rewrite Hs, E6.
  replace (zlen p <? 40) with false by (symmetry; apply Z.ltb_ge; lia). done.
Qed.

(** The walk behind an IPv6 payload that has a transport checksum. *)
Lemma ipv6_transport_walk p f :
  bytes_ok p -> version p = 6 -> checksum_field (transport_protocol p) = Some f ->
  40 <= zlen p /\ not_ext (ipv6_transport p).1 /\ 40 <= (ipv6_transport p).2 <= zlen p /\
  skip_ext_loop MAX_EXT_HEADERS p p.[6] 40 = Some (ipv6_transport p).
Proof.
  intros Hb E6 Hf. apply checksum_field_not_ext in Hf. destruct Hf as [Hne _].
  assert (transport_protocol p = (ipv6_transport p).1) as Et
    by (unfold transport_protocol; rewrite E6; done).
  rewrite Et in Hne. destruct (decide (zlen p < 40)).
  { rewrite ipv6_transport_short in Hne by done. discriminate Hne. }
  destruct (skip_ext_loop_ok MAX_EXT_HEADERS p p.[6] 40) as (nh' & off' & Hs & Ho); [done|lia|].
  rewrite (ipv6_transport_eq p _ E6 ltac:(lia) Hs) in *.
  cbn [fst snd] in *. split_and!; (done || lia).
Qed.

Lemma payload_range_bounds p f a b :
  bytes_ok p -> checksum_field (transport_protocol p) = Some f ->
  payload_range p = Some (a, b) -> 20 <= a <= b /\ b <= zlen p.
Proof.
  intros Hb Hf. unfold payload_range.
  destruct (version p =? 4) eqn:E4.
  { case_if; intros; simplify_eq. bool2prop. lia. }
  destruct (version p =? 6) eqn:E6; [|done]. bool2prop.
  destruct (ipv6_transport_walk p f Hb E6 Hf) as (? & _ & ? & _).
  case_if; intros; simplify_eq. lia.
Qed.

Section Headers.
Context (p q : list Z) (f a b : Z).
Hypothesis Hp : bytes_ok p.
Hypothesis Hq : bytes_ok q.
Hypothesis Hf : checksum_field (transport_protocol p) = Some f.
Hypothesis Hr : payload_range p = Some (a, b).
Hypothesis Hsame : same_upto a p q.

Lemma same_version : version q = version p.
Proof.
  pose proof (payload_range_bounds p f a b Hp Hf Hr). destruct Hsame as [Hl H'].
  apply version_byte; [lia|]. symmetry. apply H'. lia.
Qed.

Lemma same_addrs : src_addr q = src_addr p /\ dst_addr q = dst_addr p.
Proof.
  pose proof (payload_range_bounds p f a b Hp Hf Hr). pose proof Hsame as [Hl H'].
  unfold src_addr, dst_addr, ipv4_src_addr, ipv4_dst_addr, ipv6_src_addr, ipv6_dst_addr.
  rewrite same_version, <- Hl. destruct (version p =? 4) eqn:E4; bool2prop.
  - rewrite <- !(same_upto_slice a p q) by (done || lia). done.
  - destruct (version p =? 6) eqn:E6; [|done]. bool2prop.
    destruct (ipv6_transport_walk p f Hp E6 Hf) as (? & _ & ? & _).
    unfold payload_range in Hr. rewrite E6 in Hr. cbn [Z.eqb Pos.eqb] in Hr.
    case_match; simplify_eq. rewrite <- !(same_upto_slice (ipv6_transport p).2 p q) by (done || lia).
    done.
Qed.

(** The same for everything the checksum functions read outside the
    payload. *)
Lemma same_headers :
  transport_protocol q = transport_protocol p /\ is_fragment q = is_fragment p /\
  pseudo_header_dst q = pseudo_header_dst p /\ payload_range q = Some (a, b).
Proof.
  pose proof (payload_range_bounds p f a b Hp Hf Hr) as Hbd. pose proof Hsame as [Hl H'].
  unfold pseudo_header_dst. rewrite (proj2 same_addrs).
  pose proof Hr as Hr'. unfold payload_range in Hr'.
  unfold transport_protocol, is_fragment, payload_range. rewrite !same_version, <- Hl.
  destruct (version p =? 4) eqn:E4.
  { bool2prop. rewrite E4. cbn [Z.eqb Pos.eqb negb orb]. rewrite <- Hr'.
    unfold ipv4_protocol, ipv4_is_fragment, ipv4_more_fragments, ipv4_fragment_offset, ipv4_total_len.
    rewrite (header_len_byte q p) by (try (symmetry; apply H'); lia).
    rewrite <- Hl, <- !H' by lia. done. }
  destruct (version p =? 6) eqn:E6; [|done]. bool2prop.
  destruct (ipv6_transport_walk p f Hp E6 Hf) as (H40 & Hne & Hoff & Hs).
  set (off := (ipv6_transport p).2) in *.
  destruct (_ <=? off) eqn:Hle in Hr'; [discriminate Hr'|]. bool2prop.
  injection Hr' as Ha Hb.
  assert (same_upto off p q) as Hsame' by (rewrite Ha; done).
  assert (off < zlen p) by lia.
  pose proof (surjective_pairing (ipv6_transport p)) as Hsp. fold off in Hsp. rewrite Hsp in Hs.
  assert (ipv6_transport q = ipv6_transport p) as Ht.
  { rewrite Hsp. apply ipv6_transport_eq; [rewrite same_version; done|lia|].
    rewrite <- (H' 6) by lia. eapply (skip_ext_loop_same p q off); (done || lia). }
  rewrite Ht. cbn [Z.eqb Pos.eqb negb orb].
  unfold ipv6_is_fragment, ipv6_payload_len. rewrite same_version, E6, <- Hl, <- !H' by lia.
  cbn [Z.eqb Pos.eqb negb orb].
  destruct (zlen p <? 40) eqn:?; bool2prop; [lia|].
  erewrite (is_fragment_loop_same p q off) by (done || lia).
  fold off. rewrite <- Ha, <- Hb. unfold ipv6_payload_len in *.
  split_and!; [done|done| |case_if; [lia|done]].
  destruct (dst_addr p) as [dst|]; cbn [mbind option_bind]; [|reflexivity].
  apply (f_equal Some). eapply (pseudo_dst_loop_same p q off); [done|done|lia|lia|..]; [|done|exact Hs].
  done.
Qed.
End Headers.

(** ** Recompute, then verify *)

Lemma pseudo_header_family proto src dst n :
  match src, dst with V4 _, V4 _ | V6 _, V6 _ => True | _, _ => False end ->
  exists ph, pseudo_header proto src dst n = Some ph.
Proof. destruct src, dst; intros []; eexists; reflexivity. Qed.

Lemma pseudo_dst_loop_v6 n b x nh off : exists y, pseudo_dst_loop n b (V6 x) nh off = V6 y.
Proof.
  revert nh off. induction n as [|n IH]; intros nh off; cbn [pseudo_dst_loop]; [eauto|].
  assert (forall l i, exists y, default (V6 x) (routing_addr_at b off l i) = V6 y) as Hr.
  { intros. unfold routing_addr_at, get_range. repeat case_if; cbn; eauto. }
  repeat case_match; cbn; eauto.
Qed.

(** Source and pseudo-header destination are of one family. *)
Lemma addrs_one_family p src dst :
  src_addr p = Some src -> pseudo_header_dst p = Some dst ->
  match src, dst with V4 _, V4 _ | V6 _, V6 _ => True | _, _ => False end.
Proof.
  unfold pseudo_header_dst, src_addr, dst_addr.
  destruct (version p =? 4) eqn:E4; bool2prop.
  - rewrite E4. cbn [Z.eqb Pos.eqb negb orb].
    destruct (ipv4_src_addr p), (ipv4_dst_addr p); intros; simplify_eq/=. done.
  - destruct (version p =? 6) eqn:E6; [|done].
    destruct (ipv6_src_addr p), (ipv6_dst_addr p) as [x|]; intros Hs Hd; simplify_eq/=.
    destruct (zlen p <? 40); cbn [negb orb] in Hd; [simplify_eq; done|].
    destruct (pseudo_dst_loop_v6 MAX_EXT_HEADERS p x p.[6] 40) as [y Hy].
    rewrite Hy in Hd. simplify_eq. done.
Qed.

Lemma pdu_verifies proto src dst d f ph :
  byte_ok proto -> bytes_ok d -> 0 <= f -> Z.even f = true -> f + 2 <= zlen d ->
  pseudo_header proto src dst (Z.min (zlen d) 65535) = Some ph ->
  let c := transport_checksum proto src dst (splice d f [0; 0]) in
  0 <= c <= 65535 /\
  raw_transport_sum proto src dst (splice d f (be16 c)) = 0xFFFF /\
  (c = 0 -> raw_transport_sum proto src dst (splice d f (be16 0xFFFF)) = 0xFFFF).
Proof.
  intros Hp Hd Hf He Hl Hph.
  assert (zlen (ztake f d) = f) as Hz by (rewrite zlen_ztake; lia).
  apply (transport_checksum_verifies proto src dst (ztake f d) (zdrop (f + 2) d) ph);
    [done|bok|bok|rewrite Hz; done|].
  rewrite <- Hph. do 2 f_equal. rewrite !zlen_app, Hz, zlen_zdrop. change (zlen [0; 0]) with 2. lia.
Qed.

Lemma udp_len_splice (d x : list Z) :
  8 <= zlen d -> zlen x = 2 -> udp_len (splice d 6 x) = udp_len d.
Proof.
  intros Hd Hx. assert (zlen (splice d 6 x) = zlen d) as Hl by (apply zlen_splice; lia).
  unfold udp_len. rewrite Hl, !get_byte by lia. rewrite !byte_at_splice_out by lia. done.
Qed.

(** A nonzero sum in the checksum field of a UDP header reads as one. *)
Lemma udp_field_nonzero (d : list Z) s :
  8 <= zlen d -> 0 < s -> slice (splice d 6 (be16 s)) 6 8 <> [0; 0].
Proof.
  intros Hd Hs E. change 8 with (6 + zlen (be16 s)) in E.
  rewrite slice_splice_in in E by (rewrite ?zlen_be16; lia).
  unfold be16 in E. injection E as E1 E2. pose proof (of_be16_be16 s) as E3.
  rewrite E1, E2 in E3. unfold of_be16 in E3. lia.
Qed.

(** What [recompute_transport_checksum] wrote, in terms of the PDU it
    summed. *)
Lemma recompute_inv p p' :
  bytes_ok p -> recompute_transport_checksum p = (p', true) ->
  exists src dst a b f len sum,
    let proto := transport_protocol p in
    src_addr p = Some src /\ pseudo_header_dst p = Some dst /\ is_fragment p = false /\
    checksum_field proto = Some f /\ payload_range p = Some (a, b) /\
    f + 2 <= len <= b - a /\
    (if proto =? UDP then udp_len (slice p a b) = Some len else len = b - a) /\
    (let d := ztake len (slice p a b) in
     let s := if proto =? ICMP then checksum (splice d f [0; 0])
              else transport_checksum proto src dst (splice d f [0; 0]) in
     sum = if (proto =? UDP) && (s =? 0) then 0xFFFF else s) /\
    p' = splice p (a + f) (be16 sum).
Proof.
  intros Hb H. unfold recompute_transport_checksum in H.
  destruct (src_addr p) as [src|] eqn:Es; [|done].
  destruct (pseudo_header_dst p) as [dst|] eqn:Ed; [|done].
  destruct (is_fragment p) eqn:Ei; [done|].
  destruct (checksum_field (transport_protocol p)) as [f|] eqn:Ef; [|done].
  destruct (payload_range p) as [[a b]|] eqn:Er; [|done].
  pose proof (payload_range_bounds p f a b Hb Ef Er) as Hbd.
  assert (zlen (slice p a b) = b - a) as Hzs by (rewrite zlen_slice; lia).
  destruct (zlen (slice p a b) <? f + 2) eqn:E1; [done|]. bool2prop.
  destruct (if transport_protocol p =? UDP then _ else _) as [len|] eqn:El; [|done].
  destruct (checksum_field_not_ext _ _ Ef) as (_ & _ & _ & Hf0).
  assert (f + 2 <= len <= b - a) as Hlen.
  { destruct (transport_protocol p =? UDP) eqn:EU; bool2prop; [|simplify_eq; lia].
    rewrite EU in Ef. injection Ef as <-. unfold udp_len in El.
    destruct (get _ 4); [|done]. destruct (get _ 5); [|done]. cbn [mbind option_bind] in El.
    clear H. case_match eqn:E; bool2prop; simplify_eq. lia. }
  set (p0 := splice p (a + f) [0; 0]) in *.
  assert (bytes_ok p0) as Hb0 by (unfold p0; bok).
  assert (same_upto a p p0) as Hsame by (apply same_upto_splice; [lia|change (zlen [0; 0]) with 2; lia]).
  destruct (same_headers p p0 f a b Hb Ef Er Hsame) as (_ & _ & _ & Hr0).
  rewrite Hr0 in H. cbn [default fst] in H.
  assert (ztake len (slice p0 a b) = splice (ztake len (slice p a b)) f [0; 0]) as Hd.
  { unfold p0. rewrite slice_splice_inside by (change (zlen [0; 0]) with 2; lia).
    apply ztake_splice_in; [lia|change (zlen [0; 0]) with 2; lia|lia]. }
  rewrite Hd in H.
  exists src, dst, a, b, f, len. eexists. split_and!; try done; try lia.
  - destruct (transport_protocol p =? UDP); [done|simplify_eq; lia].
  - injection H as <-. unfold p0. apply splice_splice; [lia|change (zlen [0; 0]) with 2; lia|done].
Qed.

(** Verifying the patched packet is verifying its patched payload. *)
Lemma verify_patched p src dst a b f sum :
  bytes_ok p -> src_addr p = Some src -> pseudo_header_dst p = Some dst -> is_fragment p = false ->
  checksum_field (transport_protocol p) = Some f -> payload_range p = Some (a, b) ->
  f + 2 <= b - a ->
  verify_transport_checksum (splice p (a + f) (be16 sum)) =
  verify_payload (transport_protocol p) (version p) src dst (splice (slice p a b) f (be16 sum)).
Proof.
  intros Hb Es Ed Ei Ef Er Hl. pose proof (payload_range_bounds p f a b Hb Ef Er) as Hbd.
  destruct (checksum_field_not_ext _ _ Ef) as (_ & _ & _ & Hf0).
  set (q := splice p (a + f) (be16 sum)).
  assert (same_upto a p q) as Hsame by (apply same_upto_splice; rewrite ?zlen_be16; lia).
  destruct (same_headers p q f a b Hb Ef Er Hsame) as (Ht & Hfr & Hpd & Hr).
  unfold verify_transport_checksum, transport_payload.
  rewrite Ht, Hfr, Hpd, Hr, (same_version p q f a b Hb Ef Er Hsame).
  rewrite (proj1 (same_addrs p q f a b Hb Ef Er Hsame)), Es, Ed, Ei. cbn [mbind option_bind].
  f_equal. unfold q. apply slice_splice_inside; rewrite ?zlen_be16; lia.
Qed.

(** The stored sum makes the payload verify, protocol by protocol. *)
Section StoredSum.
Context (proto v : Z) (src dst : IpAddr) (pay : list Z) (f len sum : Z) (ph : list Z).
Hypothesis Hpay : bytes_ok pay.
Hypothesis Hf : checksum_field proto = Some f.
Hypothesis Hlen : f + 2 <= len <= zlen pay.
Hypothesis Hul : if proto =? UDP then udp_len pay = Some len else len = zlen pay.
Hypothesis Hph : pseudo_header proto src dst (Z.min len 65535) = Some ph.
Hypothesis Hsum :
  let d := ztake len pay in
  let s := if proto =? ICMP then checksum (splice d f [0; 0])
           else transport_checksum proto src dst (splice d f [0; 0]) in
  sum = if (proto =? UDP) && (s =? 0) then 0xFFFF else s.

Lemma stored_sum_verifies :
  verify_payload proto v src dst (splice pay f (be16 sum)) =
  if (proto =? TCP) && (zlen pay <? 20) then None else Some true.
Proof.
  set (d := ztake len pay) in *.
  destruct (checksum_field_not_ext _ _ Hf) as (_ & Hproto & Heven & Hf0).
  assert (zlen d = len) as Hzd by (unfold d; rewrite zlen_ztake; lia).
  assert (bytes_ok d) as Hd by (unfold d; bok).
  pose proof (pdu_verifies proto src dst d f ph Hproto Hd ltac:(lia) Heven ltac:(lia)) as Hv.
  rewrite Hzd in Hv. specialize (Hv Hph). destruct Hv as (Hc & Hv & Hv0).
  assert (zlen (splice pay f (be16 sum)) = zlen pay) as Hz by (apply zlen_splice; rewrite ?zlen_be16; lia).
  assert ((proto =? UDP) = false -> pay = d) as Hwhole.
  { intros E. rewrite E in Hul. unfold d. rewrite ztake_all by lia. done. }
  unfold verify_payload. rewrite Hz. pose proof Hf as Hf'. unfold checksum_field in Hf'.
  destruct (proto =? TCP) eqn:ET; bool2prop.
  { rewrite ET in *. cbn in Hsum. rewrite Hwhole, Hsum, Hv by done.
    cbn [andb]. rewrite <- Hwhole by done. repeat case_if; try done; lia. }
  destruct (proto =? UDP) eqn:EU; bool2prop.
  { rewrite EU in *. injection Hf' as <-. change (UDP =? ICMP) with false in Hsum. cbn [andb] in *.
    destruct (8 <=? zlen pay) eqn:?; bool2prop; [|lia].
    rewrite udp_len_splice, Hul by (rewrite ?zlen_be16; lia).
    rewrite bool_decide_eq_false_2 by (apply udp_field_nonzero; [lia|rewrite Hsum; case_if; lia]).
    rewrite ztake_splice_in by (rewrite ?zlen_be16; lia). fold d.
    cbn [andb]. rewrite Hsum. case_if; bool2prop; [rewrite Hv0 by done|rewrite Hv]; done. }
  rewrite Hwhole by done. cbn [andb] in *.
  destruct (proto =? ICMP) eqn:EI; bool2prop.
  { rewrite EI in *. cbn [orb] in Hf'. injection Hf' as <-. change (ICMP =? ICMPV6) with false.
    cbn [andb]. destruct (4 <=? zlen d) eqn:?; bool2prop; [|lia].
    rewrite Hsum, splice_checksum_verifies by (done || lia). done. }
  cbn [orb] in Hf'. destruct (proto =? ICMPV6) eqn:E6; [|discriminate Hf']. bool2prop.
  injection Hf' as <-. cbn [andb]. destruct (4 <=? zlen d) eqn:?; bool2prop; [|lia].
  rewrite Hsum, Hv. done.
Qed.
End StoredSum.

(** C40: A packet whose transport checksum was recomputed verifies, for TCP, UDP,
    ICMP and ICMPv6, over IPv4 and over IPv6 behind any extension headers;
    the only packet [verify_transport_checksum] then declines to judge is a
    TCP segment too short for its header.  Only the checksum field of the
    packet changes. *)
Theorem recompute_transport_checksum_verifies (p p' : list Z) :
  bytes_ok p -> recompute_transport_checksum p = (p', true) ->
  zlen p' = zlen p /\
  (exists c, forall i, 0 <= i -> i <> c -> i <> c + 1 -> p'.[i] = p.[i]) /\
  verify_transport_checksum p' =
    (if (transport_protocol p =? TCP) && (zlen (transport_payload p) <? 20) then None else Some true).
Proof.
  intros Hb H.
  destruct (recompute_inv p p' Hb H) as (src & dst & a & b & f & len & sum & Hi).
  destruct Hi as (Es & Ed & Ei & Ef & Er & Hlen & Hul & Hsum & ->).
  pose proof (payload_range_bounds p f a b Hb Ef Er) as Hbd.
  destruct (checksum_field_not_ext _ _ Ef) as (_ & _ & _ & Hf0).
  assert (zlen (slice p a b) = b - a) as Hzs by (rewrite zlen_slice; lia).
  split; [apply zlen_splice; rewrite ?zlen_be16; lia|].
  split; [exists (a + f); intros i H0 H1 H2; apply byte_at_splice_out; rewrite ?zlen_be16; lia|].
  rewrite (verify_patched p src dst a b f) by (done || lia).
  destruct (pseudo_header_family (transport_protocol p) src dst (Z.min len 65535)
    (addrs_one_family p src dst Es Ed)) as [ph Hph].
  unfold transport_payload. rewrite Er.
  apply (stored_sum_verifies _ _ _ _ _ f len sum ph); try done; try lia; [bok|].
  rewrite Hzs. done.
Qed.

Lemma recompute_transport_checksum_verifies_witness :
  let p := [0x45;0;0;32;0;0;0;0;64;17;0;0;10;0;0;1;10;0;0;2;0x13;0x88;0;53;0;12;0;0;1;2;3;4] in
  exists p', recompute_transport_checksum p = (p', true) /\ verify_transport_checksum p' = Some true.
Proof.
  intros p. eexists. split; [vm_compute; reflexivity|].
  refine (proj2 (proj2 (recompute_transport_checksum_verifies p _ _ _))).
  - repeat constructor; lia.
  - vm_compute; reflexivity.
Defined.
