(* ===== verification/Frame.v ===== *)
(** * Ethernet frames ([src/src/frame.rs], [src/src/mac.rs], and the VLAN tag
      functions of [src/src/build.rs])

    [Frame] is a transparent newtype over the bytes; a [MacAddr] is its six
    octets.  Accessors, the two in-place setters, [build_frame], and pushing
    and popping an 802.1Q tag. *)

From S2P Require Import Prelude.

Definition VLAN : Z := 0x8100.

Definition BROADCAST_MAC : list Z := [0xff; 0xff; 0xff; 0xff; 0xff; 0xff].

Definition mac_ok (m : list Z) : Prop := zlen m = 6 /\ bytes_ok m.

Definition mac_is_broadcast (m : list Z) : bool := bool_decide (m = BROADCAST_MAC).
Definition mac_is_multicast (m : list Z) : bool := negb (Z.land m.[0] 1 =? 0).

(** ** Accessors *)

Definition raw_ether_type (f : list Z) : Z := of_be16 f.[12] f.[13].

Definition frame_is_valid (f : list Z) : bool := 14 <=? zlen f.

Definition dst_mac (f : list Z) : option (list Z) :=
  if zlen f <? 14 then None else Some (slice f 0 6).
Definition src_mac (f : list Z) : option (list Z) :=
  if zlen f <? 14 then None else Some (slice f 6 12).

Definition has_vlan (f : list Z) : bool := (18 <=? zlen f) && (raw_ether_type f =? VLAN).

Definition vlan_id (f : list Z) : Z :=
  if negb (has_vlan f) then 0 else Z.land (of_be16 f.[14] f.[15]) 0x0FFF.
Definition vlan_pcp (f : list Z) : Z :=
  if negb (has_vlan f) then 0 else Z.shiftr f.[14] 5.
Definition vlan_dei (f : list Z) : bool := has_vlan f && negb (Z.land f.[14] 0x10 =? 0).
Definition vlan_tci (f : list Z) : option Z :=
  if negb (has_vlan f) then None else Some (of_be16 f.[14] f.[15]).

Definition ether_type (f : list Z) : Z :=
  if zlen f <? 14 then 0
  else let et := raw_ether_type f in
       if (et =? VLAN) && (18 <=? zlen f) then of_be16 f.[16] f.[17] else et.

Definition frame_header_len (f : list Z) : Z := if has_vlan f then 18 else 14.

Definition frame_payload (f : list Z) : list Z :=
  let hl := frame_header_len f in
  if zlen f <? hl then [] else zdrop hl f.

Definition frame_is_broadcast (f : list Z) : bool :=
  (6 <=? zlen f) && bool_decide (ztake 6 f = BROADCAST_MAC).
Definition frame_is_multicast (f : list Z) : bool :=
  negb (zlen f =? 0) && negb (Z.land f.[0] 1 =? 0).

Definition set_dst_mac (f mac : list Z) : list Z := if zlen f <? 14 then f else splice f 0 mac.
Definition set_src_mac (f mac : list Z) : list Z := if zlen f <? 14 then f else splice f 6 mac.

Definition build_frame (dst src : list Z) (ether_type : Z) (payload : list Z) : list Z :=
  dst ++ src ++ be16 ether_type ++ payload.

(** ** VLAN tags *)

Definition push_vlan (frame : list Z) (vid pcp : Z) : list Z :=
  if (zlen frame <? 14) || has_vlan frame then frame
  else let tci := Z.lor (u16 (Z.shiftl (Z.land pcp 0x07) 13)) (Z.land vid 0x0FFF) in
       slice frame 0 12 ++ be16 VLAN ++ be16 tci ++ zdrop 12 frame.

Definition pop_vlan (frame : list Z) : list Z :=
  if negb (has_vlan frame) then frame else slice frame 0 12 ++ zdrop 16 frame.

(** ** Properties *)

(** The tag control information as a sum of its two fields. *)
Lemma tci_sum pcp vid :
  Z.lor (u16 (Z.shiftl (Z.land pcp 0x07) 13)) (Z.land vid 0x0FFF)
  = Z.land pcp 7 * 8192 + Z.land vid 0xFFF /\
  0 <= Z.land pcp 7 < 8 /\ 0 <= Z.land vid 0xFFF < 4096.
Proof.
  change 7 with (Z.ones 3). change 0xFFF with (Z.ones 12). rewrite !Z.land_ones by lia.
  pose proof (Z.mod_pos_bound pcp (2 ^ 3) ltac:(lia)). pose proof (Z.mod_pos_bound vid (2 ^ 12) ltac:(lia)).
  split; [|lia]. rewrite Z.shiftl_mul_pow2 by lia. unfold u16. rewrite (Z.mod_small (_ * _)) by lia.
  apply (lor_add (pcp mod 2 ^ 3) (vid mod 2 ^ 12) 13); lia.
Qed.

Section Push.
Context (f : list Z) (vid pcp : Z).
Hypothesis Hlen : 14 <= zlen f.
Hypothesis Hun : has_vlan f = false.

Lemma push_vlan_eq :
  push_vlan f vid pcp
  = ztake 12 f ++ [0x81; 0x00] ++ be16 (Z.land pcp 7 * 8192 + Z.land vid 0xFFF) ++ zdrop 12 f.
Proof.
  unfold push_vlan. rewrite Hun. case_if; [bool2prop; lia|].
  rewrite slice_from_0, (proj1 (tci_sum pcp vid)). done.
Qed.

Lemma zlen_push_vlan : zlen (push_vlan f vid pcp) = zlen f + 4.
Proof.
  rewrite push_vlan_eq, !zlen_app, zlen_ztake, zlen_zdrop, zlen_be16. change (zlen [129; 0]) with 2. lia.
Qed.

(** The bytes of the tagged frame after the addresses. *)
Lemma push_vlan_byte i :
  0 <= i ->
  (push_vlan f vid pcp).[12 + i] =
  ([0x81; 0x00] ++ be16 (Z.land pcp 7 * 8192 + Z.land vid 0xFFF) ++ zdrop 12 f).[i].
Proof.
  intros Hi. rewrite push_vlan_eq.
  rewrite byte_at_app_r by (rewrite zlen_ztake; lia). f_equal. rewrite zlen_ztake; lia.
Qed.

Lemma has_vlan_push : has_vlan (push_vlan f vid pcp) = true.
Proof.
  unfold has_vlan. rewrite zlen_push_vlan.
  apply andb_true_iff; split; [apply Z.leb_le; lia|]. apply Z.eqb_eq. unfold raw_ether_type.
  change 12 with (12 + 0) at 1. change 13 with (12 + 1) at 1. rewrite !push_vlan_byte by lia. done.
Qed.
End Push.

(** A frame tagged and read back. *)
Lemma push_vlan_facts (f : list Z) (vid pcp : Z) :
  bytes_ok f -> 14 <= zlen f -> has_vlan f = false ->
  let t := push_vlan f vid pcp in
  has_vlan t = true /\ vlan_id t = Z.land vid 0xFFF /\ vlan_pcp t = Z.land pcp 7 /\
  dst_mac t = dst_mac f /\ src_mac t = src_mac f /\ ether_type t = raw_ether_type f /\
  pop_vlan t = f.
Proof.
  intros Hb Hl Hu t. pose proof (has_vlan_push f vid pcp Hl Hu) as Ht.
  pose proof (zlen_push_vlan f vid pcp Hl Hu) as Hz. pose proof (push_vlan_eq f vid pcp Hl Hu) as Eq.
  pose proof (push_vlan_byte f vid pcp Hl Hu) as Hby. fold t in Ht, Hz, Eq, Hby.
  destruct (tci_sum pcp vid) as (_ & H1 & H2).
  set (tci := Z.land pcp 7 * 8192 + Z.land vid 0xFFF) in *.
  assert (t.[14] = tci / 256 /\ t.[15] = tci mod 256) as [H14 H15].
  { split; [change 14 with (12 + 2)|change 15 with (12 + 3)]; rewrite Hby by lia; done. }
  assert (zlen (ztake 12 f) = 12) as H12 by (rewrite zlen_ztake; lia).
  assert (forall a b, 0 <= a -> b <= 12 -> slice t a b = slice f a b) as Hs.
  { intros a b ??. rewrite Eq, slice_app_l by lia.
    rewrite <- (ztake_zdrop 12 f) at 2. rewrite slice_app_l by lia. done. }
  split_and!.
  - done.
  - unfold vlan_id. rewrite Ht. cbn [negb]. rewrite H14, H15, of_be16_be16.
    change 0xFFF with (Z.ones 12) at 1. rewrite Z.land_ones by lia. unfold tci.
    change 8192 with (2 * 2 ^ 12). rewrite Z.mul_assoc, Z.add_comm, Z.mod_add, Z.mod_small by lia. done.
  - unfold vlan_pcp. rewrite Ht. cbn [negb]. rewrite H14, Z.shiftr_div_pow2 by lia.
    rewrite Z.div_div by lia. unfold tci. change (256 * 2 ^ 5) with 8192.
    rewrite Z.div_add_l, Z.div_small by lia. lia.
  - unfold dst_mac. rewrite Hz, Hs by lia. repeat case_if; (done || lia).
  - unfold src_mac. rewrite Hz, Hs by lia. repeat case_if; (done || lia).
  - unfold ether_type. rewrite Hz. unfold has_vlan in Ht. bool2prop. case_if; [lia|].
    rewrite H0, Z.eqb_refl. case_if; [|bool2prop; lia]. unfold raw_ether_type.
    change 16 with (12 + 4). change 17 with (12 + 5). rewrite !Hby by lia.
    rewrite !app_assoc, !(byte_at_app_r ([0x81; 0] ++ be16 tci)) by done.
    change (zlen ([0x81; 0] ++ be16 tci)) with 4. rewrite !byte_at_zdrop by lia. done.
  - unfold pop_vlan. rewrite Ht. cbn [negb]. rewrite Hs, slice_from_0 by lia.
    rewrite <- (ztake_zdrop 12 f) at 2. f_equal. rewrite Eq.
    rewrite zdrop_app_ge by lia. rewrite H12, app_assoc, zdrop_app_ge by done. apply zdrop_nonpos. done.
Qed.

(** Pushing an 802.1Q tag on an untagged frame and reading it back gives the
    VLAN id (12 bits) and priority (3 bits) asked for, with the addresses
    and the frame's protocol unchanged, and popping the tag restores the
    frame byte for byte. *)
Theorem push_pop_vlan (f : list Z) (vid pcp : Z) :
  bytes_ok f -> 14 <= zlen f -> has_vlan f = false ->
  let t := push_vlan f vid pcp in
  has_vlan t = true /\ vlan_id t = Z.land vid 0xFFF /\ vlan_pcp t = Z.land pcp 7 /\
  dst_mac t = dst_mac f /\ src_mac t = src_mac f /\ ether_type t = raw_ether_type f /\
  pop_vlan t = f.
Proof. apply push_vlan_facts. Qed.

Lemma push_pop_vlan_witness :
  let f := [1;2;3;4;5;6;7;8;9;10;11;12;8;0;0x45] in
  vlan_id (push_vlan f 100 5) = 100 /\ pop_vlan (push_vlan f 100 5) = f.
Proof.
  intros f.
  destruct (push_pop_vlan f 100 5) as (_ & H1 & _ & _ & _ & _ & H2).
  - repeat constructor; lia.
  - vm_compute; discriminate.
  - reflexivity.
  - split; [exact H1|exact H2].
Defined.
