(* ===== verification/Build.v ===== *)
(** * Packet constructors ([src/src/build.rs])

    The builders of IP packets and transport PDUs.  The theorems close the
    loop with [packet.rs]: what is built parses back to what was asked for,
    and both checksums verify. *)

From S2P Require Import Prelude Ip Checksum Packet Transport.

Definition build_ipv4 (src dst proto ttl : Z) (payload : list Z) : list Z :=
  let total := 20 + zlen payload in
  let v := [0x45; 0] ++ be16 (Z.min total 65535) ++ [0; 0] ++ [0; 0] ++ [ttl; proto] ++ [0; 0]
           ++ octets (V4 src) ++ octets (V4 dst) in
  let sum := checksum (slice v 0 20) in
  splice v 10 (be16 sum) ++ payload.

Definition build_ipv6 (src dst next_header hop_limit : Z) (payload : list Z) : list Z :=
  [0x60; 0; 0; 0] ++ be16 (Z.min (zlen payload) 65535) ++ [next_header; hop_limit]
  ++ octets (V6 src) ++ octets (V6 dst) ++ payload.

Definition build_ip (src dst : IpAddr) (proto hop_limit : Z) (payload : list Z)
  : option (list Z) :=
  match src, dst with
  | V4 s, V4 d => Some (build_ipv4 s d proto hop_limit payload)
  | V6 s, V6 d => Some (build_ipv6 s d proto hop_limit payload)
  | _, _ => None
  end.

Definition build_udp (src dst : IpAddr) (src_port dst_port : Z) (payload : list Z) : list Z :=
  let len := 8 + zlen payload in
  let v := be16 src_port ++ be16 dst_port ++ be16 (Z.min len 65535) ++ [0; 0] ++ payload in
  let sum := transport_checksum UDP src dst v in
  let sum := if sum =? 0 then 0xFFFF else sum in
  splice v 6 (be16 sum).

Definition build_tcp (src dst : IpAddr) (src_port dst_port seq ack flags window : Z)
  (payload : list Z) : list Z :=
  let v := be16 src_port ++ be16 dst_port ++ be32 seq ++ be32 ack ++ [Z.shiftl 5 4; flags]
           ++ be16 window ++ [0; 0] ++ [0; 0] ++ payload in
  let sum := transport_checksum TCP src dst v in
  splice v 16 (be16 sum).

Definition build_icmpv4 (message_type code : Z) (rest_of_header payload : list Z) : list Z :=
  let v := [message_type; code] ++ [0; 0] ++ rest_of_header ++ payload in
  splice v 2 (be16 (checksum v)).

Definition build_icmpv6 (src dst message_type code : Z) (rest_of_header payload : list Z)
  : list Z :=
  let v := [message_type; code] ++ [0; 0] ++ rest_of_header ++ payload in
  splice v 2 (be16 (transport_checksum ICMPV6 (V6 src) (V6 dst) v)).

(** ** What a built packet parses to *)

(** Everything [packet.rs] reads from an IP packet, at once. *)
Record parses_to (p : list Z) (src dst : IpAddr) (proto hl : Z) (payload : list Z) : Prop := {
  pt_ok : bytes_ok p;
  pt_valid : pkt_is_valid p = true;
  pt_src : src_addr p = Some src;
  pt_dst : dst_addr p = Some dst;
  pt_pdst : pseudo_header_dst p = Some dst;
  pt_proto : transport_protocol p = proto;
  pt_hl : hop_limit p = hl;
  pt_total : total_len p = zlen p;
  pt_nofrag : is_fragment p = false;
  pt_payload : transport_payload p = payload;
  pt_sum : verify_ipv4_checksum p = true }.

Lemma max_ext_headers_S : exists n, MAX_EXT_HEADERS = S n.
Proof. with_strategy transparent [MAX_EXT_HEADERS] (exists 15%nat; reflexivity). Qed.

(** The walks stop at once when the first header is a transport one. *)
Lemma walks_no_ext p nh dst :
  is_ipv6_ext_header nh = false ->
  skip_ext_loop MAX_EXT_HEADERS p nh 40 = Some (nh, 40) /\
  is_fragment_loop MAX_EXT_HEADERS p nh 40 = false /\
  pseudo_dst_loop MAX_EXT_HEADERS p dst nh 40 = dst.
Proof.
  intros Hne. destruct max_ext_headers_S as [n ->]. cbn [skip_ext_loop is_fragment_loop pseudo_dst_loop].
  assert ((nh =? ROUTING) = false) as ER.
  { unfold is_ipv6_ext_header in Hne. bool2prop. apply Z.eqb_neq. done. }
  apply not_ext_cases in Hne as (E1 & E2 & E3). rewrite ER, E1, E2, E3. done.
Qed.

Lemma of_be_bytes_octets a : addr_ok a ->
  of_be_bytes (octets a) = match a with V4 x | V6 x => x end.
Proof. destruct a; cbn [addr_ok octets]; intros; apply of_be_bytes_be_bytes; lia. Qed.

Section V4.
Context (src dst proto ttl : Z) (payload : list Z).
Hypothesis Hsrc : addr_ok (V4 src).
Hypothesis Hdst : addr_ok (V4 dst).
Hypothesis Hproto : byte_ok proto.
Hypothesis Httl : byte_ok ttl.
Hypothesis Hpay : bytes_ok payload.
Hypothesis Hlen : 20 + zlen payload <= 65535.

Let p := build_ipv4 src dst proto ttl payload.

(** The header with its checksum in place. *)
Lemma build_ipv4_split : exists c : Z,
  let h := ([0x45; 0] ++ be16 (20 + zlen payload) ++ [0; 0; 0; 0; ttl; proto] ++ be16 c)
           ++ octets (V4 src) ++ octets (V4 dst) in
  p = h ++ payload /\ bytes_ok h /\ checksum h = 0.
Proof.
  pose proof (zlen_nonneg payload).
  set (v := [0x45; 0] ++ be16 (20 + zlen payload) ++ [0; 0] ++ [0; 0] ++ [ttl; proto] ++ [0; 0]
            ++ octets (V4 src) ++ octets (V4 dst)).
  assert (bytes_ok v) as Hv by (unfold v; cbn [octets]; bok).
  pose proof (checksum_bound v Hv). exists (checksum v). cbv zeta. split_and!.
  - unfold p, build_ipv4. rewrite Z.min_l by lia. fold v.
    change 20 with (zlen v) at 1. rewrite slice_full. reflexivity.
  - cbn [octets]. bok.
  - apply (splice_checksum_verifies v 10); (done || lia).
Qed.

Lemma build_ipv4_parses : parses_to p (V4 src) (V4 dst) proto ttl payload.
Proof.
  destruct build_ipv4_split as (c & Ep & Hh & Hc). pose proof (zlen_nonneg payload).
  set (h := _ ++ octets (V4 src) ++ octets (V4 dst)) in *.
  assert (zlen h = 20) as Hzh by reflexivity.
  assert (zlen p = 20 + zlen payload) as Hz by (rewrite Ep, zlen_app; lia).
  assert (forall i, 0 <= i < 20 -> p.[i] = h.[i]) as Hb
    by (intros; rewrite Ep; apply byte_at_app_l; lia).
  assert (forall a b, 0 <= a -> b <= 20 -> slice p a b = slice h a b) as Hs
    by (intros; rewrite Ep; apply slice_app_l; lia).
  assert (version p = 4) as E4 by (unfold version; rewrite Hb by lia; case_if; [lia|done]).
  assert (ipv4_header_len p = 20) as E20
    by (unfold ipv4_header_len; rewrite Hb by lia; case_if; [lia|done]).
  assert (ipv4_total_len p = zlen p) as Etl.
  { unfold ipv4_total_len. rewrite !Hb by lia. case_if; [lia|].
    etrans; [apply of_be16_be16|lia]. }
  assert (src_addr p = Some (V4 src) /\ dst_addr p = Some (V4 dst)) as [Es Ed].
  { unfold src_addr, dst_addr, ipv4_src_addr, ipv4_dst_addr. rewrite E4, !Hs by lia.
    destruct (zlen p <? 16) eqn:?; bool2prop; [lia|]. destruct (zlen p <? 20) eqn:?; bool2prop; [lia|].
    split; cbn [Z.eqb Pos.eqb fmap option_fmap option_map]; do 2 f_equal;
      [apply (of_be_bytes_octets (V4 src))|apply (of_be_bytes_octets (V4 dst))]; done. }
  assert (payload_range p = Some (20, zlen p)) as Er.
  { unfold payload_range. rewrite E4, E20, Etl. repeat (case_if; try done). bool2prop. lia. }
  split; try done.
  - rewrite Ep. bok.
  - unfold pkt_is_valid. rewrite E4, E20. destruct (20 <=? zlen p) eqn:?; [done|bool2prop; lia].
  - unfold pseudo_header_dst. rewrite Ed, E4. done.
  - unfold transport_protocol, ipv4_protocol. rewrite E4, Hb by lia.
    destruct (zlen p <? 10) eqn:?; [bool2prop; lia|done].
  - unfold hop_limit, ipv4_ttl. rewrite E4, Hb by lia.
    destruct (zlen p <? 9) eqn:?; [bool2prop; lia|done].
  - unfold is_fragment, ipv4_is_fragment, ipv4_more_fragments, ipv4_fragment_offset.
    rewrite E4, !Hb by lia. destruct (7 <=? zlen p) eqn:?; bool2prop; [|lia].
    destruct (zlen p <? 8) eqn:?; bool2prop; [lia|]. done.
  - unfold transport_payload. rewrite Er, slice_to_end, Ep, <- Hzh. apply zdrop_app.
  - unfold verify_ipv4_checksum. rewrite E4, E20, Ep.
    destruct (zlen (h ++ payload) <? 20) eqn:?; bool2prop; [rewrite zlen_app in *; lia|].
    cbn [Z.eqb Pos.eqb Z.ltb Z.compare Pos.compare Pos.compare_cont orb]. rewrite <- Hzh, ztake_app, Hc. done.
Qed.
End V4.

Section V6.
Context (src dst proto hl : Z) (payload : list Z).
Hypothesis Hsrc : addr_ok (V6 src).
Hypothesis Hdst : addr_ok (V6 dst).
Hypothesis Hproto : byte_ok proto.
Hypothesis Hne : is_ipv6_ext_header proto = false.
Hypothesis Hhl : byte_ok hl.
Hypothesis Hpay : bytes_ok payload.
Hypothesis Hlen : zlen payload <= 65535.

Let p := build_ipv6 src dst proto hl payload.

Lemma build_ipv6_parses : parses_to p (V6 src) (V6 dst) proto hl payload.
Proof.
  pose proof (zlen_nonneg payload).
  set (h := ([0x60; 0; 0; 0] ++ be16 (zlen payload) ++ [proto; hl]) ++ octets (V6 src) ++ octets (V6 dst)).
  assert (zlen h = 40) as Hzh by reflexivity.
  assert (p = h ++ payload) as Ep.
  { unfold p, build_ipv6, h. rewrite Z.min_l, <- !app_assoc by lia. done. }
  assert (zlen p = 40 + zlen payload) as Hz by (rewrite Ep, zlen_app; lia).
  assert (forall i, 0 <= i < 40 -> p.[i] = h.[i]) as Hb
    by (intros; rewrite Ep; apply byte_at_app_l; lia).
  assert (forall a b, 0 <= a -> b <= 40 -> slice p a b = slice h a b) as Hs
    by (intros; rewrite Ep; apply slice_app_l; lia).
  assert (p.[6] = proto) as E6' by (rewrite Hb by lia; done).
  assert (version p = 6) as E6 by (unfold version; rewrite Hb by lia; case_if; [lia|done]).
  assert ((zlen p <? 40) = false) as H40 by (apply Z.ltb_ge; lia).
  destruct (walks_no_ext p proto (V6 dst) Hne) as (W1 & W2 & W3).
  assert (ipv6_transport p = (proto, 40)) as Et
    by (apply ipv6_transport_eq; [done|lia|rewrite E6'; done]).
  assert (ipv6_payload_len p = zlen payload) as Epl.
  { unfold ipv6_payload_len. rewrite !Hb by lia. case_if; [lia|]. apply of_be16_be16. }
  assert (src_addr p = Some (V6 src) /\ dst_addr p = Some (V6 dst)) as [Es Ed].
  { unfold src_addr, dst_addr, ipv6_src_addr, ipv6_dst_addr. rewrite E6, !Hs, H40 by lia.
    destruct (zlen p <? 24) eqn:?; bool2prop; [lia|].
    split; cbn [Z.eqb Pos.eqb fmap option_fmap option_map]; do 2 f_equal;
      [apply (of_be_bytes_octets (V6 src))|apply (of_be_bytes_octets (V6 dst))]; done. }
  split; try done.
  - rewrite Ep. unfold h. cbn [octets]. bok.
  - unfold pkt_is_valid. rewrite E6. apply Z.leb_le. lia.
  - unfold pseudo_header_dst. rewrite Ed, E6, H40, E6'. cbn [mbind option_bind Z.eqb Pos.eqb negb orb].
    apply (f_equal Some W3).
  - unfold transport_protocol. rewrite E6, Et. done.
  - unfold hop_limit, ipv6_hop_limit. rewrite E6, Hb by lia.
    destruct (zlen p <? 8) eqn:?; [bool2prop; lia|done].
  - unfold total_len. rewrite E6, Epl. cbn [Z.eqb Pos.eqb]. lia.
  - unfold is_fragment, ipv6_is_fragment. rewrite E6, H40, E6'. done.
  - unfold transport_payload, payload_range. rewrite E6, Et, Epl. cbn [Z.eqb Pos.eqb fst snd].
    rewrite Z.min_l, <- Hz by lia. case_if.
    + symmetry. apply zlen_zero. lia.
    + rewrite slice_to_end, Ep, <- Hzh. apply zdrop_app.
Qed.
End V6.

(** ** Building and parsing back *)

(** The longest transport PDU one IP packet of the family carries, extension
    headers aside. *)
Definition max_pdu (a : IpAddr) : Z := match a with V4 _ => 65515 | V6 _ => 65535 end.

Lemma build_ip_parses src dst proto hl payload p :
  addr_ok src -> addr_ok dst -> byte_ok proto -> is_ipv6_ext_header proto = false ->
  byte_ok hl -> bytes_ok payload -> zlen payload <= max_pdu src ->
  build_ip src dst proto hl payload = Some p -> parses_to p src dst proto hl payload.
Proof.
  intros Hs Hd Hp Hne Hh Hb Hl. destruct src, dst; cbn [build_ip max_pdu] in *; intros [= <-].
  - apply build_ipv4_parses; (done || lia).
  - apply build_ipv6_parses; done.
Qed.

(** An IP packet built around a payload, of either version, is valid and
    parses back to exactly the addresses, protocol, hop limit and payload it
    was built from; its length field is its length, it is not a fragment,
    and the IPv4 header checksum verifies.  [build_ip] fails only on
    addresses of different families. *)
Theorem build_ip_parses_back src dst proto hl payload :
  addr_ok src -> addr_ok dst -> byte_ok proto -> is_ipv6_ext_header proto = false ->
  byte_ok hl -> bytes_ok payload -> zlen payload <= max_pdu src ->
  match build_ip src dst proto hl payload with
  | Some p => parses_to p src dst proto hl payload
  | None => max_bits src <> max_bits dst
  end.
Proof.
  intros. destruct (build_ip _ _ _ _ _) eqn:E; [eapply build_ip_parses; done|].
  destruct src, dst; done.
Qed.

Lemma build_ip_parses_back_witness :
  let pdu := build_icmpv4 8 0 [0; 1; 0; 2] [1; 2; 3] in
  exists p, build_ip (V4 0x0A000001) (V4 0x0A000002) ICMP 64 pdu = Some p /\
            transport_payload p = pdu /\ verify_ipv4_checksum p = true.
Proof.
  intros pdu.
  assert (match build_ip (V4 0x0A000001) (V4 0x0A000002) ICMP 64 pdu with
          | Some p => parses_to p (V4 0x0A000001) (V4 0x0A000002) ICMP 64 pdu
          | None => max_bits (V4 0x0A000001) <> max_bits (V4 0x0A000002) end) as H.
  { apply build_ip_parses_back; cbn [addr_ok]; try lia; try reflexivity;
      try (unfold byte_ok, ICMP; lia).
    - unfold pdu. repeat constructor; vm_compute; try discriminate; reflexivity.
    - vm_compute. discriminate. }
  cbn [build_ip] in *. eexists. split; [reflexivity|].
  split; [exact (pt_payload _ _ _ _ _ _ H)|exact (pt_sum _ _ _ _ _ _ H)].
Defined.

(** Verifying a built packet is verifying its PDU. *)
Lemma parses_verify p src dst proto hl payload v :
  parses_to p src dst proto hl payload -> version p = v ->
  verify_transport_checksum p = verify_payload proto v src dst payload.
Proof.
  intros H <-. unfold verify_transport_checksum.
  rewrite (pt_src _ _ _ _ _ _ H), (pt_pdst _ _ _ _ _ _ H), (pt_nofrag _ _ _ _ _ _ H),
    (pt_proto _ _ _ _ _ _ H), (pt_payload _ _ _ _ _ _ H). done.
Qed.

Lemma parses_five_tuple p src dst proto hl payload :
  parses_to p src dst proto hl payload -> proto = TCP \/ proto = UDP -> 4 <= zlen payload ->
  five_tuple p = Some (mkTuple src dst (of_be16 payload.[0] payload.[1])
                               (of_be16 payload.[2] payload.[3]) proto).
Proof.
  intros H Hp Hl. unfold five_tuple.
  rewrite (pt_src _ _ _ _ _ _ H), (pt_dst _ _ _ _ _ _ H), (pt_nofrag _ _ _ _ _ _ H),
    (pt_proto _ _ _ _ _ _ H), (pt_payload _ _ _ _ _ _ H). cbn [mbind option_bind].
  replace ((proto =? TCP) || (proto =? UDP)) with true by (destruct Hp as [->| ->]; done).
  replace (4 <=? zlen payload) with true by (symmetry; apply Z.leb_le; lia). done.
Qed.

(** A PDU of known checksum offset, summed with the field zero, verifies. *)
Lemma pdu_stored_verifies proto v src dst d f ph :
  bytes_ok d -> checksum_field proto = Some f -> f + 2 <= zlen d ->
  (if proto =? UDP then udp_len d = Some (zlen d) else True) ->
  (proto = TCP -> 20 <= zlen d) ->
  slice d f (f + 2) = [0; 0] ->
  ((proto =? ICMP) = true \/ pseudo_header proto src dst (Z.min (zlen d) 65535) = Some ph) ->
  let s := if proto =? ICMP then checksum d else transport_checksum proto src dst d in
  let sum := if (proto =? UDP) && (s =? 0) then 0xFFFF else s in
  verify_payload proto v src dst (splice d f (be16 sum)) = Some true.
Proof.
  intros Hd Hf Hl Hul Htcp H0 Hph s sum.
  destruct (checksum_field_not_ext _ _ Hf) as (_ & _ & Heven & Hf0).
  assert (splice d f [0; 0] = d) as Ez.
  { rewrite <- H0. apply splice_slice_same; lia. }
  destruct Hph as [Hi|Hph].
  - bool2prop. subst proto. injection Hf as <-. unfold verify_payload.
    rewrite !zlen_splice by (rewrite ?zlen_be16; lia). cbn [Z.eqb Pos.eqb andb].
    destruct (4 <=? zlen d) eqn:?; bool2prop; [|lia].
    change (ICMP =? TCP) with false. change (ICMP =? UDP) with false.
    change (ICMP =? ICMPV6) with false. change (ICMP =? ICMP) with true. cbn [andb].
    f_equal. apply Z.eqb_eq. unfold sum, s. change (ICMP =? UDP) with false.
    change (ICMP =? ICMP) with true. cbn [andb].
    rewrite <- Ez at 2. apply splice_checksum_verifies; (done || lia).
  - erewrite (stored_sum_verifies proto v src dst d f (zlen d) sum ph); try done; try lia.
    + case_if; [|done]. apply Htcp in H. lia.
    + destruct (proto =? UDP); done.
    + cbv zeta. rewrite (ztake_all (zlen d) d), Ez by lia. done.
Qed.

(** Two addresses of one family always have a pseudo-header. *)
Lemma build_ip_family src dst proto hl d p n :
  build_ip src dst proto hl d = Some p -> exists ph, pseudo_header proto src dst n = Some ph.
Proof. intros H. apply pseudo_header_family. destruct src, dst; done. Qed.

(** Storing the computed sum keeps the PDU's length and its bytes bytes. *)
Lemma stored_pdu_ok proto src dst v f ph :
  checksum_field proto = Some f -> bytes_ok v -> f + 2 <= zlen v -> slice v f (f + 2) = [0; 0] ->
  pseudo_header proto src dst (Z.min (zlen v) 65535) = Some ph ->
  let q := splice v f (be16 (transport_checksum proto src dst v)) in
  zlen q = zlen v /\ bytes_ok q.
Proof.
  intros Hf Hv Hl H0 Hph q. destruct (checksum_field_not_ext _ _ Hf) as (_ & Hp & He & Hf0).
  split; [apply zlen_splice; rewrite ?zlen_be16; lia|].
  assert (splice v f [0; 0] = v) as Ez by (rewrite <- H0; apply splice_slice_same; lia).
  destruct (pdu_verifies proto src dst v f ph) as (Hc & _); try done; try lia.
  rewrite Ez in Hc. unfold q. bok.
Qed.

(** The UDP datagram before its checksum is stored. *)
Lemma build_udp_zeroed sp dp payload :
  0 <= sp < 65536 -> 0 <= dp < 65536 -> bytes_ok payload -> 8 + zlen payload <= 65535 ->
  let v := be16 sp ++ be16 dp ++ be16 (8 + zlen payload) ++ [0; 0] ++ payload in
  bytes_ok v /\ zlen v = 8 + zlen payload /\ udp_len v = Some (zlen v) /\
  slice v 6 8 = [0; 0].
Proof.
  intros Hs Hd Hp Hl v. pose proof (zlen_nonneg payload).
  assert (zlen v = 8 + zlen payload) as Hz by (unfold v; autorewrite with zlen; lia).
  split_and!; [unfold v; bok|done| |reflexivity].
  unfold udp_len. rewrite !get_byte by lia. cbn [mbind option_bind].
  assert (of_be16 v.[4] v.[5] = zlen v) as -> by (rewrite Hz; apply of_be16_be16).
  rewrite (proj2 (Z.leb_le 8 (zlen v))), Z.leb_refl by lia. done.
Qed.

(** A UDP datagram built for a pair of addresses and wrapped in an IP packet
    of the same pair verifies end to end: the transport checksum is right
    (and never the 0 that means "none"), the 5-tuple reads back the
    addresses and ports, and the datagram's data is the payload. *)
Theorem build_udp_end_to_end src dst sp dp hl payload p :
  addr_ok src -> addr_ok dst -> 0 <= sp < 65536 -> 0 <= dp < 65536 -> byte_ok hl ->
  bytes_ok payload -> 8 + zlen payload <= max_pdu src ->
  build_ip src dst UDP hl (build_udp src dst sp dp payload) = Some p ->
  verify_ipv4_checksum p = true /\ verify_transport_checksum p = Some true /\
  five_tuple p = Some (mkTuple src dst sp dp UDP) /\
  zdrop 8 (transport_payload p) = payload.
Proof.
  intros Has Had Hsp Hdp Hhl Hb Hl Hp. pose proof (zlen_nonneg payload).
  assert (8 + zlen payload <= 65535) as Hl' by (destruct src; cbn in Hl; lia).
  destruct (build_udp_zeroed sp dp payload Hsp Hdp Hb Hl') as (Hv & Hz & Hul & H0).
  unfold build_udp in Hp. rewrite Z.min_l in Hp by lia.
  set (v := be16 sp ++ _) in *. cbv zeta in Hp.
  destruct (build_ip_family _ _ _ _ _ _ (Z.min (zlen v) 65535) Hp) as [ph Hph].
  pose proof (pdu_stored_verifies UDP (version p) src dst v 6 ph Hv eq_refl ltac:(lia) Hul
    ltac:(done) H0 (or_intror Hph)) as Hver.
  change (UDP =? ICMP) with false in Hver. change (UDP =? UDP) with true in Hver. cbn [andb] in Hver.
  cbv zeta in Hver. set (sum := if _ =? 0 then _ else _) in *.
  assert (0 <= sum < 65536) as Hsum.
  { destruct (transport_checksum_verifies UDP src dst (ztake 6 v) (zdrop 8 v) ph) as (Hc & _);
      [vm_compute; split; done|bok|bok|done|exact Hph|].
    change (ztake 6 v ++ [0; 0] ++ zdrop 8 v) with v in Hc. unfold sum. case_if; lia. }
  assert (zlen (splice v 6 (be16 sum)) = zlen v) as Hzs by (apply zlen_splice; rewrite ?zlen_be16; lia).
  apply build_ip_parses in Hp; try done; [|bok|lia].
  split_and!.
  - apply (pt_sum _ _ _ _ _ _ Hp).
  - erewrite parses_verify by done. exact Hver.
  - erewrite parses_five_tuple by (done || (rewrite Hzs; lia) || auto).
    rewrite !byte_at_splice_out by (rewrite ?zlen_be16; lia).
    do 2 f_equal; [apply (of_be16_be16 sp)|apply (of_be16_be16 dp)].
  - rewrite (pt_payload _ _ _ _ _ _ Hp). reflexivity.
Qed.

Lemma build_udp_end_to_end_witness :
  let src := V6 0x20010db8000000000000000000000001 in
  let dst := V6 0x20010db8000000000000000000000002 in
  exists p, build_ip src dst UDP 64 (build_udp src dst 5000 53 [1; 2; 3]) = Some p /\
            verify_transport_checksum p = Some true.
Proof.
  intros src dst. eexists. split; [reflexivity|].
  eapply (build_udp_end_to_end src dst 5000 53 64 [1; 2; 3]); try reflexivity;
    cbn [addr_ok src dst]; try lia; try (unfold byte_ok; lia).
  - repeat constructor; lia.
  - vm_compute. discriminate.
Defined.

(** An ICMP message wrapped in a packet of the addresses it was summed for. *)
Definition icmp_pdu (ty code : Z) (rest payload : list Z) : list Z := [ty; code] ++ [0; 0] ++ rest ++ payload.

Lemma icmp_pdu_ok ty code rest payload :
  byte_ok ty -> byte_ok code -> bytes_ok rest -> zlen rest = 4 -> bytes_ok payload ->
  bytes_ok (icmp_pdu ty code rest payload) /\ zlen (icmp_pdu ty code rest payload) = 8 + zlen payload /\
  (forall c, splice (icmp_pdu ty code rest payload) 2 (be16 c) = [ty; code] ++ be16 c ++ rest ++ payload).
Proof.
  intros. unfold icmp_pdu. split_and!; [bok|autorewrite with zlen; lia|]. intros c. by apply (splice_app [ty; code] [0; 0]).
Qed.

Lemma build_icmpv4_verifies s d hl ty code rest payload :
  addr_ok (V4 s) -> addr_ok (V4 d) -> byte_ok hl -> byte_ok ty -> byte_ok code -> bytes_ok rest -> zlen rest = 4 ->
  bytes_ok payload -> 28 + zlen payload <= 65535 ->
  let m := build_icmpv4 ty code rest payload in
  let p := build_ipv4 s d ICMP hl m in
  parses_to p (V4 s) (V4 d) ICMP hl m /\ verify_transport_checksum p = Some true /\
  exists c, m = [ty; code] ++ be16 c ++ rest ++ payload.
Proof.
  intros Hs Hd Hhl Hty Hco Hr Hrl Hb Hl m p. destruct (icmp_pdu_ok ty code rest payload) as (Hv & Hz & Hsp); [done..|].
  set (v := icmp_pdu ty code rest payload) in *. pose proof (zlen_nonneg payload). pose proof (checksum_bound v Hv).
  assert (bytes_ok m) as Hm by (unfold m, build_icmpv4; fold (icmp_pdu ty code rest payload); fold v; bok).
  assert (zlen m = 8 + zlen payload) as Hzm
    by (unfold m, build_icmpv4; fold (icmp_pdu ty code rest payload); fold v; rewrite zlen_splice by (rewrite ?zlen_be16; lia); lia).
  assert (parses_to p (V4 s) (V4 d) ICMP hl m) as Hp by (apply build_ipv4_parses; (done || lia)).
  split; [done|]. split; [|exists (checksum v); apply Hsp].
  pose proof (pdu_stored_verifies ICMP (version p) (V4 s) (V4 d) v 2 [] Hv eq_refl ltac:(lia) I ltac:(done) eq_refl (or_introl eq_refl)) as Hver.
  cbn in Hver. erewrite parses_verify by done. exact Hver.
Qed.

Lemma build_icmpv6_verifies s d hl ty code rest payload :
  addr_ok (V6 s) -> addr_ok (V6 d) -> byte_ok hl -> byte_ok ty -> byte_ok code -> bytes_ok rest -> zlen rest = 4 ->
  bytes_ok payload -> 8 + zlen payload <= 65535 ->
  let m := build_icmpv6 s d ty code rest payload in
  let p := build_ipv6 s d ICMPV6 hl m in
  parses_to p (V6 s) (V6 d) ICMPV6 hl m /\ verify_transport_checksum p = Some true /\
  exists c, m = [ty; code] ++ be16 c ++ rest ++ payload.
Proof.
  intros Hs Hd Hhl Hty Hco Hr Hrl Hb Hl m p. destruct (icmp_pdu_ok ty code rest payload) as (Hv & Hz & Hsp); [done..|].
  set (v := icmp_pdu ty code rest payload) in *. pose proof (zlen_nonneg payload).
  destruct (build_ip_family (V6 s) (V6 d) ICMPV6 hl m p (Z.min (zlen v) 65535) eq_refl) as [ph Hph].
  pose proof (stored_pdu_ok ICMPV6 (V6 s) (V6 d) v 2 ph eq_refl Hv ltac:(lia) eq_refl Hph) as [Hzs Hok].
  assert (m = splice v 2 (be16 (transport_checksum ICMPV6 (V6 s) (V6 d) v))) as Em by done.
  assert (parses_to p (V6 s) (V6 d) ICMPV6 hl m) as Hp by (apply build_ipv6_parses; rewrite ?Em; (done || lia)).
  split; [done|]. split; [|eexists; apply Hsp].
  pose proof (pdu_stored_verifies ICMPV6 (version p) (V6 s) (V6 d) v 2 ph Hv eq_refl ltac:(lia) I ltac:(done) eq_refl (or_intror Hph)) as Hver.
  cbn in Hver. erewrite parses_verify by done. exact Hver.
Qed.

(** The same for the other builders: a TCP segment, an ICMPv4 message and an
    ICMPv6 message, built and wrapped in an IP packet of the addresses they
    were summed for, verify; the segment's 5-tuple reads back. *)
Theorem build_tcp_icmp_end_to_end src dst hl payload :
  addr_ok src -> addr_ok dst -> byte_ok hl -> bytes_ok payload ->
  20 + zlen payload <= max_pdu src ->
  (forall sp dp seq ack flags window p,
     0 <= sp < 65536 -> 0 <= dp < 65536 -> 0 <= seq < 2 ^ 32 -> 0 <= ack < 2 ^ 32 ->
     byte_ok flags -> 0 <= window < 65536 ->
     build_ip src dst TCP hl (build_tcp src dst sp dp seq ack flags window payload) = Some p ->
     verify_transport_checksum p = Some true /\
     five_tuple p = Some (mkTuple src dst sp dp TCP)) /\
  (forall ty code rest p,
     byte_ok ty -> byte_ok code -> bytes_ok rest -> zlen rest = 4 ->
     match src, dst with
     | V4 _, V4 _ => build_ip src dst ICMP hl (build_icmpv4 ty code rest payload) = Some p
     | V6 s, V6 d => build_ip src dst ICMPV6 hl (build_icmpv6 s d ty code rest payload) = Some p
     | _, _ => False
     end -> verify_transport_checksum p = Some true).
Proof.
  intros Has Had Hhl Hb Hl. pose proof (zlen_nonneg payload). split.
  - intros sp dp seq ack fl w p Hsp Hdp Hseq Hack Hfl Hw Hp. unfold build_tcp in Hp. cbv zeta in Hp.
    set (v := be16 sp ++ _) in *.
    assert (bytes_ok v) as Hv by (unfold v; change (Z.shiftl 5 4) with 80; bok).
    assert (zlen v = 20 + zlen payload) as Hz by (unfold v; autorewrite with zlen; lia).
    destruct (build_ip_family _ _ _ _ _ _ (Z.min (zlen v) 65535) Hp) as [ph Hph].
    pose proof (pdu_stored_verifies TCP (version p) src dst v 16 ph Hv eq_refl ltac:(lia) I
      ltac:(lia) eq_refl (or_intror Hph)) as Hver. cbn in Hver.
    pose proof (stored_pdu_ok TCP src dst v 16 ph eq_refl Hv ltac:(lia) eq_refl Hph) as [Hzs Hok].
    apply build_ip_parses in Hp; try done; [|rewrite Hzs; lia].
    split; [erewrite parses_verify by done; exact Hver|].
    erewrite parses_five_tuple by (done || (rewrite Hzs; lia) || auto).
    rewrite !byte_at_splice_out by (rewrite ?zlen_be16; lia).
    do 2 f_equal; [apply (of_be16_be16 sp)|apply (of_be16_be16 dp)].
  - intros ty code rest p Hty Hco Hr Hrl Hp. destruct src as [s|s], dst as [d|d]; try done; cbn [max_pdu build_ip] in *; injection Hp as <-.
    + by apply build_icmpv4_verifies; try lia.
    + by apply build_icmpv6_verifies; try lia.
Qed.

Lemma build_tcp_icmp_end_to_end_witness :
  let src := V4 0x0A000001 in
  let dst := V4 0x0A000002 in
  exists p q, build_ip src dst TCP 64 (build_tcp src dst 1234 80 1000 2000 0x12 65535 [1; 2; 3]) = Some p /\
    build_ip src dst ICMP 64 (build_icmpv4 8 0 [0; 1; 0; 2] [1; 2; 3]) = Some q /\
    verify_transport_checksum p = Some true /\ verify_transport_checksum q = Some true.
Proof.
  intros src dst.
  destruct (build_tcp_icmp_end_to_end src dst 64 [1; 2; 3]) as [H1 H2];
    [cbn; lia|cbn; lia|unfold byte_ok; lia|repeat constructor; lia|vm_compute; discriminate|].
  eexists _, _. split; [reflexivity|]. split; [reflexivity|]. split.
  - eapply (H1 1234 80 1000 2000 0x12 65535); try reflexivity; unfold byte_ok; lia.
  - eapply (H2 8 0 [0; 1; 0; 2]); try reflexivity; try (unfold byte_ok; lia). repeat constructor; lia.
Defined.
