(* ===== verification/Fragment.v ===== *)
(** * IPv4 fragmentation ([src/src/fragment.rs])

    [fragment], [fragment_ipv4] and [copied_options_header].  The two [while]
    loops run on fuel: the option walk advances by at least one byte and the
    fragment loop by at least eight, so the length of what they walk is
    enough.  The theorem covers every branch: which result each packet gets,
    and that the fragments are valid packets that put the payload back
    together. *)

From S2P Require Import Prelude Ip Checksum Packet.

Definition MIN_IPV4_MTU : Z := 68.
Definition MAX_FRAGMENT_OFFSET : Z := 0x1FFF * 8.

Inductive Fragmentation :=
| Fits
| Fragments (parts : list (list Z))
| DontFragment
| NotFragmentable.

(** The option walk of [copied_options_header]. *)
Fixpoint copy_options (fuel : nat) (opts : list Z) (i : Z) (out : list Z) : list Z :=
  match fuel with
  | O => out
  | S fuel =>
      if i <? zlen opts then
        let kind := opts.[i] in
        if kind =? 0 then out
        else if kind =? 1 then copy_options fuel opts (i + 1) out
        else if zlen opts <=? i + 1 then out
        else
          let len := opts.[i + 1] in
          if (len <? 2) || (zlen opts <? i + len) then out
          else copy_options fuel opts (i + len)
                 (if negb (Z.land kind 0x80 =? 0) then out ++ slice opts i (i + len) else out)
      else out
  end.

(** [while out.len() % 4 != 0 { out.push(0) }]: at most three rounds. *)
Fixpoint pad_words (fuel : nat) (out : list Z) : list Z :=
  match fuel with
  | O => out
  | S fuel => if zlen out mod 4 =? 0 then out else pad_words fuel (out ++ [0])
  end.

Definition copied_options_header (header : list Z) : list Z :=
  if zlen header <=? 20 then header
  else let opts := zdrop 20 header in
       pad_words 4 (copy_options (length opts) opts 0 (ztake 20 header)).

(** The packet the loop body assembles from a header and its share of the
    data. *)
Definition make_fragment (header data : list Z) (first : bool) (later_hl offset : Z)
  (more : bool) : list Z :=
  let p := header ++ data in
  let p := if first then p else set_byte p 0 (Z.lor 0x40 (u8 (later_hl / 4))) in
  let p := set_ipv4_total_len p (u16 (zlen header + zlen data)) in
  let p := set_ipv4_fragment_offset p offset in
  let p := set_ipv4_more_fragments p more in
  let p := set_ipv4_dont_fragment p false in
  recompute_ipv4_checksum p.

Section Loop.
Context (header later_header data : list Z) (first_room later_room base_offset : Z)
        (last_has_more : bool).

(** [while pos < data.len()]; [None] is the early [NotFragmentable]. *)
Fixpoint fragment_loop (fuel : nat) (pos : Z) : option (list (list Z)) :=
  match fuel with
  | O => None
  | S fuel =>
      if pos <? zlen data then
        let first := pos =? 0 in
        let room := if first then first_room else later_room in
        let take := Z.min room (zlen data - pos) in
        if MAX_FRAGMENT_OFFSET <? base_offset + pos then None
        else
          let header := if first then header else later_header in
          let more := (pos + take <? zlen data) || last_has_more in
          let frag := make_fragment header (slice data pos (pos + take)) first
                        (zlen later_header) (base_offset + pos) more in
          rest ← fragment_loop fuel (pos + take);
          Some (frag :: rest)
      else Some []
  end.
End Loop.

Definition fragment_ipv4 (buf : list Z) (mtu : Z) : Fragmentation :=
  let hl := ipv4_header_len buf in
  let total := ipv4_total_len buf in
  if negb (version buf =? 4) || (hl <? 20) || (total <? hl) || (zlen buf <? total)
  then NotFragmentable
  else if total <=? mtu then Fits
  else if ipv4_dont_fragment buf then DontFragment
  else
    let later_header := copied_options_header (ztake hl buf) in
    let later_hl := zlen later_header in
    if (mtu <? MIN_IPV4_MTU) || (mtu <=? hl) || (mtu <=? later_hl) then NotFragmentable
    else
      let first_room := (mtu - hl) / 8 * 8 in
      let later_room := (mtu - later_hl) / 8 * 8 in
      if (first_room =? 0) || (later_room =? 0) then NotFragmentable
      else
        let data := slice buf hl total in
        match fragment_loop (ztake hl buf) later_header data first_room later_room
                (ipv4_fragment_offset buf) (ipv4_more_fragments buf)
                (S (length data)) 0 with
        | Some out => Fragments out
        | None => NotFragmentable
        end.

Definition fragment (pkt : list Z) (mtu : Z) : Fragmentation :=
  if version pkt =? 4 then fragment_ipv4 pkt mtu
  else if version pkt =? 6 then if zlen pkt <=? mtu then Fits else NotFragmentable
  else NotFragmentable.

(** ** The flags and offset word *)

Lemma land_high_bits w : 0 <= w < 65536 -> Z.land w 0xE000 = w / 8192 * 2 ^ 13.
Proof.
  intros Hw. rewrite <- Z.shiftl_mul_pow2 by lia. change 8192 with (2 ^ 13).
  rewrite <- Z.shiftr_div_pow2 by lia. change 0xE000 with (Z.ldiff (Z.ones 16) (Z.ones 13)).
  apply Z.bits_inj'; intros n Hn. rewrite Z.land_spec, Z.ldiff_spec, Z.shiftl_spec by lia.
  destruct (decide (n < 13)).
  - rewrite (Z.ones_spec_low 13) by lia. rewrite (Z.testbit_neg_r _ (n - 13)) by lia.
    rewrite andb_false_r. apply andb_false_r.
  - rewrite (Z.ones_spec_high 13), Z.shiftr_spec by lia.
    replace (n - 13 + 13) with n by lia. rewrite andb_true_r.
    destruct (decide (n < 16)); [rewrite Z.ones_spec_low, andb_true_r by lia; done|].
    rewrite Z.ones_spec_high, andb_false_r by lia. symmetry. apply Z.testbit_false; [lia|].
    rewrite Z.div_small; [done|]. pose proof (Z.pow_le_mono_r 2 16 n); lia.
Qed.

(** The word [set_ipv4_fragment_offset] stores: the flags kept, the offset
    in units of eight bytes. *)
Lemma offset_word a b off :
  byte_ok a -> byte_ok b -> 0 <= off <= MAX_FRAGMENT_OFFSET ->
  Z.lor (Z.land (of_be16 a b) 0xE000) (Z.land (u16 (off / 8)) 0x1FFF) = a / 32 * 8192 + off / 8 /\
  0 <= off / 8 < 8192.
Proof.
  unfold MAX_FRAGMENT_OFFSET. intros Ha Hb Hoff.
  assert (0 <= off / 8 < 8192) as Hu by (split; [apply Z.div_pos|apply Z.div_lt_upper_bound]; lia).
  split; [|done]. rewrite land_high_bits by (apply of_be16_bound; done).
  unfold u16. rewrite (Z.mod_small (off / 8)) by lia. change 0x1FFF with (Z.ones 13).
  rewrite Z.land_ones, Z.mod_small by lia. rewrite lor_add by lia. change (2 ^ 13) with 8192.
  do 2 f_equal. unfold of_be16, byte_ok in *. change 8192 with (256 * 32).
  rewrite <- Z.div_div by lia. f_equal. rewrite Z.div_add_l, Z.div_small by lia. lia.
Qed.

(** The flag byte after MF is set as asked and DF is cleared. *)
Definition flag_byte (b : Z) (more : bool) : Z :=
  Z.land (if more then Z.lor b 0x20 else Z.land b (not8 0x20)) (not8 0x40).

Lemma flag_byte_spec b more :
  byte_ok b ->
  byte_ok (flag_byte b more) /\ flag_byte b more mod 32 = b mod 32 /\
  negb (Z.land (flag_byte b more) 0x20 =? 0) = more /\ Z.land (flag_byte b more) 0x40 = 0.
Proof.
  intros Hb.
  pose proof (byte_forall (fun b => forallb (fun more =>
      (0 <=? flag_byte b more) && (flag_byte b more <? 256) &&
      (flag_byte b more mod 32 =? b mod 32) &&
      eqb (negb (Z.land (flag_byte b more) 0x20 =? 0)) more &&
      (Z.land (flag_byte b more) 0x40 =? 0)) [true; false]) ltac:(vm_compute; reflexivity) b Hb) as H.
  cbn [forallb] in H. rewrite andb_true_r in H. apply andb_true_iff in H. destruct H as [H1 H2].
  destruct more; [clear H2|clear H1]; bool2prop.
  all: match goal with H : eqb _ _ = true |- _ => apply eqb_prop in H end.
  all: split_and!; try done; unfold byte_ok; lia.
Qed.

Lemma offset_of_bytes b6 b7 u :
  byte_ok b7 -> 0 <= u < 8192 -> b6 mod 32 = u / 256 -> b7 = u mod 256 ->
  Z.land (of_be16 b6 b7) 0x1FFF = u.
Proof.
  intros Hb Hu E6 E7. change 0x1FFF with (Z.ones 13). rewrite Z.land_ones by lia.
  unfold of_be16, byte_ok in *. symmetry. apply (Z.mod_unique _ _ (b6 / 32)); [lia|].
  pose proof (Z.div_mod b6 32 ltac:(lia)). pose proof (Z.div_mod u 256 ltac:(lia)). lia.
Qed.

(** ** One fragment *)

Section MakeFragment.
Context (header data : list Z) (first : bool) (offset : Z) (more : bool).
Let hl := zlen header.
Let f := make_fragment header data first hl offset more.
Hypothesis Hh : bytes_ok header.
Hypothesis Hd : bytes_ok data.
Hypothesis Hhl : 20 <= hl <= 60.
Hypothesis Hhl4 : hl mod 4 = 0.
Hypothesis Htot : hl + zlen data <= 65535.
Hypothesis Hoff : 0 <= offset <= MAX_FRAGMENT_OFFSET.
Hypothesis Hoff8 : offset mod 8 = 0.
Hypothesis Hfirst : first = true -> header.[0] = 0x40 + hl / 4.

(** The packet step by step: the version and length byte, the total length,
    then the flags and offset. *)
Let p0 := if first then header ++ data else set_byte (header ++ data) 0 (Z.lor 0x40 (u8 (hl / 4))).
Let p1 := splice p0 2 (be16 (hl + zlen data)).
Let q :=
  set_ipv4_dont_fragment (set_ipv4_more_fragments (set_ipv4_fragment_offset
    (set_ipv4_total_len p0 (u16 (hl + zlen data))) offset) more) false.

Lemma first_byte : Z.lor 0x40 (u8 (hl / 4)) = 0x40 + hl / 4 /\ 5 <= hl / 4 <= 15.
Proof.
  assert (5 <= hl / 4 <= 15) as H.
  { split; [apply Z.div_le_lower_bound; lia|]. assert (hl / 4 < 16); [apply Z.div_lt_upper_bound; lia|lia]. }
  split; [|done]. unfold u8. rewrite Z.mod_small by lia. apply (lor_add 4 (hl / 4) 4); lia.
Qed.

Lemma frag_start :
  zlen p0 = hl + zlen data /\ bytes_ok p0 /\ p0.[0] = 0x40 + hl / 4 /\
  (forall i, 1 <= i -> p0.[i] = (header ++ data).[i]).
Proof.
  destruct first_byte as [Hfb Hfb']. unfold p0. rewrite Hfb. destruct first eqn:E.
  - split_and!; [apply zlen_app|bok|rewrite byte_at_app_l by lia; auto|done].
  - pose proof (zlen_nonneg data). split_and!.
    + rewrite zlen_set_byte. apply zlen_app.
    + bok.
    + apply byte_at_set_eq. rewrite zlen_app; lia.
    + intros. apply byte_at_set_ne; lia.
Qed.

(** The flag and offset bytes. *)
Lemma frag_flags : exists b,
  byte_ok b /\ b mod 32 = offset / 8 / 256 /\
  q = set_byte (splice p1 6 [b; offset / 8 mod 256]) 6 (flag_byte b more).
Proof.
  destruct frag_start as (Hz0 & Hb0 & _). pose proof (zlen_nonneg data).
  assert (zlen p1 = zlen p0) as Hz1 by (apply zlen_splice; rewrite ?zlen_be16; lia).
  assert (bytes_ok p1) as Hb1 by (unfold p1; bok).
  destruct (offset_word p1.[6] p1.[7] offset) as [Hw Hu]; [bok..|done|].
  set (b := p1.[6] / 32 * 32 + offset / 8 / 256).
  assert (be16 (p1.[6] / 32 * 8192 + offset / 8) = [b; offset / 8 mod 256]) as Hbe.
  { unfold be16, b. replace (p1.[6] / 32 * 8192) with (p1.[6] / 32 * 32 * 256) by lia.
    f_equal; [rewrite Z.div_add_l by lia; done|f_equal].
    rewrite Z.add_comm, Z.mod_add by lia. done. }
  assert (0 <= offset / 8 / 256 < 32) as Hu'
    by (split; [apply Z.div_pos|apply Z.div_lt_upper_bound]; lia).
  assert (0 <= p1.[6] / 32 < 8) as H6.
  { assert (byte_ok p1.[6]) as H6 by bok. unfold byte_ok in H6.
    split; [apply Z.div_pos|apply Z.div_lt_upper_bound]; lia. }
  exists b. split_and!; [unfold byte_ok, b; lia| |].
  { unfold b. rewrite Z.add_comm, Z.mod_add, Z.mod_small by lia. done. }
  set (p2 := splice p1 6 [b; offset / 8 mod 256]).
  assert (zlen p2 = zlen p0) as Hz2.
  { unfold p2. rewrite zlen_splice; [done|lia|]. change (zlen [b; offset / 8 mod 256]) with 2. lia. }
  unfold q, set_ipv4_total_len. rewrite Hz0. case_if; [lia|].
  unfold u16. rewrite (Z.mod_small (hl + zlen data)) by lia. fold p1.
  unfold set_ipv4_fragment_offset. rewrite Hz1, Hz0. case_if; [lia|]. rewrite Hw, Hbe. fold p2.
  unfold set_ipv4_more_fragments. rewrite Hz2, Hz0. case_if; [lia|].
  unfold set_ipv4_dont_fragment. rewrite zlen_set_byte, Hz2, Hz0. case_if; [lia|].
  rewrite byte_at_set_eq by lia. unfold set_byte. rewrite list_insert_insert_eq. unfold flag_byte.
  replace p2.[6] with b; [done|]. unfold p2.
  rewrite byte_at_splice_in by (change (zlen [b; offset / 8 mod 256]) with 2; lia). done.
Qed.

(** The bytes of the packet before its checksum is computed. *)
Lemma frag_bytes :
  zlen q = hl + zlen data /\ bytes_ok q /\
  q.[0] = 0x40 + hl / 4 /\ of_be16 q.[2] q.[3] = hl + zlen data /\
  (exists b, byte_ok b /\ b mod 32 = offset / 8 / 256 /\ q.[6] = flag_byte b more) /\
  q.[7] = offset / 8 mod 256 /\
  (forall i, 1 <= i -> i <> 2 -> i <> 3 -> i <> 6 -> i <> 7 -> q.[i] = (header ++ data).[i]).
Proof.
  destruct frag_start as (Hz0 & Hb0 & H00 & H0i). pose proof (zlen_nonneg data).
  destruct frag_flags as (b & Hbb & Hbm & Hq).
  assert (zlen p1 = zlen p0) as Hz1 by (apply zlen_splice; rewrite ?zlen_be16; lia).
  set (w := [b; offset / 8 mod 256]) in *. assert (zlen w = 2) as Hw by done.
  assert (zlen (splice p1 6 w) = zlen p0) as Hz2 by (rewrite zlen_splice; lia).
  rewrite Hq, zlen_set_byte, Hz2, Hz0.
  assert (forall i, 0 <= i -> i <> 6 -> i <> 7 ->
    (set_byte (splice p1 6 w) 6 (flag_byte b more)).[i] = p1.[i]) as H12.
  { intros. rewrite byte_at_set_ne by lia. apply byte_at_splice_out; lia. }
  split_and!.
  - done.
  - pose proof (Z.mod_pos_bound (offset / 8) 256 ltac:(lia)).
    pose proof (proj1 (flag_byte_spec b more Hbb)). unfold p1, w. bok.
  - rewrite H12 by lia. unfold p1. rewrite byte_at_splice_out by (rewrite ?zlen_be16; lia). done.
  - rewrite !H12 by lia. unfold p1. rewrite !byte_at_splice_in by (rewrite ?zlen_be16; lia).
    apply of_be16_be16.
  - exists b. split_and!; [done..|]. apply byte_at_set_eq. lia.
  - rewrite byte_at_set_ne by lia. rewrite byte_at_splice_in by lia. done.
  - intros i ?????. rewrite H12 by lia. unfold p1.
    rewrite byte_at_splice_out by (rewrite ?zlen_be16; lia). apply H0i. lia.
Qed.

(** What a fragment reads as. *)
Lemma make_fragment_spec :
  bytes_ok f /\ zlen f = hl + zlen data /\ version f = 4 /\ ipv4_header_len f = hl /\
  ipv4_total_len f = zlen f /\ ipv4_fragment_offset f = offset /\
  ipv4_more_fragments f = more /\ ipv4_dont_fragment f = false /\
  verify_ipv4_checksum f = true /\ ipv4_payload f = data /\
  (forall i, i = 1 \/ i = 4 \/ i = 5 \/ i = 8 \/ i = 9 \/ 12 <= i < 20 -> f.[i] = header.[i]).
Proof.
  destruct frag_bytes as (Hz & Hbq & H0 & H23 & (b & Hb & Hbm & H6) & H7 & Hi).
  destruct first_byte as [_ Hh4]. pose proof (zlen_nonneg data).
  assert (forall l : list Z, 0 < zlen l -> l.[0] = 64 + hl / 4 -> version l = 4 /\ ipv4_header_len l = hl) as Hv.
  { intros l Hl Hl0. unfold version, ipv4_header_len. rewrite Hl0. case_if; [lia|].
    rewrite Z.shiftr_div_pow2 by lia. change 15 with (Z.ones 4). rewrite Z.land_ones by lia.
    change 64 with (4 * 2 ^ 4). rewrite Z.div_add_l, Z.div_small by lia.
    rewrite (Z.add_comm (4 * 2 ^ 4)), Z.mod_add, Z.mod_small by lia. pose proof (Z.div_mod hl 4). lia. }
  destruct (Hv q) as [Hq4 Hqh]; [lia|done|].
  destruct (recompute_ipv4_checksum_ok q Hbq Hq4 ltac:(lia)) as (Hbf & Hzf & Hver & Hby & Hdr).
  change (recompute_ipv4_checksum q) with f in *.
  destruct (Hv f) as [Hf4 Hfh]; [lia|rewrite Hby by lia; done|].
  assert (ipv4_total_len f = zlen f) as Htl.
  { unfold ipv4_total_len. rewrite !Hby by lia. case_if; lia. }
  destruct (flag_byte_spec b more Hb) as (_ & Hm & Hmf & Hdf).
  assert (0 <= offset / 8 < 8192) as Hu.
  { unfold MAX_FRAGMENT_OFFSET in *. split; [apply Z.div_pos|apply Z.div_lt_upper_bound]; lia. }
  split_and!; try done; try lia.
  - unfold ipv4_fragment_offset. rewrite !Hby, H6, H7 by lia. case_if; [lia|].
    rewrite (offset_of_bytes _ _ (offset / 8)); try done; try lia.
    + pose proof (Z.div_mod offset 8). lia.
    + apply Z.mod_pos_bound. lia.
  - unfold ipv4_more_fragments. rewrite Hby, H6, Hmf by lia. destruct (7 <=? zlen f) eqn:?; bool2prop; [done|lia].
  - unfold ipv4_dont_fragment. rewrite Hby, H6, Hdf by lia. apply andb_false_r.
  - unfold ipv4_payload. rewrite Hfh, Htl. case_if; [bool2prop; lia|]. rewrite slice_to_end.
    transitivity (zdrop hl q).
    { rewrite <- (Z.add_simpl_l 12 hl), <- Z.add_sub_assoc, <- !zdrop_zdrop, Hdr by lia. done. }
    apply bytes_ext; [rewrite zlen_zdrop; lia|]. intros i Hil. rewrite zlen_zdrop in Hil.
    rewrite byte_at_zdrop, Hi by lia. rewrite byte_at_app_r by (fold hl; lia). f_equal. fold hl. lia.
  - intros i Hii. rewrite Hby, Hi by lia. apply byte_at_app_l; fold hl; lia.
Qed.
End MakeFragment.

(** ** The header of later fragments *)

(** The walk only appends, at most what is left of the options. *)
Lemma copy_options_app fuel opts i out :
  bytes_ok opts -> 0 <= i <= zlen opts ->
  exists x, copy_options fuel opts i out = out ++ x /\ zlen x <= zlen opts - i /\ bytes_ok x.
Proof.
  intros Hb. revert i out. induction fuel as [|fuel IH]; intros i out Hi; cbn [copy_options].
  { exists []. rewrite app_nil_r. split_and!; [done|rewrite zlen_nil; lia|bok]. }
  assert (exists x, out = out ++ x /\ zlen x <= zlen opts - i /\ bytes_ok x) as Hstop.
  { exists []. rewrite app_nil_r. split_and!; [done|rewrite zlen_nil; lia|bok]. }
  destruct (i <? zlen opts) eqn:E1; [|done]. destruct (opts.[i] =? 0); [done|]. bool2prop.
  destruct (opts.[i] =? 1).
  { destruct (IH (i + 1) out) as (x & -> & Hx & Hbx); [lia|]. exists x. split_and!; [done|lia|done]. }
  destruct (zlen opts <=? i + 1) eqn:E2; [done|].
  destruct ((opts.[i + 1] <? 2) || _) eqn:E3; [done|]. bool2prop.
  set (len := opts.[i + 1]) in *.
  destruct (IH (i + len) (if negb (Z.land opts.[i] 128 =? 0) then out ++ slice opts i (i + len) else out))
    as (x & -> & Hx & Hbx); [lia|].
  destruct (negb _).
  - exists (slice opts i (i + len) ++ x). rewrite <- app_assoc. split_and!; [done| |bok].
    rewrite zlen_app, zlen_slice. lia.
  - exists x. split_and!; [done|lia|done].
Qed.

(** Walking every option takes no more fuel than there are bytes. *)
Lemma copy_options_fuel fuel fuel' opts i out :
  0 <= i -> zlen opts - i <= Z.of_nat fuel -> zlen opts - i <= Z.of_nat fuel' ->
  copy_options fuel opts i out = copy_options fuel' opts i out.
Proof.
  revert fuel' i out. induction fuel as [|fuel IH]; intros [|fuel'] i out Hi H1 H2;
    cbn [copy_options]; try done.
  1,2: destruct (i <? zlen opts) eqn:E; bool2prop; [lia|done].
  destruct (i <? zlen opts) eqn:E1; [|done]. destruct (opts.[i] =? 0); [done|].
  destruct (opts.[i] =? 1); [apply IH; lia|]. destruct (zlen opts <=? i + 1); [done|].
  destruct ((opts.[i + 1] <? 2) || _) eqn:E3; [done|]. bool2prop. apply IH; lia.
Qed.

Lemma pad_words_spec fuel out n :
  zlen out <= n -> n mod 4 = 0 -> (- zlen out) mod 4 < Z.of_nat fuel ->
  exists x, pad_words fuel out = out ++ x /\ zlen (out ++ x) <= n /\
            zlen (out ++ x) mod 4 = 0 /\ bytes_ok x.
Proof.
  revert out. induction fuel as [|fuel IH]; intros out Hn Hn4 Hf; cbn [pad_words].
  { pose proof (Z.mod_pos_bound (- zlen out) 4 ltac:(lia)). lia. }
  pose proof (Z.mod_pos_bound (zlen out) 4 ltac:(lia)) as Hm.
  pose proof (Z.div_mod (zlen out) 4 ltac:(lia)). pose proof (Z.div_mod n 4 ltac:(lia)).
  destruct (zlen out mod 4 =? 0) eqn:E; bool2prop.
  { exists []. rewrite app_nil_r. split_and!; [done|lia|done|bok]. }
  assert ((- zlen out) mod 4 = 4 - zlen out mod 4) as Hneg.
  { symmetry. apply (Z.mod_unique _ _ (- (zlen out / 4) - 1)); lia. }
  destruct (IH (out ++ [0])) as (x & -> & Hx & Hx4 & Hbx); rewrite ?zlen_app; change (zlen [0]) with 1; try lia.
  { replace (- (zlen out + 1)) with (- zlen out + (-1)) by lia.
    rewrite <- Zplus_mod_idemp_l, Hneg. rewrite Z.mod_small by lia. lia. }
  exists (0 :: x). rewrite <- app_assoc in *. split_and!; [done|done|done|bok].
Qed.

(** Later fragments carry a header that is no longer, with the same fixed
    part. *)
Lemma copied_options_header_spec h :
  bytes_ok h -> 20 <= zlen h -> zlen h mod 4 = 0 ->
  let l := copied_options_header h in
  bytes_ok l /\ 20 <= zlen l <= zlen h /\ zlen l mod 4 = 0 /\ ztake 20 l = ztake 20 h.
Proof.
  intros Hb Hh H4 l. unfold l, copied_options_header. case_if; [split_and!; (done || lia)|].
  destruct (copy_options_app (length (zdrop 20 h)) (zdrop 20 h) 0 (ztake 20 h)) as (x & -> & Hx & Hbx);
    [bok|pose proof (zlen_nonneg (zdrop 20 h)); lia|].
  rewrite zlen_zdrop in Hx.
  assert (zlen (ztake 20 h) = 20) as H20 by (rewrite zlen_ztake; lia).
  destruct (pad_words_spec 4 (ztake 20 h ++ x) (zlen h)) as (y & -> & Hy & Hy4 & Hby).
  - rewrite zlen_app. lia.
  - done.
  - apply Z.mod_pos_bound. lia.
  - split_and!; [bok|rewrite !zlen_app; pose proof (zlen_nonneg x); pose proof (zlen_nonneg y); lia|done|done|].
    rewrite <- app_assoc, ztake_app_le, ztake_all by lia. done.
Qed.

(** ** The fragments of a packet *)

(** A fragment [f] of [p]: a valid packet within the MTU, with the header
    fields that identify the datagram. *)
Record frag_ok (p : list Z) (mtu : Z) (f : list Z) : Prop := {
  fo_bytes : bytes_ok f;
  fo_mtu : zlen f <= mtu;
  fo_v4 : version f = 4;
  fo_hl : 20 <= ipv4_header_len f <= 60;
  fo_len : ipv4_total_len f = zlen f;
  fo_df : ipv4_dont_fragment f = false;
  fo_sum : verify_ipv4_checksum f = true;
  fo_same : forall i, i = 1 \/ i = 4 \/ i = 5 \/ i = 8 \/ i = 9 \/ 12 <= i < 20 -> f.[i] = p.[i];
  fo_id : ipv4_id f = ipv4_id p;
  fo_ttl : ipv4_ttl f = ipv4_ttl p;
  fo_proto : ipv4_protocol f = ipv4_protocol p;
  fo_src : src_addr f = src_addr p;
  fo_dst : dst_addr f = dst_addr p }.

(** Fragments in offset order without gaps from [off] on, every one but the
    last a multiple of eight bytes with More Fragments set; the last keeps
    [last_more]. *)
Fixpoint chain (off : Z) (last_more : bool) (fs : list (list Z)) : Prop :=
  match fs with
  | [] => True
  | f :: r =>
      ipv4_fragment_offset f = off /\ ipv4_payload f <> [] /\
      ipv4_more_fragments f = (match r with [] => last_more | _ => true end) /\
      (r <> [] -> zlen (ipv4_payload f) mod 8 = 0) /\
      chain (off + zlen (ipv4_payload f)) last_more r
  end.

Section Fragments.
Context (p : list Z) (mtu : Z).
Let hl := ipv4_header_len p.
Let total := ipv4_total_len p.
Let h := ztake hl p.
Let lh := copied_options_header h.
Let data := slice p hl total.
Let first_room := (mtu - hl) / 8 * 8.
Let later_room := (mtu - zlen lh) / 8 * 8.
Let base := ipv4_fragment_offset p.
Let last_more := ipv4_more_fragments p.
Let loop := fragment_loop h lh data first_room later_room base last_more.
Hypothesis Hp : bytes_ok p.
Hypothesis H4 : version p = 4.
Hypothesis Hhl : 20 <= hl <= total.
Hypothesis Htot : total <= zlen p.
Hypothesis Hmtu : MIN_IPV4_MTU <= mtu.

Lemma base_ok : base mod 8 = 0 /\ 0 <= base <= MAX_FRAGMENT_OFFSET.
Proof.
  unfold base, ipv4_fragment_offset, MAX_FRAGMENT_OFFSET. case_if; [done|].
  change 0x1FFF with (Z.ones 13). rewrite Z.land_ones by lia.
  pose proof (Z.mod_pos_bound (of_be16 p.[6] p.[7]) (2 ^ 13) ltac:(lia)).
  rewrite Z.mod_mul by lia. split; [done|]. change (Z.ones 13) with 8191. lia.
Qed.

Lemma total_max : total <= 65535.
Proof.
  unfold total, ipv4_total_len. case_if; [lia|].
  pose proof (of_be16_bound p.[2] p.[3] ltac:(bok) ltac:(bok)). lia.
Qed.

Lemma zlen_data : zlen data = total - hl.
Proof. unfold data. rewrite zlen_slice. lia. Qed.

Lemma header_ok : bytes_ok h /\ zlen h = hl /\ hl <= 60 /\ hl mod 4 = 0 /\ h.[0] = 0x40 + hl / 4.
Proof.
  pose proof (ipv4_header_len_le p) as H60. fold hl in H60.
  split_and!; [unfold h; bok|unfold h; rewrite zlen_ztake; lia|done|..].
  - unfold hl, ipv4_header_len. case_if; [done|]. apply Z.mod_mul. lia.
  - unfold h. rewrite byte_at_ztake by lia. unfold hl, ipv4_header_len, version in *.
    case_if; [lia|]. rewrite Z.div_mul by lia. rewrite Z.shiftr_div_pow2 in H4 by lia.
    change 15 with (Z.ones 4). rewrite Z.land_ones by lia.
    pose proof (Z.div_mod p.[0] (2 ^ 4) ltac:(lia)). lia.
Qed.

(** The share of the data of a fragment at [pos]. *)
Lemma room_ok (first : bool) :
  let room := if first then first_room else later_room in
  let hd := if first then h else lh in
  room mod 8 = 0 /\ 8 <= room /\ bytes_ok hd /\ 20 <= zlen hd <= hl /\ zlen hd mod 4 = 0 /\
  zlen hd + room <= mtu /\ (forall i, 0 <= i < 20 -> hd.[i] = p.[i]) /\
  (first = true -> hd.[0] = 0x40 + zlen hd / 4).
Proof.
  destruct header_ok as (Hbh & Hzh & H60 & Hh4 & H0). unfold MIN_IPV4_MTU in *.
  assert (forall n, n <= 60 -> (mtu - n) / 8 * 8 mod 8 = 0 /\ 8 <= (mtu - n) / 8 * 8 /\
    n + (mtu - n) / 8 * 8 <= mtu) as Hroom.
  { intros n Hn. rewrite Z.mod_mul by lia. pose proof (Z.div_mod (mtu - n) 8 ltac:(lia)).
    pose proof (Z.mod_pos_bound (mtu - n) 8 ltac:(lia)).
    assert (1 <= (mtu - n) / 8) by (apply Z.div_le_lower_bound; lia). lia. }
  destruct (copied_options_header_spec h Hbh ltac:(lia) ltac:(rewrite Hzh; done)) as (Hbl & Hzl & Hl4 & Hl20).
  fold lh in Hbl, Hzl, Hl4, Hl20.
  destruct first; cbv zeta.
  - destruct (Hroom hl ltac:(lia)) as (R1 & R2 & R3). fold first_room in R1, R2, R3. rewrite Hzh.
    split_and!; try done; try lia. intros i Hi. unfold h. apply byte_at_ztake. lia.
  - destruct (Hroom (zlen lh) ltac:(lia)) as (R1 & R2 & R3). fold later_room in R1, R2, R3.
    split_and!; try done; try lia. intros i Hi.
    rewrite <- (byte_at_ztake lh 20 i), Hl20 by lia. unfold h. rewrite ztake_ztake by lia.
    apply byte_at_ztake. lia.
Qed.

Lemma frag_ok_intro f :
  bytes_ok f -> zlen f <= mtu -> version f = 4 -> 20 <= ipv4_header_len f <= 60 ->
  20 <= zlen f -> ipv4_total_len f = zlen f -> ipv4_dont_fragment f = false ->
  verify_ipv4_checksum f = true ->
  (forall i, i = 1 \/ i = 4 \/ i = 5 \/ i = 8 \/ i = 9 \/ 12 <= i < 20 -> f.[i] = p.[i]) ->
  frag_ok p mtu f.
Proof.
  intros ??? Hfh Hl ??? Hi.
  assert (forall a b, 12 <= a -> b <= 20 -> slice f a b = slice p a b) as Hs.
  { intros a b ??. apply bytes_ext; [rewrite !zlen_slice; lia|]. intros i Hr. rewrite zlen_slice in Hr.
    rewrite !byte_at_slice by lia. apply Hi. lia. }
  split; try done; try (apply Hi; lia).
  - unfold ipv4_id. rewrite !Hi by lia. repeat case_if; try done; lia.
  - unfold ipv4_ttl. rewrite !Hi by lia. repeat case_if; try done; lia.
  - unfold ipv4_protocol. rewrite !Hi by lia. repeat case_if; try done; lia.
  - unfold src_addr, ipv4_src_addr. rewrite H4, H1, Hs by lia. cbn [Z.eqb Pos.eqb]. repeat case_if; try done; lia.
  - unfold dst_addr, ipv4_dst_addr. rewrite H4, H1, Hs by lia. cbn [Z.eqb Pos.eqb]. repeat case_if; try done; lia.
Qed.

Lemma loop_end fuel fs : loop fuel (zlen data) = Some fs -> fs = [].
Proof.
  destruct fuel; [done|]. unfold loop. cbn [fragment_loop]. rewrite Z.ltb_irrefl. intros [= <-]. done.
Qed.

Lemma fragment_loop_spec fuel pos fs :
  0 <= pos <= zlen data -> (pos < zlen data -> pos mod 8 = 0) -> loop fuel pos = Some fs ->
  Forall (frag_ok p mtu) fs /\ chain (base + pos) last_more fs /\
  concat (ipv4_payload <$> fs) = zdrop pos data /\ (pos < zlen data -> fs <> []).
Proof.
  revert pos fs. induction fuel as [|fuel IH]; intros pos fs Hpos H8 Hl; [done|].
  unfold loop in Hl. cbn [fragment_loop] in Hl. fold loop in Hl.
  destruct (pos <? zlen data) eqn:E; bool2prop.
  2: { injection Hl as <-. rewrite zdrop_all by lia. cbn. split_and!; [constructor|done|done|lia]. }
  destruct (room_ok (pos =? 0)) as (Hr8 & Hr & Hbh & Hzh & Hh4 & Hfit & Hhb & Hh0).
  set (hd := if pos =? 0 then h else lh) in *.
  set (room := if pos =? 0 then first_room else later_room) in *.
  set (take := Z.min room (zlen data - pos)) in *.
  destruct (MAX_FRAGMENT_OFFSET <? base + pos) eqn:Em; [done|]. bool2prop.
  set (more := (pos + take <? zlen data) || last_more) in *.
  destruct (loop fuel (pos + take)) as [rest|] eqn:Er; [|done]. injection Hl as <-.
  destruct base_ok as [Hb8 Hb0]. pose proof zlen_data as Hzd. pose proof total_max.
  destruct header_ok as (_ & Hzh' & H60 & _).
  specialize (H8 E). set (d := slice data pos (pos + take)) in *.
  assert (zlen d = take) as Hd by (unfold d; rewrite zlen_slice; lia).
  assert (make_fragment hd d (pos =? 0) (zlen lh) (base + pos) more
          = make_fragment hd d (pos =? 0) (zlen hd) (base + pos) more) as Emf.
  { unfold make_fragment, hd. destruct (pos =? 0); done. }
  rewrite Emf.
  destruct (make_fragment_spec hd d (pos =? 0) (base + pos) more)
    as (F1 & F2 & F3 & F4 & F5 & F6 & F7 & F8 & F9 & F10 & F11);
    [done|unfold d, data; bok|lia|done|lia|lia|rewrite Z.add_mod, Hb8, H8 by lia; done|done|].
  set (f := make_fragment hd d (pos =? 0) (zlen hd) (base + pos) more) in *.
  destruct (IH (pos + take) rest) as (G1 & G2 & G3 & G4); [lia| |done|].
  { intros Hlt. assert (take = room) as -> by lia. rewrite Z.add_mod, H8, Hr8 by lia. done. }
  split_and!.
  - constructor; [|done]. apply frag_ok_intro; [exact F1|lia|exact F3|lia|lia|exact F5|exact F8|exact F9|].
    intros i Hi. rewrite F11 by lia. apply Hhb. lia.
  - cbn [chain]. rewrite F6, F7, F10, Hd. split_and!.
    + done.
    + intros E0. rewrite E0, zlen_nil in Hd. lia.
    + unfold more. destruct rest as [|r0 rest].
      * destruct (pos + take <? zlen data) eqn:?; [|done]. bool2prop. by destruct G4.
      * destruct (pos + take <? zlen data) eqn:?; [done|]. bool2prop.
        replace (pos + take) with (zlen data) in Er by lia. discriminate (loop_end _ _ Er).
    + intros Hne. destruct (decide (pos + take < zlen data)); [assert (take = room) as -> by lia; done|].
      replace (pos + take) with (zlen data) in Er by lia. destruct (Hne (loop_end _ _ Er)).
    + rewrite Z.add_assoc in G2. done.
  - cbn. rewrite F10, G3. unfold d, slice. replace (pos + take - pos) with take by lia.
    rewrite <- (ztake_zdrop take (zdrop pos data)) at 2. f_equal. symmetry. apply zdrop_zdrop; lia.
  - done.
Qed.

(** A packet that does not fit takes at least two fragments. *)
Lemma loop_splits fuel fs :
  first_room < zlen data -> loop fuel 0 = Some fs -> (2 <= length fs)%nat.
Proof.
  intros Hr Hl. destruct (room_ok true) as (Hr8 & Hr1 & _). cbv zeta in Hr8, Hr1.
  destruct fuel as [|fuel]; [discriminate Hl|]. unfold loop in Hl. cbn [fragment_loop] in Hl. fold loop in Hl.
  rewrite (proj2 (Z.ltb_lt 0 (zlen data))) in Hl by lia. rewrite Z.eqb_refl in Hl.
  destruct (MAX_FRAGMENT_OFFSET <? base + 0); [discriminate Hl|].
  replace (0 + Z.min first_room (zlen data - 0)) with first_room in Hl by lia.
  destruct (loop fuel first_room) as [rest|] eqn:Er; [|discriminate Hl].
  destruct (fragment_loop_spec fuel first_room rest) as (_ & _ & _ & Hne); [lia|done|exact Er|].
  injection Hl as <-. destruct rest; [by destruct Hne|cbn; lia].
Qed.

(** Within the largest datagram the loop never refuses, and [data.len()] + 1
    rounds finish it. *)
Lemma fragment_loop_total fuel pos :
  0 <= pos <= zlen data -> (pos < zlen data -> pos mod 8 = 0) ->
  zlen data - pos < Z.of_nat fuel -> base + zlen data <= 65536 ->
  exists fs, loop fuel pos = Some fs.
Proof.
  revert pos. induction fuel as [|fuel IH]; intros pos Hpos H8 Hf Hb; [lia|].
  unfold loop. cbn [fragment_loop]. fold loop.
  destruct (pos <? zlen data) eqn:E; bool2prop; [|eauto].
  destruct (room_ok (pos =? 0)) as (Hr8 & Hr & _). specialize (H8 E). destruct base_ok as [Hb8 Hb0].
  set (room := if pos =? 0 then first_room else later_room) in *.
  set (take := Z.min room (zlen data - pos)) in *.
  destruct (MAX_FRAGMENT_OFFSET <? base + pos) eqn:Em; bool2prop.
  { unfold MAX_FRAGMENT_OFFSET in *. pose proof (Z.div_mod base 8). pose proof (Z.div_mod pos 8). lia. }
  destruct (IH (pos + take)) as [fs ->]; [lia| |lia|done|eauto].
  intros Hlt. assert (take = room) as -> by lia. rewrite Z.add_mod, H8, Hr8 by lia. done.
Qed.
End Fragments.

(** An IPv4 packet that is all there. *)
Definition whole_ipv4 (p : list Z) : Prop :=
  version p = 4 /\ 20 <= ipv4_header_len p <= ipv4_total_len p /\ ipv4_total_len p <= zlen p.

(** The result of fragmenting [p], branch by branch. *)
Definition fragmentation_ok (p : list Z) (mtu : Z) (r : Fragmentation) : Prop :=
  match r with
  | Fits => whole_ipv4 p /\ ipv4_total_len p <= mtu
  | DontFragment => whole_ipv4 p /\ mtu < ipv4_total_len p /\ ipv4_dont_fragment p = true
  | Fragments fs =>
      whole_ipv4 p /\ mtu < ipv4_total_len p /\ ipv4_dont_fragment p = false /\ (2 <= length fs)%nat /\
      Forall (frag_ok p mtu) fs /\
      chain (ipv4_fragment_offset p) (ipv4_more_fragments p) fs /\
      concat (ipv4_payload <$> fs) = ipv4_payload p
  | NotFragmentable =>
      ~ whole_ipv4 p \/
      (mtu < ipv4_total_len p /\ ipv4_dont_fragment p = false /\
       (mtu < MIN_IPV4_MTU \/
        65536 < ipv4_fragment_offset p + (ipv4_total_len p - ipv4_header_len p)))
  end.

Lemma fragment_ipv4_ok (p : list Z) (mtu : Z) :
  bytes_ok p -> fragmentation_ok p mtu (fragment_ipv4 p mtu).
Proof.
  intros Hp. unfold fragment_ipv4.
  destruct (negb _ || _ || _ || _) eqn:Ew; cbn [fragmentation_ok].
  { left. unfold whole_ipv4. intros (E4 & ? & ?). rewrite E4 in Ew. cbn [Z.eqb Pos.eqb negb orb] in Ew.
    apply orb_true_iff in Ew. rewrite orb_true_iff, !Z.ltb_lt in Ew. lia. }
  bool2prop. assert (whole_ipv4 p) as Hw by (unfold whole_ipv4; lia).
  destruct (ipv4_total_len p <=? mtu) eqn:Et; [bool2prop; done|].
  destruct (ipv4_dont_fragment p) eqn:Edf; bool2prop; [done|].
  assert (mtu < MIN_IPV4_MTU -> fragmentation_ok p mtu NotFragmentable) as Hsmall.
  { intros. right. auto. }
  destruct (decide (mtu < MIN_IPV4_MTU)) as [|Hmtu].
  { replace (mtu <? MIN_IPV4_MTU) with true by (symmetry; apply Z.ltb_lt; done). cbn [orb]. auto. }
  assert (MIN_IPV4_MTU <= mtu) as Hmtu' by lia.
  destruct (room_ok p mtu) with (first := true) as (_ & R1 & _ & R2 & _ & R3 & _); try done; try lia.
  destruct (room_ok p mtu) with (first := false) as (_ & R4 & _ & R5 & _ & R6 & _); try done; try lia.
  cbv zeta in *. set (hl := ipv4_header_len p) in *. set (lh := copied_options_header (ztake hl p)) in *.
  destruct (header_ok p) as (_ & Hzh & H60 & _); try done; try lia. fold hl in Hzh, H60.
  destruct ((mtu <? MIN_IPV4_MTU) || _ || _) eqn:E1.
  { apply orb_true_iff in E1. rewrite orb_true_iff, Z.ltb_lt, !Z.leb_le in E1. unfold MIN_IPV4_MTU in *. lia. }
  destruct (((mtu - hl) / 8 * 8 =? 0) || _) eqn:E2.
  { rewrite orb_true_iff, !Z.eqb_eq in E2. lia. }
  set (loop := fragment_loop _ _ _ _ _ _ _ _ _).
  assert (zlen (slice p hl (ipv4_total_len p)) = ipv4_total_len p - hl) as Hzd
    by (rewrite zlen_slice; lia).
  assert (0 < zlen (slice p hl (ipv4_total_len p))) as Hpos by (unfold MIN_IPV4_MTU in *; lia).
  destruct loop as [fs|] eqn:El; cbn [fragmentation_ok].
  - destruct (fragment_loop_spec p mtu Hp H ltac:(lia) ltac:(lia) Hmtu'
      (S (length (slice p hl (ipv4_total_len p)))) 0 fs) as (G1 & G2 & G3 & G4);
      [fold hl; lia|done|exact El|].
    rewrite Z.add_0_r in G2. split_and!; try done.
    { apply (loop_splits p mtu Hp H ltac:(lia) ltac:(lia) Hmtu' (S (length (slice p hl (ipv4_total_len p))))); [|exact El].
      fold hl. rewrite Hzd. lia. }
    rewrite G3, zdrop_nonpos by lia. unfold ipv4_payload. fold hl. case_if; [|done]. bool2prop; lia.
  - right. split_and!; try done. right.
    destruct (decide (ipv4_fragment_offset p + (ipv4_total_len p - hl) <= 65536)); [|lia].
    destruct (fragment_loop_total p mtu Hp H ltac:(lia) ltac:(lia) Hmtu'
      (S (length (slice p hl (ipv4_total_len p)))) 0) as [fs Hfs];
      [fold hl; lia|done|fold hl; unfold zlen in *; lia|fold hl; lia|].
    change (loop = Some fs) in Hfs. congruence.
Qed.

(** C35: Fragmenting an IPv4 packet gives, on every branch, what the packet calls
    for.  A packet that fits is sent as it is; one too large with Don't
    Fragment set is refused; every other whole packet is split (for any MTU
    of at least 68, unless it is a fragment reaching past the largest
    datagram), and then each fragment is a valid packet within the MTU with
    a correct header checksum and the datagram's identity, offsets run on
    without gaps from the original's, More Fragments is set on all but the
    last (which keeps the original's flag), and the payloads put together
    are the original payload. *)
Theorem fragment_ipv4_correct (p : list Z) (mtu : Z) :
  bytes_ok p -> fragmentation_ok p mtu (fragment_ipv4 p mtu).
Proof. apply fragment_ipv4_ok. Qed.

Lemma fragment_ipv4_correct_witness :
  let p := [0x45;0;0;100;0x12;0x34;0;0;64;17;0;0;10;0;0;1;10;0;0;2] ++ replicate 80 7 in
  exists fs, fragment_ipv4 p 68 = Fragments fs /\ length fs = 2%nat /\
             concat (ipv4_payload <$> fs) = replicate 80 7.
Proof.
  intros p. pose proof (fragment_ipv4_correct p 68) as H.
  assert (bytes_ok p) as Hp by (apply bytes_ok_app; [repeat constructor; lia|apply bytes_ok_replicate; unfold byte_ok; lia]).
  specialize (H Hp). destruct (fragment_ipv4 p 68) as [|fs| |] eqn:E; vm_compute in E; try discriminate E.
  exists fs. split; [reflexivity|]. destruct H as (_ & _ & _ & _ & _ & _ & H).
  injection E as <-. split; [reflexivity|]. rewrite H. reflexivity.
Defined.
