(* ===== verification/Defrag.v ===== *)
(** * Fragment reassembly ([src/src/defrag.rs])

    The reassembler of the stacks that terminate flows: the table of
    datagrams in progress is a [gmap] from [Key] to [Partial], instants are
    nanoseconds.  A [Vec]'s capacity counts against the memory budget, so it
    is a field ([cap]); [reserve_exact] is taken to give exactly what is
    asked.  [evict_oldest] takes the first minimum in the hash map's
    iteration order, which is arbitrary: the order is the section variable
    [iter], only known to enumerate the map.  A function that changes the
    reassembler returns the new one with its result. *)

From S2P Require Import Prelude Ip Checksum Packet.

Definition MAX_DATAGRAMS : Z := 64.
Definition MAX_BYTES : Z := Z.shiftl 1 20.
Definition MAX_PIECES : Z := 256.
Definition REASSEMBLY_TIMEOUT : Z := 30 * 10 ^ 9.
Definition MAX_PAYLOAD : Z := 65535.

Record Key := mkKey {
  k_ns : Z; k_v6 : bool; k_src : list Z; k_dst : list Z; k_id : Z; k_proto : Z }.

#[export] Instance Key_eq_dec : EqDecision Key.
Proof. solve_decision. Defined.

#[export] Instance Key_countable : Countable Key.
Proof.
  refine (inj_countable' (fun k => (k_ns k, k_v6 k, k_src k, k_dst k, k_id k, k_proto k))
            (fun '(a, b, c, d, e, f) => mkKey a b c d e f) _).
  by intros [].
Defined.

Record Partial := mkPartial {
  started : Z;
  header : option (list Z);
  data : list Z;
  cap : Z;
  pieces : list (Z * Z);
  received : Z;
  p_total : option Z;
  last_piece_final : bool;
  p_ecn : Z }.

(** Where a fragment goes in its datagram. *)
Record Piece := mkPiece {
  pc_key : Key;
  pc_offset : Z;
  pc_more : bool;
  pc_data : list Z;
  pc_header : option (list Z);
  pc_ecn : Z }.

Record Reassembler := mkReassembler { partial : gmap Key Partial; bytes : Z }.

Definition Reassembler_default : Reassembler := mkReassembler ∅ 0.

(** ** Merging a fragment into its datagram *)

(** [slice::partition_point] on a slice that is partitioned: the length of
    the prefix that satisfies the predicate. *)
Fixpoint partition_point {A} (f : A -> bool) (l : list A) : nat :=
  match l with
  | x :: r => if f x then S (partition_point f r) else O
  | [] => O
  end.

Definition with_total (d : Partial) (t : Z) : Partial :=
  mkPartial (started d) (header d) (data d) (cap d) (pieces d) (received d) (Some t)
    (last_piece_final d) (p_ecn d).

Definition with_ecn (d : Partial) (e : Z) : Partial :=
  mkPartial (started d) (header d) (data d) (cap d) (pieces d) (received d) (p_total d)
    (last_piece_final d) e.

(** The first of the neighbours that overlaps the fragment decides: [Some]
    whether it is an exact repeat. *)
Fixpoint overlap (d : Partial) (p : Piece) (fin : Z) (neighbours : list (Z * Z)) : option bool :=
  match neighbours with
  | [] => None
  | (s, e) :: r =>
      if (s <? Z.max fin (pc_offset p + 1)) && (pc_offset p <? e) then
        let was_final := last_piece_final d && bool_decide (p_total d = Some e) in
        Some ((s =? pc_offset p) && (e =? fin) && bool_decide (slice (data d) s e = pc_data p)
              && negb (eqb (pc_more p) was_final))
      else overlap d p fin r
  end.

(** Make room for bytes up to [fin]: the new data and capacity. *)
Definition grow (d : Partial) (fin : Z) : list Z * Z :=
  if zlen (data d) <? fin then
    let want := Z.max (default fin (p_total d)) fin in
    let cap' := if cap d <? want
                then Z.max want (Z.min (cap d * 2) (Z.max MAX_PAYLOAD want)) else cap d in
    (data d ++ replicate (Z.to_nat (fin - zlen (data d))) 0, cap')
  else (data d, cap d).

(** Store the fragment at index [i] of the pieces. *)
Definition store (d : Partial) (p : Piece) (fin : Z) (i : nat) : Partial :=
  let '(buf, cap') := grow d fin in
  mkPartial (started d) (match pc_header p with Some h => Some h | None => header d end)
    (splice buf (pc_offset p) (pc_data p)) cap'
    (take i (pieces d) ++ [(pc_offset p, fin)] ++ drop i (pieces d))
    (received d + zlen (pc_data p)) (p_total d) (last_piece_final d || negb (pc_more p)) (p_ecn d).

(** [Partial::accept], with the datagram it leaves. *)
Definition accept (d : Partial) (p : Piece) (fin : Z) : Partial * bool :=
  let fixed :=
    if pc_more p then Some d
    else match p_total d with
         | Some t => if negb (t =? fin) then None else Some (with_total d fin)
         | None => Some (with_total d fin)
         end in
  match fixed with
  | None => (d, false)
  | Some d =>
      let beyond :=
        match p_total d with
        | Some t => (t <? fin) || match list.last (pieces d) with Some (_, e) => t <? e | None => false end
        | None => false
        end in
      if beyond then (d, false)
      else
        let i := partition_point (fun '(s, _) => s <? pc_offset p) (pieces d) in
        let neighbours := match i with O => [] | S j => option_list (pieces d !! j) end
                          ++ option_list (pieces d !! i) in
        match overlap d p fin neighbours with
        | Some verdict => (d, verdict)
        | None =>
            let d := with_ecn d (Z.lor (p_ecn d) (u8 (Z.shiftl 1 (Z.land (pc_ecn p) 3)))) in
            if zlen (pc_data p) =? 0 then (d, true)
            else if MAX_PIECES <=? zlen (pieces d) then (d, false)
            else (store d p fin i, true)
        end
  end.

(** ** The table of datagrams *)

Definition sum_caps (m : gmap Key Partial) : Z := map_fold (fun _ d s => cap d + s) 0 m.

Definition discard (r : Reassembler) (k : Key) : Reassembler :=
  match partial r !! k with
  | Some d => mkReassembler (delete k (partial r)) (bytes r - cap d)
  | None => r
  end.

Definition fresh (d : Partial) (now : Z) : bool :=
  sat_sub now (started d) <? REASSEMBLY_TIMEOUT.

(** [partial.retain(..)]: what is too old goes, with its bytes. *)
Definition expire (r : Reassembler) (now : Z) : Reassembler :=
  mkReassembler (filter (fun kd => fresh kd.2 now = true) (partial r))
    (bytes r - sum_caps (filter (fun kd => fresh kd.2 now = false) (partial r))).

Definition new_partial (now : Z) : Partial := mkPartial now None [] 0 [] 0 None false 0.

Section Table.
(** The iteration order of the hash map. *)
Variable iter : gmap Key Partial -> list (Key * Partial).

(** [Iterator::min_by_key]: the first of the minimal elements. *)
Fixpoint min_started (l : list (Key * Partial)) : option (Key * Partial) :=
  match l with
  | [] => None
  | x :: r =>
      match min_started r with
      | Some y => if started y.2 <? started x.2 then Some y else Some x
      | None => Some x
      end
  end.

Definition evict_oldest (r : Reassembler) (keep : Key) : Reassembler * bool :=
  match min_started (filter (fun kd => kd.1 <> keep) (iter (partial r))) with
  | Some (k, _) => (discard r k, true)
  | None => (r, false)
  end.

(** [while self.bytes > MAX_BYTES && self.evict_oldest(&p.key) {}]. *)
Fixpoint evict_loop (fuel : nat) (r : Reassembler) (keep : Key) : Reassembler :=
  match fuel with
  | O => r
  | S fuel =>
      if MAX_BYTES <? bytes r then
        let '(r', evicted) := evict_oldest r keep in
        if evicted then evict_loop fuel r' keep else r'
      else r
  end.

Definition malformed (p : Piece) : bool :=
  (pc_more p && (negb (zlen (pc_data p) mod 8 =? 0) || (zlen (pc_data p) =? 0)))
  || (MAX_PAYLOAD <? pc_offset p + zlen (pc_data p)).

Definition push (r : Reassembler) (now : Z) (p : Piece)
  : Reassembler * option (list Z * list Z * option Z) :=
  let r := expire r now in
  let fin := pc_offset p + zlen (pc_data p) in
  if malformed p then (discard r (pc_key p), None)
  else
    let r := if bool_decide (partial r !! pc_key p = None)
                && (MAX_DATAGRAMS <=? Z.of_nat (size (partial r)))
             then (evict_oldest r (pc_key p)).1 else r in
    let d := default (new_partial now) (partial r !! pc_key p) in
    let before := cap d in
    let '(d', accepted) := accept d p fin in
    let r := mkReassembler (<[pc_key p := d']> (partial r)) (bytes r - before + cap d') in
    if negb accepted then (discard r (pc_key p), None)
    else
      match p_total d' with
      | Some total =>
          if received d' =? total then
            let r := mkReassembler (delete (pc_key p) (partial r)) (bytes r - cap d') in
            (r, header ← header d';
                ecn ← reassembled_ecn (p_ecn d');
                Some (header, ztake total (data d'), ecn))
          else
            let r := evict_loop (S (size (partial r))) r (pc_key p) in
            (if MAX_BYTES <? bytes r then discard r (pc_key p) else r, None)
      | None =>
          let r := evict_loop (S (size (partial r))) r (pc_key p) in
          (if MAX_BYTES <? bytes r then discard r (pc_key p) else r, None)
      end.

(** ** IPv4 and IPv6 fragments *)

(** The piece [push_v4] makes of an IPv4 fragment trimmed to its length. *)
Definition piece_v4 (ns : Z) (pkt : list Z) (ihl : Z) : Piece :=
  let frag := of_be16 pkt.[6] pkt.[7] in
  let offset := Z.land frag 0x1FFF * 8 in
  mkPiece
    (mkKey ns false (slice pkt 12 16 ++ replicate 12 0) (slice pkt 16 20 ++ replicate 12 0)
       (of_be16 pkt.[4] pkt.[5]) pkt.[9])
    offset
    (negb (Z.land frag 0x2000 =? 0))
    (zdrop ihl pkt)
    (if offset =? 0 then Some (set_byte (ztake 20 pkt) 0 0x45) else None)
    (Z.land pkt.[1] 3).

(** The packet [push_v4] builds from a completed datagram. *)
Definition rebuild_v4 (header payload : list Z) (ecn : option Z) : option (list Z) :=
  let total := 20 + zlen payload in
  if MAX_PAYLOAD <? total then None
  else
    let out := match ecn with
               | Some e => set_byte header 1 (Z.lor (Z.land header.[1] 0xFC) e)
               | None => header
               end in
    let out := splice out 2 (be16 total) in
    let out := splice out 6 [0; 0] in
    let out := splice out 10 [0; 0] in
    let out := splice out 10 (be16 (checksum out)) in
    Some (out ++ payload).

Definition push_v4 (r : Reassembler) (now ns : Z) (pkt : list Z) (ihl : Z)
  : Reassembler * option (list Z) :=
  let '(r, done) := push r now (piece_v4 ns pkt ihl) in
  (r, '(header, payload, ecn) ← done; rebuild_v4 header payload ecn).

Definition piece_v6 (ns : Z) (pkt : list Z) (frag_off : Z) : Piece :=
  let fh := slice pkt frag_off (frag_off + 8) in
  let off_flags := of_be16 fh.[2] fh.[3] in
  let offset := Z.land off_flags 0xFFF8 in
  mkPiece
    (mkKey ns true (slice pkt 8 24) (slice pkt 24 40) (of_be_bytes (slice fh 4 8)) 0)
    offset
    (negb (Z.land off_flags 1 =? 0))
    (zdrop (frag_off + 8) pkt)
    (if offset =? 0 then Some (set_byte (ztake 40 pkt) 6 fh.[0]) else None)
    (ip_ecn pkt).

Definition rebuild_v6 (header payload : list Z) (ecn : option Z) : list Z :=
  let out := match ecn with Some e => set_ip_ecn header e | None => header end in
  splice out 4 (be16 (u16 (zlen payload))) ++ payload.

Definition push_v6 (r : Reassembler) (now ns : Z) (pkt : list Z) (frag_off : Z)
  : Reassembler * option (list Z) :=
  if zlen pkt <? frag_off + 8 then (r, None)
  else
    let '(r, done) := push r now (piece_v6 ns pkt frag_off) in
    (r, '(header, payload, ecn) ← done; Some (rebuild_v6 header payload ecn)).

Fixpoint fragment_header_loop (n : nat) (pkt : list Z) (next off : Z) : option Z :=
  match n with
  | O => None
  | S n =>
      if next =? 44 then Some off
      else if (next =? 0) || (next =? 43) || (next =? 60) || (next =? 135) || (next =? 139)
              || (next =? 140) then
        h ← get_range pkt off (off + 2);
        fragment_header_loop n pkt h.[0] (off + (h.[1] + 1) * 8)
      else if next =? 51 then
        h ← get_range pkt off (off + 2);
        fragment_header_loop n pkt h.[0] (off + (h.[1] + 2) * 4)
      else None
  end.

(** [pkt[6]] is there: the caller has at least the fixed header. *)
Definition ipv6_fragment_header (pkt : list Z) : option Z :=
  fragment_header_loop MAX_EXT_HEADERS pkt pkt.[6] 40.

Definition reassemble (r : Reassembler) (now ns : Z) (pkt : list Z)
  : Reassembler * option (list Z) :=
  match get pkt 0 with
  | None => (r, None)
  | Some b0 =>
      if Z.shiftr b0 4 =? 4 then
        let ihl := Z.land b0 0x0F * 4 in
        match get pkt 2, get pkt 3 with
        | Some b2, Some b3 =>
            let total := of_be16 b2 b3 in
            if (ihl <? 20) || (total <? ihl) || (zlen pkt <? total) then (r, None)
            else
              let pkt := ztake total pkt in
              if Z.land (of_be16 pkt.[6] pkt.[7]) 0x3FFF =? 0 then (r, Some pkt)
              else push_v4 r now ns pkt ihl
        | _, _ => (r, None)
        end
      else if Z.shiftr b0 4 =? 6 then
        match get pkt 4, get pkt 5 with
        | Some b4, Some b5 =>
            let len := 40 + of_be16 b4 b5 in
            if zlen pkt <? len then (r, None)
            else
              let pkt := ztake len pkt in
              match ipv6_fragment_header pkt with
              | None => (r, Some pkt)
              | Some frag_off =>
                  let '(r, whole) := push_v6 r now ns pkt frag_off in
                  (r, whole ← whole;
                      match ipv6_fragment_header whole with Some _ => None | None => Some whole end)
              end
        | _, _ => (r, None)
        end
      else (r, Some pkt)
  end.
End Table.

(** ** The pieces of a datagram *)

(** Disjoint, in order, none empty, from [lo] on. *)
Fixpoint sorted_from (lo : Z) (l : list (Z * Z)) : Prop :=
  match l with
  | [] => True
  | (s, e) :: r => lo <= s /\ s < e /\ sorted_from e r
  end.

Fixpoint covered (l : list (Z * Z)) : Z :=
  match l with
  | [] => 0
  | (s, e) :: r => (e - s) + covered r
  end.

Lemma sorted_from_weaken lo lo' l : lo' <= lo -> sorted_from lo l -> sorted_from lo' l.
Proof. destruct l as [|[s e] l]; cbn; [done|]. intros ? (? & ? & ?). split_and!; (done || lia). Qed.

Lemma sorted_from_bounds lo l s e : sorted_from lo l -> (s, e) ∈ l -> lo <= s /\ s < e.
Proof.
  revert lo. induction l as [|[s' e'] l IH]; cbn; intros lo Hs Hin; [by apply elem_of_nil in Hin|].
  destruct Hs as (? & ? & Hs). apply elem_of_cons in Hin as [[= -> ->]|Hin]; [lia|].
  specialize (IH e' Hs Hin). lia.
Qed.

(** What comes before a piece ends before it, what comes after starts after. *)
Lemma sorted_from_mid lo a off fin b s e :
  sorted_from lo (a ++ (off, fin) :: b) ->
  ((s, e) ∈ a -> e <= off) /\ ((s, e) ∈ b -> fin <= s).
Proof.
  revert lo. induction a as [|[s' e'] a IH]; cbn; intros lo Hs.
  - split; [intros H; by apply elem_of_nil in H|].
    intros Hb. destruct Hs as (_ & _ & Hs). apply (sorted_from_bounds _ _ _ _ Hs Hb).
  - destruct Hs as (_ & _ & Hs). destruct (IH e' Hs) as [IH1 IH2]. split; [|done].
    intros Hin. apply elem_of_cons in Hin as [[= -> ->]|Hin]; [|auto].
    apply (sorted_from_bounds e' (a ++ (off, fin) :: b) off fin); [done|].
    apply elem_of_app. right. by left.
Qed.

Lemma covered_app a b : covered (a ++ b) = covered a + covered b.
Proof. induction a as [|[s e] a IH]; cbn; lia. Qed.

Lemma covered_le lo hi l :
  sorted_from lo l -> (forall s e, (s, e) ∈ l -> e <= hi) -> lo <= hi -> covered l <= hi - lo.
Proof.
  revert lo. induction l as [|[s e] l IH]; cbn; intros lo Hs Hle Hlo; [lia|].
  destruct Hs as (? & ? & Hs). pose proof (Hle s e ltac:(by left)).
  specialize (IH e Hs ltac:(intros; eapply Hle; right; done) ltac:(lia)). lia.
Qed.

(** Pieces that cover all of [[lo, hi)] leave no gap before the next. *)
Lemma covered_full lo hi s e l :
  sorted_from lo ((s, e) :: l) -> (forall s' e', (s', e') ∈ (s, e) :: l -> e' <= hi) ->
  covered ((s, e) :: l) = hi - lo -> s = lo /\ covered l = hi - e.
Proof.
  cbn. intros (? & ? & Hs) Hle Hc. pose proof (Hle s e ltac:(by left)).
  pose proof (covered_le e hi l Hs ltac:(intros; eapply Hle; right; done) ltac:(lia)). lia.
Qed.

(** Inserting a fragment that meets neither neighbour keeps the pieces in
    order. *)
Lemma sorted_insert lo l off fin :
  let i := partition_point (fun '(s, _) => s <? off) l in
  sorted_from lo l -> lo <= off -> off < fin ->
  (forall j s e, l !! j = Some (s, e) -> S j = i \/ j = i -> e <= off \/ fin <= s) ->
  sorted_from lo (take i l ++ [(off, fin)] ++ drop i l).
Proof.
  revert lo. induction l as [|[s e] l IH]; cbn [partition_point]; intros lo Hs Hlo Hof Hn.
  { cbn. lia. }
  destruct Hs as (Hs1 & Hs2 & Hs). destruct (s <? off) eqn:E; bool2prop.
  - cbn [take drop app sorted_from]. split_and!; [done|done|].
    set (i := partition_point _ l) in *.
    assert (e <= off) as He.
    { destruct (decide (e <= off)); [done|].
      destruct (decide (i = O)) as [Hi|Hi].
      - destruct (Hn O s e eq_refl) as [?|?]; [left; lia|lia|lia].
      - destruct l as [|[s2 e2] l']; [done|]. cbn [sorted_from] in Hs.
        unfold i in Hi. cbn [partition_point] in Hi. destruct (s2 <? off) eqn:E2; bool2prop; [lia|done]. }
    apply IH; [done|done|done|].
    intros j s' e' Hj Hij. apply (Hn (S j)); [done|lia].
  - cbn [take drop app sorted_from]. split_and!; [done|done| |done|done].
    destruct (Hn O s e eq_refl) as [?|?]; [right; done|lia|lia].
Qed.

Lemma overlap_none d p fin nb s e :
  overlap d p fin nb = None -> (s, e) ∈ nb -> pc_offset p < fin -> e <= pc_offset p \/ fin <= s.
Proof.
  induction nb as [|[s' e'] nb IH]; cbn; intros Ho Hin Hlt; [by apply elem_of_nil in Hin|].
  case_match eqn:E; [done|]. apply elem_of_cons in Hin as [[= -> ->]|Hin]; [|auto].
  apply andb_false_iff in E. rewrite !Z.ltb_ge in E. lia.
Qed.

(** ** What a datagram in progress holds *)

(** A fragment as the two [push_*] functions make it. *)
Record piece_ok (p : Piece) : Prop := {
  po_bytes : bytes_ok (pc_data p);
  po_off : 0 <= pc_offset p;
  po_fin : pc_offset p + zlen (pc_data p) <= MAX_PAYLOAD }.

(** The invariant of a [Partial] under key [k], where [R] says which
    fragments have been received: the bookkeeping adds up, and everything
    held (each piece, the header, the total) came from a received fragment
    of that datagram. *)
Record partial_inv (R : Piece -> Prop) (k : Key) (d : Partial) : Prop := {
  pi_sorted : sorted_from 0 (pieces d);
  pi_len : forall s e, (s, e) ∈ pieces d -> e <= zlen (data d);
  pi_recv : received d = covered (pieces d);
  pi_cap : zlen (data d) <= cap d <= MAX_PAYLOAD;
  pi_count : zlen (pieces d) <= MAX_PIECES;
  pi_bytes : bytes_ok (data d);
  pi_src : forall s e, (s, e) ∈ pieces d ->
    exists p, R p /\ pc_key p = k /\ pc_offset p = s /\ pc_data p = slice (data d) s e;
  pi_header : forall h, header d = Some h -> exists p, R p /\ pc_key p = k /\ pc_header p = Some h;
  pi_total : forall t, p_total d = Some t ->
    0 <= t <= MAX_PAYLOAD /\ (forall s e, (s, e) ∈ pieces d -> e <= t) /\
    exists p, R p /\ pc_key p = k /\ pc_more p = false /\ pc_offset p + zlen (pc_data p) = t }.

Lemma new_partial_inv R k now : partial_inv R k (new_partial now).
Proof.
  split; cbn [new_partial pieces data header p_total received cap]; try done;
    try (intros s e H; by apply elem_of_nil in H). apply bytes_ok_nil.
Qed.

Lemma with_ecn_inv R k d e : partial_inv R k d -> partial_inv R k (with_ecn d e).
Proof. intros []; split; done. Qed.

Lemma with_total_inv R k d p :
  partial_inv R k d -> piece_ok p -> R p -> pc_key p = k -> pc_more p = false ->
  (forall s e, (s, e) ∈ pieces d -> e <= pc_offset p + zlen (pc_data p)) ->
  partial_inv R k (with_total d (pc_offset p + zlen (pc_data p))).
Proof.
  intros [] [] Hr Hk Hm Hle. split; try done. cbn. intros t [= <-].
  pose proof (zlen_nonneg (pc_data p)). split_and!; [lia|lia|done|eauto 10].
Qed.

Lemma grow_spec d fin :
  zlen (data d) <= cap d <= MAX_PAYLOAD -> fin <= MAX_PAYLOAD ->
  (forall t, p_total d = Some t -> t <= MAX_PAYLOAD) -> bytes_ok (data d) ->
  let '(buf, cap') := grow d fin in
  (exists z, buf = data d ++ z) /\ fin <= zlen buf <= cap' /\ cap' <= MAX_PAYLOAD /\ bytes_ok buf.
Proof.
  intros Hc Hf Ht Hb. unfold grow. destruct (zlen (data d) <? fin) eqn:E; bool2prop.
  - assert (zlen (data d ++ replicate (Z.to_nat (fin - zlen (data d))) 0) = fin) as Hz.
    { rewrite zlen_app, zlen_replicate. lia. }
    assert (default fin (p_total d) <= MAX_PAYLOAD) by (destruct (p_total d); cbn; auto).
    rewrite Hz. split_and!; [eauto|lia| | |].
    + case_if; lia.
    + case_if; lia.
    + apply bytes_ok_app; [done|]. apply bytes_ok_replicate. unfold byte_ok; lia.
  - split_and!; [exists []; by rewrite app_nil_r|lia|lia|lia|done].
Qed.

Lemma elem_of_take_drop_mid {A} (i : nat) (l : list A) (x y : A) :
  y ∈ take i l ++ [x] ++ drop i l <-> y = x \/ y ∈ l.
Proof.
  rewrite <- (take_drop i l) at 3. rewrite !elem_of_app, list_elem_of_singleton. tauto.
Qed.

(** Storing a fragment that overlaps nothing held. *)
Lemma store_inv R k d p :
  partial_inv R k d -> piece_ok p -> R p -> pc_key p = k -> 0 < zlen (pc_data p) ->
  zlen (pieces d) < MAX_PIECES ->
  let fin := pc_offset p + zlen (pc_data p) in
  (forall t, p_total d = Some t -> fin <= t) ->
  let i := partition_point (fun '(s, _) => s <? pc_offset p) (pieces d) in
  (forall j s e, pieces d !! j = Some (s, e) -> S j = i \/ j = i -> e <= pc_offset p \/ fin <= s) ->
  partial_inv R k (store d p fin i).
Proof.
  intros [Hs Hl Hr Hc Hn Hb Hsrc Hh Ht] [Pb Po Pf] HR Hk Hz Hcnt fin Hfin i Hnb.
  pose proof (grow_spec d fin Hc Pf ltac:(intros; apply Ht; done) Hb) as Hg.
  unfold store. destruct (grow d fin) as [buf cap']. destruct Hg as ([z ->] & Hgl & Hgc & Hgb).
  pose proof (sorted_insert 0 (pieces d) (pc_offset p) fin Hs Po ltac:(lia) Hnb) as Hsi. fold i in Hsi.
  assert (zlen (splice (data d ++ z) (pc_offset p) (pc_data p)) = zlen (data d ++ z)) as Hzs
    by (apply zlen_splice; lia).
  assert (forall s e, (s, e) ∈ pieces d -> e <= pc_offset p \/ fin <= s) as Hdis.
  { intros s e Hin. rewrite <- (take_drop i (pieces d)) in Hin.
    destruct (sorted_from_mid _ _ _ _ _ s e Hsi) as [H1 H2]. apply elem_of_app in Hin. tauto. }
  split; cbn [pieces data received cap header p_total].
  - done.
  - intros s e Hin. rewrite Hzs. apply elem_of_take_drop_mid in Hin as [[= -> ->]|Hin]; [lia|].
    specialize (Hl s e Hin). rewrite zlen_app in *. pose proof (zlen_nonneg z). lia.
  - rewrite Hr. rewrite !covered_app. rewrite <- (take_drop i (pieces d)) at 1. rewrite covered_app.
    cbn. lia.
  - lia.
  - rewrite !zlen_app. change (zlen [(pc_offset p, fin)]) with 1.
    rewrite <- (take_drop i (pieces d)), zlen_app in Hcnt. lia.
  - apply bytes_ok_splice; done.
  - intros s e Hin. apply elem_of_take_drop_mid in Hin as [[= -> ->]|Hin].
    + exists p. split_and!; try done. unfold fin. symmetry. apply slice_splice_in; lia.
    + destruct (Hsrc s e Hin) as (p' & HR' & Hk' & Ho & Hd). exists p'. split_and!; try done. rewrite Hd.
      pose proof (sorted_from_bounds _ _ _ _ Hs Hin). specialize (Hl s e Hin).
      rewrite <- (slice_app_l (data d) z s e) by lia. symmetry.
      destruct (Hdis s e Hin); [apply slice_splice_before|apply slice_splice_after]; lia.
  - intros h Hhd. destruct (pc_header p) eqn:E; [injection Hhd as <-; eauto|auto].
  - intros t Htt. destruct (Ht t Htt) as (T1 & T2 & T3). split_and!; [lia|lia| |done].
    intros s e Hin. apply elem_of_take_drop_mid in Hin as [[= -> ->]|Hin]; eauto.
Qed.

(** In order, the last piece reaches furthest. *)
Lemma sorted_last lo l s e t :
  sorted_from lo l -> (s, e) ∈ l ->
  match list.last l with Some (_, e') => t <? e' | None => false end = false -> e <= t.
Proof.
  revert lo s e. induction l as [|[s' e'] l IH]; intros lo s e Hs Hin Hl; [by apply elem_of_nil in Hin|].
  destruct Hs as (? & ? & Hs). destruct l as [|x l].
  - apply elem_of_cons in Hin as [[= -> ->]|Hin]; [|by apply elem_of_nil in Hin].
    cbn in Hl. bool2prop. lia.
  - change (list.last ((s', e') :: x :: l)) with (list.last (x :: l)) in Hl.
    apply elem_of_cons in Hin as [[= -> ->]|Hin]; [|eauto].
    destruct x as [s2 e2]. cbn [sorted_from] in Hs. destruct Hs as (? & ? & Hs).
    enough (e2 <= t) by lia. apply (IH e' s2); [done|by left|done].
Qed.

Lemma accept_inv R k d p :
  partial_inv R k d -> piece_ok p -> R p -> pc_key p = k ->
  let '(d', ok) := accept d p (pc_offset p + zlen (pc_data p)) in
  (ok = true -> partial_inv R k d') /\ (ok = false -> cap d' = cap d).
Proof.
  intros Hinv Hp HR Hk. set (fin := pc_offset p + zlen (pc_data p)).
  pose proof (zlen_nonneg (pc_data p)). unfold accept.
  set (fixed := if pc_more p then Some d else _).
  assert (match fixed with
          | None => True
          | Some d1 => cap d1 = cap d /\ pieces d1 = pieces d /\
              ((forall t, p_total d1 = Some t -> forall s e, (s, e) ∈ pieces d -> e <= t) ->
               partial_inv R k d1)
          end) as Hfixed.
  { unfold fixed. destruct (pc_more p) eqn:Em; [done|].
    destruct (p_total d) as [t|] eqn:Et; [destruct (negb (t =? fin)) eqn:E; [done|]|];
      (split_and!; [done|done|]); intros Hle; apply with_total_inv; auto; cbn in Hle; eauto. }
  destruct fixed as [d1|]; [|done]. destruct Hfixed as (Hc1 & Hp1 & Hi1).
  destruct (match p_total d1 with Some _ => _ | None => false end) eqn:Eb; [done|].
  assert (forall t, p_total d1 = Some t ->
    fin <= t /\ forall s e, (s, e) ∈ pieces d -> e <= t) as Ht.
  { intros t Et. rewrite Et, Hp1 in Eb. bool2prop. split; [done|]. intros s e Hin.
    eapply sorted_last; [apply Hinv|done|done]. }
  specialize (Hi1 ltac:(intros t Et; apply Ht; done)).
  set (i := partition_point _ (pieces d1)). set (nb := _ ++ option_list (pieces d1 !! i)).
  destruct (overlap d1 p fin nb) as [v|] eqn:Eo; [destruct v; done|].
  pose proof (with_ecn_inv R k d1 (Z.lor (p_ecn d1) (u8 (Z.shiftl 1 (Z.land (pc_ecn p) 3)))) Hi1) as Hi2.
  set (d2 := with_ecn d1 _) in *.
  destruct (zlen (pc_data p) =? 0) eqn:Ez; [done|]. destruct (MAX_PIECES <=? zlen (pieces d2)) eqn:En; [done|].
  bool2prop. split; [intros _|done].
  apply (store_inv R k d2 p Hi2 Hp HR Hk ltac:(lia) En); [intros t Et; apply Ht; done|].
  change (pieces d2) with (pieces d1). fold i. intros j s e Hj Hij.
  eapply (overlap_none d1 p fin nb); [done| |lia].
  apply elem_of_app. destruct Hij as [<-| ->]; [left|right]; rewrite Hj; apply list_elem_of_singleton; done.
Qed.

(** ** The table *)

Lemma sum_caps_insert m k d : m !! k = None -> sum_caps (<[k := d]> m) = cap d + sum_caps m.
Proof. intros. unfold sum_caps. rewrite map_fold_insert_L; [done|intros; lia|done]. Qed.

Lemma sum_caps_delete m k d : m !! k = Some d -> sum_caps m = cap d + sum_caps (delete k m).
Proof.
  intros. rewrite <- (sum_caps_insert (delete k m) k d) by apply lookup_delete_eq.
  rewrite insert_delete_eq, insert_id by done. done.
Qed.

Lemma sum_caps_replace m k d d' :
  m !! k = Some d -> sum_caps (<[k := d']> m) = sum_caps m - cap d + cap d'.
Proof.
  intros Hd. rewrite <- insert_delete_eq, sum_caps_insert by apply lookup_delete_eq.
  rewrite (sum_caps_delete m k d Hd). lia.
Qed.

Lemma sum_caps_filter (P : Partial -> bool) m :
  sum_caps (filter (fun kd => P kd.2 = true) m) + sum_caps (filter (fun kd => P kd.2 = false) m)
  = sum_caps m.
Proof.
  induction m as [|k d m Hk IH] using map_ind; [done|].
  rewrite !map_filter_insert. cbn [snd]. rewrite sum_caps_insert by done.
  assert (forall b : bool, filter (fun kd : Key * Partial => P kd.2 = b) m !! k = None) as Hn.
  { intros b. apply map_lookup_filter_None. left. done. }
  destruct (P d).
  - rewrite decide_True, decide_False by done. rewrite sum_caps_insert by apply Hn.
    rewrite delete_id by done. lia.
  - rewrite decide_False, decide_True by done. rewrite sum_caps_insert by apply Hn.
    rewrite delete_id by done. lia.
Qed.

Definition caps_ok (m : gmap Key Partial) : Prop := map_Forall (fun _ d => 0 <= cap d) m.

Lemma sum_caps_nonneg m : caps_ok m -> 0 <= sum_caps m.
Proof.
  induction m as [|k d m Hk IH] using map_ind; intros H; [done|].
  rewrite sum_caps_insert by done. apply map_Forall_insert in H as [? ?]; [|done].
  specialize (IH H0). lia.
Qed.

(** ** Completed datagrams *)

(** Fragments one after the other from [off] on. *)
Fixpoint contiguous (off : Z) (ps : list Piece) : Prop :=
  match ps with
  | [] => True
  | p :: r => pc_offset p = off /\ contiguous (off + zlen (pc_data p)) r
  end.

(** A datagram put together from received fragments of key [k]: its payload
    is their data, gapless from offset 0 up to the end of one that said it
    was the last. *)
Definition assembled (R : Piece -> Prop) (k : Key) (payload : list Z) : Prop :=
  exists ps, Forall (fun p => R p /\ pc_key p = k) ps /\ contiguous 0 ps /\
    payload = concat (pc_data <$> ps) /\
    exists p, R p /\ pc_key p = k /\ pc_more p = false /\
              pc_offset p + zlen (pc_data p) = zlen payload.

Lemma pieces_contiguous R k (buf : list Z) lo t l :
  0 <= lo <= t -> t <= zlen buf \/ l = [] -> sorted_from lo l ->
  (forall s e, (s, e) ∈ l -> e <= t /\
     exists p, R p /\ pc_key p = k /\ pc_offset p = s /\ pc_data p = slice buf s e) ->
  covered l = t - lo ->
  exists ps, Forall (fun p => R p /\ pc_key p = k) ps /\ contiguous lo ps /\
             slice buf lo t = concat (pc_data <$> ps).
Proof.
  revert lo. induction l as [|[s e] l IH]; intros lo Hlo Hbuf Hs Hin Hc.
  { exists []. cbn in Hc. rewrite slice_nil by lia. done. }
  destruct (covered_full lo t s e l Hs) as [-> Hc']; [intros s1 e1 H1; apply (Hin s1 e1 H1)|done|].
  destruct (Hin lo e ltac:(by left)) as (He & p & HR & Hk & Ho & Hd).
  cbn [sorted_from] in Hs. destruct Hs as (_ & Hlt & Hs).
  destruct (IH e) as (ps & Hf & Hcon & Hps); [lia|destruct Hbuf; [auto|done]|done| |done|].
  { intros s' e' H'. apply Hin. by right. }
  assert (zlen (pc_data p) = e - lo) as Hz by (rewrite Hd, zlen_slice; destruct Hbuf; [lia|done]).
  exists (p :: ps). split_and!.
  - constructor; done.
  - cbn [contiguous]. rewrite Hz. split; [done|]. replace (lo + (e - lo)) with e by lia. done.
  - cbn. rewrite <- Hps, Hd. symmetry. apply slice_cat; lia.
Qed.

Lemma complete_assembled R k d t :
  partial_inv R k d -> p_total d = Some t -> received d = t -> assembled R k (ztake t (data d)).
Proof.
  intros [Hs Hl Hr Hc Hn Hb Hsrc Hh Ht] Et Er. destruct (Ht t Et) as (T1 & T2 & p & P1 & P2 & P3 & P4).
  assert (t <= zlen (data d) \/ pieces d = []) as Hlen.
  { destruct (pieces d) as [|x l] eqn:Ep; [by right|left].
    rewrite <- Er, Hr. pose proof (zlen_nonneg (data d)).
    pose proof (covered_le 0 (zlen (data d)) _ Hs Hl ltac:(lia)). lia. }
  destruct (pieces_contiguous R k (data d) 0 t (pieces d)) as (ps & Hf & Hcon & Hps);
    [lia|done|done|intros; split; eauto|lia|].
  exists ps. rewrite slice_from_0 in Hps. split_and!; [done|done|done|].
  exists p. split_and!; try done. rewrite P4, zlen_ztake.
  destruct Hlen as [|E0]; [lia|]. rewrite E0 in Hr. cbn in Hr. pose proof (zlen_nonneg (data d)). lia.
Qed.

(** ** The reassembler's invariant *)

Record reasm_core (R : Piece -> Prop) (r : Reassembler) : Prop := {
  rc_partial : map_Forall (partial_inv R) (partial r);
  rc_bytes : bytes r = sum_caps (partial r) }.

(** Every datagram in progress is well-formed, the byte count is exact, and
    both budgets are kept. *)
Record reasm_inv (R : Piece -> Prop) (r : Reassembler) : Prop := {
  ri_core : reasm_core R r;
  ri_size : Z.of_nat (size (partial r)) <= MAX_DATAGRAMS;
  ri_bytes : bytes r <= MAX_BYTES }.

Section TableInv.
Context (R : Piece -> Prop).
Implicit Types r : Reassembler.

Lemma core_caps r : reasm_core R r -> caps_ok (partial r).
Proof.
  intros [H _] k d Hd. destruct (H k d Hd). pose proof (zlen_nonneg (data d)). lia.
Qed.

Lemma discard_core r k : reasm_core R r -> reasm_core R (discard r k).
Proof.
  intros [H1 H2]. unfold discard. destruct (partial r !! k) as [d|] eqn:E; [|done].
  split; cbn; [by apply map_Forall_delete|]. rewrite H2, (sum_caps_delete _ k d) by done. lia.
Qed.

Lemma discard_le r k :
  reasm_core R r -> (size (partial (discard r k)) <= size (partial r))%nat /\ bytes (discard r k) <= bytes r.
Proof.
  intros H. unfold discard. destruct (partial r !! k) as [d|] eqn:E; [|lia]. cbn.
  split; [rewrite map_size_delete_Some by eauto; lia|].
  pose proof (core_caps r H k d E) as Hc. cbn in Hc. lia.
Qed.

Lemma expire_core r now : reasm_core R r -> reasm_core R (expire r now).
Proof.
  intros [H1 H2]. split; cbn.
  - intros k d Hd. apply map_lookup_filter_Some in Hd as [Hd _]. by apply H1.
  - rewrite H2. pose proof (sum_caps_filter (fun d => fresh d now) (partial r)). cbn in *. lia.
Qed.

Lemma expire_le r now :
  reasm_core R r -> (size (partial (expire r now)) <= size (partial r))%nat /\ bytes (expire r now) <= bytes r.
Proof.
  intros H. split; cbn; [apply map_size_filter|].
  enough (0 <= sum_caps (filter (fun kd => fresh kd.2 now = false) (partial r))) by lia.
  apply sum_caps_nonneg. intros k d Hd. apply map_lookup_filter_Some in Hd as [Hd _].
  apply (core_caps r H k d Hd).
Qed.
End TableInv.

Section Push.
Context (iter : gmap Key Partial -> list (Key * Partial)).
(** All that is known of the hash map's iteration order: it visits every
    entry once. *)
Hypothesis Hiter : forall m, iter m ≡ₚ map_to_list m.
Context (R : Piece -> Prop).

Lemma min_started_elem l x : min_started l = Some x -> x ∈ l.
Proof.
  revert x. induction l as [|y l IH]; cbn; intros x H; [done|].
  destruct (min_started l) as [z|]; [|injection H as <-; by left].
  destruct (started z.2 <? started y.2); injection H as <-; [right; auto|by left].
Qed.

Lemma min_started_none l : min_started l = None -> l = [].
Proof. destruct l as [|x l]; cbn; [done|]. repeat case_match; done. Qed.

(** [evict_oldest] removes one other datagram, unless there is none. *)
Lemma evict_oldest_spec r keep :
  match evict_oldest iter r keep with
  | (r', true) => exists k d, k <> keep /\ partial r !! k = Some d /\ r' = discard r k
  | (r', false) => r' = r /\ forall k, k <> keep -> partial r !! k = None
  end.
Proof.
  unfold evict_oldest. destruct (min_started _) as [[k d]|] eqn:E.
  - apply min_started_elem in E. apply list_elem_of_filter in E as [Hk Hin].
    rewrite Hiter, elem_of_map_to_list in Hin. eauto.
  - apply min_started_none in E. split; [done|]. intros k Hk.
    destruct (partial r !! k) as [d|] eqn:Ed; [|done]. exfalso.
    apply (not_elem_of_nil (k, d)). rewrite <- E. apply list_elem_of_filter. split; [done|].
    rewrite Hiter. apply elem_of_map_to_list. done.
Qed.

Lemma evict_oldest_core r keep : reasm_core R r -> reasm_core R (evict_oldest iter r keep).1.
Proof.
  intros H. pose proof (evict_oldest_spec r keep) as Hs.
  destruct (evict_oldest iter r keep) as [r' []]; cbn; [|by destruct Hs as [-> _]].
  destruct Hs as (k & d & _ & _ & ->). by apply discard_core.
Qed.

(** The eviction loop stops within the byte budget or with nothing else to
    evict; a round for each datagram is enough. *)
Lemma evict_loop_spec fuel r keep :
  reasm_core R r -> (size (partial r) < fuel)%nat ->
  let r' := evict_loop iter fuel r keep in
  reasm_core R r' /\ (size (partial r') <= size (partial r))%nat /\
  partial r' !! keep = partial r !! keep /\
  (bytes r' <= MAX_BYTES \/ forall k, k <> keep -> partial r' !! k = None).
Proof.
  revert r. induction fuel as [|fuel IH]; intros r Hr Hf; [lia|]. cbn [evict_loop].
  destruct (MAX_BYTES <? bytes r) eqn:Eb; bool2prop; [|auto].
  pose proof (evict_oldest_spec r keep) as Hs.
  destruct (evict_oldest iter r keep) as [r' []]; [|destruct Hs as [-> Hs]; auto].
  destruct Hs as (k & d & Hk & Hd & ->).
  assert (size (partial (discard r k)) < size (partial r))%nat as Hlt.
  { unfold discard. rewrite Hd. cbn. rewrite map_size_delete_Some by eauto.
    assert (size (partial r) <> O); [|lia]. intros E0. apply map_size_empty_inv in E0.
    by rewrite E0, lookup_empty in Hd. }
  destruct (IH (discard r k)) as (I1 & I2 & I3 & I4); [by apply discard_core|lia|].
  split_and!; [done|lia| |done]. rewrite I3. unfold discard. rewrite Hd. cbn. by apply lookup_delete_ne.
Qed.

(** The end of a push that does not complete its datagram. *)
Lemma settle_inv r k :
  reasm_core R r -> Z.of_nat (size (partial r)) <= MAX_DATAGRAMS ->
  let r1 := evict_loop iter (S (size (partial r))) r k in
  reasm_inv R (if MAX_BYTES <? bytes r1 then discard r1 k else r1).
Proof.
  intros Hr Hs r1. destruct (evict_loop_spec (S (size (partial r))) r k Hr ltac:(lia)) as (H1 & H2 & _ & H4).
  fold r1 in H1, H2, H4. destruct (MAX_BYTES <? bytes r1) eqn:E; bool2prop; [|split; (done || lia)].
  destruct (discard_le R r1 k H1) as [D1 D2].
  split; [by apply discard_core|lia|]. destruct H4 as [|Ho]; [lia|].
  destruct (discard_core R r1 k H1) as [_ ->]. unfold discard.
  assert (forall m, (forall k', m !! k' = None) -> sum_caps m <= MAX_BYTES) as H0.
  { intros m Hm. replace m with (∅ : gmap Key Partial); [vm_compute; done|].
    symmetry. apply map_eq. intros. rewrite lookup_empty. auto. }
  destruct (partial r1 !! k) as [d|] eqn:Ed; apply H0; intros k'; cbn.
  - destruct (decide (k' = k)) as [->|]; [apply lookup_delete_eq|]. rewrite lookup_delete_ne; auto.
  - destruct (decide (k' = k)) as [->|]; auto.
Qed.

(** Room for a new datagram is made before it is entered. *)
Lemma room_made r k :
  reasm_inv R r ->
  let r' := if bool_decide (partial r !! k = None) && (MAX_DATAGRAMS <=? Z.of_nat (size (partial r)))
            then (evict_oldest iter r k).1 else r in
  reasm_inv R r' /\
  (partial r' !! k = None -> Z.of_nat (size (partial r')) < MAX_DATAGRAMS).
Proof.
  intros [Hc Hs Hb] r'. unfold r'.
  destruct (bool_decide (partial r !! k = None)) eqn:En; [apply bool_decide_eq_true in En|apply bool_decide_eq_false in En];
    cbn [andb]; [|split; [split; done|done]].
  destruct (MAX_DATAGRAMS <=? _) eqn:El; bool2prop; [|split; [split; done|done]].
  pose proof (evict_oldest_spec r k) as He. pose proof (evict_oldest_core r k Hc) as Hc'.
  destruct (evict_oldest iter r k) as [r1 []]; cbn [fst] in *.
  - destruct He as (k' & d & Hk & Hd & ->). destruct (discard_le R r k' Hc) as [D1 D2].
    assert (Z.of_nat (size (partial (discard r k'))) < MAX_DATAGRAMS) as Hlt.
    { unfold discard. rewrite Hd. cbn. rewrite map_size_delete_Some by eauto.
      unfold MAX_DATAGRAMS in *. lia. }
    split; [split; [done|lia|lia]|done].
  - destruct He as [-> He]. exfalso.
    assert (partial r = ∅) as E0.
    { apply map_eq. intros k'. rewrite lookup_empty. destruct (decide (k' = k)) as [->|]; auto. }
    rewrite E0 in El. vm_compute in El. done.
Qed.

Section Entry.
Context (r : Reassembler) (k : Key) (d d' : Partial) (now : Z).
Hypothesis Hr : reasm_inv R r.
Hypothesis Hd : d = default (new_partial now) (partial r !! k).

Lemma entry_inv : partial_inv R k d.
Proof.
  rewrite Hd. destruct (partial r !! k) as [x|] eqn:E; [|apply new_partial_inv].
  destruct Hr as [[H _] _ _]. by apply H.
Qed.

Lemma entry_bytes : bytes r - cap d + cap d' = sum_caps (<[k := d']> (partial r)).
Proof.
  destruct Hr as [[_ ->] _ _]. rewrite Hd. destruct (partial r !! k) as [x|] eqn:E; cbn [default].
  - by rewrite (sum_caps_replace _ k x).
  - rewrite sum_caps_insert by done. cbn. lia.
Qed.

(** Entering a datagram and taking it out again. *)
Lemma removed_inv :
  reasm_inv R (mkReassembler (delete k (<[k := d']> (partial r))) (bytes r - cap d + cap d' - cap d')).
Proof.
  pose proof entry_bytes as Hb. destruct Hr as [[H1 H2] H3 H4].
  rewrite (sum_caps_delete _ k d' (lookup_insert_eq _ _ _)), delete_insert_eq in Hb.
  rewrite delete_insert_eq. split; [split|..]; cbn.
  - by apply map_Forall_delete.
  - lia.
  - assert (size (delete k (partial r)) <= size (partial r))%nat; [|lia].
    apply map_subseteq_size, delete_subseteq.
  - assert (0 <= cap d); [|lia].
    destruct entry_inv. pose proof (zlen_nonneg (data d)). lia.
Qed.

Lemma entered_core :
  partial_inv R k d' -> 
  (partial r !! k = None -> Z.of_nat (size (partial r)) < MAX_DATAGRAMS) ->
  let r' := mkReassembler (<[k := d']> (partial r)) (bytes r - cap d + cap d') in
  reasm_core R r' /\ Z.of_nat (size (partial r')) <= MAX_DATAGRAMS.
Proof.
  intros Hi Hn. rewrite entry_bytes. destruct Hr as [[H1 H2] H3 H4]. split; [split|]; cbn; [|done|].
  - by apply map_Forall_insert_2.
  - destruct (partial r !! k) as [x|] eqn:E.
    + rewrite map_size_insert_Some by eauto. done.
    + rewrite map_size_insert_None by done. specialize (Hn eq_refl). lia.
Qed.
End Entry.

Lemma reassembled_ecn_cases seen e : reassembled_ecn seen = Some e -> e = None \/ e = Some 3.
Proof. unfold reassembled_ecn. repeat case_if; intros [= <-]; auto. Qed.

(** What a push does: it keeps the invariant, and what it gives back is a
    datagram put together from received fragments. *)
Lemma push_inv r now p :
  reasm_inv R r -> R p -> bytes_ok (pc_data p) -> 0 <= pc_offset p ->
  let '(r', out) := push iter r now p in
  reasm_inv R r' /\
  match out with
  | Some (h, payload, ecn) =>
      assembled R (pc_key p) payload /\ bytes_ok payload /\ (ecn = None \/ ecn = Some 3) /\
      exists p0, R p0 /\ pc_key p0 = pc_key p /\ pc_header p0 = Some h
  | None => True
  end.
Proof.
  intros [Hc Hs Hb] HR Hpb Hpo. unfold push.
  destruct (expire_le R r now Hc) as [Hs1 Hb1].
  assert (reasm_inv R (expire r now)) as Hr1 by (split; [by apply expire_core|lia|lia]).
  set (r1 := expire r now) in *. clearbody r1. clear Hc Hs Hb Hs1 Hb1.
  destruct (malformed p) eqn:Em.
  { split; [|done]. destruct Hr1 as [Hc Hs Hb]. destruct (discard_le R r1 (pc_key p) Hc).
    split; [by apply discard_core|lia|lia]. }
  assert (piece_ok p) as Hp by (unfold malformed in Em; bool2prop; split; done).
  destruct (room_made r1 (pc_key p) Hr1) as [Hr2 Hn2].
  set (r2 := if bool_decide _ && _ then _ else r1) in *. clearbody r2.
  set (d := default (new_partial now) (partial r2 !! pc_key p)).
  pose proof (accept_inv R (pc_key p) d p (entry_inv r2 _ d now Hr2 eq_refl) Hp HR eq_refl) as Ha.
  destruct (accept d p _) as [d' ok]. destruct Ha as [Ha _].
  pose proof (removed_inv r2 (pc_key p) d d' now Hr2 eq_refl) as Hrem.
  destruct ok; cbn [negb].
  2: { split; [|done]. unfold discard. cbn. rewrite lookup_insert_eq. done. }
  specialize (Ha eq_refl).
  destruct (entered_core r2 (pc_key p) d d' now Hr2 eq_refl Ha Hn2) as [He1 He2].
  pose proof (settle_inv _ (pc_key p) He1 He2) as Hset.
  destruct (p_total d') as [t|] eqn:Et; [|split; [exact Hset|done]].
  destruct (received d' =? t) eqn:Er; [|split; [exact Hset|done]]. bool2prop.
  split; [exact Hrem|]. cbn [mbind option_bind].
  destruct (header d') as [h|] eqn:Eh; cbn; [|done]. destruct (reassembled_ecn (p_ecn d')) eqn:Ee; cbn; [|done].
  apply reassembled_ecn_cases in Ee.
  split_and!; [by apply complete_assembled|apply bytes_ok_ztake, Ha|done|]. by apply (pi_header _ _ _ Ha).
Qed.
End Push.

(** ** Packets through the reassembler *)

(** The fragment of a packet that is one, as [reassemble] hands it to
    [push]. *)
Definition packet_piece (ns : Z) (pkt : list Z) : option Piece :=
  if version pkt =? 4 then
    let ihl := ipv4_header_len pkt in
    let total := ipv4_total_len pkt in
    let q := ztake total pkt in
    if (ihl <? 20) || (total <? ihl) || (zlen pkt <? total)
       || (Z.land (of_be16 q.[6] q.[7]) 0x3FFF =? 0) then None
    else Some (piece_v4 ns q ihl)
  else if version pkt =? 6 then
    let q := ztake (40 + ipv6_payload_len pkt) pkt in
    if zlen pkt <? 40 + ipv6_payload_len pkt then None
    else off ← ipv6_fragment_header q;
         if zlen q <? off + 8 then None else Some (piece_v6 ns q off)
  else None.

(** The fragments a list of arrivals holds, each an instant, a namespace and
    a packet. *)
Definition arrived (hist : list (Z * Z * list Z)) (p : Piece) : Prop :=
  exists now ns pkt, (now, ns, pkt) ∈ hist /\ packet_piece ns pkt = Some p.

Definition run (iter : gmap Key Partial -> list (Key * Partial)) (r : Reassembler)
  (hist : list (Z * Z * list Z)) : Reassembler :=
  foldl (fun r '(now, ns, pkt) => (reassemble iter r now ns pkt).1) r hist.

Lemma partial_inv_mono (R R' : Piece -> Prop) k d :
  (forall p, R p -> R' p) -> partial_inv R k d -> partial_inv R' k d.
Proof.
  intros HR [H1 H2 H3 H4 H5 H6 H7 H8 H9]. split; try done.
  - intros s e Hin. destruct (H7 s e Hin) as (p & ? & ?). eauto.
  - intros h Hh. destruct (H8 h Hh) as (p & ? & ?). eauto.
  - intros t Ht. destruct (H9 t Ht) as (? & ? & p & ? & ?). eauto 6.
Qed.

Lemma reasm_inv_mono (R R' : Piece -> Prop) r :
  (forall p, R p -> R' p) -> reasm_inv R r -> reasm_inv R' r.
Proof.
  intros HR [[H1 H2] H3 H4]. split; [split|..]; try done.
  intros k d Hd. eapply partial_inv_mono; eauto.
Qed.

(** Bit masks of the two fragment words. *)
Lemma piece_v4_ok ns pkt ihl :
  bytes_ok pkt -> bytes_ok (pc_data (piece_v4 ns pkt ihl)) /\ 0 <= pc_offset (piece_v4 ns pkt ihl).
Proof.
  intros Hb. split; cbn; [bok|]. pose proof (of_be16_bound pkt.[6] pkt.[7] ltac:(bok) ltac:(bok)).
  enough (0 <= Z.land (of_be16 pkt.[6] pkt.[7]) 8191) by lia. apply Z.land_nonneg. lia.
Qed.

Lemma piece_v6_ok ns pkt off :
  bytes_ok pkt -> bytes_ok (pc_data (piece_v6 ns pkt off)) /\ 0 <= pc_offset (piece_v6 ns pkt off).
Proof.
  intros Hb. split; cbn; [bok|]. apply Z.land_nonneg. left.
  apply of_be16_bound; apply byte_at_ok; bok.
Qed.

Lemma get_inv (l : list Z) i a : get l i = Some a -> i < zlen l /\ l.[i] = a.
Proof.
  unfold get. destruct (0 <=? i) eqn:?; bool2prop; [|done]. intros Hi.
  pose proof (lookup_lt_Some _ _ _ Hi). unfold byte_at, zlen. rewrite Hi. split; [lia|done].
Qed.

Lemma get_none (l : list Z) i : 0 <= i -> get l i = None -> zlen l <= i.
Proof.
  intros Hi. unfold get. destruct (0 <=? i) eqn:?; bool2prop; [|lia]. intros H%lookup_ge_None.
  unfold zlen. lia.
Qed.

Lemma ztake_own_length n (l : list Z) : ztake n l = ztake (zlen (ztake n l)) l.
Proof.
  destruct (decide (n <= 0)); [rewrite !(ztake_nonpos n) by lia; done|].
  rewrite zlen_ztake. destruct (decide (n <= zlen l)); [f_equal; lia|].
  rewrite !ztake_all by lia. done.
Qed.

(** How [reassemble] splits: a packet it lets through or refuses, or a
    fragment it pushes. *)
Lemma reassemble_cases iter r now ns pkt :
  match packet_piece ns pkt with
  | None => exists out, reassemble iter r now ns pkt = (r, out) /\
      (forall o, out = Some o -> o = ztake (zlen o) pkt)
  | Some p =>
      let '(r', done) := push iter r now p in
      (version pkt = 4 /\ reassemble iter r now ns pkt =
         (r', '(h, payload, ecn) ← done; rebuild_v4 h payload ecn)) \/
      (version pkt = 6 /\ exists f, reassemble iter r now ns pkt =
         (r', '(h, payload, ecn) ← done; f (rebuild_v6 h payload ecn)) /\
         forall x o, f x = Some o -> o = x)
  end.
Proof.
  unfold reassemble, packet_piece. destruct (get pkt 0) as [b0|] eqn:E0.
  2: { apply get_none in E0; [|lia]. unfold version.
       destruct (zlen pkt =? 0) eqn:?; bool2prop; [|pose proof (zlen_nonneg pkt); lia].
       eexists. split; [done|]. discriminate. }
  destruct (get_inv _ _ _ E0) as [Hz Hb0].
  assert (version pkt = Z.shiftr b0 4) as ->.
  { unfold version. rewrite Hb0. destruct (zlen pkt =? 0) eqn:?; [bool2prop; lia|done]. }
  assert (ipv4_header_len pkt = Z.land b0 15 * 4) as ->.
  { unfold ipv4_header_len. rewrite Hb0. destruct (zlen pkt =? 0) eqn:?; [bool2prop; lia|done]. }
  destruct (Z.shiftr b0 4 =? 4) eqn:E4; bool2prop.
  - assert (zlen pkt <= 3 -> (Z.land b0 15 * 4 <? 20) || (ipv4_total_len pkt <? Z.land b0 15 * 4) = true) as Hshort.
    { intros. unfold ipv4_total_len. destruct (zlen pkt <? 4) eqn:?; bool2prop; [|lia].
      apply orb_true_iff. rewrite !Z.ltb_lt. lia. }
    destruct (get pkt 2) as [b2|] eqn:E2.
    2: { apply get_none in E2; [|lia]. rewrite Hshort by lia. eexists. split; [done|]. discriminate. }
    destruct (get pkt 3) as [b3|] eqn:E3.
    2: { apply get_none in E3; [|lia]. rewrite Hshort by lia. eexists. split; [done|]. discriminate. }
    destruct (get_inv _ _ _ E2) as [? <-], (get_inv _ _ _ E3) as [? <-].
    assert (ipv4_total_len pkt = of_be16 pkt.[2] pkt.[3]) as ->.
    { unfold ipv4_total_len. destruct (zlen pkt <? 4) eqn:?; [bool2prop; lia|done]. }
    destruct ((Z.land b0 15 * 4 <? 20) || _ || (zlen pkt <? _)) eqn:Ew; cbn [orb]; [eexists; split; [done|discriminate]|].
    destruct (Z.land _ _ =? 0) eqn:Eu; [eexists; split; [done|intros o [= <-]; apply ztake_own_length]|].
    unfold push_v4. destruct (push _ _ _ _) as [r' out]. left. done.
  - destruct (Z.shiftr b0 4 =? 6) eqn:E6; bool2prop.
    2: { eexists. split; [done|]. intros o [= <-]. symmetry. apply ztake_all. lia. }
    assert (zlen pkt <= 5 -> (zlen pkt <? 40 + ipv6_payload_len pkt) = true) as Hshort.
    { intros. unfold ipv6_payload_len. destruct (zlen pkt <? 6) eqn:?; bool2prop; [|lia]. apply Z.ltb_lt. lia. }
    destruct (get pkt 4) as [b4|] eqn:G4.
    2: { apply get_none in G4; [|lia]. rewrite Hshort by lia. eexists. split; [done|]. discriminate. }
    destruct (get pkt 5) as [b5|] eqn:G5.
    2: { apply get_none in G5; [|lia]. rewrite Hshort by lia. eexists. split; [done|]. discriminate. }
    destruct (get_inv _ _ _ G4) as [? <-], (get_inv _ _ _ G5) as [? <-].
    assert (ipv6_payload_len pkt = of_be16 pkt.[4] pkt.[5]) as ->.
    { unfold ipv6_payload_len. destruct (zlen pkt <? 6) eqn:?; [bool2prop; lia|done]. }
    destruct (zlen pkt <? 40 + of_be16 pkt.[4] pkt.[5]) eqn:Ew; [eexists; split; [done|discriminate]|].
    destruct (ipv6_fragment_header _) as [off|] eqn:Ef;
      [|eexists; split; [done|intros o [= <-]; apply ztake_own_length]].
    unfold push_v6. cbn [mbind option_bind].
    destruct (_ <? off + 8) eqn:Eo; [eexists; split; [done|discriminate]|].
    destruct (push _ _ _ _) as [r' out]. right. split; [done|].
    exists (fun whole => match ipv6_fragment_header whole with Some _ => None | None => Some whole end).
    split; [destruct out as [[[??]?]|]; done|].
    intros x o. case_match; [done|]. intros [= <-]. done.
Qed.

Section Reassembly.
Context (iter : gmap Key Partial -> list (Key * Partial)).
Hypothesis Hiter : forall m, iter m ≡ₚ map_to_list m.

Lemma packet_piece_ok ns pkt p :
  bytes_ok pkt -> packet_piece ns pkt = Some p -> bytes_ok (pc_data p) /\ 0 <= pc_offset p.
Proof.
  intros Hb. unfold packet_piece. destruct (version pkt =? 4).
  { case_if; [done|]. intros [= <-]. apply piece_v4_ok. bok. }
  destruct (version pkt =? 6); [|done]. case_if; [done|].
  destruct (ipv6_fragment_header _); [|done]. cbn [mbind option_bind]. case_if; [done|].
  intros [= <-]. apply piece_v6_ok. bok.
Qed.

Lemma reassemble_inv R r now ns pkt :
  reasm_inv R r -> bytes_ok pkt -> (forall p, packet_piece ns pkt = Some p -> R p) ->
  reasm_inv R (reassemble iter r now ns pkt).1.
Proof.
  intros Hr Hb HR. pose proof (reassemble_cases iter r now ns pkt) as Hc.
  destruct (packet_piece ns pkt) as [p|] eqn:Hp; [|by destruct Hc as (out & -> & _)].
  destruct (packet_piece_ok _ _ _ Hb Hp) as [Hpb Hpo].
  pose proof (push_inv iter Hiter R r now p Hr (HR p eq_refl) Hpb Hpo) as Hi.
  destruct (push iter r now p) as [r' out]. destruct Hi as [Hi _].
  destruct Hc as [[_ ->]|[_ (f & -> & _)]]; done.
Qed.

Lemma run_inv R r hist :
  reasm_inv R r -> Forall (fun x => bytes_ok x.2) hist ->
  reasm_inv (fun p => R p \/ arrived hist p) (run iter r hist).
Proof.
  revert R r. induction hist as [|[[now ns] pkt] hist IH]; intros R r Hr Hb; cbn.
  { eapply reasm_inv_mono; [|done]. auto. }
  apply Forall_cons_iff in Hb as [Hb Hbs]. cbn in Hb.
  pose proof (IH (fun p => R p \/ packet_piece ns pkt = Some p) (reassemble iter r now ns pkt).1) as IH'.
  eapply reasm_inv_mono; [|apply IH'; [|done]].
  - intros p [[?|?]|(now' & ns' & pkt' & Hin & Hp)]; [auto|right|right].
    + exists now, ns, pkt. split; [by left|done].
    + exists now', ns', pkt'. split; [by right|done].
  - apply reassemble_inv; [|done|auto]. eapply reasm_inv_mono; [|done]. auto.
Qed.

Lemma default_inv R : reasm_inv R Reassembler_default.
Proof. by split; [split|..]. Qed.
End Reassembly.

(** ** The rebuilt IPv4 packet *)

(** A whole IPv4 packet with the identity of header [h] and the payload
    given. *)
Record rebuilt (h payload out : list Z) : Prop := {
  rb_bytes : bytes_ok out;
  rb_v4 : version out = 4;
  rb_hl : ipv4_header_len out = 20;
  rb_len : ipv4_total_len out = zlen out;
  rb_sum : verify_ipv4_checksum out = true;
  rb_frag : ipv4_is_fragment out = false;
  rb_payload : ipv4_payload out = payload;
  rb_fields : forall i, i = 4 \/ i = 5 \/ i = 8 \/ i = 9 \/ 12 <= i < 20 -> out.[i] = h.[i] }.

Lemma rebuild_v4_spec h payload ecn out :
  bytes_ok h -> zlen h = 20 -> h.[0] = 0x45 -> bytes_ok payload -> (ecn = None \/ ecn = Some 3) ->
  rebuild_v4 h payload ecn = Some out -> rebuilt h payload out.
Proof.
  intros Hh Hz H0 Hpay Hecn. unfold rebuild_v4. case_if; [done|]. bool2prop. pose proof (zlen_nonneg payload).
  set (total := 20 + zlen payload) in *. unfold MAX_PAYLOAD in *.
  set (o1 := match ecn with Some _ => _ | None => h end).
  assert (zlen o1 = 20 /\ bytes_ok o1 /\ (forall i, 0 <= i -> i <> 1 -> o1.[i] = h.[i])) as (Hz1 & Hb1 & Hi1).
  { unfold o1. destruct Hecn as [->| ->]; [done|]. split_and!.
    - by rewrite zlen_set_byte.
    - apply bytes_ok_set_byte; [done|]. assert (byte_ok h.[1]) as Hb by bok.
      pose proof (byte_forall (fun b => (0 <=? Z.lor (Z.land b 0xFC) 3) && (Z.lor (Z.land b 0xFC) 3 <? 256))
        ltac:(vm_compute; reflexivity) _ Hb). cbv beta in *. bool2prop. unfold byte_ok. lia.
    - intros. apply byte_at_set_ne; lia. }
  set (o3 := splice (splice o1 2 (be16 total)) 6 [0; 0]).
  assert (zlen (splice o1 2 (be16 total)) = 20) as Hz2 by (rewrite zlen_splice; rewrite ?zlen_be16; lia).
  assert (zlen [0; 0] = 2) as Hz00 by done.
  assert (zlen o3 = 20) as Hz3 by (unfold o3; rewrite zlen_splice; lia).
  assert (bytes_ok o3) as Hb3 by (unfold o3; bok).
  set (c := checksum (splice o3 10 [0; 0])).
  assert (0 <= c <= 65535) as Hc by (apply checksum_bound; bok).
  rewrite (splice_splice o3 10 [0; 0] (be16 c)) by (rewrite ?zlen_be16; lia). intros [= <-].
  set (o5 := splice o3 10 (be16 c)).
  assert (zlen o5 = 20) as Hz5 by (unfold o5; rewrite zlen_splice; rewrite ?zlen_be16; lia).
  set (out := o5 ++ payload). assert (zlen out = total) as Hzo by (unfold out; rewrite zlen_app; lia).
  assert (forall i, 0 <= i < 20 -> i <> 10 -> i <> 11 -> out.[i] = o3.[i]) as Ho3.
  { intros. unfold out. rewrite byte_at_app_l by lia. apply byte_at_splice_out; rewrite ?zlen_be16; lia. }
  assert (forall i, 0 <= i < 20 -> i <> 2 -> i <> 3 -> i <> 6 -> i <> 7 -> o3.[i] = o1.[i]) as Ho1.
  { intros. unfold o3. rewrite byte_at_splice_out by lia. apply byte_at_splice_out; rewrite ?zlen_be16; lia. }
  assert (out.[0] = 0x45) as Hout0 by (rewrite Ho3, Ho1, Hi1 by lia; done).
  assert (version out = 4 /\ ipv4_header_len out = 20) as [E4 E20].
  { unfold version, ipv4_header_len. rewrite Hout0. destruct (zlen out =? 0) eqn:?; [bool2prop; lia|done]. }
  assert (ipv4_total_len out = zlen out) as Etl.
  { unfold ipv4_total_len. destruct (zlen out <? 4) eqn:?; [bool2prop; lia|]. rewrite !Ho3 by lia. unfold o3.
    rewrite (byte_at_splice_out _ 6 _ 2), (byte_at_splice_out _ 6 _ 3) by lia.
    rewrite !byte_at_splice_in by (rewrite ?zlen_be16; lia). rewrite Hzo. apply of_be16_be16. }
  split; try done.
  - unfold out, o5. bok.
  - unfold verify_ipv4_checksum. rewrite E4, E20, Hzo. cbn [Z.eqb Pos.eqb Z.ltb Z.compare Pos.compare Pos.compare_cont orb].
    destruct (total <? 20) eqn:?; [bool2prop; lia|]. unfold out. rewrite <- Hz5, ztake_app.
    apply Z.eqb_eq. apply splice_checksum_verifies; (done || lia).
  - unfold ipv4_is_fragment, ipv4_more_fragments, ipv4_fragment_offset. rewrite !Ho3 by lia. unfold o3.
    rewrite !byte_at_splice_in by lia. cbn. rewrite andb_false_r. case_if; done.
  - unfold ipv4_payload. rewrite E20, Etl. case_if; [bool2prop; lia|]. rewrite slice_to_end.
    unfold out. rewrite <- Hz5. apply zdrop_app.
  - intros i Hi. rewrite Ho3, Ho1, Hi1 by lia. done.
Qed.

(** C34: Whatever packets arrive, in whatever order and at whatever times, the
    reassembler keeps its budgets: at most 64 datagrams in progress and at
    most 1 MiB of buffers, counted exactly; and every datagram in progress
    holds sorted, disjoint, non-empty pieces (at most 256) that add up to
    its byte count, each of them the data of a fragment of that datagram
    that arrived. *)
Theorem reassembler_invariant iter hist :
  (forall m, iter m ≡ₚ map_to_list m) -> Forall (fun x => bytes_ok x.2) hist ->
  reasm_inv (arrived hist) (run iter Reassembler_default hist).
Proof.
  intros Hi Hb. eapply reasm_inv_mono; [|apply (run_inv iter Hi (fun _ => False)); [apply default_inv|done]].
  intros p [[]|H]. done.
Qed.

Lemma reassembler_invariant_witness :
  let f1 := [0x45;0;0;28;0;7;0x20;0;64;17;0;0;10;0;0;1;10;0;0;2;1;2;3;4;5;6;7;8] in
  let r := run map_to_list Reassembler_default [(0, 0, f1)] in
  bytes r = 8 /\ reasm_inv (arrived [(0, 0, f1)]) r.
Proof.
  intros f1 r. split; [vm_compute; reflexivity|].
  apply reassembler_invariant; [reflexivity|]. repeat constructor; lia.
Defined.

(** The header kept from a fragment of an IPv4 datagram. *)
Lemma arrived_header_v4 hist p h :
  Forall (fun x => bytes_ok x.2) hist -> arrived hist p -> k_v6 (pc_key p) = false ->
  pc_header p = Some h ->
  bytes_ok h /\ zlen h = 20 /\ h.[0] = 0x45 /\
  slice h 12 16 ++ replicate 12 0 = k_src (pc_key p) /\
  slice h 16 20 ++ replicate 12 0 = k_dst (pc_key p) /\
  of_be16 h.[4] h.[5] = k_id (pc_key p) /\ h.[9] = k_proto (pc_key p).
Proof.
  intros Hb (now & ns & pkt & Hin & Hp) Hv Hh. unfold packet_piece in Hp.
  rewrite List.Forall_forall in Hb. apply list_elem_of_In in Hin. specialize (Hb _ Hin). cbn in Hb.
  destruct (version pkt =? 4).
  - case_match eqn:E; [done|]. bool2prop. injection Hp as <-. cbn in *.
    set (q := ztake (ipv4_total_len pkt) pkt) in *.
    assert (zlen (ztake 20 q) = 20) as Hz by (unfold q; rewrite !zlen_ztake; lia).
    case_match; [|done]. injection Hh as <-.
    assert (forall a b, 1 <= a -> b <= 20 -> slice (set_byte (ztake 20 q) 0 69) a b = slice q a b) as Hs.
    { intros. rewrite set_byte_splice by lia.
      rewrite slice_splice_after by (change (zlen [69]) with 1; lia). apply slice_ztake; lia. }
    split_and!.
    + apply bytes_ok_set_byte; [unfold q; bok|unfold byte_ok; lia].
    + rewrite zlen_set_byte. done.
    + apply byte_at_set_eq. lia.
    + rewrite Hs by lia. done.
    + rewrite Hs by lia. done.
    + rewrite !byte_at_set_ne, !byte_at_ztake by lia. done.
    + rewrite byte_at_set_ne, byte_at_ztake by lia. done.
  - destruct (version pkt =? 6); [|done]. case_match; [done|].
    destruct (ipv6_fragment_header _); [|done]. cbn [mbind option_bind] in Hp. case_match; [done|].
    injection Hp as <-. done.
Qed.

(** C6: A datagram the reassembler hands back for an IPv4 fragment is made of
    nothing but what arrived.  Its payload is the data of fragments of that
    one datagram (same namespace, addresses, identification and protocol),
    one after the other without gap or overlap from offset 0 to the end of
    a fragment without More Fragments; the packet is whole, no longer a
    fragment, carries the datagram's addresses, identification and
    protocol, and its header checksum is right. *)
Theorem reassembled_v4_sound iter hist now ns pkt p r' out :
  (forall m, iter m ≡ₚ map_to_list m) -> Forall (fun x => bytes_ok x.2) hist -> bytes_ok pkt ->
  version pkt = 4 -> packet_piece ns pkt = Some p ->
  reassemble iter (run iter Reassembler_default hist) now ns pkt = (r', Some out) ->
  assembled (arrived (hist ++ [(now, ns, pkt)])) (pc_key p) (ipv4_payload out) /\
  exists h, rebuilt h (ipv4_payload out) out /\
    slice h 12 16 = slice pkt 12 16 /\ slice h 16 20 = slice pkt 16 20 /\
    of_be16 h.[4] h.[5] = ipv4_id pkt /\ h.[9] = ipv4_protocol pkt.
Proof.
  intros Hi Hb Hbp H4 Hp Hout.
  set (R := arrived (hist ++ [(now, ns, pkt)])).
  assert (Forall (fun x => bytes_ok x.2) (hist ++ [(now, ns, pkt)])) as Hball.
  { apply Forall_app; split; [done|]. by repeat constructor. }
  assert (reasm_inv R (run iter Reassembler_default hist)) as Hr.
  { eapply reasm_inv_mono; [|apply (run_inv iter Hi (fun _ => False)); [apply default_inv|done]].
    intros p0 [[]|(a & b & c & Hin & Hc)]. exists a, b, c. split; [|done]. apply elem_of_app. by left. }
  assert (R p) as HRp.
  { exists now, ns, pkt. split; [|done]. apply elem_of_app. right. by left. }
  destruct (packet_piece_ok _ _ _ Hbp Hp) as [Hpb Hpo].
  pose proof (push_inv iter Hi R _ now p Hr HRp Hpb Hpo) as Hpush.
  pose proof (reassemble_cases iter (run iter Reassembler_default hist) now ns pkt) as Hc.
  rewrite Hp in Hc. destruct (push iter _ now p) as [r1 done]. destruct Hpush as [_ Hpush].
  destruct Hc as [[_ Hc]|[E6 _]]; [|congruence]. rewrite Hc in Hout.
  destruct done as [[[h payload] ecn]|]; [|done]. cbn [mbind option_bind] in Hout. injection Hout as _ Hrb.
  destruct Hpush as (Ha & Hpay & Hecn & p0 & HR0 & Hk0 & Hh0).
  unfold packet_piece in Hp. rewrite H4 in Hp. cbn [Z.eqb Pos.eqb] in Hp.
  case_match eqn:E; [done|]. bool2prop. injection Hp as <-. set (q := ztake (ipv4_total_len pkt) pkt) in *.
  destruct (arrived_header_v4 _ p0 h Hball HR0) as (B1 & B2 & B3 & B4 & B5 & B6 & B7); [by rewrite Hk0|done|].
  pose proof (rebuild_v4_spec h payload ecn out B1 B2 B3 Hpay Hecn Hrb) as Hreb.
  rewrite (rb_payload _ _ _ Hreb). split; [exact Ha|]. exists h. split; [done|].
  rewrite Hk0 in *. cbn in B4, B5, B6, B7.
  assert (forall a b, 0 <= a -> b <= 20 -> slice q a b = slice pkt a b) as Hs.
  { intros. apply slice_ztake; lia. }
  rewrite Hs in B4, B5 by lia. apply app_inv_tail in B4, B5. split_and!; try done.
  - rewrite B6. unfold q, ipv4_id. rewrite !byte_at_ztake by lia. case_if; [lia|done].
  - rewrite B7. unfold q, ipv4_protocol. rewrite !byte_at_ztake by lia. case_if; [lia|done].
Qed.

Lemma reassembled_v4_sound_witness :
  let f1 := [0x45;0;0;28;0;7;0x20;0;64;17;0;0;10;0;0;1;10;0;0;2;1;2;3;4;5;6;7;8] in
  let f2 := [0x45;0;0;22;0;7;0x00;1;64;17;0;0;10;0;0;1;10;0;0;2;9;10] in
  exists r' out p, reassemble map_to_list (run map_to_list Reassembler_default [(0, 0, f2)]) 1 0 f1
                   = (r', Some out) /\
    ipv4_payload out = [1;2;3;4;5;6;7;8;9;10] /\
    assembled (arrived ([(0, 0, f2)] ++ [(1, 0, f1)])) (pc_key p) (ipv4_payload out).
Proof.
  intros f1 f2. eexists _, _, _. split; [vm_compute; reflexivity|]. split; [vm_compute; reflexivity|].
  eapply (proj1 (reassembled_v4_sound map_to_list [(0, 0, f2)] 1 0 f1 _ _ _ _ _ _ _ _ _)).
  Unshelve.
  all: try reflexivity; try (vm_compute; reflexivity); repeat constructor; lia.
Defined.
