(* ===== verification/DefragRoundTrip.v ===== *)
(** * Fragmentation and reassembly ([src/src/fragment.rs] against
      [src/src/defrag.rs])

    The fragments [fragment_ipv4] makes of a packet, fed to the reassembler
    in any order, give the packet back with the last one and nothing
    before.  The proof follows one datagram through the table: after the
    fragments [l] have arrived, the entry holds exactly their ranges
    ([holds]), so the next one never meets what is held, and the byte count
    reaches the total only when nothing is missing. *)

From S2P Require Import Prelude Ip Checksum Packet Fragment Defrag.

#[export] Instance Piece_eq_dec : EqDecision Piece.
Proof. solve_decision. Defined.

(** The byte range of a fragment. *)
Definition range (p : Piece) : Z * Z := (pc_offset p, pc_offset p + zlen (pc_data p)).

Lemma overlap_none_intro d p fin nb :
  (forall s e, (s, e) ∈ nb -> e <= pc_offset p \/ fin <= s) -> pc_offset p < fin ->
  overlap d p fin nb = None.
Proof.
  induction nb as [|[s e] nb IH]; cbn; intros Hn Hlt; [done|].
  pose proof (Hn s e ltac:(by left)). case_match eqn:E.
  - apply andb_true_iff in E. rewrite !Z.ltb_lt in E. lia.
  - apply IH; [|done]. intros s' e' Hin. apply Hn. by right.
Qed.

Lemma covered_perm l l' : l ≡ₚ l' -> covered l = covered l'.
Proof. induction 1 as [|[]|[] []|]; cbn; lia. Qed.

(** Fragments in a row: where each lies, and that no two meet. *)
Lemma contiguous_covered off ps :
  contiguous off ps -> covered (range <$> ps) = zlen (concat (pc_data <$> ps)).
Proof.
  revert off. induction ps as [|p ps IH]; cbn; intros off H; [done|].
  rewrite (IH _ (proj2 H)), zlen_app. lia.
Qed.

Lemma contiguous_bounds off ps p :
  contiguous off ps -> p ∈ ps ->
  off <= pc_offset p /\ pc_offset p + zlen (pc_data p) <= off + zlen (concat (pc_data <$> ps)).
Proof.
  revert off. induction ps as [|q ps IH]; cbn; intros off Hc Hin; [by apply elem_of_nil in Hin|].
  destruct Hc as [Ho Hc]. rewrite zlen_app. pose proof (zlen_nonneg (pc_data q)).
  pose proof (zlen_nonneg (concat (pc_data <$> ps))).
  apply elem_of_cons in Hin as [->|Hin]; [lia|]. specialize (IH _ Hc Hin). lia.
Qed.

Lemma contiguous_disjoint off ps p q :
  contiguous off ps -> p ∈ ps -> q ∈ ps -> p <> q ->
  pc_offset p + zlen (pc_data p) <= pc_offset q \/ pc_offset q + zlen (pc_data q) <= pc_offset p.
Proof.
  revert off. induction ps as [|x ps IH]; cbn; intros off Hc Hp Hq Hne; [by apply elem_of_nil in Hp|].
  destruct Hc as [Ho Hc].
  apply elem_of_cons in Hp as [->|Hp], Hq as [->|Hq]; [done| | |by eapply IH].
  - left. pose proof (contiguous_bounds _ _ _ Hc Hq). lia.
  - right. pose proof (contiguous_bounds _ _ _ Hc Hp). lia.
Qed.

Lemma contiguous_nodup off ps :
  contiguous off ps -> (forall p, p ∈ ps -> 0 < zlen (pc_data p)) -> NoDup ps.
Proof.
  revert off. induction ps as [|p ps IH]; intros off Hc Hpos; [constructor|].
  cbn in Hc. destruct Hc as [Ho Hc]. constructor.
  - intros Hin. pose proof (contiguous_bounds _ _ _ Hc Hin). pose proof (Hpos p ltac:(by left)). lia.
  - eapply IH; [done|]. intros q Hq. apply Hpos. by right.
Qed.

(** A gapless row of some of the fragments, as long as all of them, is all
    of them in order. *)
Lemma contiguous_unique off ps chunks (all : list Piece) :
  contiguous off ps -> contiguous off chunks ->
  (forall p, p ∈ chunks -> p ∈ all) -> (forall p, p ∈ ps -> p ∈ all) ->
  (forall p q, p ∈ all -> q ∈ all -> pc_offset p = pc_offset q -> p = q) ->
  (forall p, p ∈ all -> 0 < zlen (pc_data p)) ->
  zlen (concat (pc_data <$> ps)) = zlen (concat (pc_data <$> chunks)) -> ps = chunks.
Proof.
  revert off chunks. induction ps as [|p ps IH]; intros off [|c chunks] Hp Hc Hca Hpa Hinj Hpos Hlen.
  - done.
  - cbn in Hlen. rewrite zlen_app in Hlen. pose proof (Hpos c ltac:(apply Hca; by left)).
    pose proof (zlen_nonneg (concat (pc_data <$> chunks))). change (zlen (@nil Z)) with 0 in Hlen. lia.
  - cbn in Hlen. rewrite zlen_app in Hlen. pose proof (Hpos p ltac:(apply Hpa; by left)).
    pose proof (zlen_nonneg (concat (pc_data <$> ps))). change (zlen (@nil Z)) with 0 in Hlen. lia.
  - cbn in Hp, Hc. destruct Hp as [Hp1 Hp2], Hc as [Hc1 Hc2].
    assert (p = c) as -> by (apply Hinj; [apply Hpa; by left|apply Hca; by left|lia]).
    f_equal. eapply IH; try done.
    + intros. apply Hca. by right.
    + intros. apply Hpa. by right.
    + cbn in Hlen. rewrite !zlen_app in Hlen. lia.
Qed.

Lemma contiguous_last off init x :
  contiguous off (init ++ [x]) ->
  pc_offset x + zlen (pc_data x) = off + zlen (concat (pc_data <$> init ++ [x])).
Proof.
  revert off. induction init as [|y init IH]; cbn; intros off Hc.
  - rewrite zlen_app. change (zlen (@nil Z)) with 0. lia.
  - rewrite zlen_app, (IH _ (proj2 Hc)). lia.
Qed.

(** ** One datagram through the table *)

Section Datagram.
Context (iter : gmap Key Partial -> list (Key * Partial)).
Context (k : Key) (chunks : list Piece) (h : list Z) (ecn : Z).
Let T := zlen (concat (pc_data <$> chunks)).
Hypothesis Hcon : contiguous 0 chunks.
Hypothesis Hok : Forall (fun p => piece_ok p /\ pc_key p = k /\ 0 < zlen (pc_data p) /\
  pc_ecn p = ecn /\ pc_header p = (if pc_offset p =? 0 then Some h else None) /\
  (pc_more p = true -> zlen (pc_data p) mod 8 = 0) /\
  (pc_more p = false <-> pc_offset p + zlen (pc_data p) = T)) chunks.
Hypothesis Hecn : 0 <= ecn <= 3.
Hypothesis Hcount : zlen chunks <= MAX_PIECES.

Lemma chunk_ok p : p ∈ chunks -> piece_ok p /\ pc_key p = k /\ 0 < zlen (pc_data p) /\
  pc_ecn p = ecn /\ pc_header p = (if pc_offset p =? 0 then Some h else None) /\
  (pc_more p = true -> zlen (pc_data p) mod 8 = 0) /\
  (pc_more p = false <-> pc_offset p + zlen (pc_data p) = T).
Proof. intros Hin. apply list_elem_of_In in Hin. rewrite List.Forall_forall in Hok. auto. Qed.

Lemma chunk_le p : p ∈ chunks -> pc_offset p + zlen (pc_data p) <= T.
Proof. intros Hin. pose proof (contiguous_bounds 0 chunks p Hcon Hin). unfold T. lia. Qed.

Definition ecn_bit : Z := u8 (Z.shiftl 1 (Z.land ecn 3)).

(** The entry after the fragments [l] have arrived. *)
Record holds (l : list Piece) (d : Partial) : Prop := {
  ho_inv : partial_inv (fun p => p ∈ l) k d;
  ho_pieces : pieces d ≡ₚ range <$> l;
  ho_total : forall p, p ∈ l -> pc_more p = false -> p_total d = Some T;
  ho_header : forall p, p ∈ l -> pc_offset p = 0 -> header d = Some h;
  ho_ecn : p_ecn d = match l with [] => 0 | _ => ecn_bit end }.

Lemma holds_new now : holds [] (new_partial now).
Proof.
  split; [apply new_partial_inv|done| | |done]; intros p Hin; by apply elem_of_nil in Hin.
Qed.

Lemma ecn_bit_lor : Z.lor ecn_bit ecn_bit = ecn_bit.
Proof. apply Z.lor_diag. Qed.

Section Arrival.
Context (l : list Piece) (d : Partial) (p : Piece) (rest : list Piece).
Hypothesis Hperm : chunks ≡ₚ l ++ p :: rest.
Hypothesis Hd : holds l d.
Let fin := pc_offset p + zlen (pc_data p).

Lemma arrival_sub q : q ∈ p :: l -> q ∈ chunks.
Proof.
  intros Hq. rewrite Hperm. apply elem_of_app. apply elem_of_cons in Hq as [->|]; [right; by left|by left].
Qed.

Lemma arrival_new : p ∉ l.
Proof.
  assert (NoDup chunks) as Hnd by (apply (contiguous_nodup 0); [done|]; intros q Hq; by apply chunk_ok).
  rewrite Hperm in Hnd. apply list.NoDup_app in Hnd as (_ & Hdj & _). intros Hin. apply (Hdj p Hin). by left.
Qed.

Lemma arrival_disjoint s e : (s, e) ∈ pieces d -> e <= pc_offset p \/ fin <= s.
Proof.
  intros Hin. rewrite (ho_pieces _ _ Hd) in Hin. apply list_elem_of_fmap in Hin as (q & [= -> ->] & Hq).
  assert (q <> p) as Hne by (intros ->; by apply arrival_new).
  pose proof (contiguous_disjoint 0 chunks q p Hcon
    ltac:(apply arrival_sub; by right) ltac:(apply arrival_sub; by left) Hne). unfold fin. lia.
Qed.

(** The total, if known, is the datagram's. *)
Lemma arrival_total t : p_total d = Some t -> t = T.
Proof.
  intros Ht. destruct (pi_total _ _ _ (ho_inv _ _ Hd) t Ht) as (_ & _ & q & Hq & _ & Hm & Hfin).
  rewrite <- Hfin. apply chunk_ok in Hm; [done|]. apply arrival_sub. by right.
Qed.

(** The entry the fragment is stored in. *)
Let d1 := if pc_more p then d else with_total d fin.
Let d2 := with_ecn d1 (Z.lor (p_ecn d) ecn_bit).
Let i := partition_point (fun '(s, _) => s <? pc_offset p) (pieces d).

Lemma arrival_same :
  pieces d1 = pieces d /\ started d1 = started d /\ header d1 = header d /\ p_ecn d1 = p_ecn d.
Proof. unfold d1. destruct (pc_more p); done. Qed.

Lemma arrival_room : zlen (pieces d) < MAX_PIECES.
Proof.
  assert (zlen (pieces d) = zlen l) as Hzl by (unfold zlen; rewrite (ho_pieces _ _ Hd), length_fmap; done).
  assert (zlen chunks = zlen l + 1 + zlen rest) as Hzc by (unfold zlen; rewrite Hperm, length_app; cbn; lia).
  pose proof (zlen_nonneg rest). lia.
Qed.

Lemma accept_stores : accept d p fin = (store d2 p fin i, true).
Proof.
  destruct (chunk_ok p ltac:(apply arrival_sub; by left)) as (Pok & Pk & Ppos & Pe & Ph & P8 & Pm).
  pose proof (chunk_le p ltac:(apply arrival_sub; by left)) as Ple. fold fin in Ple, Pm.
  destruct arrival_same as (D1 & D2 & D3 & D4). unfold accept.
  assert ((if pc_more p then Some d else match p_total d with
      | Some t => if negb (t =? fin) then None else Some (with_total d fin)
      | None => Some (with_total d fin) end) = Some d1) as ->.
  { unfold d1. destruct (pc_more p) eqn:E; [done|]. destruct (p_total d) as [t|] eqn:Et; [|done].
    apply arrival_total in Et as ->. rewrite (proj1 Pm eq_refl), Z.eqb_refl. done. }
  rewrite D1, D4. destruct (match p_total d1 with Some _ => _ | None => false end) eqn:Eb.
  { exfalso. assert (forall t, p_total d1 = Some t -> t = T) as Dt.
    { unfold d1. destruct (pc_more p) eqn:E; [apply arrival_total|]. cbn. intros t [= <-]. by apply Pm. }
    destruct (p_total d1) as [t|]; [|done]. rewrite (Dt t eq_refl) in Eb.
    apply orb_true_iff in Eb as [Eb|Eb]; [apply Z.ltb_lt in Eb; lia|].
    destruct (list.last (pieces d)) as [[s e]|] eqn:El; [|done]. apply Z.ltb_lt in Eb.
    assert ((s, e) ∈ pieces d) as Hin by (apply last_Some_elem_of; done).
    rewrite (ho_pieces _ _ Hd) in Hin. apply list_elem_of_fmap in Hin as (q & [= -> ->] & Hq).
    pose proof (chunk_le q ltac:(apply arrival_sub; by right)). lia. }
  fold i. rewrite overlap_none_intro; [|..].
  - rewrite Pe. fold ecn_bit d2. case_if; [lia|]. case_if; [|done].
    change (pieces d2) with (pieces d1) in *. rewrite D1 in *. pose proof arrival_room. lia.
  - intros s e Hin. apply arrival_disjoint. apply elem_of_app in Hin.
    destruct Hin as [Hin|Hin]; [destruct i; [by apply elem_of_nil in Hin|]|];
      (match goal with H : _ ∈ option_list ?o |- _ => destruct o eqn:El; [|by apply elem_of_nil in H] end);
      apply list_elem_of_singleton in Hin as ->; by eapply list_elem_of_lookup_2.
  - unfold fin. lia.
Qed.

(** A fragment not yet held is always taken. *)
Lemma accept_new : exists d',
  accept d p fin = (d', true) /\ holds (p :: l) d' /\ started d' = started d.
Proof.
  destruct (chunk_ok p ltac:(apply arrival_sub; by left)) as (Pok & Pk & Ppos & Pe & Ph & P8 & Pm).
  pose proof (accept_inv (fun q => q ∈ p :: l) k d p) as Hai.
  specialize (Hai ltac:(eapply partial_inv_mono; [|apply (ho_inv _ _ Hd)]; intros q Hq; by right) Pok
    ltac:(by left) Pk). fold fin in Hai, Pm. rewrite accept_stores in Hai. destruct Hai as [Hai _].
  destruct arrival_same as (D1 & D2 & D3 & D4).
  exists (store d2 p fin i). split; [apply accept_stores|].
  split; [|unfold store; destruct (grow d2 fin); done]. split; [auto|..].
  - unfold store. destruct (grow d2 fin). cbn [pieces]. change (pieces d2) with (pieces d1). rewrite D1.
    transitivity ((pc_offset p, fin) :: pieces d); [|cbn; constructor; apply (ho_pieces _ _ Hd)].
    rewrite <- (take_drop i (pieces d)) at 3. symmetry. apply Permutation_middle.
  - intros q Hq Hm. unfold store. destruct (grow d2 fin). cbn [p_total]. change (p_total d2) with (p_total d1).
    unfold d1. apply elem_of_cons in Hq as [->|Hq].
    + rewrite Hm. cbn. f_equal. by apply Pm.
    + destruct (pc_more p) eqn:E; [by eapply ho_total|]. cbn. f_equal. by apply Pm.
  - intros q Hq H0. unfold store. destruct (grow d2 fin). cbn [header]. change (header d2) with (header d1).
    rewrite D3, Ph. destruct (pc_offset p =? 0) eqn:E; [done|]. bool2prop.
    apply elem_of_cons in Hq as [->|Hq]; [done|]. by eapply ho_header.
  - unfold store. destruct (grow d2 fin). cbn [p_ecn]. unfold d2. cbn. rewrite (ho_ecn _ _ Hd).
    destruct l; [done|apply Z.lor_diag].
Qed.
End Arrival.

(** When everything has arrived the entry is complete, and only then. *)
Lemma holds_received l d rest :
  chunks ≡ₚ l ++ rest -> holds l d -> received d + covered (range <$> rest) = T.
Proof.
  intros Hp Hd. rewrite (pi_recv _ _ _ (ho_inv _ _ Hd)), (covered_perm _ _ (ho_pieces _ _ Hd)).
  rewrite <- covered_app, <- fmap_app. unfold T. rewrite <- (contiguous_covered 0 chunks Hcon).
  symmetry. apply covered_perm. by apply fmap_Permutation.
Qed.

Lemma covered_rest p rest l : chunks ≡ₚ l ++ p :: rest -> 0 < covered (range <$> p :: rest).
Proof.
  intros Hp. cbn. assert (forall q, q ∈ p :: rest -> 0 < zlen (pc_data q)) as Hpos.
  { intros q Hq. apply chunk_ok. rewrite Hp. apply elem_of_app. by right. }
  assert (0 <= covered (range <$> rest)).
  { clear Hp. induction rest as [|x rest IH]; cbn; [lia|].
    pose proof (Hpos x ltac:(right; by left)).
    enough (0 <= covered (range <$> rest)) by lia. apply IH. intros q Hq. apply Hpos.
    apply elem_of_cons in Hq as [->|Hq]; [by left|right; by right]. }
  pose proof (Hpos p ltac:(by left)). lia.
Qed.

Lemma last_chunk l : chunks ≡ₚ l -> chunks <> [] -> exists p, p ∈ l /\ pc_more p = false.
Proof.
  intros Hp Hne. destruct (exists_last Hne) as (init & x & E). exists x.
  assert (x ∈ chunks) as Hx by (rewrite E; apply elem_of_app; right; by left).
  split; [by rewrite <- Hp|]. apply chunk_ok; [done|].
  unfold T. rewrite E in *. rewrite (contiguous_last _ _ _ Hcon). lia.
Qed.

Lemma first_chunk l : chunks ≡ₚ l -> chunks <> [] -> exists p, p ∈ l /\ pc_offset p = 0.
Proof.
  intros Hp Hne. destruct chunks as [|p r] eqn:E; [done|]. exists p.
  split; [rewrite <- Hp; by left|]. cbn in Hcon. apply Hcon.
Qed.

Lemma holds_complete l d :
  chunks ≡ₚ l -> chunks <> [] -> holds l d ->
  p_total d = Some T /\ received d = T /\ header d = Some h /\
  ztake T (data d) = concat (pc_data <$> chunks) /\ p_ecn d = ecn_bit.
Proof.
  intros Hp Hne Hd. destruct (last_chunk l Hp Hne) as (pl & Hpl & Hml).
  destruct (first_chunk l Hp Hne) as (pf & Hpf & H0f).
  assert (received d = T) as Hr.
  { pose proof (holds_received l d [] ltac:(by rewrite app_nil_r) Hd) as Hr. cbn in Hr. lia. }
  pose proof (ho_total _ _ Hd pl Hpl Hml) as Ht.
  split_and!; [done|done|by eapply ho_header| |].
  - destruct (complete_assembled _ _ _ T (ho_inv _ _ Hd) Ht Hr) as (ps & Hps & Hpc & Heq & q & Hq1 & Hq2 & Hq3 & Hq4).
    rewrite Heq. f_equal. f_equal.
    assert (forall x, x ∈ l -> x ∈ chunks) as Hlc by (intros; by rewrite Hp).
    apply (contiguous_unique 0 ps chunks chunks); try done.
    + intros x Hx. apply Hlc. rewrite List.Forall_forall in Hps. by apply Hps, list_elem_of_In.
    + intros x y Hx Hy Hxy. destruct (decide (x = y)) as [|Hne']; [done|].
      pose proof (contiguous_disjoint 0 chunks x y Hcon Hx Hy Hne').
      destruct (chunk_ok x Hx) as (_ & _ & ? & _), (chunk_ok y Hy) as (_ & _ & ? & _). lia.
    + intros x Hx. by apply chunk_ok.
    + rewrite <- Heq, <- Hq4. by apply chunk_ok; [apply Hlc|].
  - rewrite (ho_ecn _ _ Hd). destruct l; [|done]. by apply elem_of_nil in Hpl.
Qed.

(** The table after the fragments [l], all within the timeout of [t0]. *)
Definition entry (t0 : Z) (l : list Piece) (r : Reassembler) : Prop :=
  match l with
  | [] => r = Reassembler_default
  | _ => exists d, r = mkReassembler {[k := d]} (cap d) /\ holds l d /\ t0 <= started d
  end.

Lemma entry_cases t0 l r now :
  entry t0 l r -> t0 <= now < t0 + REASSEMBLY_TIMEOUT ->
  exists d, expire r now = r /\ default (new_partial now) (partial r !! k) = d /\
    holds l d /\ t0 <= started d /\ Z.of_nat (size (partial r)) <= 1 /\
    forall d', <[k := d']> (partial r) = {[k := d']} /\ bytes r - cap d + cap d' = cap d'.
Proof.
  intros He Hnow. destruct l as [|p l]; cbn in He.
  - subst r. exists (new_partial now). unfold expire. cbn [partial bytes Reassembler_default].
    rewrite !map_filter_empty. split_and!; [done|by rewrite lookup_empty|apply holds_new|cbn; lia|done|].
    intros d'. split; [apply insert_empty|cbn; lia].
  - destruct He as (d & -> & Hd & Hs). exists d. unfold expire. cbn [partial bytes].
    assert (fresh d now = true) as Hf.
    { unfold fresh, sat_sub. apply Z.ltb_lt. unfold REASSEMBLY_TIMEOUT in *. lia. }
    split_and!; try done.
    + rewrite (map_filter_singleton_True (fun kd => fresh kd.2 now = true)) by done.
      rewrite (map_filter_singleton_False (fun kd => fresh kd.2 now = false)) by (cbn; congruence).
      f_equal. change (sum_caps ∅) with 0. lia.
    + by rewrite lookup_singleton_eq.
    + rewrite map_size_singleton. lia.
    + intros d'. split; [apply insert_singleton_eq|lia].
Qed.

Lemma chunk_not_malformed p : p ∈ chunks -> malformed p = false.
Proof.
  intros Hin. destruct (chunk_ok p Hin) as ([_ _ Pf] & _ & Ppos & _ & _ & P8 & _). unfold malformed.
  apply orb_false_iff. split; [|apply Z.ltb_ge; done].
  destruct (pc_more p); [|done]. rewrite P8 by done. cbn. apply Z.eqb_neq. lia.
Qed.

Lemma small_evict_loop d fuel :
  cap d <= MAX_PAYLOAD ->
  evict_loop iter fuel (mkReassembler {[k := d]} (cap d)) k = mkReassembler {[k := d]} (cap d).
Proof.
  intros Hc. destruct fuel; [done|]. cbn [evict_loop bytes].
  replace (MAX_BYTES <? cap d) with false; [done|]. symmetry. apply Z.ltb_ge.
  change MAX_BYTES with 1048576. unfold MAX_PAYLOAD in *. lia.
Qed.

(** One arrival: the last missing fragment gives the datagram and leaves the
    table empty, any other gives nothing. *)
Lemma push_step t0 l r p rest now :
  chunks ≡ₚ l ++ p :: rest -> entry t0 l r -> t0 <= now < t0 + REASSEMBLY_TIMEOUT ->
  match rest with
  | [] => push iter r now p =
            (Reassembler_default, e ← reassembled_ecn ecn_bit; Some (h, concat (pc_data <$> chunks), e))
  | _ => exists r', push iter r now p = (r', None) /\ entry t0 (p :: l) r'
  end.
Proof.
  intros Hperm He Hnow. destruct (entry_cases t0 l r now He Hnow) as (d & Hex & Hdef & Hd & Hst & Hsz & Hins).
  assert (p ∈ chunks) as Hpc by (rewrite Hperm; apply elem_of_app; right; by left).
  destruct (accept_new l d p rest Hperm Hd) as (d' & Ha & Hd' & Hst').
  destruct (chunk_ok p Hpc) as (_ & Hk & _). destruct (Hins d') as [Hi1 Hi2].
  assert (chunks ≡ₚ (p :: l) ++ rest) as Hperm' by (rewrite Hperm; symmetry; apply Permutation_middle).
  pose proof (pi_cap _ _ _ (ho_inv _ _ Hd')) as Hcap.
  unfold push. rewrite Hex, chunk_not_malformed, Hk by done.
  replace (MAX_DATAGRAMS <=? Z.of_nat (size (partial r))) with false
    by (symmetry; apply Z.leb_gt; unfold MAX_DATAGRAMS; lia).
  rewrite andb_false_r, Hdef, Ha, Hi1, Hi2. cbn [negb partial bytes].
  assert (rest <> [] -> forall t, p_total d' = Some t -> (received d' =? t) = false) as Hinc.
  { intros Hne t Ht. apply Z.eqb_neq. destruct rest as [|x rest]; [done|].
    pose proof (holds_received _ _ _ Hperm' Hd'). pose proof (covered_rest x rest (p :: l) Hperm').
    destruct (pi_total _ _ _ (ho_inv _ _ Hd') t Ht) as (_ & _ & q & Hq & _ & Hm & Hfin).
    apply chunk_ok in Hm; [lia|]. rewrite Hperm'. apply elem_of_app. by left. }
  destruct rest as [|x rest].
  - rewrite app_nil_r in Hperm'.
    destruct (holds_complete (p :: l) d' Hperm') as (E1 & E2 & E3 & E4 & E5); [intros E0; rewrite E0 in Hpc; by apply elem_of_nil in Hpc|done|].
    rewrite E1, E2, Z.eqb_refl, E3, E4, E5, delete_singleton_eq, Z.sub_diag. done.
  - exists (mkReassembler {[k := d']} (cap d')). split; [|cbn; exists d'; split_and!; (done || lia)].
    rewrite small_evict_loop by lia. cbn [bytes].
    replace (MAX_BYTES <? cap d') with false by
      (symmetry; apply Z.ltb_ge; change MAX_BYTES with 1048576; unfold MAX_PAYLOAD in *; lia).
    destruct (p_total d') as [t|]; [rewrite (Hinc ltac:(done) t eq_refl)|]; done.
Qed.
End Datagram.

(** ** The fragments of a packet as pieces *)

(** Feed arrivals (an instant, a namespace, a packet) and collect what comes
    back. *)
Fixpoint feed (iter : gmap Key Partial -> list (Key * Partial)) (r : Reassembler)
  (hist : list (Z * Z * list Z)) : Reassembler * list (option (list Z)) :=
  match hist with
  | [] => (r, [])
  | (now, ns, pkt) :: rest =>
      let '(r, out) := reassemble iter r now ns pkt in
      let '(r, outs) := feed iter r rest in
      (r, out :: outs)
  end.

Lemma more_bit a b :
  byte_ok b -> negb (Z.land (of_be16 a b) 0x2000 =? 0) = negb (Z.land a 0x20 =? 0).
Proof.
  intros Hb. change 0x2000 with (Z.shiftl 1 13). change 0x20 with (Z.shiftl 1 5).
  rewrite !land_bit_testbit by lia. unfold of_be16, byte_ok in *.
  change 13 with (5 + 8). rewrite <- Z.div_pow2_bits by lia. change (2 ^ 8) with 256.
  rewrite Z.div_add_l, Z.div_small, Z.add_0_r by lia. done.
Qed.

Lemma fragment_word w :
  negb (Z.land w 0x2000 =? 0) = true \/ Z.land w 0x1FFF <> 0 -> (Z.land w 0x3FFF =? 0) = false.
Proof.
  intros H. apply Z.eqb_neq. intros E.
  assert (forall m, Z.land 0x3FFF m = m -> Z.land w m = 0) as Hm.
  { intros m Em. rewrite <- Em, Z.land_assoc, E. apply Z.land_0_l. }
  rewrite (Hm 0x2000 eq_refl), (Hm 0x1FFF eq_refl) in H. destruct H; done.
Qed.

Section Fragments.
Context (p : list Z) (mtu ns : Z).
Let piece f := piece_v4 ns f (ipv4_header_len f).
Hypothesis Hp : bytes_ok p.

Hypothesis Hw : whole_ipv4 p.

(** The piece of a fragment reads what the fragment's accessors read. *)
Lemma piece_of_fragment f :
  frag_ok p mtu f -> ipv4_payload f <> [] ->
  pc_data (piece f) = ipv4_payload f /\ pc_offset (piece f) = ipv4_fragment_offset f /\
  pc_more (piece f) = ipv4_more_fragments f /\ pc_key (piece f) = pc_key (piece_v4 ns p 0) /\
  pc_ecn (piece f) = Z.land p.[1] 3 /\ 20 <= zlen f /\
  (ipv4_is_fragment f = true -> packet_piece ns f = Some (piece f)).
Proof.
  intros [Fb Fm F4 Fh Fl Fd Fs Fsame _ _ _ _ _] Hne. destruct Hw as (_ & W1 & W2).
  unfold ipv4_payload in *. destruct ((ipv4_header_len f <? 20) || _ || _) eqn:E in Hne; [done|].
  rewrite E. bool2prop. rewrite Fl in *.
  assert (forall a b, 12 <= a -> b <= 20 -> slice f a b = slice p a b) as Hs.
  { intros a b ??. apply bytes_ext; [rewrite !zlen_slice; lia|]. intros i Hi. rewrite zlen_slice in Hi.
    rewrite !byte_at_slice by lia. apply Fsame. lia. }
  assert (pc_more (piece f) = ipv4_more_fragments f) as Hmore.
  { cbn. unfold ipv4_more_fragments. rewrite more_bit by bok.
    destruct (7 <=? zlen f) eqn:?; bool2prop; [done|lia]. }
  assert (pc_offset (piece f) = ipv4_fragment_offset f) as Hoff.
  { cbn. unfold ipv4_fragment_offset. destruct (zlen f <? 8) eqn:?; bool2prop; [lia|done]. }
  split_and!; try done.
  - cbn. by rewrite slice_to_end.
  - cbn. rewrite !Hs, !Fsame by lia. done.
  - cbn. rewrite Fsame by lia. done.
  - lia.
  - intros Hfr. unfold packet_piece. rewrite F4, Fl, ztake_all by lia. cbn [Z.eqb Pos.eqb].
    rewrite fragment_word.
    2: { unfold ipv4_is_fragment in Hfr. apply orb_true_iff in Hfr as [H'|H'].
         - left. rewrite <- Hmore in H'. exact H'.
         - right. apply negb_true_iff, Z.eqb_neq in H'. rewrite <- Hoff in H'. cbn in H'. intros E0.
           rewrite E0 in H'. done. }
    case_if; [|done]. rewrite orb_false_r in *.
    match goal with H : _ = true |- _ => apply orb_true_iff in H; rewrite orb_true_iff, !Z.ltb_lt in H end. lia.
Qed.

(** Fragments in a chain are contiguous pieces, the last of them marked. *)
Lemma chain_pieces off fs :
  Forall (frag_ok p mtu) fs -> chain off false fs ->
  let T := off + zlen (concat (ipv4_payload <$> fs)) in
  contiguous off (piece <$> fs) /\ concat (pc_data <$> (piece <$> fs)) = concat (ipv4_payload <$> fs) /\
  Forall (fun f => ipv4_payload f <> [] /\ off <= ipv4_fragment_offset f /\
    (ipv4_more_fragments f = true -> zlen (ipv4_payload f) mod 8 = 0) /\
    (ipv4_more_fragments f = false <-> ipv4_fragment_offset f + zlen (ipv4_payload f) = T)) fs.
Proof.
  revert off. induction fs as [|f fs IH]; intros off Hf Hc T.
  { done. }
  apply Forall_cons_iff in Hf as [Hf Hfs]. cbn [chain] in Hc. destruct Hc as (Ho & Hne & Hm & H8 & Hc).
  destruct (piece_of_fragment f Hf Hne) as (P1 & P2 & P3 & _).
  destruct (IH _ Hfs Hc) as (I1 & I2 & I3).
  assert (0 < zlen (ipv4_payload f)) as Hpos.
  { destruct (decide (zlen (ipv4_payload f) = 0)) as [E|]; [by apply zlen_zero in E|].
    pose proof (zlen_nonneg (ipv4_payload f)). lia. }
  assert (T = off + zlen (ipv4_payload f) + zlen (concat (ipv4_payload <$> fs))) as HT.
  { unfold T. rewrite fmap_cons. cbn [concat]. rewrite zlen_app. lia. }
  rewrite !fmap_cons. cbn [contiguous concat]. rewrite P1, P2, I2. split_and!; [done|done|done|].
  constructor.
  - split_and!; [done|lia| |].
    + intros Hmf. destruct fs; [rewrite Hm in Hmf; done|]. apply H8. done.
    + rewrite Hm, HT, Ho. destruct fs as [|g fs]; [split; [intros _; change (zlen (concat (ipv4_payload <$> []))) with 0; lia|done]|].
      split; [done|]. intros E. exfalso. cbn [chain] in Hc. destruct Hc as (_ & Hne' & _).
      rewrite fmap_cons in E. cbn [concat] in E. rewrite zlen_app in E.
      pose proof (zlen_nonneg (concat (ipv4_payload <$> fs))). pose proof (zlen_nonneg (ipv4_payload g)).
      apply Hne', zlen_zero. lia.
  - eapply list.Forall_impl; [exact I3|]. intros g (G1 & G2 & G3 & G4). rewrite HT. split_and!; [done|lia|done|done].
Qed.

(** ** All of them *)

Context (iter : gmap Key Partial -> list (Key * Partial)) (fs : list (list Z)).
Hypothesis Hnf : ipv4_is_fragment p = false.
Hypothesis Hfs : fragment_ipv4 p mtu = Fragments fs.
Hypothesis Hcount : zlen fs <= MAX_PIECES.

Let chunks := piece <$> fs.
Let payload := ipv4_payload p.
Let k := pc_key (piece_v4 ns p 0).
Let ecn := Z.land p.[1] 3.

Lemma not_fragment : ipv4_fragment_offset p = 0 /\ ipv4_more_fragments p = false.
Proof. unfold ipv4_is_fragment in Hnf. bool2prop. done. Qed.

Lemma fragments_ok :
  (2 <= length fs)%nat /\ Forall (frag_ok p mtu) fs /\ chain 0 false fs /\
  concat (ipv4_payload <$> fs) = payload /\ zlen payload <= 65515.
Proof.
  pose proof (fragment_ipv4_ok p mtu Hp) as Hk. rewrite Hfs in Hk. cbn in Hk.
  destruct Hk as (_ & _ & _ & H2 & Hf & Hc & Hpay). destruct not_fragment as [E0 E1].
  rewrite E0, E1 in Hc. split_and!; try done.
  unfold payload, ipv4_payload. case_if; [done|]. rewrite zlen_slice. bool2prop.
  pose proof (total_max p mtu Hp). lia.
Qed.

(** A fragment of more than one is marked as one. *)
Lemma is_fragments : Forall (fun f => ipv4_is_fragment f = true) fs.
Proof.
  destruct fragments_ok as (H2 & Hf & Hc & Hpay & _).
  destruct (chain_pieces 0 fs Hf Hc) as (_ & _ & Hall). rewrite Hpay in Hall.
  destruct fs as [|f [|g r]] eqn:E; cbn in H2; try lia. constructor.
  - cbn [chain] in Hc. unfold ipv4_is_fragment. destruct Hc as (_ & _ & -> & _). done.
  - cbn [chain] in Hc. destruct Hc as (_ & Hne & _ & _ & Hc').
    apply Forall_cons_iff in Hf as [_ Hf'].
    destruct (chain_pieces _ (g :: r) Hf' Hc') as (_ & _ & Hall').
    eapply list.Forall_impl; [exact Hall'|]. intros x (_ & Hx & _). unfold ipv4_is_fragment.
    replace (ipv4_fragment_offset x =? 0) with false; [apply orb_true_r|]. symmetry. apply Z.eqb_neq.
    pose proof (zlen_nonneg (ipv4_payload f)).
    assert (zlen (ipv4_payload f) <> 0) by (intros E0; by apply Hne, zlen_zero). lia.
Qed.

(** The header every rebuilt packet gets: that of the first fragment. *)
Definition first_header : list Z :=
  match fs with f :: _ => set_byte (ztake 20 f) 0 0x45 | [] => [] end.

Lemma chunks_ok :
  contiguous 0 chunks /\ concat (pc_data <$> chunks) = payload /\
  Forall (fun c => piece_ok c /\ pc_key c = k /\ 0 < zlen (pc_data c) /\ pc_ecn c = ecn /\
    pc_header c = (if pc_offset c =? 0 then Some first_header else None) /\
    (pc_more c = true -> zlen (pc_data c) mod 8 = 0) /\
    (pc_more c = false <-> pc_offset c + zlen (pc_data c) = zlen (concat (pc_data <$> chunks)))) chunks.
Proof.
  destruct fragments_ok as (H2 & Hf & Hc & Hpay & Hlen).
  destruct (chain_pieces 0 fs Hf Hc) as (C1 & C2 & C3). fold chunks in C1, C2.
  rewrite C2, Hpay in *. cbn [Z.add] in C3. split_and!; [done|done|].
  unfold chunks. apply Forall_fmap. rewrite List.Forall_forall in *. intros f Hin. cbn beta.
  destruct (C3 f Hin) as (Hne & _ & H8 & Hm).
  destruct (piece_of_fragment f (Hf f Hin) Hne) as (P1 & P2 & P3 & P4 & P5 & P6 & _).
  assert (0 < zlen (ipv4_payload f)) as Hpos.
  { pose proof (zlen_nonneg (ipv4_payload f)).
    assert (zlen (ipv4_payload f) <> 0) by (intros E0; by apply Hne, zlen_zero). lia. }
  unfold compose. rewrite P1, P2, P3, P4, P5. split_and!; try done.
  - destruct (piece_v4_ok ns f (ipv4_header_len f) (fo_bytes _ _ _ (Hf f Hin))) as [B1 B2].
    split; [done|done|]. rewrite P1, P2.
    assert (piece f ∈ chunks) as Hpc by (apply list_elem_of_fmap; exists f; split; [done|by apply list_elem_of_In]).
    pose proof (contiguous_bounds 0 chunks (piece f) C1 Hpc) as [_ Hb]. rewrite P1, P2, C2 in Hb.
    unfold MAX_PAYLOAD. lia.
  - rewrite <- P2. cbn. unfold first_header. case_if; [|done]. f_equal.
    destruct fs as [|f0 r] eqn:E; [cbn in H2; lia|].
    destruct Hin as [<-|Hin]; [done|]. exfalso.
    cbn [chain] in Hc. destruct Hc as (_ & Hne0 & _ & _ & Hc').
    destruct (chain_pieces _ r ltac:(apply List.Forall_forall; intros; apply Hf; by right) Hc') as (_ & _ & Hall').
    rewrite List.Forall_forall in Hall'. destruct (Hall' f Hin) as (_ & Hge & _).
    rewrite <- P2 in Hge. cbn in Hge. pose proof (zlen_nonneg (ipv4_payload f0)).
    assert (zlen (ipv4_payload f0) <> 0) by (intros E0; by apply Hne0, zlen_zero). lia.
Qed.

Lemma ecn_verdict : exists e, reassembled_ecn (ecn_bit ecn) = Some e /\ (e = None \/ e = Some 3).
Proof.
  assert (0 <= ecn < 4) as He.
  { unfold ecn. change 3 with (Z.ones 2). rewrite Z.land_ones by lia. apply Z.mod_pos_bound. lia. }
  assert (ecn = 0 \/ ecn = 1 \/ ecn = 2 \/ ecn = 3) as [E|[E|[E|E]]] by lia; rewrite E; eexists; (split; [reflexivity|auto]).
Qed.

(** Everything but the last arrival gives nothing, and the last one the
    packet. *)
Lemma feed_fragments t0 before r todo e :
  fs ≡ₚ before ++ (snd <$> todo) -> entry k chunks first_header ecn t0 (piece <$> before) r ->
  Forall (fun x => t0 <= fst x < t0 + REASSEMBLY_TIMEOUT) todo -> todo <> [] ->
  reassembled_ecn (ecn_bit ecn) = Some e ->
  feed iter r ((fun x => (x.1, ns, x.2)) <$> todo) =
    (Reassembler_default,
     replicate (length todo - 1) None ++ [rebuild_v4 first_header payload e]).
Proof.
  destruct chunks_ok as (C1 & C2 & C3). destruct fragments_ok as (_ & Hf & Hc & _).
  assert (zlen chunks <= MAX_PIECES) as Hcnt by (unfold chunks; rewrite zlen_map; done).
  intros Hperm Hent Ht Hne He. revert before r Hperm Hent.
  induction todo as [|[now f] todo IH]; [done|]. intros before r Hperm Hent.
  apply Forall_cons_iff in Ht as [Hnow Ht]. cbn [fst] in Hnow.
  change (snd <$> (now, f) :: todo) with (f :: (snd <$> todo)) in Hperm.
  assert (In f fs) as Hin by (apply list_elem_of_In; rewrite Hperm; apply elem_of_app; right; by left).
  assert (packet_piece ns f = Some (piece f)) as Hpp.
  { pose proof is_fragments as Hif. rewrite List.Forall_forall in Hif, Hf.
    destruct (chain_pieces 0 fs ltac:(by apply List.Forall_forall) Hc) as (_ & _ & C4). rewrite List.Forall_forall in C4.
    apply (piece_of_fragment f (Hf f Hin)); [by apply C4|auto]. }
  assert (version f = 4) as H4 by (rewrite List.Forall_forall in Hf; apply (fo_v4 _ _ _ (Hf f Hin))).
  pose proof (push_step iter k chunks first_header ecn C1 C3 Hcnt t0 (piece <$> before) r (piece f)
    (piece <$> (snd <$> todo)) now) as Hstep.
  specialize (Hstep ltac:(unfold chunks; rewrite Hperm, fmap_app; done) Hent Hnow).
  pose proof (reassemble_cases iter r now ns f) as Hcase. rewrite Hpp in Hcase.
  change ((fun x => (x.1, ns, x.2)) <$> (now, f) :: todo) with ((now, ns, f) :: ((fun x => (x.1, ns, x.2)) <$> todo)).
  cbn [feed].
  destruct todo as [|[now2 f2] todo].
  - cbn [fmap list_fmap] in Hstep. rewrite Hstep, He in Hcase. cbn [mbind option_bind] in Hcase.
    destruct Hcase as [[_ ->]|[E6 _]]; [|congruence]. rewrite C2. done.
  - change (piece <$> (snd <$> (now2, f2) :: todo)) with (piece f2 :: (piece <$> (snd <$> todo))) in Hstep.
    destruct Hstep as (r' & Hpush & Hent'). rewrite Hpush in Hcase. cbn [mbind option_bind] in Hcase.
    destruct Hcase as [[_ ->]|[E6 _]]; [|congruence].
    rewrite (IH Ht ltac:(done) (f :: before) r').
    + cbn [length]. rewrite !Nat.sub_succ, !Nat.sub_0_r. done.
    + rewrite Hperm. symmetry. apply Permutation_middle.
    + done.
Qed.
End Fragments.

(** C5: Fragmenting an IPv4 packet and reassembling the fragments gives the packet
    back.  The fragments may arrive in any order, at any times within the 30
    second timeout: every one but the last to arrive is held, the last one
    brings back a whole packet with the original payload, addresses,
    identification, time to live and protocol and a correct header
    checksum, and the reassembler is empty again. *)
Theorem fragment_reassemble_roundtrip iter p mtu ns fs t0 (arrivals : list (Z * list Z)) :
  bytes_ok p -> ipv4_is_fragment p = false -> fragment_ipv4 p mtu = Fragments fs ->
  zlen fs <= MAX_PIECES -> (snd <$> arrivals) ≡ₚ fs ->
  Forall (fun x => t0 <= fst x < t0 + REASSEMBLY_TIMEOUT) arrivals ->
  exists out,
    feed iter Reassembler_default ((fun x => (x.1, ns, x.2)) <$> arrivals) =
      (Reassembler_default, replicate (length arrivals - 1) None ++ [Some out]) /\
    rebuilt p (ipv4_payload p) out.
Proof.
  intros Hp Hnf Hfs Hcount Hperm Ht.
  assert (whole_ipv4 p) as Hw by (pose proof (fragment_ipv4_ok p mtu Hp) as H; rewrite Hfs in H; apply H).
  destruct (fragments_ok p mtu Hp fs Hnf Hfs) as (H2 & Hf & Hc & Hpay & Hlen).
  destruct (ecn_verdict p) as (e & He & Hcases).
  destruct fs as [|f0 r0] eqn:Efs; [cbn in H2; lia|]. rewrite <- Efs in *.
  assert (frag_ok p mtu f0) as [Fb _ _ Fh Fl _ _ Fsame _ _ _ _ _] by (rewrite Efs in Hf; apply (proj1 (proj1 (Forall_cons_iff _ _ _) Hf))).
  set (h := first_header fs).
  assert (20 <= zlen f0) as Hz0.
  { rewrite Efs in Hc, Hf. apply Forall_cons_iff in Hf as [Hf0 _]. cbn [chain] in Hc.
    apply (piece_of_fragment p mtu ns Hw f0 Hf0). apply Hc. }
  assert (zlen (ztake 20 f0) = 20) as Hz by (rewrite zlen_ztake; lia).
  assert (h = set_byte (ztake 20 f0) 0 69) as Hh by (unfold h, first_header; rewrite Efs; done).
  assert (exists out, rebuild_v4 h (ipv4_payload p) e = Some out) as [out Hout].
  { unfold rebuild_v4, MAX_PAYLOAD. case_if; [lia|]. eauto. }
  exists out. split.
  - rewrite (feed_fragments p mtu ns Hp Hw iter fs Hnf Hfs Hcount t0 [] Reassembler_default arrivals e); try done.
    + fold h. rewrite Hout. done.
    + intros ->. rewrite Efs in Hperm. by apply Permutation_nil_cons in Hperm.
  - assert (bytes_ok (ipv4_payload p)) as Hbp by (unfold ipv4_payload; case_if; [apply bytes_ok_nil|bok]).
    destruct (rebuild_v4_spec h (ipv4_payload p) e out) as [R1 R2 R3 R4 R5 R6 R7 R8]; try done.
    + rewrite Hh. apply bytes_ok_set_byte; [bok|unfold byte_ok; lia].
    + rewrite Hh, zlen_set_byte. done.
    + rewrite Hh. apply byte_at_set_eq. lia.
    + split; try done. intros i Hi. rewrite R8, Hh by done.
      rewrite byte_at_set_ne, byte_at_ztake by lia. apply Fsame. lia.
Qed.

Lemma fragment_reassemble_roundtrip_witness :
  let p := [0x45;1;0;100;0x12;0x34;0;0;64;17;0;0;10;0;0;1;10;0;0;2] ++ replicate 80 7 in
  exists f1 f2, fragment_ipv4 p 68 = Fragments [f1; f2] /\
    exists out, feed map_to_list Reassembler_default [(5, 0, f2); (3, 0, f1)]
      = (Reassembler_default, [None; Some out]) /\
    ipv4_payload out = replicate 80 7.
Proof.
  intros p. eexists _, _. split; [vm_compute; reflexivity|].
  match goal with |- context [[(_, _, ?b); (_, _, ?a)]] =>
    destruct (fragment_reassemble_roundtrip map_to_list p 68 0 [a; b] 0 [(5, b); (3, a)]) as (out & H1 & H2)
  end.
  - apply bytes_ok_app; [repeat constructor; lia|apply bytes_ok_replicate; unfold byte_ok; lia].
  - vm_compute; reflexivity.
  - vm_compute; reflexivity.
  - vm_compute; discriminate.
  - apply Permutation_swap.
  - repeat constructor; cbn [fst]; unfold REASSEMBLY_TIMEOUT; lia.
  - exists out. split; [exact H1|]. rewrite (rb_payload _ _ _ H2). reflexivity.
Defined.
