(* ===== verification/Bitmap.v ===== *)
(** * Bitmaps in words

    Arrays of 64-bit words used as bitmaps: the replay windows
    ([src/src/wg/replay.rs], [src/src/ovpn/window.rs]) and the port bitmap
    of the NAT ([src/src/nat/ports.rs]).  Words are indexed with [byte_at] and
    updated with [set_byte] like any array of integers. *)

From S2P Require Import Prelude.

Definition word_ok (w : Z) : Prop := 0 <= w < 2 ^ 64.

(** [bitmap[w] & (1 << b) != 0]. *)
Definition test_bit (bm : list Z) (w b : Z) : bool := negb (Z.land bm.[w] (Z.shiftl 1 b) =? 0).

(** [bitmap[w] |= 1 << b]. *)
Definition set_bit (bm : list Z) (w b : Z) : list Z := set_byte bm w (Z.lor bm.[w] (Z.shiftl 1 b)).

Definition U64_MAX : Z := 2 ^ 64 - 1.

(** [bitmap[w] &= !(1 << b)]. *)
Definition clear_bit (bm : list Z) (w b : Z) : list Z := set_byte bm w (Z.land bm.[w] (U64_MAX - Z.shiftl 1 b)).

(** [bitmap[w] = 0]. *)
Definition clear_word (bm : list Z) (w : Z) : list Z := set_byte bm w 0.

Lemma zlen_set_bit bm w b : zlen (set_bit bm w b) = zlen bm.
Proof. apply zlen_set_byte. Qed.

Lemma zlen_clear_word bm w : zlen (clear_word bm w) = zlen bm.
Proof. apply zlen_set_byte. Qed.

#[export] Hint Rewrite zlen_set_bit zlen_clear_word : zlen.

Lemma test_bit_testbit bm w b : 0 <= b -> test_bit bm w b = Z.testbit bm.[w] b.
Proof. apply land_bit_testbit. Qed.

Lemma test_set_bit bm w b w' b' :
  0 <= w < zlen bm -> 0 <= w' -> 0 <= b -> 0 <= b' ->
  test_bit (set_bit bm w b) w' b' = ((w' =? w) && (b' =? b)) || test_bit bm w' b'.
Proof.
  intros Hw Hw' Hb Hb'. rewrite !test_bit_testbit by done. unfold set_bit.
  destruct (w' =? w) eqn:E; bool2prop.
  - subst w'. rewrite byte_at_set_eq, testbit_lor_bit by lia. done.
  - rewrite byte_at_set_ne by lia. done.
Qed.

Lemma test_clear_word bm w w' b :
  0 <= w < zlen bm -> 0 <= w' -> 0 <= b ->
  test_bit (clear_word bm w) w' b = negb (w' =? w) && test_bit bm w' b.
Proof.
  intros Hw Hw' Hb. rewrite !test_bit_testbit by done. unfold clear_word.
  destruct (w' =? w) eqn:E; bool2prop.
  - subst w'. rewrite byte_at_set_eq by lia. apply Z.testbit_0_l.
  - rewrite byte_at_set_ne by lia. done.
Qed.

Lemma test_zeros n w b : 0 <= b -> test_bit (replicate n 0) w b = false.
Proof.
  intros Hb. rewrite test_bit_testbit by done. unfold byte_at.
  destruct (replicate n 0 !! Z.to_nat w) eqn:E; [|apply Z.testbit_0_l].
  apply lookup_replicate in E as [-> _]. apply Z.testbit_0_l.
Qed.

Lemma word_ok_set_bit bm w b :
  Forall word_ok bm -> 0 <= b < 64 -> Forall word_ok (set_bit bm w b).
Proof.
  intros H Hb. unfold set_bit. apply Forall_insert; [done|].
  assert (word_ok bm.[w]) as Hw.
  { unfold byte_at. destruct (bm !! _) eqn:E; cbn; [|unfold word_ok; lia]. eapply Forall_lookup_1 in E; done. }
  unfold word_ok in *. split; [apply Z.lor_nonneg; split; [lia|apply Z.shiftl_nonneg; lia]|].
  destruct (decide (bm.[w] = 0)) as [->|].
  - rewrite Z.lor_0_l, Z.shiftl_1_l. apply Z.pow_lt_mono_r; lia.
  - assert (0 < Z.lor bm.[w] (Z.shiftl 1 b)) as Hpos.
    { assert (Z.lor bm.[w] (Z.shiftl 1 b) <> 0) by (intros E; apply Z.lor_eq_0_iff in E; lia).
      assert (0 <= Z.lor bm.[w] (Z.shiftl 1 b)) by (apply Z.lor_nonneg; split; [lia|apply Z.shiftl_nonneg; lia]). lia. }
    apply Z.log2_lt_pow2; [done|]. rewrite Z.log2_lor by (try apply Z.shiftl_nonneg; lia).
    rewrite Z.shiftl_1_l, Z.log2_pow2 by lia.
    assert (Z.log2 bm.[w] < 64) by (apply Z.log2_lt_pow2; lia). lia.
Qed.

Lemma testbit_max b : 0 <= b -> Z.testbit U64_MAX b = (b <? 64).
Proof.
  intros Hb. change U64_MAX with (Z.ones 64). destruct (b <? 64) eqn:E; bool2prop.
  - apply Z.ones_spec_low. lia.
  - apply Z.ones_spec_high. lia.
Qed.

Lemma test_clear_bit bm w b w' b' :
  0 <= w < zlen bm -> 0 <= w' -> 0 <= b < 64 -> 0 <= b' < 64 ->
  test_bit (clear_bit bm w b) w' b' = negb ((w' =? w) && (b' =? b)) && test_bit bm w' b'.
Proof.
  intros Hw Hw' Hb Hb'. rewrite !test_bit_testbit by lia. unfold clear_bit. destruct (w' =? w) eqn:E; bool2prop; cbn [andb negb].
  - subst w'. rewrite byte_at_set_eq by lia. rewrite Z.land_spec.
    assert (U64_MAX - Z.shiftl 1 b = Z.ldiff U64_MAX (Z.shiftl 1 b)) as ->.
    { apply Z.sub_nocarry_ldiff, Z.bits_inj'. intros n Hn. rewrite Z.ldiff_spec, Z.shiftl_spec, testbit_max, Z.testbit_0_l by lia.
      destruct (n <? 64) eqn:E; bool2prop; [apply andb_false_r|]. rewrite andb_true_r. apply (Z.bits_above_log2 1); cbn; lia. }
    rewrite Z.ldiff_spec, testbit_max by lia. replace (b' <? 64) with true by lia. cbn [andb].
    assert (Z.testbit (Z.shiftl 1 b) b' = (b' =? b)) as ->; [|rewrite andb_comm; done].
    pose proof (testbit_lor_bit 0 b b' ltac:(lia) ltac:(lia)) as H. rewrite Z.lor_0_l, Z.testbit_0_l, orb_false_r in H. done.
  - rewrite byte_at_set_ne by lia. done.
Qed.

(** The word and the bit of a place name the place. *)
Lemma same_place p q : 0 <= p -> 0 <= q -> (q / 64 =? p / 64) && (q mod 64 =? p mod 64) = (q =? p).
Proof.
  intros Hp Hq. pose proof (Z.div_mod p 64 ltac:(lia)). pose proof (Z.div_mod q 64 ltac:(lia)).
  destruct (q =? p) eqn:E; bool2prop; [subst; by rewrite !Z.eqb_refl|].
  destruct (q / 64 =? p / 64) eqn:E1, (q mod 64 =? p mod 64) eqn:E2; bool2prop; try done. lia.
Qed.

(** Two places less than a lap apart on a ring of [n] are the same place
    only if they are equal. *)
Lemma ring_inj n a b : 0 < n -> - n < a - b < n -> a mod n = b mod n -> a = b.
Proof.
  intros Hn Hd E. pose proof (Z.div_mod a n ltac:(lia)). pose proof (Z.div_mod b n ltac:(lia)).
  assert (n * (a / n - b / n) = a - b) by lia.
  assert (a / n - b / n = 0) by nia. lia.
Qed.
