(* ===== verification/WgReplay.v ===== *)
(** * WireGuard replay protection ([src/src/wg/replay.rs])

    The ring of 128 words against an abstract window that just remembers
    every counter it accepted: both give the same verdict on every sequence
    of counters. *)

From S2P Require Import Prelude Bitmap.

Definition WINDOW_SIZE : Z := 8192.
Definition REJECT_AFTER_MESSAGES : Z := (2 ^ 64 - 1) - Z.shiftl 1 13.
Definition BITMAP_WORDS : Z := WINDOW_SIZE / 64.
Definition WINDOW : Z := WINDOW_SIZE - 64.

(** The state under the mutex. *)
Record Inner := mkInner { bitmap : list Z; next : Z }.

Definition new_window : Inner := mkInner (replicate (Z.to_nat BITMAP_WORDS) 0) 0.

Definition too_old_or_invalid (g : Inner) (counter : Z) : bool :=
  (REJECT_AFTER_MESSAGES <=? counter) || (counter + 1 + WINDOW <? next g).

(** The word and the bit of a counter; the source gives the bit as a mask. *)
Definition slot (counter : Z) : Z * Z := ((counter / 64) mod BITMAP_WORDS, counter mod 64).

Definition is_replay (g : Inner) (counter : Z) : bool :=
  if too_old_or_invalid g counter then true
  else let '(word, bit) := slot counter in
       (counter <? next g) && test_bit (bitmap g) word bit.

(** [for i in 1..=clear]. *)
Fixpoint clear_ahead (n : nat) (cur : Z) (bm : list Z) : list Z :=
  match n with
  | O => bm
  | S n => clear_word (clear_ahead n cur bm) ((cur + Z.of_nat (S n)) mod BITMAP_WORDS)
  end.

Definition advance (g : Inner) (counter : Z) : Inner :=
  let their_next := counter + 1 in
  if next g <? their_next then
    let cur := sat_sub (next g) 1 / 64 in
    let new := counter / 64 in
    let clear := Z.min (sat_sub new cur) BITMAP_WORDS in
    mkInner (clear_ahead (Z.to_nat clear) cur (bitmap g)) their_next
  else g.

(** [true] is a replay. *)
Definition check_replay (g : Inner) (counter : Z) : Inner * bool :=
  if too_old_or_invalid g counter then (g, true)
  else
    let g := advance g counter in
    let '(word, bit) := slot counter in
    let seen := test_bit (bitmap g) word bit in
    (mkInner (set_bit (bitmap g) word bit) (next g), seen).

(** ** The specification *)

Module Spec.
(** Every counter accepted so far, and one past the highest. *)
Record window := mkWindow { accepted : gset Z; top : Z }.

Definition empty : window := mkWindow ∅ 0.

Definition check (s : window) (counter : Z) : window * bool :=
  if (REJECT_AFTER_MESSAGES <=? counter) || (counter + 1 + WINDOW <? top s)
     || bool_decide (counter ∈ accepted s)
  then (s, true)
  else (mkWindow ({[counter]} ∪ accepted s) (Z.max (top s) (counter + 1)), false).
End Spec.

(** ** The refinement *)

(** The bits of the words up to the one being filled, one lap back, are the
    accepted counters. *)
Record repr (s : Spec.window) (g : Inner) : Prop := {
  re_top : Spec.top s = next g;
  re_next : 0 <= next g;
  re_len : zlen (bitmap g) = BITMAP_WORDS;
  re_words : Forall word_ok (bitmap g);
  re_below : forall c, c ∈ Spec.accepted s -> 0 <= c < next g;
  re_bits : forall c, 0 <= c -> let cur := sat_sub (next g) 1 / 64 in
    cur - BITMAP_WORDS < c / 64 <= cur ->
    test_bit (bitmap g) (slot c).1 (slot c).2 = bool_decide (c ∈ Spec.accepted s) }.

Lemma slot_ok c : 0 <= (slot c).1 < BITMAP_WORDS /\ 0 <= (slot c).2 < 64.
Proof. cbn. split; apply Z.mod_pos_bound; done. Qed.

Lemma repr_new : repr Spec.empty new_window.
Proof.
  split; try done.
  - apply Forall_replicate. unfold word_ok. lia.
  - intros c Hc cur _. unfold new_window. cbn [bitmap].
    rewrite test_zeros by apply slot_ok. symmetry. apply bool_decide_eq_false. apply not_elem_of_empty.
Qed.

Lemma zlen_clear_ahead n cur bm : zlen (clear_ahead n cur bm) = zlen bm.
Proof. induction n; cbn [clear_ahead]; [done|]. by rewrite zlen_clear_word. Qed.

(** Clearing [n] words past [cur] clears those and no others. *)
Lemma clear_ahead_hit n cur bm i b :
  zlen bm = BITMAP_WORDS -> 1 <= i <= Z.of_nat n -> 0 <= b ->
  test_bit (clear_ahead n cur bm) ((cur + i) mod BITMAP_WORDS) b = false.
Proof.
  intros Hl Hi Hb. induction n as [|n IH]; [lia|]. cbn [clear_ahead].
  pose proof (Z.mod_pos_bound (cur + i) BITMAP_WORDS ltac:(done)).
  pose proof (Z.mod_pos_bound (cur + Z.of_nat (S n)) BITMAP_WORDS ltac:(done)).
  rewrite test_clear_word by (rewrite ?zlen_clear_ahead; lia).
  destruct (decide (i = Z.of_nat (S n))) as [->|]; [rewrite Z.eqb_refl; done|].
  rewrite IH by lia. apply andb_false_r.
Qed.

Lemma clear_ahead_miss n cur bm w b :
  zlen bm = BITMAP_WORDS -> 0 <= w -> 0 <= b ->
  (forall i, 1 <= i <= Z.of_nat n -> w <> (cur + i) mod BITMAP_WORDS) ->
  test_bit (clear_ahead n cur bm) w b = test_bit bm w b.
Proof.
  intros Hl Hw Hb Hn. induction n as [|n IH]; [done|]. cbn [clear_ahead].
  pose proof (Z.mod_pos_bound (cur + Z.of_nat (S n)) BITMAP_WORDS ltac:(done)).
  rewrite test_clear_word by (rewrite ?zlen_clear_ahead; lia).
  rewrite (proj2 (Z.eqb_neq w _)) by (apply Hn; lia). cbn [negb andb].
  apply IH. intros i Hi. apply Hn. lia.
Qed.

Lemma clear_ahead_words n cur bm : Forall word_ok bm -> Forall word_ok (clear_ahead n cur bm).
Proof.
  intros H. induction n as [|n IH]; cbn [clear_ahead]; [done|].
  apply Forall_insert; [done|]. unfold word_ok. lia.
Qed.

(** Advancing the ring to a counter keeps it in step with the accepted set. *)
Lemma advance_repr s g c :
  repr s g -> 0 <= c ->
  repr (Spec.mkWindow (Spec.accepted s) (Z.max (Spec.top s) (c + 1))) (advance g c).
Proof.
  intros [Ht Hn Hl Hw Hb Hbits] Hc. unfold advance. destruct (next g <? c + 1) eqn:E; bool2prop.
  2: { replace (Z.max (Spec.top s) (c + 1)) with (Spec.top s) by lia. destruct s; split; done. }
  set (cur := sat_sub (next g) 1 / 64) in *. set (new := c / 64).
  assert (0 <= cur <= new) as Hcur.
  { unfold cur, new, sat_sub. split; [apply Z.div_pos; lia|apply Z.div_le_mono; lia]. }
  replace (sat_sub new cur) with (new - cur) by (unfold sat_sub; lia).
  set (n := Z.to_nat (Z.min (new - cur) BITMAP_WORDS)).
  assert (Z.of_nat n = Z.min (new - cur) BITMAP_WORDS) as Hn' by (unfold n; rewrite Z2Nat.id; [done|]; change BITMAP_WORDS with 128; lia).
  split; cbn [Spec.top Spec.accepted next bitmap].
  - lia.
  - lia.
  - rewrite zlen_clear_ahead. done.
  - by apply clear_ahead_words.
  - intros x Hx. apply Hb in Hx. lia.
  - intros x Hx Hrange.
    replace (sat_sub (c + 1) 1 / 64) with new in Hrange by (unfold new, sat_sub; f_equal; lia).
    destruct (slot_ok x) as [_ Hbit]. change (slot x).1 with ((x / 64) mod BITMAP_WORDS).
    assert (BITMAP_WORDS = 128) as HB by done.
    destruct (decide (x / 64 <= cur)).
    + rewrite clear_ahead_miss; [apply Hbits; lia|done|apply Z.mod_pos_bound; done|lia|].
      intros i Hi Ei. apply ring_inj in Ei; lia.
    + set (i := (x / 64 - cur - 1) mod BITMAP_WORDS + 1).
      pose proof (Z.mod_pos_bound (x / 64 - cur - 1) BITMAP_WORDS ltac:(done)).
      assert (1 <= i <= Z.of_nat n) as Hi.
      { unfold i. rewrite Hn'. destruct (decide (new - cur < BITMAP_WORDS)); [|lia].
        rewrite Z.mod_small; lia. }
      replace ((x / 64) mod BITMAP_WORDS) with ((cur + i) mod BITMAP_WORDS).
      2: { unfold i. replace (cur + (_ + 1)) with (cur + 1 + (x / 64 - cur - 1) mod BITMAP_WORDS) by lia.
           rewrite Zplus_mod_idemp_r. f_equal. lia. }
      rewrite clear_ahead_hit by (done || lia). symmetry. apply bool_decide_eq_false.
      intros Hin. apply Hb in Hin. assert (x / 64 <= cur); [|lia].
      unfold cur, sat_sub. apply Z.div_le_mono; lia.
Qed.

Lemma same_slot c x :
  0 <= c -> 0 <= x -> - BITMAP_WORDS < c / 64 - x / 64 < BITMAP_WORDS ->
  ((slot x).1 =? (slot c).1) && ((slot x).2 =? (slot c).2) = (x =? c).
Proof.
  intros Hc Hx Hd. cbn [slot fst snd]. destruct (x =? c) eqn:E; bool2prop.
  - subst. by rewrite !Z.eqb_refl.
  - apply andb_false_iff. destruct (decide (x / 64 = c / 64)) as [E1|].
    + right. apply Z.eqb_neq. pose proof (Z.div_mod c 64). pose proof (Z.div_mod x 64). lia.
    + left. apply Z.eqb_neq. intros E1. apply ring_inj in E1; [lia|done|lia].
Qed.

(** Recording a counter of the current lap. *)
Lemma record_repr s g c :
  repr s g -> 0 <= c < next g -> sat_sub (next g) 1 / 64 - BITMAP_WORDS < c / 64 ->
  repr (Spec.mkWindow ({[c]} ∪ Spec.accepted s) (Spec.top s))
       (mkInner (set_bit (bitmap g) (slot c).1 (slot c).2) (next g)).
Proof.
  intros [Ht Hn Hl Hw Hb Hbits] Hc Hold. destruct (slot_ok c) as [Hs1 Hs2].
  split; cbn [Spec.top Spec.accepted bitmap next]; try done.
  - rewrite zlen_set_bit. done.
  - apply word_ok_set_bit; [done|lia].
  - intros x Hx. apply elem_of_union in Hx as [Hx|Hx]; [apply elem_of_singleton in Hx; lia|auto].
  - intros x Hx Hx'. destruct (slot_ok x). rewrite test_set_bit by lia. rewrite (Hbits x Hx Hx').
    assert (c / 64 <= sat_sub (next g) 1 / 64) by (unfold sat_sub; apply Z.div_le_mono; lia).
    rewrite same_slot by lia. destruct (x =? c) eqn:Ex; bool2prop; cbn [orb].
    + subst. symmetry. apply bool_decide_eq_true. set_solver.
    + apply bool_decide_ext. set_solver.
Qed.

(** A counter the window still covers is within a lap of the highest. *)
Lemma window_lap n c :
  0 <= c -> n <= c + 1 + WINDOW -> sat_sub n 1 / 64 - BITMAP_WORDS < c / 64.
Proof.
  intros Hc Hn. unfold sat_sub. change BITMAP_WORDS with 128. change WINDOW with 8128 in *.
  apply Z.lt_le_trans with (m := (Z.max 0 (n - 1) - 8128) / 64); [|apply Z.div_le_mono; lia].
  replace (_ - 8128) with (Z.max 0 (n - 1) + (-127) * 64) by lia. rewrite Z.div_add by lia. lia.
Qed.

(** One check, on both sides. *)
Lemma check_refines s g c :
  repr s g -> 0 <= c ->
  (check_replay g c).2 = (Spec.check s c).2 /\ repr (Spec.check s c).1 (check_replay g c).1.
Proof.
  intros Hr Hc. unfold check_replay, Spec.check, too_old_or_invalid. rewrite (re_top _ _ Hr).
  destruct ((REJECT_AFTER_MESSAGES <=? c) || (c + 1 + WINDOW <? next g)) eqn:E; cbn [orb]; [done|]. bool2prop.
  pose proof (advance_repr s g c Hr Hc) as Ha.
  assert (next (advance g c) = Z.max (next g) (c + 1)) as Hnext
    by (rewrite <- (re_top _ _ Hr); symmetry; apply (re_top _ _ Ha)).
  assert (sat_sub (next (advance g c)) 1 / 64 - BITMAP_WORDS < c / 64 <= sat_sub (next (advance g c)) 1 / 64) as Hin.
  { split; [apply window_lap; [done|change WINDOW with 8128 in *; lia]|].
    unfold sat_sub. rewrite Hnext. apply Z.div_le_mono; lia. }
  pose proof (record_repr _ _ c Ha ltac:(lia) ltac:(lia)) as Hrec. cbn [Spec.top Spec.accepted] in Hrec.
  pose proof (re_bits _ _ Ha c Hc Hin) as Hbit. cbn [Spec.accepted] in Hbit.
  destruct (slot c) as [w b]. cbn [fst snd] in *. rewrite Hbit, (re_top _ _ Hr) in *.
  destruct (bool_decide (c ∈ Spec.accepted s)) eqn:Ed; cbn [fst snd]; (split; [done|]); [|done].
  apply bool_decide_eq_true in Ed. pose proof (re_below _ _ Hr c Ed).
  replace ({[c]} ∪ Spec.accepted s) with (Spec.accepted s) in Hrec by set_solver.
  rewrite Z.max_l, <- (re_top _ _ Hr) in Hrec by lia. destruct s; done.
Qed.

(** ** Sequences of counters *)

(** The verdicts on a sequence of counters, [true] for a replay. *)
Fixpoint verdicts (g : Inner) (cs : list Z) : list bool :=
  match cs with
  | [] => []
  | c :: cs => let '(g, seen) := check_replay g c in seen :: verdicts g cs
  end.

Fixpoint spec_verdicts (s : Spec.window) (cs : list Z) : list bool :=
  match cs with
  | [] => []
  | c :: cs => let '(s, seen) := Spec.check s c in seen :: spec_verdicts s cs
  end.

Lemma verdicts_refine s g cs :
  repr s g -> Forall (fun c => 0 <= c) cs -> verdicts g cs = spec_verdicts s cs.
Proof.
  revert s g. induction cs as [|c cs IH]; intros s g Hr Hcs; [done|].
  apply Forall_cons_iff in Hcs as [Hc Hcs]. cbn [verdicts spec_verdicts].
  destruct (check_refines s g c Hr Hc) as [Hv Hr'].
  destruct (check_replay g c) as [g' v], (Spec.check s c) as [s' v']. cbn [fst snd] in *.
  rewrite Hv. f_equal. auto.
Qed.

(** C18: On every sequence of counters, from an empty window, the ring of words
    gives exactly the verdicts of the window that remembers every counter it
    accepted: a counter is taken unless it was taken before, is more than
    8128 behind the highest, or is past the message limit.  (No counter is
    lost to a stale bit of an earlier lap, and none is taken twice.) *)
Theorem check_replay_refines (cs : list Z) :
  Forall (fun c => 0 <= c) cs -> verdicts new_window cs = spec_verdicts Spec.empty cs.
Proof. apply verdicts_refine, repr_new. Qed.

Lemma check_replay_refines_witness :
  verdicts new_window [5; 5; 9000; 5; 8999; 871; 9000] = [false; true; false; true; false; true; true] /\
  verdicts new_window [5; 5; 9000; 5; 8999; 871; 9000]
  = spec_verdicts Spec.empty [5; 5; 9000; 5; 8999; 871; 9000].
Proof.
  split; [vm_compute; reflexivity|]. apply check_replay_refines. repeat constructor; lia.
Defined.

Definition after (cs : list Z) : Inner := foldl (fun g c => (check_replay g c).1) new_window cs.

Lemma after_repr cs : Forall (fun c => 0 <= c) cs -> exists s, repr s (after cs).
Proof.
  unfold after. revert cs. induction cs as [|c cs IH] using rev_ind; intros Hcs.
  { exists Spec.empty. apply repr_new. }
  apply Forall_app in Hcs as [Hcs Hc]. apply Forall_cons_iff in Hc as [Hc _].
  destruct (IH Hcs) as [s Hs]. rewrite foldl_app. cbn. eexists. apply (check_refines s _ c Hs Hc).
Qed.

(** After any sequence of counters the check made before decryption
    ([is_replay], which records nothing) gives the same verdict as the
    recording check made after it: no packet is decrypted in vain for a
    reason known beforehand, and none is dropped that would have been
    taken. *)
Theorem is_replay_predicts (cs : list Z) (c : Z) :
  Forall (fun c => 0 <= c) cs -> 0 <= c ->
  is_replay (after cs) c = (check_replay (after cs) c).2.
Proof.
  intros Hcs Hc. destruct (after_repr cs Hcs) as [s Hr]. set (g := after cs) in *.
  pose proof (proj1 (check_refines s g c Hr Hc)) as Hv. rewrite Hv.
  unfold is_replay, Spec.check, too_old_or_invalid. rewrite (re_top _ _ Hr).
  destruct ((REJECT_AFTER_MESSAGES <=? c) || _) eqn:E; [done|]. bool2prop. cbn [orb].
  destruct (slot c) as [w b] eqn:Es.
  destruct (c <? next g) eqn:El; bool2prop; cbn [andb].
  - pose proof (re_bits _ _ Hr c Hc) as Hb. cbv zeta in Hb. rewrite Es in Hb. cbn [fst snd] in Hb.
    rewrite Hb; [destruct (bool_decide _); done|].
    split; [by apply window_lap|]. unfold sat_sub. apply Z.div_le_mono; lia.
  - rewrite bool_decide_eq_false_2; [done|]. intros Hin. apply (re_below _ _ Hr) in Hin. lia.
Qed.

Lemma is_replay_predicts_witness :
  is_replay (after [5; 9000]) 8000 = (check_replay (after [5; 9000]) 8000).2 /\
  is_replay (after [5; 9000]) 9000 = true.
Proof.
  split; [apply is_replay_predicts; [repeat constructor; lia|lia]|vm_compute; reflexivity].
Defined.
