(* ===== verification/OvpnWindow.v ===== *)
(** * OpenVPN replay window ([src/src/ovpn/window.rs])

    The ring of 32 words with its moving offset, against an abstract window
    that remembers every packet id it accepted. *)

From S2P Require Import Prelude Bitmap.

Definition REPLAY_WINDOW_SIZE : Z := 2048.
Definition WORDS : Z := REPLAY_WINDOW_SIZE / 64.

Record Window := mkWindow { w_bitmap : list Z; position : Z; offset : Z; init : bool }.

Definition zero_bitmap : list Z := replicate (Z.to_nat WORDS) 0.

Definition Window_new : Window := mkWindow zero_bitmap 0 0 false.

(** [for i in 0..word_shift]: clear the words that come into the window. *)
Fixpoint clear_words (n : nat) (new_offset : Z) (bm : list Z) : list Z :=
  match n with
  | O => bm
  | S n => clear_word (clear_words n new_offset bm) ((new_offset + WORDS - 1 - Z.of_nat n) mod WORDS)
  end.

(** The window after it moves forward by [diff]. *)
Definition shift_window (w : Window) (diff : Z) : Window :=
  if REPLAY_WINDOW_SIZE <=? diff then mkWindow zero_bitmap (position w + diff) 0 (init w)
  else
    let word_shift := diff / 64 in
    let new_offset := (offset w + word_shift) mod WORDS in
    mkWindow (clear_words (Z.to_nat word_shift) new_offset (w_bitmap w)) (position w + diff)
      new_offset (init w).

(** How far the window must move to hold [counter], in whole words. *)
Definition shift_for (w : Window) (counter : Z) : Z :=
  let diff := counter - (position w + REPLAY_WINDOW_SIZE) + 1 in
  let n := diff mod 64 in
  if negb (n =? 0) then diff + (64 - n) else diff.

Definition check (w : Window) (id : Z) : Window * bool :=
  if id =? 0 then (w, false)
  else
    let counter := id in
    let w := if negb (init w) then mkWindow zero_bitmap (counter - counter mod 64) 0 true else w in
    if counter <? position w then (w, false)
    else if position w + REPLAY_WINDOW_SIZE <=? counter then
      let w := shift_window w (shift_for w counter) in
      let pos := counter - position w in
      (mkWindow (set_bit (w_bitmap w) ((offset w + pos / 64) mod WORDS) (pos mod 64))
         (position w) (offset w) (init w), true)
    else
      let pos := counter - position w in
      let word_index := (offset w + pos / 64) mod WORDS in
      let bit_index := pos mod 64 in
      if test_bit (w_bitmap w) word_index bit_index then (w, false)
      else (mkWindow (set_bit (w_bitmap w) word_index bit_index) (position w) (offset w) (init w), true).

(** ** The specification *)

Module Abs.
(** The ids accepted, and the first id not too old, once there is one. *)
Record window := mkAbs { accepted : gset Z; oldest : option Z }.

Definition empty : window := mkAbs ∅ None.

Definition verdict (s : window) (id : Z) : window * bool :=
  if id =? 0 then (s, false)
  else
    let first := default (64 * (id / 64)) (oldest s) in
    if id <? first then (mkAbs (accepted s) (Some first), false)
    else if bool_decide (id ∈ accepted s) then (s, false)
    else (mkAbs ({[id]} ∪ accepted s) (Some (Z.max first (64 * (id / 64 - 31)))), true).
End Abs.

(** ** The refinement *)

Definition word_of (w : Window) (c : Z) : Z := (offset w + (c - position w) / 64) mod WORDS.
Definition bit_of (w : Window) (c : Z) : Z := (c - position w) mod 64.

(** An initialised window whose bits are the accepted ids in its range. *)
Record live (acc : gset Z) (w : Window) : Prop := {
  li_init : init w = true;
  li_pos : 0 <= position w /\ position w mod 64 = 0;
  li_off : 0 <= offset w < WORDS;
  li_len : zlen (w_bitmap w) = WORDS;
  li_below : forall c, c ∈ acc -> 0 < c < position w + REPLAY_WINDOW_SIZE;
  li_bits : forall c, position w <= c < position w + REPLAY_WINDOW_SIZE ->
    test_bit (w_bitmap w) (word_of w c) (bit_of w c) = bool_decide (c ∈ acc) }.

Definition repr (s : Abs.window) (w : Window) : Prop :=
  match Abs.oldest s with
  | None => init w = false /\ Abs.accepted s = ∅
  | Some first => live (Abs.accepted s) w /\ position w = first
  end.

Lemma word_bit_ok w c : 0 <= word_of w c < WORDS /\ 0 <= bit_of w c < 64.
Proof. split; apply Z.mod_pos_bound; done. Qed.

Lemma zero_live c :
  0 < c -> live ∅ (mkWindow zero_bitmap (c - c mod 64) 0 true).
Proof.
  intros Hc. pose proof (Z.mod_pos_bound c 64 ltac:(lia)). pose proof (Z.mod_le c 64 ltac:(lia) ltac:(lia)).
  split; cbn [init position offset w_bitmap]; try done.
  - split; [lia|]. rewrite Zminus_mod_idemp_r. rewrite Z.sub_diag. done.
  - intros x _. unfold zero_bitmap. rewrite test_zeros by apply word_bit_ok. symmetry. apply bool_decide_eq_false, not_elem_of_empty.
Qed.

Lemma zlen_clear_words n o bm : zlen (clear_words n o bm) = zlen bm.
Proof. induction n; cbn [clear_words]; [done|]. by rewrite zlen_clear_word. Qed.

Lemma test_clear_words n o bm j b :
  zlen bm = WORDS -> 0 <= j < WORDS -> Z.of_nat n <= WORDS -> 0 <= b ->
  test_bit (clear_words n o bm) ((o + j) mod WORDS) b =
  (j <? WORDS - Z.of_nat n) && test_bit bm ((o + j) mod WORDS) b.
Proof.
  intros Hl Hj Hn Hb. induction n as [|n IH].
  { cbn [clear_words]. replace (j <? WORDS - Z.of_nat 0) with true by (symmetry; apply Z.ltb_lt; lia). done. }
  cbn [clear_words]. assert (WORDS = 32) as HW by done.
  pose proof (Z.mod_pos_bound (o + j) WORDS ltac:(lia)).
  pose proof (Z.mod_pos_bound (o + WORDS - 1 - Z.of_nat n) WORDS ltac:(lia)).
  rewrite test_clear_word, IH by (rewrite ?zlen_clear_words; lia).
  destruct (decide (j = WORDS - 1 - Z.of_nat n)) as [Ej|Ej].
  - replace (o + WORDS - 1 - Z.of_nat n) with (o + j) by lia. rewrite Z.eqb_refl. cbn.
    replace (j <? WORDS - Z.of_nat (S n)) with false by (symmetry; apply Z.ltb_ge; lia). done.
  - rewrite (proj2 (Z.eqb_neq _ _)) by (intros E; apply ring_inj in E; lia). cbn [negb andb].
    f_equal. destruct (j <? WORDS - Z.of_nat n) eqn:E1, (j <? WORDS - Z.of_nat (S n)) eqn:E2; bool2prop; (done || lia).
Qed.

(** Moving the window forward by whole words. *)
Lemma shift_live acc w k :
  live acc w -> 0 < k ->
  live acc (shift_window w (64 * k)).
Proof.
  intros [Hi [Hp Hp64] Ho Hl Hb Hbits] Hk. assert (WORDS = 32) as HW by done.
  unfold shift_window, REPLAY_WINDOW_SIZE in *.
  destruct (2048 <=? 64 * k) eqn:E; bool2prop.
  - split; cbn [init position offset w_bitmap]; try done.
    + split; [lia|]. rewrite Z.mul_comm, Z.mod_add by lia. done.
    + intros c Hc. apply Hb in Hc. unfold REPLAY_WINDOW_SIZE in *. lia.
    + intros c Hc. unfold zero_bitmap. rewrite test_zeros by apply word_bit_ok. symmetry. apply bool_decide_eq_false.
      intros Hin. apply Hb in Hin. lia.
  - rewrite (Z.mul_comm 64 k), Z.div_mul by lia.
    split; cbn [init position offset w_bitmap]; try done.
    + split; [lia|]. rewrite Z.mod_add by lia. done.
    + apply Z.mod_pos_bound. lia.
    + by rewrite zlen_clear_words.
    + intros c Hc. apply Hb in Hc. unfold REPLAY_WINDOW_SIZE in *. lia.
    + intros c Hc. unfold word_of, bit_of, REPLAY_WINDOW_SIZE in *. cbn [position offset] in *.
      set (j := (c - (position w + k * 64)) / 64).
      assert (0 <= j < WORDS) as Hj.
      { unfold j. rewrite HW. split; [apply Z.div_pos; lia|apply Z.div_lt_upper_bound; lia]. }
      pose proof (Z.mod_pos_bound (c - (position w + k * 64)) 64 ltac:(lia)).
      rewrite test_clear_words by (done || lia). rewrite Z2Nat.id by lia.
      assert (j = (c - position w) / 64 + - k) as Ej
        by (unfold j; rewrite <- Z.div_add by lia; f_equal; lia).
      replace ((c - (position w + k * 64)) mod 64) with ((c - position w) mod 64)
        by (rewrite <- (Z.mod_add (c - (position w + k * 64)) k) by lia; f_equal; lia).
      rewrite Ej in *. clear Ej j.
      destruct (decide (c < position w + 2048)).
      * rewrite Zplus_mod_idemp_l.
        replace (offset w + k + ((c - position w) / 64 + - k)) with (offset w + (c - position w) / 64) by lia.
        rewrite Hbits by lia.
        assert ((c - position w) / 64 < 32) by (apply Z.div_lt_upper_bound; lia).
        replace (_ <? _) with true by (symmetry; apply Z.ltb_lt; lia). done.
      * assert (32 <= (c - position w) / 64) by (apply Z.div_le_lower_bound; lia).
        replace (_ <? _) with false by (symmetry; apply Z.ltb_ge; lia). cbn [andb].
        symmetry. apply bool_decide_eq_false. intros Hin. apply Hb in Hin. lia.
Qed.

(** The ids of the window have bits of their own. *)
Lemma ring_place w c x :
  position w <= c < position w + REPLAY_WINDOW_SIZE -> position w <= x < position w + REPLAY_WINDOW_SIZE ->
  (word_of w x =? word_of w c) && (bit_of w x =? bit_of w c) = (x =? c).
Proof.
  unfold REPLAY_WINDOW_SIZE. intros Hc Hx. destruct (x =? c) eqn:E; bool2prop.
  { subst. by rewrite !Z.eqb_refl. }
  apply andb_false_iff. unfold word_of, bit_of.
  pose proof (Z.div_mod (c - position w) 64 ltac:(lia)). pose proof (Z.div_mod (x - position w) 64 ltac:(lia)).
  destruct (decide ((x - position w) / 64 = (c - position w) / 64)) as [E1|]; [right|left]; apply Z.eqb_neq; [lia|].
  assert (0 <= (c - position w) / 64 < 32) by (split; [apply Z.div_pos|apply Z.div_lt_upper_bound]; lia).
  assert (0 <= (x - position w) / 64 < 32) by (split; [apply Z.div_pos|apply Z.div_lt_upper_bound]; lia).
  intros E1. apply ring_inj in E1; [lia|done|]. change WORDS with 32. lia.
Qed.

Lemma record_live acc w c :
  live acc w -> 0 < c -> position w <= c < position w + REPLAY_WINDOW_SIZE ->
  live ({[c]} ∪ acc)
    (mkWindow (set_bit (w_bitmap w) (word_of w c) (bit_of w c)) (position w) (offset w) (init w)).
Proof.
  intros [Hi Hp Ho Hl Hb Hbits] Hc0 Hc. destruct (word_bit_ok w c).
  split; cbn [init position offset w_bitmap]; try done.
  - by rewrite zlen_set_bit.
  - intros x Hx. apply elem_of_union in Hx as [Hx|Hx]; [apply elem_of_singleton in Hx; lia|auto].
  - intros x Hx. change (word_of (mkWindow _ _ _ _) x) with (word_of w x).
    change (bit_of (mkWindow _ _ _ _) x) with (bit_of w x). destruct (word_bit_ok w x).
    rewrite test_set_bit, ring_place, Hbits by (done || lia).
    destruct (x =? c) eqn:Ex; bool2prop; cbn [orb].
    + subst. symmetry. apply bool_decide_eq_true. set_solver.
    + apply bool_decide_ext. set_solver.
Qed.

(** The move the source computes: to the last window of whole words that
    ends after [c]. *)
Lemma shift_for_spec w c :
  position w mod 64 = 0 -> position w + REPLAY_WINDOW_SIZE <= c ->
  exists k, 0 < k /\ shift_for w c = 64 * k /\ position w + 64 * k = 64 * (c / 64 - 31).
Proof.
  unfold shift_for, REPLAY_WINDOW_SIZE. intros Hp Hc.
  pose proof (Z.div_mod (position w) 64 ltac:(lia)). pose proof (Z.div_mod c 64 ltac:(lia)).
  pose proof (Z.mod_pos_bound c 64 ltac:(lia)).
  set (p := position w / 64) in *. exists (c / 64 - 31 - p).
  assert (p + 32 <= c / 64) by (apply Z.div_le_lower_bound; lia).
  replace (c - (position w + 2048) + 1) with (c mod 64 + 1 + (c / 64 - p - 32) * 64) by lia.
  rewrite Z.mod_add by lia. destruct (decide (c mod 64 = 63)) as [E|].
  - rewrite E. change ((63 + 1) mod 64) with 0. cbn [Z.eqb negb]. lia.
  - rewrite (Z.mod_small (c mod 64 + 1)) by lia.
    replace (c mod 64 + 1 =? 0) with false by (symmetry; apply Z.eqb_neq; lia). cbn [negb]. lia.
Qed.

Lemma live_check acc w id :
  live acc w -> 0 < id ->
  (check w id).2 = (Abs.verdict (Abs.mkAbs acc (Some (position w))) id).2 /\
  repr (Abs.verdict (Abs.mkAbs acc (Some (position w))) id).1 (check w id).1.
Proof.
  intros Hw Hid. unfold check, Abs.verdict. rewrite (li_init _ _ Hw).
  replace (id =? 0) with false by (symmetry; apply Z.eqb_neq; lia).
  cbn [negb Abs.oldest Abs.accepted default from_option Datatypes.id].
  destruct (id <? position w) eqn:E; bool2prop; [exact (conj eq_refl (conj Hw eq_refl))|].
  destruct (position w + REPLAY_WINDOW_SIZE <=? id) eqn:E2; bool2prop.
  - rewrite bool_decide_eq_false_2 by (intros Hin; apply (li_below _ _ Hw) in Hin; lia).
    destruct (shift_for_spec w id (proj2 (li_pos _ _ Hw)) E2) as (k & Hk & -> & Hp).
    pose proof (shift_live acc w k Hw Hk) as Hw'.
    assert (position (shift_window w (64 * k)) = 64 * (id / 64 - 31)) as Hp'.
    { rewrite <- Hp. unfold shift_window. by destruct (_ <=? _). }
    pose proof (Z.div_mod id 64 ltac:(lia)). pose proof (Z.mod_pos_bound id 64 ltac:(lia)).
    cbn [fst snd]. split; [done|]. unfold repr. cbn [Abs.oldest Abs.accepted]. split.
    + apply (record_live acc _ id Hw' Hid). rewrite Hp'. unfold REPLAY_WINDOW_SIZE. lia.
    + cbn [position]. rewrite Hp'. lia.
  - change ((offset w + _) mod WORDS) with (word_of w id). change ((id - position w) mod 64) with (bit_of w id).
    rewrite (li_bits _ _ Hw) by lia. destruct (bool_decide _) eqn:Eb; cbn [fst snd]; [exact (conj eq_refl (conj Hw eq_refl))|].
    split; [done|]. unfold repr. cbn [Abs.oldest Abs.accepted position]. split; [by apply record_live|].
    unfold REPLAY_WINDOW_SIZE in *. destruct (li_pos _ _ Hw).
    pose proof (Z.div_mod (position w) 64 ltac:(lia)).
    assert (id / 64 < position w / 64 + 32) by (apply Z.div_lt_upper_bound; lia). lia.
Qed.

Lemma window_check_refines s w id :
  repr s w -> 0 <= id ->
  (check w id).2 = (Abs.verdict s id).2 /\ repr (Abs.verdict s id).1 (check w id).1.
Proof.
  intros Hr Hid. destruct (decide (id = 0)) as [->|]; [done|]. unfold repr in Hr.
  destruct s as [acc [first|]]; cbn [Abs.oldest Abs.accepted] in Hr.
  - destruct Hr as [Hw <-]. apply live_check; [done|lia].
  - destruct Hr as [Hi ->].
    set (w0 := mkWindow zero_bitmap (id - id mod 64) 0 true).
    assert (live ∅ w0) as Hw by (apply zero_live; lia).
    replace (check w id) with (check w0 id) by (unfold check; rewrite Hi, (proj2 (Z.eqb_neq id 0)) by lia; done).
    assert (position w0 = 64 * (id / 64)) as Hp
      by (unfold w0; cbn [position]; pose proof (Z.div_mod id 64 ltac:(lia)); lia).
    replace (Abs.verdict (Abs.mkAbs ∅ None) id) with (Abs.verdict (Abs.mkAbs ∅ (Some (position w0))) id);
      [apply live_check; [done|lia]|].
    rewrite Hp. unfold Abs.verdict. rewrite (proj2 (Z.eqb_neq id 0)) by lia.
    cbn [Abs.oldest Abs.accepted default from_option Datatypes.id].
    by rewrite bool_decide_eq_false_2 by apply not_elem_of_empty.
Qed.

Fixpoint window_verdicts (w : Window) (ids : list Z) : list bool :=
  match ids with
  | [] => []
  | id :: ids => let '(w, v) := check w id in v :: window_verdicts w ids
  end.

Fixpoint abs_verdicts (s : Abs.window) (ids : list Z) : list bool :=
  match ids with
  | [] => []
  | id :: ids => let '(s, v) := Abs.verdict s id in v :: abs_verdicts s ids
  end.

(** C19: On every sequence of packet ids, from a new window, the ring of words
    with its moving offset accepts exactly the ids that the window
    remembering every accepted id accepts: ids that are not 0, not accepted
    before, and not older than the first word of the 2048-id window that
    ends with the word of the highest id (or, until the window has moved,
    than the word of the first id seen). *)
Theorem window_refines (ids : list Z) :
  Forall (fun id => 0 <= id) ids ->
  window_verdicts Window_new ids = abs_verdicts Abs.empty ids.
Proof.
  assert (repr Abs.empty Window_new) as Hr by done. revert Hr.
  generalize Abs.empty Window_new. induction ids as [|id ids IH]; intros s w Hr Hids; [done|].
  apply Forall_cons_iff in Hids as [Hid Hids]. cbn [window_verdicts abs_verdicts].
  destruct (window_check_refines s w id Hr Hid) as [Hv Hr'].
  destruct (check w id) as [w' v], (Abs.verdict s id) as [s' v']. cbn [fst snd] in *.
  rewrite Hv. f_equal. auto.
Qed.

Lemma window_refines_witness :
  window_verdicts Window_new [100; 64; 63; 3000; 100; 1000; 0; 9000; 3000; 7050]
  = [true; true; false; true; false; true; false; true; false; true] /\
  window_verdicts Window_new [100; 64; 63; 3000; 100; 1000; 0; 9000; 3000; 7050]
  = abs_verdicts Abs.empty [100; 64; 63; 3000; 100; 1000; 0; 9000; 3000; 7050].
Proof. split; [vm_compute; reflexivity|]. apply window_refines. repeat constructor; lia. Defined.
