(* ===== verification/SeqSpace.v ===== *)
(** * TCP sequence numbers ([src/src/vtcp/seqspace.rs])

    The comparisons of 32-bit sequence numbers, and what they say of the
    stream offsets the numbers stand for. *)

From S2P Require Import Prelude.

(** [u32::wrapping_sub] and [u32::wrapping_add]. *)
Definition wrapping_sub (a b : Z) : Z := u32 (a - b).
Definition wrapping_add (a b : Z) : Z := u32 (a + b).

Definition seq_before (a b : Z) : bool := i32 (wrapping_sub a b) <? 0.
Definition seq_after (a b : Z) : bool := i32 (wrapping_sub a b) >? 0.
Definition seq_before_eq (a b : Z) : bool := i32 (wrapping_sub a b) <=? 0.
Definition seq_after_eq (a b : Z) : bool := i32 (wrapping_sub a b) >=? 0.
Definition seq_in_range (seq lo hi : Z) : bool := seq_after_eq seq lo && seq_before seq hi.
Definition seq_in_range_inclusive (seq lo hi : Z) : bool := seq_after_eq seq lo && seq_before_eq seq hi.

(** The sequence number of offset [x] of a stream that starts at [isn]. *)
Definition at_off (isn x : Z) : Z := u32 (isn + x).

Section Offsets.
Context (isn : Z).

Lemma wrapping_sub_at x y : wrapping_sub (at_off isn x) (at_off isn y) = u32 (x - y).
Proof. unfold wrapping_sub, at_off. rewrite u32_sub_l, u32_sub_r. f_equal. lia. Qed.

Lemma wrapping_sub_at_le x y : 0 <= x - y < 2 ^ 32 -> wrapping_sub (at_off isn x) (at_off isn y) = x - y.
Proof. intros H. rewrite wrapping_sub_at. by apply u32_small. Qed.

Lemma wrapping_add_at x n : wrapping_add (at_off isn x) n = at_off isn (x + n).
Proof. unfold wrapping_add, at_off. rewrite u32_add_l. f_equal. lia. Qed.

Lemma wrapping_add_at_u32 x n : wrapping_add (at_off isn x) (u32 n) = at_off isn (x + n).
Proof. unfold wrapping_add, at_off. rewrite u32_add_l, u32_add_r. f_equal. lia. Qed.

Lemma signed_at x y :
  - 2 ^ 31 <= x - y < 2 ^ 31 -> i32 (wrapping_sub (at_off isn x) (at_off isn y)) = x - y.
Proof. intros H. rewrite wrapping_sub_at. by apply i32_u32. Qed.

Lemma seq_before_at x y :
  - 2 ^ 31 <= x - y < 2 ^ 31 -> seq_before (at_off isn x) (at_off isn y) = (x <? y).
Proof. intros H. unfold seq_before. rewrite signed_at by done. lia. Qed.

Lemma seq_after_at x y :
  - 2 ^ 31 <= x - y < 2 ^ 31 -> seq_after (at_off isn x) (at_off isn y) = (y <? x).
Proof. intros H. unfold seq_after. rewrite signed_at by done. lia. Qed.

Lemma seq_before_eq_at x y :
  - 2 ^ 31 <= x - y < 2 ^ 31 -> seq_before_eq (at_off isn x) (at_off isn y) = (x <=? y).
Proof. intros H. unfold seq_before_eq. rewrite signed_at by done. lia. Qed.

Lemma seq_after_eq_at x y :
  - 2 ^ 31 <= x - y < 2 ^ 31 -> seq_after_eq (at_off isn x) (at_off isn y) = (y <=? x).
Proof. intros H. unfold seq_after_eq. rewrite signed_at by done. lia. Qed.

Lemma at_off_inj x y : - 2 ^ 32 < x - y < 2 ^ 32 -> at_off isn x = at_off isn y -> x = y.
Proof.
  unfold at_off, u32. intros H E.
  assert ((x - y) mod 2 ^ 32 = 0) as E0.
  { replace (x - y) with ((isn + x) - (isn + y)) by lia. rewrite Zminus_mod, E, Z.sub_diag. done. }
  apply Z.mod_divide in E0 as [k Hk]; [|lia]. assert (k = 0) by nia. lia.
Qed.

(** Every number is that of the offset at its signed distance from [x]. *)
Lemma at_off_signed x n :
  0 <= n < 2 ^ 32 -> at_off isn (x + i32 (wrapping_sub n (at_off isn x))) = n.
Proof.
  intros Hn. unfold at_off at 1. replace (isn + (x + i32 (wrapping_sub n (at_off isn x))))
    with ((isn + x) + i32 (wrapping_sub n (at_off isn x))) by lia.
  rewrite <- u32_add_r. rewrite u32_i32 by apply u32_bound.
  unfold wrapping_sub, at_off. rewrite u32_sub_r, u32_add_r.
  replace (isn + x + (n - (isn + x))) with n by lia. by apply u32_small.
Qed.

End Offsets.

(** Comparison in sequence space is comparison of the stream offsets the
    numbers stand for, wherever the stream starts and however often it has
    wrapped, for offsets less than 2^31 apart; in particular an interval test
    is an interval test on offsets. *)
Theorem seq_order_is_stream_order (isn x lo hi : Z) :
  - 2 ^ 31 <= x - lo < 2 ^ 31 -> - 2 ^ 31 <= x - hi < 2 ^ 31 ->
  seq_before (at_off isn x) (at_off isn hi) = (x <? hi) /\
  seq_after (at_off isn x) (at_off isn lo) = (lo <? x) /\
  seq_in_range (at_off isn x) (at_off isn lo) (at_off isn hi) = (lo <=? x) && (x <? hi) /\
  seq_in_range_inclusive (at_off isn x) (at_off isn lo) (at_off isn hi) = (lo <=? x) && (x <=? hi).
Proof.
  intros Hlo Hhi. unfold seq_in_range, seq_in_range_inclusive.
  by rewrite seq_before_at, seq_after_at, seq_after_eq_at, seq_before_eq_at.
Qed.

Lemma seq_order_is_stream_order_witness :
  at_off (2 ^ 32 - 2) 3 = 1 /\
  seq_before (at_off (2 ^ 32 - 2) 1) (at_off (2 ^ 32 - 2) 4) = (1 <? 4).
Proof.
  split; [vm_compute; reflexivity|].
  apply (seq_order_is_stream_order (2 ^ 32 - 2) 1 0 4); lia.
Defined.
