(* ===== verification/SendBuf.v ===== *)
(** * TCP send buffer ([src/src/vtcp/sendbuf.rs])

    The buffer with its lazily dropped prefix and its 32-bit SND.UNA and
    SND.NXT, against the stream of bytes the application wrote. *)

From S2P Require Import Prelude SeqSpace.

Definition KEEP_IDLE_CAPACITY : Z := 64 * 1024.

Record SendBuf := mkSendBuf {
  sb_buf : list Z; sb_head : Z; sb_cap : Z; sb_una : Z; sb_nxt : Z }.

Definition SendBuf_new (capacity initial_seq : Z) : SendBuf :=
  mkSendBuf [] 0 capacity initial_seq initial_seq.

Definition data (s : SendBuf) : list Z := zdrop (sb_head s) (sb_buf s).

Definition available (s : SendBuf) : Z := sat_sub (sb_cap s) (zlen (data s)).

Definition write (s : SendBuf) (p : list Z) : SendBuf * Z :=
  let avail := available s in
  if avail =? 0 then (s, 0)
  else
    let n := Z.min (zlen p) avail in
    (mkSendBuf (sb_buf s ++ ztake n p) (sb_head s) (sb_cap s) (sb_una s) (sb_nxt s), n).

Definition unacked (s : SendBuf) : Z := wrapping_sub (sb_nxt s) (sb_una s).

Definition pending (s : SendBuf) : Z := sat_sub (zlen (data s)) (unacked s).

Definition peek_unsent (s : SendBuf) (n : Z) : list Z :=
  let offset := wrapping_sub (sb_nxt s) (sb_una s) in
  let d := data s in
  let unsent := zdrop (Z.min offset (zlen d)) d in
  if zlen unsent >? n then ztake n unsent else unsent.

Definition advance_sent (s : SendBuf) (n : Z) : SendBuf :=
  mkSendBuf (sb_buf s) (sb_head s) (sb_cap s) (sb_una s) (wrapping_add (sb_nxt s) (u32 n)).

Definition rewind_to (s : SendBuf) (seq : Z) : SendBuf :=
  mkSendBuf (sb_buf s) (sb_head s) (sb_cap s) (sb_una s) seq.

(** [allocated] is [self.buf.capacity()], which is the allocator's choice. *)
Definition acknowledge (allocated : Z) (s : SendBuf) (ack : Z) : SendBuf * Z :=
  if negb (seq_after ack (sb_una s)) then (s, 0)
  else
    let ack := if seq_after ack (sb_nxt s) then sb_nxt s else ack in
    let n := wrapping_sub ack (sb_una s) in
    let n := if n >? zlen (data s) then u32 (zlen (data s)) else n in
    let head := sb_head s + n in
    let live := zlen (sb_buf s) - head in
    let '(buf, head) :=
      if (live =? 0) && (allocated >? KEEP_IDLE_CAPACITY) then ([], 0)
      else if (head >=? live) || (head >=? sb_cap s / 4) then (zdrop head (sb_buf s), 0)
      else (sb_buf s, head) in
    (mkSendBuf buf head (sb_cap s) ack (sb_nxt s), n).

Definition data_at (s : SendBuf) (seq n : Z) : list Z :=
  let d := data s in
  let off := Z.min (wrapping_sub seq (sb_una s)) (zlen d) in
  let sent := Z.min (wrapping_sub (sb_nxt s) (sb_una s)) (zlen d) in
  slice d off (Z.min (Z.max sent off) (off + n)).

Definition release_memory (s : SendBuf) : SendBuf :=
  mkSendBuf [] 0 (sb_cap s) (sb_una s) (sb_nxt s).

Definition set_capacity (s : SendBuf) (cap : Z) : SendBuf :=
  mkSendBuf (sb_buf s) (sb_head s) cap (sb_una s) (sb_nxt s).

(** ** What a connection does with it

    [flush_send_queue] peeks and advances by what it peeked; the FIN takes
    one sequence number after the last byte. *)

Inductive op :=
  | Write (p : list Z)
  | Transmit (n : Z)
  | Fin
  | Ack (ack allocated : Z)
  | Retransmit (off n : Z)
  | Rewind (off : Z)
  | SetCapacity (cap : Z).

Inductive out :=
  | Accepted (n : Z)
  | Wire (seq : Z) (bytes : list Z)
  | Freed (n : Z)
  | Silent.

Definition sb_step (isn : Z) (s : SendBuf) (o : op) : SendBuf * out :=
  match o with
  | Write p => let '(s, n) := write s p in (s, Accepted n)
  | Transmit n => let bytes := peek_unsent s n in (advance_sent s (zlen bytes), Wire (sb_nxt s) bytes)
  | Fin => (advance_sent s 1, Wire (sb_nxt s) [])
  | Ack ack allocated => let '(s, n) := acknowledge allocated s ack in (s, Freed n)
  | Retransmit off n => (s, Wire (at_off isn off) (data_at s (at_off isn off) n))
  | Rewind off => (rewind_to s (at_off isn off), Silent)
  | SetCapacity cap => (set_capacity s cap, Silent)
  end.

(** ** The specification: a stream and two offsets into it *)

Module Stream.
Record stream := mkStream {
  written : list Z; (* all that was accepted, first to last *)
  acked : Z; (* offset of the first unacknowledged byte *)
  sent : Z; (* offset of the next to send; one past the end after the FIN *)
  fin : bool; (* the FIN was sent: nothing more is written *)
  cap : Z }.

Definition empty (cap : Z) : stream := mkStream [] 0 0 false cap.

(** Bytes held: written and not acknowledged. *)
Definition held (t : stream) : Z := zlen (written t) - Z.min (acked t) (zlen (written t)).

Definition end_off (t : stream) : Z := zlen (written t) + (if fin t then 1 else 0).

(** The operations a connection performs in a state. *)
Definition allowed (t : stream) (o : op) : bool :=
  match o with
  | Write p => negb (fin t)
  | Transmit n => 0 <=? n
  | Fin => negb (fin t) && (sent t =? zlen (written t))
  | Ack ack _ => (0 <=? ack) && (ack <? 2 ^ 32)
  | Retransmit off n => (acked t <=? off) && (off <=? sent t) && (0 <=? n)
  | Rewind off => (acked t <=? off) && (off <=? sent t) && negb (fin t)
  | SetCapacity c => (0 <=? c) && (c <? 2 ^ 31 - 1)
  end.

Definition step (isn : Z) (t : stream) (o : op) : stream * out :=
  match o with
  | Write p =>
      let n := Z.min (zlen p) (Z.max 0 (cap t - held t)) in
      (mkStream (written t ++ ztake n p) (acked t) (sent t) (fin t) (cap t), Accepted n)
  | Transmit n =>
      let bytes := slice (written t) (sent t) (sent t + n) in
      (mkStream (written t) (acked t) (sent t + zlen bytes) (fin t) (cap t), Wire (at_off isn (sent t)) bytes)
  | Fin => (mkStream (written t) (acked t) (sent t + 1) true (cap t), Wire (at_off isn (sent t)) [])
  | Ack ack _ =>
      (* the offset the number stands for, held between SND.UNA and SND.NXT *)
      let off := acked t + i32 (wrapping_sub ack (at_off isn (acked t))) in
      let acked' := Z.max (acked t) (Z.min off (sent t)) in
      (mkStream (written t) acked' (sent t) (fin t) (cap t),
       Freed (Z.min acked' (zlen (written t)) - Z.min (acked t) (zlen (written t))))
  | Retransmit off n => (t, Wire (at_off isn off) (slice (written t) off (Z.min (off + n) (sent t))))
  | Rewind off => (mkStream (written t) (acked t) off (fin t) (cap t), Silent)
  | SetCapacity c => (mkStream (written t) (acked t) (sent t) (fin t) c, Silent)
  end.
End Stream.

Import Stream.

(** ** The refinement *)

Record repr (isn : Z) (t : stream) (s : SendBuf) : Prop := {
  rs_data : data s = zdrop (acked t) (written t);
  rs_head : 0 <= sb_head s <= zlen (sb_buf s);
  rs_una : sb_una s = at_off isn (acked t);
  rs_nxt : sb_nxt s = at_off isn (sent t);
  rs_cap : sb_cap s = cap t /\ 0 <= cap t < 2 ^ 31 - 1;
  rs_order : 0 <= acked t <= sent t /\ sent t <= end_off t;
  rs_held : zlen (written t) - acked t < 2 ^ 31 - 1 }.

Lemma repr_empty isn cap : 0 <= isn < 2 ^ 32 -> 0 <= cap < 2 ^ 31 - 1 ->
  repr isn (empty cap) (SendBuf_new cap isn).
Proof.
  intros Hi Hc. assert (at_off isn 0 = isn) by (unfold at_off; rewrite Z.add_0_r; by apply u32_small).
  split; cbn; rewrite ?zlen_nil; unfold end_off; cbn; rewrite ?zlen_nil; try lia; done.
Qed.

Section Facts.
Context {isn : Z} {t : stream} {s : SendBuf} (R : repr isn t s).

Lemma data_len : zlen (data s) = zlen (written t) - Z.min (acked t) (zlen (written t)).
Proof. pose proof (rs_order _ _ _ R). rewrite (rs_data _ _ _ R). zl. Qed.

(** What is in flight never spans half the sequence space. *)
Lemma flight_bound : 0 <= sent t - acked t < 2 ^ 31.
Proof.
  pose proof (rs_order _ _ _ R). pose proof (rs_held _ _ _ R).
  unfold end_off in *. destruct (fin t); lia.
Qed.

Lemma unacked_off off : acked t <= off <= sent t ->
  wrapping_sub (at_off isn off) (sb_una s) = off - acked t.
Proof.
  intros H. pose proof flight_bound. rewrite (rs_una _ _ _ R). apply wrapping_sub_at_le. lia.
Qed.

Lemma slice_written off b : acked t <= off -> slice (data s) (off - acked t) b = slice (written t) off (acked t + b).
Proof.
  intros H. pose proof (rs_order _ _ _ R). rewrite (rs_data _ _ _ R). unfold slice.
  rewrite zdrop_zdrop by lia. f_equal; [lia|f_equal; lia].
Qed.
End Facts.

Lemma step_write isn t s p :
  repr isn t s -> fin t = false ->
  (sb_step isn s (Write p)).2 = (step isn t (Write p)).2 /\
  repr isn (step isn t (Write p)).1 (sb_step isn s (Write p)).1.
Proof.
  intros R Hf. pose proof (data_len R) as Hl. pose proof R as [Hd Hh Hu Hn [Hc Hc'] [Ho He] Hb].
  unfold end_off in He. rewrite Hf in He. pose proof (zlen_nonneg p).
  unfold sb_step, step, write, available, sat_sub, held. rewrite Hc, Hl.
  assert (acked t <= zlen (written t)) by lia. rewrite !Z.min_l by lia.
  destruct (_ =? 0) eqn:E; bool2prop; cbn [fst snd].
  - rewrite E, Z.min_r by lia. rewrite ztake_nonpos, app_nil_r by lia. split; [done|by destruct t].
  - split; [done|]. set (n := Z.min (zlen p) _).
    split; cbn [sb_buf sb_head sb_cap sb_una sb_nxt written acked sent fin cap]; try done.
    + unfold data in *. cbn [sb_buf sb_head]. rewrite !zdrop_app_le by lia. by rewrite Hd.
    + zl.
    + unfold end_off. cbn [written fin]. rewrite Hf. zl.
    + zl.
Qed.

Lemma peek_unsent_stream isn t s n :
  repr isn t s -> 0 <= n -> peek_unsent s n = slice (written t) (sent t) (sent t + n).
Proof.
  intros R Hn. pose proof (data_len R) as Hl. destruct (rs_order _ _ _ R) as [Ho He].
  unfold peek_unsent. rewrite (rs_nxt _ _ _ R), (unacked_off R) by lia.
  rewrite (rs_data _ _ _ R). set (u := zdrop (Z.min _ _) _).
  assert (u = zdrop (sent t) (written t)) as ->.
  { unfold u. rewrite <- (rs_data _ _ _ R), Hl. rewrite (rs_data _ _ _ R).
    destruct (decide (sent t <= zlen (written t))).
    - rewrite zdrop_zdrop by lia. f_equal. lia.
    - rewrite !zdrop_all; [done|lia|zl]. }
  unfold slice. replace (sent t + n - sent t) with n by lia.
  rewrite Z.gtb_ltb. destruct (_ <? _) eqn:E; bool2prop; [done|]. by rewrite ztake_all.
Qed.

Lemma sent_repr isn t s k (f : bool) :
  repr isn t s -> 0 <= k -> sent t + k <= zlen (written t) + (if f then 1 else 0) ->
  repr isn (mkStream (written t) (acked t) (sent t + k) f (cap t)) (advance_sent s k).
Proof.
  intros [Hd Hh Hu Hn Hc [Ho He] Hb] Hk Hs. split; cbn; try done; [|unfold end_off; cbn; lia].
  unfold u32. rewrite Hn. apply wrapping_add_at_u32.
Qed.

Lemma step_ack isn t s ack alloc :
  repr isn t s -> 0 <= ack < 2 ^ 32 ->
  (sb_step isn s (Ack ack alloc)).2 = (step isn t (Ack ack alloc)).2 /\
  repr isn (step isn t (Ack ack alloc)).1 (sb_step isn s (Ack ack alloc)).1.
Proof.
  intros R Ha. pose proof (data_len R) as Hl. pose proof (flight_bound R) as Hfl.
  pose proof R as [Hd Hh Hu Hn [Hc Hc'] [Ho He] Hb].
  unfold sb_step, step, acknowledge. set (d := i32 (wrapping_sub ack (at_off isn (acked t)))).
  assert (- 2 ^ 31 <= d < 2 ^ 31) by apply i32_bound, u32_bound.
  replace ack with (at_off isn (acked t + d)) by (by apply at_off_signed).
  rewrite Hu, Hn, (seq_after_at isn (acked t + d) (acked t)) by lia.
  destruct (acked t <? acked t + d) eqn:E; bool2prop; cbn [negb fst snd].
  2:{ rewrite Z.max_l by lia. split; [f_equal; lia|by destruct t]. }
  rewrite (seq_after_at isn (acked t + d) (sent t)) by lia.
  set (a' := Z.max (acked t) (Z.min (acked t + d) (sent t))).
  replace (if sent t <? acked t + d then at_off isn (sent t) else at_off isn (acked t + d)) with (at_off isn a')
    by (destruct (_ <? _) eqn:E2; bool2prop; f_equal; lia).
  rewrite wrapping_sub_at_le by lia. rewrite Hl.
  match goal with |- context [if ?a >? ?l then ?x else ?y] => set (n := if a >? l then x else y) end.
  assert (n = Z.min a' (zlen (written t)) - Z.min (acked t) (zlen (written t))) as En.
  { unfold n. pose proof (zlen_nonneg (written t)). rewrite Z.gtb_ltb.
    destruct (_ <? _) eqn:E2; bool2prop; [rewrite u32_small by lia; lia|].
    unfold end_off in He. destruct (fin t); lia. }
  assert (0 <= n <= zlen (data s)) by (rewrite Hl; pose proof (zlen_nonneg (written t)); lia).
  clearbody n. clear Hl.
  assert (zdrop n (data s) = zdrop a' (written t)) as Hd'.
  { rewrite Hd. destruct (decide (acked t <= zlen (written t))).
    - rewrite zdrop_zdrop by lia. destruct (decide (a' <= zlen (written t))); [f_equal; lia|].
      rewrite !zdrop_all by lia. done.
    - rewrite !zdrop_all; [done|lia|zl]. }
  assert (forall bh, (bh = (sb_buf s, sb_head s + n) \/ bh = (zdrop (sb_head s + n) (sb_buf s), 0)) ->
    repr isn (mkStream (written t) a' (sent t) (fin t) (cap t))
      (mkSendBuf bh.1 bh.2 (sb_cap s) (at_off isn a') (at_off isn (sent t)))) as K.
  { unfold data in *. rewrite zlen_zdrop, Z.max_r in * by lia. rewrite zdrop_zdrop in Hd' by lia.
    intros bh [-> | ->]; split; cbn [sb_buf sb_head sb_cap sb_una sb_nxt written acked sent fin cap fst snd];
      try done; unfold data; cbn [sb_buf sb_head]; rewrite ?(zdrop_nonpos 0) by lia; try done;
      try (unfold end_off in *; cbn [fin written]); zl. }
  split.
  { case_if; [cbn [snd]; by rewrite En|]. case_if; cbn [snd]; by rewrite En. }
  assert (sb_head s + n <= zlen (sb_buf s)) by (unfold data in *; rewrite zlen_zdrop in *; lia).
  destruct (_ && _) eqn:E2; bool2prop.
  { apply (K ([], 0)). right. by rewrite zdrop_all by lia. }
  destruct (_ || _); [apply (K (zdrop (sb_head s + n) (sb_buf s), 0)); by right|].
  apply (K (sb_buf s, sb_head s + n)). by left.
Qed.

Lemma data_at_stream isn t s off n :
  repr isn t s -> acked t <= off <= sent t -> 0 <= n ->
  data_at s (at_off isn off) n = slice (written t) off (Z.min (off + n) (sent t)).
Proof.
  intros R Hoff Hn. pose proof (data_len R) as Hl. pose proof (zlen_nonneg (data s)).
  destruct (rs_order _ _ _ R) as [Ho He].
  unfold data_at. rewrite (rs_nxt _ _ _ R), !(unacked_off R) by lia.
  destruct (decide (off - acked t < zlen (data s))).
  - rewrite Z.min_l by lia. rewrite slice_written by (done || lia).
    rewrite Z.max_l by lia. rewrite Hl in *.
    rewrite (slice_clip (written t) off (Z.min (off + n) (sent t))). f_equal. lia.
  - rewrite (slice_clip (written t)), !slice_nil by lia. done.
Qed.

Lemma sb_step_refines isn t s o :
  repr isn t s -> allowed t o = true ->
  (sb_step isn s o).2 = (step isn t o).2 /\ repr isn (step isn t o).1 (sb_step isn s o).1.
Proof.
  intros R Ha. pose proof (rs_order _ _ _ R) as [Ho He]. destruct o; cbn [allowed] in Ha; bool2prop.
  - by apply step_write.
  - cbn [sb_step step fst snd]. rewrite (peek_unsent_stream _ _ _ _ R) by done. rewrite (rs_nxt _ _ _ R).
    split; [done|]. apply sent_repr; [done|apply zlen_nonneg|]. unfold end_off in He. rewrite zlen_slice. destruct (fin t); lia.
  - cbn [sb_step step fst snd]. rewrite (rs_nxt _ _ _ R). split; [done|]. apply sent_repr; [done|lia|lia].
  - by apply step_ack.
  - cbn [sb_step step fst snd]. by rewrite (data_at_stream _ _ _ _ _ R) by lia.
  - cbn [sb_step step fst snd]. split; [done|]. destruct R. split; cbn; try done. unfold end_off in *. cbn. lia.
  - cbn [sb_step step fst snd]. split; [done|]. destruct R. split; cbn; try done; lia.
Qed.

Fixpoint sb_run (isn : Z) (s : SendBuf) (os : list op) : list out :=
  match os with
  | [] => []
  | o :: os => let '(s, r) := sb_step isn s o in r :: sb_run isn s os
  end.

Fixpoint stream_run (isn : Z) (t : stream) (os : list op) : list out :=
  match os with
  | [] => []
  | o :: os => let '(t, r) := step isn t o in r :: stream_run isn t os
  end.

Fixpoint all_allowed (isn : Z) (t : stream) (os : list op) : bool :=
  match os with
  | [] => true
  | o :: os => allowed t o && all_allowed isn (step isn t o).1 os
  end.

(** C4: Whatever a connection writes, sends, has acknowledged (by any 32-bit
    number, stale or bogus), retransmits, rewinds and resizes, in any order,
    the send buffer answers exactly as the stream of accepted bytes with two
    offsets: every transmission and retransmission at a sequence number
    carries the bytes written at the offset it stands for, across any number
    of wraps of the sequence space; writes take what the capacity leaves;
    and acknowledgements free what they newly cover, never past SND.NXT. *)
Theorem sendbuf_refines_stream (isn cap : Z) (os : list op) :
  0 <= isn < 2 ^ 32 -> 0 <= cap < 2 ^ 31 - 1 -> all_allowed isn (empty cap) os = true ->
  sb_run isn (SendBuf_new cap isn) os = stream_run isn (empty cap) os.
Proof.
  intros Hi Hc. pose proof (repr_empty isn cap Hi Hc) as R. revert R.
  generalize (empty cap) (SendBuf_new cap isn). induction os as [|o os IH]; intros t s R Ha; [done|].
  cbn [all_allowed] in Ha. apply andb_true_iff in Ha as [Ha Has].
  destruct (sb_step_refines isn t s o R Ha) as [Hout R'].
  cbn [sb_run stream_run]. destruct (sb_step isn s o), (step isn t o). cbn [fst snd] in *.
  rewrite Hout. f_equal. by apply IH.
Qed.

(** The sequence space wraps inside the data. *)
Lemma sendbuf_refines_stream_witness :
  let os := [Write [1; 2; 3; 4; 5; 6]; Transmit 4; Ack 0 100; Retransmit 3 9; Ack 77 0; Transmit 9; Fin;
             Retransmit 4 1; Ack 4 70000] in
  sb_run (2 ^ 32 - 3) (SendBuf_new 5 (2 ^ 32 - 3)) os
  = [Accepted 5; Wire (2 ^ 32 - 3) [1; 2; 3; 4]; Freed 3; Wire 0 [4]; Freed 1; Wire 1 [5]; Wire 2 [];
     Wire 1 [5]; Freed 1] /\
  sb_run (2 ^ 32 - 3) (SendBuf_new 5 (2 ^ 32 - 3)) os = stream_run (2 ^ 32 - 3) (empty 5) os.
Proof.
  cbv zeta. split; [vm_compute; reflexivity|].
  apply sendbuf_refines_stream; [lia|lia|vm_compute; reflexivity].
Defined.

(** The SYN of a plain connect is counted in SND.NXT only: once it is
    acknowledged the buffer is a new one, whose first byte is the one after
    the SYN. *)
Lemma syn_acknowledged iss cap allocated :
  0 <= iss < 2 ^ 32 ->
  acknowledge allocated (advance_sent (SendBuf_new cap iss) 1) (wrapping_add iss 1)
  = (SendBuf_new cap (wrapping_add iss 1), 0).
Proof.
  intros Hi. assert (at_off iss 0 = iss) as E by (unfold at_off; rewrite Z.add_0_r; by apply u32_small).
  enough (forall a, a = at_off iss 0 -> acknowledge allocated (advance_sent (SendBuf_new cap a) 1) (wrapping_add a 1)
    = (SendBuf_new cap (wrapping_add a 1), 0)) as K by (by apply K).
  intros a ->. unfold acknowledge, SendBuf_new, advance_sent. cbn [sb_una sb_nxt sb_buf sb_head sb_cap].
  change (u32 1) with 1. rewrite wrapping_add_at, (seq_after_at iss (0 + 1) 0), (seq_after_at iss (0 + 1) (0 + 1)) by lia.
  change (0 <? 0 + 1) with true. change (0 + 1 <? 0 + 1) with false. cbv iota. rewrite wrapping_sub_at_le by lia.
  change (data _) with (@nil Z). rewrite !(@zlen_nil Z). change (0 + 1 - 0 >? 0) with true. change (u32 0) with 0.
  cbv iota. destruct (allocated >? _); done.
Qed.
