(* ===== verification/RecvBuf.v ===== *)
(** * TCP receive buffer ([src/src/vtcp/recvbuf.rs])

    Reassembly of the stream from segments in any order, the memory the
    out-of-order ranges take, and the SACK blocks that report them.  [None]
    is a panic: a slice or [remove] out of range, or an unsigned underflow. *)

From stdpp Require Import sorting.
From S2P Require Import Prelude SeqSpace.

Definition RANGE_OVERHEAD : Z := 128.
Definition MAX_SACK_BLOCKS : Z := 4.

Record SackBlock := mkSack { sk_left : Z; sk_right : Z }.

#[global] Instance SackBlock_eq_dec : EqDecision SackBlock.
Proof. solve_decision. Defined.

Record OooEntry := mkEntry { e_seq : Z; e_data : list Z }.

#[global] Instance OooEntry_eq_dec : EqDecision OooEntry.
Proof. solve_decision. Defined.

Definition e_end (e : OooEntry) : Z := wrapping_add (e_seq e) (u32 (zlen (e_data e))).
Definition cost (e : OooEntry) : Z := zlen (e_data e) + RANGE_OVERHEAD.

(** [BTreeMap<u64, OooEntry>]: the entries in the order of their keys. *)
Abbreviation btree := (list (Z * OooEntry)).

Fixpoint bt_get (k : Z) (m : btree) : option OooEntry :=
  match m with
  | [] => None
  | (k', e) :: m => if k' =? k then Some e else bt_get k m
  end.

Definition bt_remove (k : Z) (m : btree) : btree := filter (fun x => fst x <> k) m.

Fixpoint bt_insert (k : Z) (e : OooEntry) (m : btree) : btree :=
  match m with
  | [] => [(k, e)]
  | (k', e') :: m' =>
      if k <? k' then (k, e) :: m
      else if k =? k' then (k, e) :: m'
      else (k', e') :: bt_insert k e m'
  end.

(** [m.range(..=k).next_back()] and [m.range(lo..=hi)]. *)
Definition bt_last_le (k : Z) (m : btree) : option (Z * OooEntry) := list.last (filter (fun x => fst x <= k) m).
Definition bt_range (lo hi : Z) (m : btree) : btree := filter (fun x => lo <= fst x <= hi) m.

Record RecvBuf := mkRecvBuf {
  rb_buf : list Z;
  rb_nxt : Z;
  nxt_off : Z;
  ooo : btree;
  ooo_mem : Z;
  recent : list Z;
  window_size : Z;
  adv_edge : option Z;
  dup : option SackBlock }.

Definition RecvBuf_new (initial_nxt window_size : Z) : RecvBuf :=
  mkRecvBuf [] initial_nxt 0 [] 0 [] window_size None None.

Definition with_stream (r : RecvBuf) (b : list Z) (n off : Z) : RecvBuf :=
  mkRecvBuf b n off (ooo r) (ooo_mem r) (recent r) (window_size r) (adv_edge r) (dup r).
Definition with_ooo (r : RecvBuf) (m : btree) (mem : Z) : RecvBuf :=
  mkRecvBuf (rb_buf r) (rb_nxt r) (nxt_off r) m mem (recent r) (window_size r) (adv_edge r) (dup r).
Definition with_recent (r : RecvBuf) (l : list Z) : RecvBuf :=
  mkRecvBuf (rb_buf r) (rb_nxt r) (nxt_off r) (ooo r) (ooo_mem r) l (window_size r) (adv_edge r) (dup r).
Definition with_dup (r : RecvBuf) (d : option SackBlock) : RecvBuf :=
  mkRecvBuf (rb_buf r) (rb_nxt r) (nxt_off r) (ooo r) (ooo_mem r) (recent r) (window_size r) (adv_edge r) d.

Definition set_limit (r : RecvBuf) (limit : Z) : RecvBuf :=
  mkRecvBuf (rb_buf r) (rb_nxt r) (nxt_off r) (ooo r) (ooo_mem r) (recent r) limit (adv_edge r) (dup r).

Definition set_adv_edge (r : RecvBuf) (edge : Z) : RecvBuf :=
  if match adv_edge r with None => true | Some e => seq_after edge e end then
    mkRecvBuf (rb_buf r) (rb_nxt r) (nxt_off r) (ooo r) (ooo_mem r) (recent r) (window_size r)
      (Some edge) (dup r)
  else r.

Definition window (r : RecvBuf) : Z :=
  if window_size r =? 0 then 65535 else u32 (sat_sub (window_size r) (zlen (rb_buf r))).

Definition ooo_budget (r : RecvBuf) : Z :=
  let w := Z.max (window_size r) 65535 in w + w / 2.

Definition off (r : RecvBuf) (seq : Z) : Z := u64 (nxt_off r + i32 (wrapping_sub seq (rb_nxt r))).

Definition note_dup (r : RecvBuf) (l rt : Z) : RecvBuf :=
  match dup r with
  | None => if seq_before l rt then with_dup r (Some (mkSack l rt)) else r
  | Some _ => r
  end.

Definition take_dup (r : RecvBuf) : RecvBuf * option SackBlock := (with_dup r None, dup r).

Definition range_of (r : RecvBuf) (seq : Z) : option OooEntry :=
  if negb (seq_after seq (rb_nxt r)) then None
  else
    '(_, e) ← bt_last_le (off r seq) (ooo r);
    if seq_before seq (e_end e) then Some e else None.

Definition sack_block_around (r : RecvBuf) (l rt : Z) : option SackBlock :=
  e ← range_of r l;
  if seq_before_eq rt (e_end e) then Some (mkSack (e_seq e) (e_end e)) else None.

Definition note_recent (r : RecvBuf) (seq : Z) : RecvBuf :=
  match range_of r seq with
  | None => r
  | Some range =>
      let kept := filter (fun s => seq_before_eq (e_seq range) s && seq_before s (e_end range) = false) (recent r) in
      with_recent r (ztake MAX_SACK_BLOCKS (seq :: kept))
  end.

(** ** [insert_ooo] *)

Definition checked_sub (a b : Z) : option Z := if a <? b then None else Some (a - b).

Definition touching_keys (m : btree) (lo hi : Z) : list Z :=
  match bt_last_le lo m with
  | Some (k, e) => if k + zlen (e_data e) >=? lo then [k] else []
  | None => []
  end ++ (bt_range (lo + 1) hi m).*1.

(** [for k in keys]: take the touching ranges out of the map. *)
Fixpoint take_out (keys : list Z) (m : btree) (mem : Z) : option (list OooEntry * btree * Z) :=
  match keys with
  | [] => Some ([], m, mem)
  | k :: keys =>
      e ← bt_get k m;
      mem ← checked_sub mem (cost e);
      '(es, m, mem) ← take_out keys (bt_remove k m) mem;
      Some (e :: es, m, mem)
  end.

(** [for e in &touching]: the first of them the segment overlaps. *)
Fixpoint note_first_dup (r : RecvBuf) (seq fin : Z) (es : list OooEntry) : RecvBuf :=
  match es with
  | [] => r
  | e :: es =>
      let l := if seq_after (e_seq e) seq then e_seq e else seq in
      let rt := if seq_before (e_end e) fin then e_end e else fin in
      if seq_before l rt then note_dup r l rt else note_first_dup r seq fin es
  end.

(** [(0..n).max_by_key(..)]: the last of the largest. *)
Definition len_at (es : list OooEntry) (k : nat) : Z := from_option (fun e => zlen (e_data e)) 0 (es !! k).

Definition largest (es : list OooEntry) : nat :=
  foldl (fun best k => if len_at es best <=? len_at es k then k else best) 0%nat (seq 0 (length es)).

Definition new_part (seq : Z) (data : list Z) (from to : Z) : option (list Z) :=
  get_range data (wrapping_sub from seq) (wrapping_sub to seq).

(** [if seq_before(cursor, to) { acc.extend(new_part(cursor, to)) }] *)
Definition fill (seq : Z) (data acc : list Z) (cursor to : Z) : option (list Z) :=
  if seq_before cursor to then p ← new_part seq data cursor to; Some (acc ++ p) else Some acc.

(** [for e in &left] and [for e in &right]. *)
Fixpoint gather (seq : Z) (data acc : list Z) (cursor : Z) (es : list OooEntry) : option (list Z * Z) :=
  match es with
  | [] => Some (acc, cursor)
  | e :: es =>
      acc ← fill seq data acc cursor (e_seq e);
      gather seq data (acc ++ e_data e) (e_end e) es
  end.

(** The range that the segment and the ranges it touches make together. *)
Definition merged (seq : Z) (data : list Z) (touching : list OooEntry) : option OooEntry :=
  let fin := wrapping_add seq (u32 (zlen data)) in
  let k := largest touching in
  base ← touching !! k;
  let others := take k touching ++ drop (S k) touching in
  let lefts := filter (fun e => seq_before (e_seq e) (e_seq base) = true) others in
  let rights := filter (fun e => seq_before (e_seq e) (e_seq base) = false) others in
  let cursor :=
    if seq_before seq (e_seq base) then
      match lefts with
      | [] => seq
      | e :: _ => if seq_before seq (e_seq e) then seq else e_seq e
      end
    else e_seq base in
  let front_start := cursor in
  '(front, cursor) ← gather seq data [] cursor lefts;
  front ← fill seq data front cursor (e_seq base);
  let base := mkEntry front_start (front ++ e_data base) in
  '(d, cursor) ← gather seq data (e_data base) (e_end base) rights;
  d ← fill seq data d cursor fin;
  Some (mkEntry front_start d).

Definition insert_ooo (r : RecvBuf) (seq : Z) (data : list Z) : option RecvBuf :=
  let fin := wrapping_add seq (u32 (zlen data)) in
  let lo := off r seq in
  let hi := off r fin in
  let keys := touching_keys (ooo r) lo hi in
  match keys with
  | [] => let e := mkEntry seq data in Some (with_ooo r (bt_insert lo e (ooo r)) (ooo_mem r + cost e))
  | _ =>
      '(touching, m, mem) ← take_out keys (ooo r) (ooo_mem r);
      let r := note_first_dup (with_ooo r m mem) seq fin touching in
      base ← merged seq data touching;
      Some (with_ooo r (bt_insert (off r (e_seq base)) base (ooo r)) (ooo_mem r + cost base))
  end.

(** [while self.ooo_mem > budget]: the map from its last entry down. *)
Fixpoint prune (budget : Z) (rm : btree) (mem : Z) : option (btree * Z) :=
  if mem >? budget then
    match rm with
    | [] => Some (rm, mem)
    | (_, e) :: rm => mem ← checked_sub mem (cost e); prune budget rm mem
    end
  else Some (rm, mem).

(** ** [merge_ooo] *)

(** [extend_from_deque(dst, src, skip)], whatever the halves of [src]. *)
Definition extend_from_deque (dst src : list Z) (skip : Z) : option (list Z) :=
  if skip <=? zlen src then Some (dst ++ zdrop skip src) else None.

Fixpoint merge_loop (b : list Z) (n noff : Z) (m : btree) (mem : Z) : option (list Z * Z * Z * btree * Z) :=
  match m with
  | [] => Some (b, n, noff, [], mem)
  | (k, e) :: m' =>
      if k >? noff then Some (b, n, noff, m, mem)
      else
        mem ← checked_sub mem (cost e);
        if seq_after (e_end e) n then
          b ← extend_from_deque b (e_data e) (wrapping_sub n (e_seq e));
          merge_loop b (e_end e) (noff + wrapping_sub (e_end e) n) m' mem
        else merge_loop b n noff m' mem
  end.

Definition merge_ooo (r : RecvBuf) : option RecvBuf :=
  '(b, n, noff, m, mem) ← merge_loop (rb_buf r) (rb_nxt r) (nxt_off r) (ooo r) (ooo_mem r);
  let r := with_ooo (with_stream r b n noff) m mem in
  Some (with_recent r (filter (fun s => seq_after_eq s n = true) (recent r))).

(** ** [insert] *)

Definition right_edge (r : RecvBuf) : Z :=
  let e := wrapping_add (rb_nxt r) (window r) in
  match adv_edge r with
  | Some adv => if seq_after adv e then adv else e
  | None => e
  end.

(** The part of [data[start..end]] inside the window, with where it ends. *)
Definition trim_right (r : RecvBuf) (seq end_seq start fin : Z) : option (Z * Z) :=
  if (window_size r >? 0) || negb (seq =? rb_nxt r) then
    let edge := right_edge r in
    if seq_after end_seq edge then
      let trim := wrapping_sub end_seq edge in
      if trim >=? fin - start then None else Some (fin - trim, edge)
    else Some (fin, end_seq)
  else Some (fin, end_seq).

Definition insert_in_order (r : RecvBuf) (end_seq : Z) (d : list Z) : option (RecvBuf * Z) :=
  let r :=
    match ooo r with
    | (_, e) :: _ =>
        if seq_before (e_seq e) end_seq then
          note_dup r (e_seq e) (if seq_before (e_end e) end_seq then e_end e else end_seq)
        else r
    | [] => r
    end in
  let r := with_stream r (rb_buf r ++ d) end_seq (nxt_off r + zlen d) in
  r ← merge_ooo r; Some (r, zlen d).

Definition insert_out_of_order (r : RecvBuf) (seq : Z) (d : list Z) : option (RecvBuf * Z) :=
  r ← insert_ooo r seq d;
  '(rm, mem) ← prune (ooo_budget r) (reverse (ooo r)) (ooo_mem r);
  Some (note_recent (with_ooo r (reverse rm) mem) seq, 0).

Definition insert (r : RecvBuf) (seq : Z) (data : list Z) : option (RecvBuf * Z) :=
  let r := with_dup r None in
  match data with
  | [] => Some (r, 0)
  | _ =>
      let start := 0 in
      let fin := zlen data in
      let end_seq := wrapping_add seq (u32 (zlen data)) in
      let '(r, start, seq, done) :=
        if seq_before seq (rb_nxt r) then
          let overlap := wrapping_sub (rb_nxt r) seq in
          let dup_end := if seq_before end_seq (rb_nxt r) then end_seq else rb_nxt r in
          let r := note_dup r seq dup_end in
          if overlap >=? fin - start then (r, start, seq, true)
          else (r, start + overlap, rb_nxt r, false)
        else (r, start, seq, false) in
      if done : bool then Some (r, 0)
      else
        match trim_right r seq end_seq start fin with
        | None => Some (r, 0)
        | Some (fin, end_seq) =>
            d ← get_range data start fin;
            if seq =? rb_nxt r then insert_in_order r end_seq d
            else insert_out_of_order r seq d
        end
  end.

(** ** The rest *)

(** [VecDeque]'s [Read] copies from the first of its two halves, [front]
    bytes long. *)
Definition read (front : Z) (r : RecvBuf) (plen : Z) : RecvBuf * list Z :=
  let n := Z.min plen front in
  (with_stream r (zdrop n (rb_buf r)) (rb_nxt r) (nxt_off r), ztake n (rb_buf r)).

Definition release_memory (r : RecvBuf) (keep_unread : bool) : RecvBuf :=
  let r := with_recent (with_ooo r [] 0) [] in
  if negb keep_unread || (zlen (rb_buf r) =? 0) then with_stream r [] (rb_nxt r) (nxt_off r) else r.

Definition bump_nxt (r : RecvBuf) (n : Z) : RecvBuf :=
  with_stream r (rb_buf r) (wrapping_add (rb_nxt r) n) (nxt_off r + n).

Definition block (e : OooEntry) : SackBlock := mkSack (e_seq e) (e_end e).

Fixpoint push_blocks (max : Z) (out : list SackBlock) (es : list OooEntry) : list SackBlock :=
  match es with
  | [] => out
  | e :: es =>
      if zlen out =? max then out
      else if bool_decide (block e ∈ out) then push_blocks max out es
      else push_blocks max (out ++ [block e]) es
  end.

Definition sack_blocks_up_to (r : RecvBuf) (max : Z) : list SackBlock :=
  let max := Z.min max MAX_SACK_BLOCKS in
  push_blocks max [] (omap (range_of r) (recent r) ++ (ooo r).*2).

Definition has_ooo (r : RecvBuf) : bool := match ooo r with [] => false | _ => true end.

(** ** Bytes at stream offsets *)

(** The bytes of [d], from offset [o] on, are ones that [P] allows there. *)
Definition holds (P : Z -> Z -> Prop) (o : Z) (d : list Z) : Prop :=
  forall i b, d !! i = Some b -> P (o + Z.of_nat i) b.

Section Holds.
Context (P : Z -> Z -> Prop).

Lemma holds_nil o : holds P o [].
Proof. intros i b H. done. Qed.

Lemma holds_app o a b : holds P o (a ++ b) <-> holds P o a /\ holds P (o + zlen a) b.
Proof.
  unfold holds, zlen. split.
  - intros H. split; intros i x Hx.
    + apply H. by apply lookup_app_l_Some.
    + replace (o + Z.of_nat (length a) + Z.of_nat i) with (o + Z.of_nat (length a + i)) by lia.
      apply H. rewrite lookup_app_r by lia. by replace (length a + i - length a)%nat with i by lia.
  - intros [Ha Hb] i x Hx. apply lookup_app_Some in Hx as [Hx|[Hi Hx]]; [auto|].
    apply Hb in Hx. by replace (o + Z.of_nat i) with (o + Z.of_nat (length a) + Z.of_nat (i - length a)) by lia.
Qed.

Lemma holds_zdrop o d n : 0 <= n -> holds P o d -> holds P (o + n) (zdrop n d).
Proof.
  intros Hn H i b Hi. unfold zdrop in Hi. rewrite lookup_drop in Hi. apply H in Hi.
  by replace (o + n + Z.of_nat i) with (o + Z.of_nat (Z.to_nat n + i)) by lia.
Qed.

Lemma holds_ztake o d n : holds P o d -> holds P o (ztake n d).
Proof. intros H i b Hi. apply H. unfold ztake in Hi. apply lookup_take_Some in Hi. tauto. Qed.

Lemma holds_slice o d a b : 0 <= a -> holds P o d -> holds P (o + a) (slice d a b).
Proof. intros Ha H. apply holds_ztake, holds_zdrop; done. Qed.
End Holds.

(** ** Sorted maps of ranges that lie apart *)

Definition finish (x : Z * OooEntry) : Z := fst x + zlen (e_data (snd x)).

Definition apart (x y : Z * OooEntry) : Prop := finish x < fst y.

Section Trees.
Implicit Types m : btree.

(** What the map holds of offset [o]. *)
Definition covers (m : btree) (o : Z) : Prop := exists x, x ∈ m /\ fst x <= o < finish x.

Lemma finish_ge x : fst x <= finish x.
Proof. unfold finish. pose proof (zlen_nonneg (e_data (snd x))). lia. Qed.

Lemma filter_none {A} (Q : A -> Prop) {D : forall x, Decision (Q x)} (l : list A) :
  (forall x, x ∈ l -> ~ Q x) -> filter Q l = [].
Proof.
  induction l as [|x l IH]; intros H; [done|]. rewrite filter_cons, decide_False by (apply H; left).
  apply IH. intros y Hy. apply H. by right.
Qed.

Lemma filter_all {A} (Q : A -> Prop) {D : forall x, Decision (Q x)} (l : list A) :
  (forall x, x ∈ l -> Q x) -> filter Q l = l.
Proof.
  induction l as [|x l IH]; intros H; [done|]. rewrite filter_cons, decide_True by (apply H; left).
  f_equal. apply IH. intros y Hy. apply H. by right.
Qed.

Lemma filter_same {A} (Q Q' : A -> Prop) {D : forall x, Decision (Q x)} {D' : forall x, Decision (Q' x)}
    (l : list A) :
  (forall x, x ∈ l -> Q x <-> Q' x) -> filter Q l = filter Q' l.
Proof.
  induction l as [|x l IH]; intros H; [done|]. rewrite !filter_cons.
  rewrite IH by (intros y Hy; apply H; by right). assert (Q x <-> Q' x) by (apply H; left).
  destruct (decide (Q x)), (decide (Q' x)); tauto || done.
Qed.

Lemma sorted_filter (Q : Z * OooEntry -> Prop) {D : forall x, Decision (Q x)} m :
  StronglySorted apart m -> StronglySorted apart (filter Q m).
Proof.
  induction 1 as [|x m Hs IH Hx]; [constructor|]. rewrite filter_cons. case_decide; [|done].
  constructor; [done|]. apply List.Forall_forall. intros y Hy. rewrite <- list_elem_of_In, list_elem_of_filter in Hy.
  rewrite List.Forall_forall in Hx. apply Hx. apply list_elem_of_In. tauto.
Qed.

(** The ranges a segment [lo, hi) touches, and the others. *)
Definition touch (lo hi : Z) (x : Z * OooEntry) : bool := (lo <=? finish x) && (fst x <=? hi).

Lemma touching_keys_cons x m lo hi :
  StronglySorted apart (x :: m) -> lo <= hi ->
  touching_keys (x :: m) lo hi = if touch lo hi x then fst x :: touching_keys m lo hi else touching_keys m lo hi.
Proof.
  intros Hs Hlh. inversion_clear Hs as [|? ? Hm Hx]. destruct x as [k e].
  unfold touching_keys, touch, bt_last_le, bt_range. cbn [fst snd]. rewrite !filter_cons. cbn [fst].
  destruct (decide (k <= lo)) as [Hk|Hk].
  - destruct (decide (lo + 1 <= k <= hi)); [lia|].
    destruct (filter (fun x => x.1 <= lo) m) as [|y ys] eqn:Ef.
    + cbn [list.last]. unfold finish. cbn [fst snd].
      replace (k <=? hi) with true by (symmetry; apply Z.leb_le; lia). rewrite andb_true_r.
      replace (k + zlen (e_data e) >=? lo) with (lo <=? k + zlen (e_data e)) by lia.
      by destruct (_ <=? _).
    + assert (y ∈ m /\ fst y <= lo) as [Hy Hy'].
      { assert (y ∈ filter (fun x => x.1 <= lo) m) as Hin by (rewrite Ef; left).
        apply list_elem_of_filter in Hin. tauto. }
      rewrite List.Forall_forall in Hx. rewrite list_elem_of_In in Hy. specialize (Hx y Hy). unfold apart in Hx.
      replace (lo <=? finish (k, e)) with false by (symmetry; apply Z.leb_gt; lia). cbn [andb].
      by rewrite last_cons_cons.
  - assert (filter (fun x => x.1 <= lo) m = []) as ->.
    { apply filter_none. intros y Hy. rewrite List.Forall_forall in Hx. rewrite list_elem_of_In in Hy.
      specialize (Hx y Hy). unfold apart in Hx. pose proof (finish_ge (k, e)). cbn [fst] in *. lia. }
    cbn [list.last app]. pose proof (finish_ge (k, e)). cbn [fst] in *.
    replace (lo <=? finish (k, e)) with true by (symmetry; apply Z.leb_le; lia). cbn [andb].
    destruct (decide (lo + 1 <= k <= hi)), (k <=? hi) eqn:E; bool2prop; try lia; done.
Qed.

Lemma touching_keys_spec m lo hi :
  StronglySorted apart m -> lo <= hi ->
  touching_keys m lo hi = (filter (fun x => touch lo hi x = true) m).*1.
Proof.
  intros Hs Hlh. induction m as [|x m IH]; [done|]. rewrite touching_keys_cons by done.
  inversion_clear Hs. rewrite IH by done. rewrite filter_cons. by destruct (touch lo hi x).
Qed.

Lemma sorted_distinct x y m : StronglySorted apart m -> x ∈ m -> y ∈ m -> fst x = fst y -> x = y.
Proof.
  induction 1 as [|z m Hs IH Hz]; intros Hx Hy E; [by apply not_elem_of_nil in Hx|].
  rewrite List.Forall_forall in Hz. pose proof (finish_ge z).
  apply elem_of_cons in Hx as [->|Hx], Hy as [->|Hy]; auto;
    apply list_elem_of_In in Hx || apply list_elem_of_In in Hy;
    [specialize (Hz y Hx) || specialize (Hz y Hy)|specialize (Hz x Hx)]; unfold apart in Hz; lia.
Qed.

Lemma sorted_total x y m : StronglySorted apart m -> x ∈ m -> y ∈ m -> x <> y -> apart x y \/ apart y x.
Proof.
  induction 1 as [|z m Hs IH Hz]; intros Hx Hy Hne; [by apply not_elem_of_nil in Hx|].
  rewrite List.Forall_forall in Hz.
  apply elem_of_cons in Hx as [->|Hx], Hy as [->|Hy]; [done| | |by apply IH].
  - left. apply Hz. by apply list_elem_of_In.
  - right. apply Hz. by apply list_elem_of_In.
Qed.

Lemma bt_get_elem k e m : StronglySorted apart m -> (k, e) ∈ m -> bt_get k m = Some e.
Proof.
  induction 1 as [|[k' e'] m Hs IH Hz]; intros Hin; [by apply not_elem_of_nil in Hin|]. cbn.
  destruct (k' =? k) eqn:E; bool2prop.
  - subst k'. f_equal. assert ((k, e) = (k, e')) by (eapply sorted_distinct; [constructor; done| | |]; [done|left|done]).
    congruence.
  - apply IH. apply elem_of_cons in Hin as [Hin|]; [congruence|done].
Qed.

Definition mem_of (m : btree) : Z := foldr (fun x acc => cost (snd x) + acc) 0 m.

Lemma mem_of_filter (Q : Z * OooEntry -> Prop) {D : forall x, Decision (Q x)} m :
  mem_of m = mem_of (filter Q m) + mem_of (filter (fun x => ~ Q x) m).
Proof.
  induction m as [|x m IH]; [done|]. rewrite !filter_cons. cbn [mem_of foldr].
  fold (mem_of m). rewrite IH. destruct (decide (Q x)) as [HQ|HQ].
  - rewrite (decide_False (P := ~ Q x)) by tauto. cbn [mem_of foldr]. fold (mem_of (filter Q m)). lia.
  - rewrite (decide_True (P := ~ Q x)) by tauto. cbn [mem_of foldr]. fold (mem_of (filter (fun x => ~ Q x) m)). lia.
Qed.

Lemma mem_of_nonneg m : 0 <= mem_of m.
Proof.
  induction m as [|x m IH]; [done|]. cbn [mem_of foldr]. fold (mem_of m).
  unfold cost, RANGE_OVERHEAD. pose proof (zlen_nonneg (e_data x.2)). lia.
Qed.

(** Taking out ranges of the map leaves the others. *)
Lemma take_out_spec T m mem :
  StronglySorted apart m -> NoDup T.*1 -> (forall x, x ∈ T -> x ∈ m) -> mem = mem_of m ->
  take_out T.*1 m mem
  = Some (T.*2, filter (fun x => fst x ∉ T.*1) m, mem - mem_of T).
Proof.
  revert m mem. induction T as [|[k e] T IH]; intros m mem Hs Hnd HT ->.
  { cbn. rewrite filter_all by (intros; apply not_elem_of_nil). do 2 f_equal. lia. }
  cbn [fmap list_fmap fst snd take_out]. cbn [fmap list_fmap fst] in Hnd. apply list.NoDup_cons in Hnd as [Hk Hnd].
  rewrite (bt_get_elem k e) by (done || (apply HT; left)). cbn [mbind option_bind].
  assert (mem_of m = cost e + mem_of (bt_remove k m)) as Hm.
  { unfold bt_remove. rewrite (mem_of_filter (fun x => fst x <> k) m).
    assert (filter (fun x => ~ fst x <> k) m = [(k, e)]) as ->; [|cbn; lia].
    assert ((k, e) ∈ m) as Hin by (apply HT; left). clear IH HT. induction Hs as [|x m Hs IH Hx].
    { by apply not_elem_of_nil in Hin. }
    rewrite filter_cons. pose proof (finish_ge x). rewrite List.Forall_forall in Hx.
    apply elem_of_cons in Hin as [<-|Hin].
    - rewrite decide_True by tauto. f_equal. apply filter_none. intros y Hy Hyk.
      apply list_elem_of_In in Hy. specialize (Hx y Hy). unfold apart in Hx. cbn [fst] in *. apply Hyk. lia.
    - rewrite decide_False; [by apply IH|]. intros Hyk. apply list_elem_of_In in Hin.
      specialize (Hx _ Hin). unfold apart in Hx. cbn [fst] in *. apply Hyk. lia. }
  unfold checked_sub. pose proof (mem_of_nonneg (bt_remove k m)).
  destruct (_ <? _) eqn:E; bool2prop; [lia|]. cbn [mbind option_bind].
  rewrite IH; [| |done| |lia].
  - cbn [mbind option_bind mem_of foldr snd]. fold (mem_of T).
    replace (mem_of m - (cost e + mem_of T)) with (mem_of m - cost e - mem_of T) by lia.
    assert (filter (fun x => fst x ∉ T.*1) (bt_remove k m) = filter (fun x => fst x ∉ k :: T.*1) m) as ->; [|done].
    unfold bt_remove. rewrite list_filter_filter. apply list_filter_iff. intros x. rewrite not_elem_of_cons. tauto.
  - by apply sorted_filter.
  - intros x Hx. unfold bt_remove. apply list_elem_of_filter. split; [|apply HT; by right].
    intros E'. apply Hk. rewrite <- E'. apply list_elem_of_fmap. by exists x.
Qed.
End Trees.

Lemma mem_of_Permutation m m' : m ≡ₚ m' -> mem_of m = mem_of m'.
Proof. unfold mem_of. induction 1; cbn; lia. Qed.

Lemma bt_insert_spec k e m :
  StronglySorted apart m -> (forall x, x ∈ m -> apart x (k, e) \/ apart (k, e) x) ->
  StronglySorted apart (bt_insert k e m) /\ bt_insert k e m ≡ₚ (k, e) :: m.
Proof.
  induction 1 as [|[k' e'] m Hs IH Hx]; intros Ha; cbn [bt_insert].
  { split; [repeat constructor|done]. }
  pose proof (finish_ge (k, e)) as H1. pose proof (finish_ge (k', e')) as H2. cbn [fst] in H1, H2.
  assert (apart (k', e') (k, e) \/ apart (k, e) (k', e')) as Hh by (apply Ha; left). unfold apart in Hh. cbn [fst] in Hh.
  destruct (k <? k') eqn:E; bool2prop.
  - split; [|done]. assert (finish (k, e) < k') by lia. constructor; [by constructor|].
    constructor; [done|]. apply List.Forall_forall. intros y Hy. rewrite List.Forall_forall in Hx.
    specialize (Hx y Hy). unfold apart in *. cbn [fst] in *. lia.
  - destruct (k =? k') eqn:E2; bool2prop; [lia|].
    destruct IH as [IHs IHp]; [intros x Hin; apply Ha; by right|]. split.
    + constructor; [done|]. rewrite IHp. constructor; [unfold apart; cbn [fst]; lia|done].
    + rewrite IHp. apply perm_swap.
Qed.

Lemma largest_lt es : es <> [] -> (largest es < length es)%nat.
Proof.
  intros Hne. unfold largest.
  assert (forall l b, (b < length es)%nat -> Forall (fun k => k < length es)%nat l ->
    (foldl (fun best k => if (len_at es best <=? len_at es k)%Z then k else best) b l < length es)%nat) as K.
  { induction l as [|k l IH]; intros b Hb Hl; [done|]. apply Forall_cons_iff in Hl as [Hk Hl]. cbn.
    apply IH; [|done]. by destruct (_ <=? _). }
  apply K; [destruct es; [done|cbn; lia]|]. apply List.Forall_forall. intros k Hk. apply in_seq in Hk. lia.
Qed.

(** ** Merging a segment with the ranges it touches *)

Section Merge.
Context (isn : Z) (P : Z -> Z -> Prop) (B lo : Z) (sd : list Z).
Let hi := lo + zlen sd.

(** The offsets the buffer deals with at a time. *)
Definition in_win (x : Z) : Prop := B <= x <= B + 2 ^ 30.

Context (Hlo : in_win lo) (Hhi : in_win hi) (Hdata : holds P lo sd).

Record mergeable (x : Z * OooEntry) : Prop := {
  mg_seq : e_seq (snd x) = at_off isn (fst x);
  mg_win : in_win (fst x) /\ in_win (finish x);
  mg_touch : lo <= finish x /\ fst x <= hi;
  mg_holds : holds P (fst x) (e_data (snd x)) }.

Lemma e_end_at x : e_seq (snd x) = at_off isn (fst x) -> e_end (snd x) = at_off isn (finish x).
Proof. intros H. unfold e_end. rewrite H. apply wrapping_add_at_u32. Qed.

Lemma fill_spec acc a c to :
  holds P a acc -> zlen acc = c - a -> in_win c -> in_win to -> (c < to -> lo <= c /\ to <= hi) ->
  exists acc', fill (at_off isn lo) sd acc (at_off isn c) (at_off isn to) = Some acc' /\
    holds P a acc' /\ zlen acc' = Z.max c to - a.
Proof.
  unfold in_win in *. intros Ha Hl Hc Hto Hr. unfold fill. rewrite seq_before_at by lia.
  destruct (c <? to) eqn:E; bool2prop; [|exists acc; split; [done|split; [done|lia]]].
  destruct (Hr E) as [H1 H2]. unfold new_part, get_range. rewrite !wrapping_sub_at_le by (unfold hi in *; lia).
  replace ((0 <=? c - lo) && (c - lo <=? to - lo) && (to - lo <=? zlen sd)) with true by (unfold hi in *; lia).
  cbn [mbind option_bind]. eexists. split; [done|]. split.
  - apply holds_app. split; [done|]. replace (a + zlen acc) with (lo + (c - lo)) by lia. apply holds_slice; [lia|done].
  - unfold hi in *. zl.
Qed.

Lemma gather_spec T acc a c :
  StronglySorted apart T -> Forall mergeable T -> holds P a acc -> zlen acc = c - a -> in_win c ->
  (forall x, head T = Some x -> c <= fst x /\ (c < fst x -> lo <= c)) ->
  exists acc' c', gather (at_off isn lo) sd acc (at_off isn c) T.*2 = Some (acc', at_off isn c') /\
    holds P a acc' /\ zlen acc' = c' - a /\ in_win c' /\ c <= c' /\
    Forall (fun x => c <= fst x /\ finish x <= c') T /\
    (c' = c /\ T = [] \/ lo <= c' /\ exists x, list.last T = Some x /\ c' = finish x).
Proof.
  intros Hs. revert acc c. induction Hs as [|x T Hs IH Hx]; intros acc c HT Ha Hl Hc Hh.
  { exists acc, c. split; [done|]. split; [done|]. split; [done|]. split; [done|]. split; [lia|].
    split; [constructor|by left]. }
  apply Forall_cons_iff in HT as [[Hseq [Hw1 Hw2] [Ht1 Ht2] Hho] HT].
  destruct (Hh x eq_refl) as [Hcx Hclo]. cbn [fmap list_fmap gather]. rewrite Hseq.
  destruct (fill_spec acc a c (fst x)) as (acc1 & -> & Ha1 & Hl1); [done..|lia|].
  rewrite Z.max_r in Hl1 by lia. cbn [mbind option_bind].
  rewrite e_end_at by done. pose proof (finish_ge x).
  destruct (IH (acc1 ++ e_data (snd x)) (finish x)) as (acc' & c' & Hg & Ha' & Hl' & Hc' & Hle & Hf & Hend); [done| | |done| |].
  - apply holds_app. split; [done|]. by replace (a + zlen acc1) with (fst x) by lia.
  - zl. unfold finish. lia.
  - intros y Hy. destruct T as [|y' T]; [done|]. injection Hy as ->. apply Forall_cons_iff in Hx as [Hxy _].
    unfold apart in Hxy. lia.
  - exists acc', c'. split; [exact Hg|]. split; [done|]. split; [done|]. split; [done|]. split; [lia|].
    split.
    + constructor; [lia|]. eapply list.Forall_impl; [exact Hf|]. intros y [Hy1 Hy2]. lia.
    + right. split; [lia|]. destruct Hend as [[-> ->]|[_ (y & Hy & ->)]]; [by exists x|].
      exists y. split; [|done]. destruct T; [done|]. by rewrite last_cons_cons.
Qed.
(** Where the merged range starts. *)
Definition front_cursor (base : OooEntry) (lefts : list OooEntry) : Z :=
  if seq_before (at_off isn lo) (e_seq base) then
    match lefts with
    | [] => at_off isn lo
    | e :: _ => if seq_before (at_off isn lo) (e_seq e) then at_off isn lo else e_seq e
    end
  else e_seq base.

Lemma front_cursor_spec L xb :
  StronglySorted apart (L ++ [xb]) -> Forall mergeable (L ++ [xb]) ->
  exists a, front_cursor (snd xb) L.*2 = at_off isn a /\ in_win a /\ a <= lo /\ a <= fst xb /\
    (L = [] -> a < fst xb -> a = lo) /\
    (forall x, head L = Some x -> a <= fst x /\ (a < fst x -> lo <= a)) /\
    (a = lo \/ exists x, x ∈ L ++ [xb] /\ a = fst x).
Proof.
  intros Hs HT. apply Forall_app in HT as [HL Hb]. apply Forall_cons_iff in Hb as [[Hseq [Hw1 Hw2] [Ht1 Ht2] Hho] _].
  unfold front_cursor. rewrite Hseq. unfold in_win in *. rewrite seq_before_at by lia.
  destruct (lo <? fst xb) eqn:E; bool2prop.
  - destruct L as [|x L].
    { exists lo. split_and!; try done; lia. }
    apply Forall_cons_iff in HL as [[Hxs [Hxw1 Hxw2] _ _] _]. unfold in_win in *.
    cbn [fmap list_fmap]. rewrite Hxs, seq_before_at by lia.
    assert (apart x xb) as Hax by (eapply StronglySorted_app_1_elem_of; [exact Hs|left|left]).
    unfold apart in Hax. pose proof (finish_ge x).
    destruct (lo <? fst x) eqn:E2; bool2prop.
    + exists lo. split_and!; try done; try lia. intros y [= <-]. lia.
    + exists (fst x). split_and!; try done; try lia; [|right; exists x; split; [left|done]]. intros y [= <-]. lia.
  - assert (L = []) as ->.
    { destruct L as [|x L]; [done|]. apply Forall_cons_iff in HL as [[_ _ [Hxt _] _] _].
      assert (apart x xb) as Hax by (eapply StronglySorted_app_1_elem_of; [exact Hs|left|left]).
      unfold apart in Hax. lia. }
    exists (fst xb). split_and!; try done; try lia. right. exists xb. split; [left|done].
Qed.

(** Everything left of the base range. *)
Lemma front_spec L xb :
  StronglySorted apart (L ++ [xb]) -> Forall mergeable (L ++ [xb]) ->
  exists a front1 c front, front_cursor (snd xb) L.*2 = at_off isn a /\
    gather (at_off isn lo) sd [] (at_off isn a) L.*2 = Some (front1, c) /\
    fill (at_off isn lo) sd front1 c (e_seq (snd xb)) = Some front /\
    holds P a front /\ zlen front = fst xb - a /\ in_win a /\ a <= lo /\
    Forall (fun x => a <= fst x) (L ++ [xb]) /\
    (a = lo \/ exists x, x ∈ L ++ [xb] /\ a = fst x).
Proof.
  intros Hs HT. destruct (front_cursor_spec L xb Hs HT) as (a & Hc & Ha & Halo & Hab & Hnil & Hhd & Hor).
  pose proof HT as HT'. apply Forall_app in HT' as [HL Hb]. apply Forall_cons_iff in Hb as [Hb _].
  destruct Hb as [Hseq [Hw1 Hw2] [Ht1 Ht2] Hho].
  destruct (gather_spec L [] a a) as (front1 & c' & Hg & Hh1 & Hl1 & Hc' & Hle & Hf & Hend);
    [by eapply StronglySorted_app_1_l|done|apply holds_nil|rewrite zlen_nil; lia|done|done|].
  assert (c' <= fst xb /\ (c' < fst xb -> lo <= c')) as [Hcb Hclo].
  { destruct Hend as [[-> ->]|[Hlo' (x & Hx & ->)]].
    - split; [lia|]. intros Hlt. rewrite (Hnil eq_refl Hlt). lia.
    - split; [|lia]. apply list.last_Some in Hx as [L' ->].
      assert (apart x xb) as Hax; [|unfold apart in Hax; lia].
      eapply StronglySorted_app_1_elem_of; [exact Hs| |left]. apply elem_of_app. right. left. }
  destruct (fill_spec front1 a c' (fst xb)) as (front & Hfill & Hh & Hl); [done..|lia|].
  exists a, front1, (at_off isn c'), front. rewrite Hseq.
  split; [done|]. split; [done|]. split; [done|]. split; [done|]. split; [lia|]. split; [done|]. split; [done|].
  split; [|done]. apply Forall_app. split; [|repeat constructor; lia].
  eapply list.Forall_impl; [exact Hf|]. intros x []. lia.
Qed.

Lemma partition_sorted L xb R :
  StronglySorted apart (L ++ xb :: R) -> Forall mergeable (L ++ xb :: R) ->
  filter (fun e => seq_before (e_seq e) (e_seq (snd xb)) = true) (L.*2 ++ R.*2) = L.*2 /\
  filter (fun e => seq_before (e_seq e) (e_seq (snd xb)) = false) (L.*2 ++ R.*2) = R.*2.
Proof.
  intros Hs HT. rewrite List.Forall_forall in HT.
  assert (mergeable xb) as [Hseq [Hw _] _ _] by (apply HT, in_elt). unfold in_win in *.
  assert (forall e, e ∈ L.*2 -> seq_before (e_seq e) (e_seq (snd xb)) = true) as HL.
  { intros e He. apply list_elem_of_fmap in He as (x & -> & Hx).
    assert (mergeable x) as [Hxs [Hxw _] _ _] by (apply HT, in_app_iff; left; by apply list_elem_of_In).
    unfold in_win in *. rewrite Hxs, Hseq, seq_before_at by lia. apply Z.ltb_lt.
    assert (apart x xb) as Hax by (eapply StronglySorted_app_1_elem_of; [exact Hs|done|left]).
    unfold apart in Hax. pose proof (finish_ge x). lia. }
  assert (forall e, e ∈ R.*2 -> seq_before (e_seq e) (e_seq (snd xb)) = false) as HR.
  { intros e He. apply list_elem_of_fmap in He as (x & -> & Hx).
    assert (mergeable x) as [Hxs [Hxw _] _ _] by (apply HT, in_app_iff; right; right; by apply list_elem_of_In).
    unfold in_win in *. rewrite Hxs, Hseq, seq_before_at by lia. apply Z.ltb_ge.
    apply StronglySorted_app_1_r in Hs. inversion_clear Hs as [|? ? _ Hf]. rewrite List.Forall_forall in Hf.
    apply list_elem_of_In in Hx. specialize (Hf x Hx). unfold apart in Hf. pose proof (finish_ge xb). lia. }
  rewrite !list.filter_app. split.
  - rewrite (filter_all _ L.*2), (filter_none _ R.*2), app_nil_r; [done| |done].
    intros e He. rewrite HR by done. done.
  - rewrite (filter_none _ L.*2), (filter_all _ R.*2); [done|done|]. intros e He. rewrite HL by done. done.
Qed.

(** The merged range is the segment and the ranges together, nothing more. *)
Lemma merged_spec T :
  T <> [] -> StronglySorted apart T -> Forall mergeable T ->
  exists a d, merged (at_off isn lo) sd T.*2 = Some (mkEntry (at_off isn a) d) /\
    holds P a d /\ in_win a /\ in_win (a + zlen d) /\ a <= lo /\ hi <= a + zlen d /\
    Forall (fun x => a <= fst x /\ finish x <= a + zlen d) T /\
    (a = lo \/ exists x, x ∈ T /\ a = fst x) /\
    (a + zlen d = hi \/ exists x, x ∈ T /\ a + zlen d = finish x).
Proof.
  intros Hne Hs HT. assert (T.*2 <> []) as Hne2 by (destruct T; done).
  pose proof (largest_lt T.*2 Hne2) as Hk. rewrite length_fmap in Hk.
  destruct (lookup_lt_is_Some_2 T _ Hk) as [xb Hb].
  unfold merged. rewrite list_lookup_fmap, Hb. cbn [fmap option_fmap option_map mbind option_bind].
  rewrite <- fmap_take, <- fmap_drop.
  set (L := take _ T) in *. set (R := drop _ T) in *.
  assert (T = L ++ xb :: R) as ET by (symmetry; by apply take_drop_middle).
  clearbody L R. subst T. clear Hk Hb Hne Hne2.
  destruct (partition_sorted L xb R Hs HT) as [-> ->].
  assert (StronglySorted apart (L ++ [xb]) /\ Forall mergeable (L ++ [xb])) as [Hs1 HT1].
  { replace (L ++ xb :: R) with ((L ++ [xb]) ++ R) in Hs, HT by (by rewrite <- app_assoc).
    split; [by eapply StronglySorted_app_1_l|]. by apply Forall_app in HT as [? _]. }
  destruct (front_spec L xb Hs1 HT1) as (a & front1 & c & front & Hcur & Hg & Hf & Hho & Hl & Ha & Halo & Hall & Hor).
  fold (front_cursor (snd xb) L.*2). rewrite Hcur, Hg. cbn [mbind option_bind]. rewrite Hf. cbn [mbind option_bind e_data].
  apply StronglySorted_app_1_r in Hs. apply Forall_app in HT as [_ HT]. apply Forall_cons_iff in HT as [Hb HR].
  destruct Hb as [Hseq [Hw1 Hw2] [Ht1 Ht2] Hbho]. inversion_clear Hs as [|? ? HsR HxR].
  assert (e_end (mkEntry (at_off isn a) (front ++ e_data (snd xb))) = at_off isn (finish xb)) as ->.
  { unfold e_end. cbn [e_seq e_data]. rewrite wrapping_add_at_u32, zlen_app. f_equal. unfold finish. lia. }
  destruct (gather_spec R (front ++ e_data (snd xb)) a (finish xb)) as (d1 & c' & Hg2 & Hh2 & Hl2 & Hc2 & Hle2 & Hf2 & Hend2);
    [done|done| | |done| |].
  { apply holds_app. split; [done|]. by replace (a + zlen front) with (fst xb) by lia. }
  { zl. unfold finish. lia. }
  { intros y Hy. destruct R as [|y' R]; [done|]. injection Hy as ->. apply Forall_cons_iff in HxR as [Hxy _].
    unfold apart in Hxy. lia. }
  rewrite Hg2. cbn [mbind option_bind].
  replace (wrapping_add (at_off isn lo) (u32 (zlen sd))) with (at_off isn hi) by (symmetry; apply wrapping_add_at_u32).
  destruct (fill_spec d1 a c' hi) as (d & Hfd & Hhd & Hld); [done|lia|done|done|lia|].
  rewrite Hfd. cbn [mbind option_bind]. exists a, d. replace (a + zlen d) with (Z.max c' hi) by lia.
  split; [done|]. split; [done|]. split; [done|]. split; [by destruct (Z.max_spec c' hi) as [[_ ->]|[_ ->]]|].
  split; [done|]. split; [lia|]. apply Forall_app in Hall as [HaL Hab]. apply Forall_cons_iff in Hab as [Hab _].
  split; [|split].
  - apply Forall_app. split.
    + apply List.Forall_forall. intros x Hx. rewrite List.Forall_forall in HaL. split; [by apply HaL|].
      apply list_elem_of_In in Hx. assert (apart x xb) as Hax.
      { eapply StronglySorted_app_1_elem_of; [exact Hs1|exact Hx|left]. }
      unfold apart in Hax. pose proof (finish_ge xb). lia.
    + constructor; [lia|]. eapply list.Forall_impl; [exact Hf2|]. intros x []. pose proof (finish_ge xb). lia.
  - destruct Hor as [->|(x & Hx & ->)]; [by left|right]. exists x. split; [|done].
    apply elem_of_app in Hx as [Hx|Hx]; apply elem_of_app; [by left|right]. apply list_elem_of_singleton in Hx as ->. left.
  - destruct (Z.max_spec c' hi) as [[_ ->]|[_ ->]]; [by left|right].
    destruct Hend2 as [[-> _]|[_ (x & Hx & ->)]].
    + exists xb. split; [|done]. apply elem_of_app. right. left.
    + exists x. split; [|done]. apply elem_of_app. right. right. apply list.last_Some in Hx as [R' ->].
      apply elem_of_app. right. left.
Qed.
End Merge.

(** ** The invariant *)

Record entry_ok (isn : Z) (P : Z -> Z -> Prop) (B : Z) (x : Z * OooEntry) : Prop := {
  eo_seq : e_seq (snd x) = at_off isn (fst x);
  eo_pos : B < fst x /\ fst x < finish x;
  eo_win : finish x <= B + 2 ^ 30;
  eo_holds : holds P (fst x) (e_data (snd x)) }.

Record ooo_inv (isn : Z) (P : Z -> Z -> Prop) (B : Z) (m : btree) : Prop := {
  oi_sorted : StronglySorted apart m;
  oi_entries : Forall (entry_ok isn P B) m }.

Record rinv (isn : Z) (P : Z -> Z -> Prop) (r : RecvBuf) : Prop := {
  ri_nxt : rb_nxt r = at_off isn (nxt_off r);
  ri_off : 0 <= nxt_off r;
  ri_ooo : ooo_inv isn P (nxt_off r) (ooo r);
  ri_mem : ooo_mem r = mem_of (ooo r) }.

Lemma note_dup_only r l rt : exists d, note_dup r l rt = with_dup r d.
Proof.
  unfold note_dup. destruct r; cbn. destruct dup0; [by eexists (Some _)|].
  destruct (seq_before l rt); [by eexists|by exists None].
Qed.

Lemma note_first_dup_only r seq fin es : exists d, note_first_dup r seq fin es = with_dup r d.
Proof.
  induction es as [|e es IH]; cbn [note_first_dup]; [exists (dup r); by destruct r|].
  destruct (seq_before _ _); [apply note_dup_only|done].
Qed.

Lemma off_at isn P r y :
  rinv isn P r -> nxt_off r <= y <= nxt_off r + 2 ^ 30 -> nxt_off r + 2 ^ 30 < 2 ^ 64 ->
  off r (at_off isn y) = y.
Proof.
  intros R Hy Hw. pose proof (ri_off _ _ _ R). unfold off. rewrite (ri_nxt _ _ _ R), signed_at by lia.
  unfold u64. rewrite Z.mod_small; lia.
Qed.

Lemma rest_of_touching lo hi m :
  StronglySorted apart m ->
  filter (fun x => fst x ∉ (filter (fun x => touch lo hi x = true) m).*1) m
  = filter (fun x => touch lo hi x = false) m.
Proof.
  intros Hs. apply filter_same. intros x Hx. split.
  - intros Hn. destruct (touch lo hi x) eqn:E; [|done]. exfalso. apply Hn. apply list_elem_of_fmap.
    exists x. split; [done|]. by apply list_elem_of_filter.
  - intros Ht Hin. apply list_elem_of_fmap in Hin as (y & Ey & Hy). apply list_elem_of_filter in Hy as [Hty Hy].
    rewrite (sorted_distinct x y m) in Ht by done. congruence.
Qed.

Lemma sorted_keys_nodup m : StronglySorted apart m -> NoDup m.*1.
Proof.
  induction 1 as [|x m Hs IH Hx]; [constructor|]. cbn [fmap list_fmap]. constructor; [|done].
  intros Hin. apply list_elem_of_fmap in Hin as (y & Ey & Hy). rewrite List.Forall_forall in Hx.
  apply list_elem_of_In in Hy. specialize (Hx y Hy). unfold apart in Hx. pose proof (finish_ge x). lia.
Qed.

(** A range that lies apart from those it does not touch joins the map. *)
Lemma bt_insert_inv isn P B a e m :
  ooo_inv isn P B m -> entry_ok isn P B (a, e) ->
  (forall x, x ∈ m -> finish x < a \/ a + zlen (e_data e) < fst x) ->
  ooo_inv isn P B (bt_insert a e m) /\ mem_of (bt_insert a e m) = mem_of m + cost e /\
  (forall o, covers (bt_insert a e m) o <-> covers m o \/ a <= o < a + zlen (e_data e)).
Proof.
  intros [Hs He] Hok Ha. destruct (bt_insert_spec a e m Hs) as [Hs' Hp]; [done|]. split_and!.
  - split; [done|]. rewrite Hp. by constructor.
  - rewrite (mem_of_Permutation _ _ Hp). cbn [mem_of foldr snd]. fold (mem_of m). lia.
  - intros o. unfold covers. setoid_rewrite Hp. setoid_rewrite elem_of_cons. split.
    + intros (x & [->|Hx] & Ho); [right; unfold finish in Ho; cbn in Ho; lia|left; by exists x].
    + intros [(x & Hx & Ho)|Ho]; [exists x; auto|]. exists (a, e). split; [by left|]. unfold finish. cbn. lia.
Qed.

Lemma mergeable_of isn P B x0 sd T :
  Forall (entry_ok isn P B) T -> (forall x, x ∈ T -> touch x0 (x0 + zlen sd) x = true) ->
  Forall (mergeable isn P B x0 sd) T.
Proof.
  intros HT Ht. apply List.Forall_forall. intros x Hx. rewrite List.Forall_forall in HT.
  destruct (HT x Hx) as [H1 H2 H3 H4]. apply list_elem_of_In in Hx. specialize (Ht x Hx).
  unfold touch in Ht. bool2prop. split; [done| |done|done]. unfold in_win. lia.
Qed.

Lemma ooo_inv_filter isn P B m (Q : Z * OooEntry -> Prop) {D : forall x, Decision (Q x)} :
  ooo_inv isn P B m -> ooo_inv isn P B (filter Q m).
Proof.
  intros [Hs He]. split; [by apply sorted_filter|]. apply List.Forall_forall. intros x Hx.
  apply list_elem_of_In, list_elem_of_filter in Hx as [_ Hx]. rewrite List.Forall_forall in He.
  apply He. by apply list_elem_of_In.
Qed.

Section InsertOoo.
Context (isn : Z) (P : Z -> Z -> Prop) (r : RecvBuf) (x0 : Z) (sd : list Z).
Context (R : rinv isn P r) (Hx0 : nxt_off r < x0) (Hne : 0 < zlen sd)
  (Hw : x0 + zlen sd <= nxt_off r + 2 ^ 30) (H64 : nxt_off r + 2 ^ 30 < 2 ^ 64) (Hd : holds P x0 sd).
Let hi := x0 + zlen sd.
Let T := filter (fun x => touch x0 hi x = true) (ooo r).
Let rest := filter (fun x => touch x0 hi x = false) (ooo r).

Lemma keys_T : touching_keys (ooo r) (off r (at_off isn x0)) (off r (wrapping_add (at_off isn x0) (u32 (zlen sd))))
  = T.*1.
Proof using R Hx0 Hne Hw H64.
  rewrite wrapping_add_at_u32, !(off_at isn P) by (done || lia).
  apply touching_keys_spec; [apply (ri_ooo _ _ _ R)|lia].
Qed.

Lemma T_in x : x ∈ T -> x ∈ ooo r /\ touch x0 hi x = true.
Proof using. unfold T. rewrite list_elem_of_filter. tauto. Qed.

Lemma mem_split : mem_of (ooo r) = mem_of T + mem_of rest.
Proof using.
  unfold T, rest. rewrite (mem_of_filter (fun x => touch x0 hi x = true) (ooo r)). f_equal. f_equal.
  apply filter_same. intros x _. by destruct (touch x0 hi x).
Qed.

Lemma covers_split o : covers (ooo r) o <-> covers T o \/ covers rest o.
Proof using.
  unfold covers, T, rest. setoid_rewrite list_elem_of_filter. split.
  - intros (x & Hx & Ho). destruct (touch x0 hi x) eqn:E; [left|right]; by exists x.
  - intros [(x & [_ Hx] & Ho)|(x & [_ Hx] & Ho)]; by exists x.
Qed.

(** The range the segment makes with those it touches. *)
Lemma merged_T :
  T <> [] ->
  exists a d, merged (at_off isn x0) sd T.*2 = Some (mkEntry (at_off isn a) d) /\
    entry_ok isn P (nxt_off r) (a, mkEntry (at_off isn a) d) /\
    (forall o, covers T o \/ x0 <= o < hi <-> a <= o < a + zlen d) /\
    (forall x, x ∈ rest -> finish x < a \/ a + zlen d < fst x).
Proof using R Hx0 Hne Hw H64 Hd.
  intros HT. destruct (ri_ooo _ _ _ R) as [Hs He].
  assert (ooo_inv isn P (nxt_off r) T) as [HsT HeT] by (apply ooo_inv_filter; done).
  assert (in_win (nxt_off r) x0) by (unfold in_win; lia).
  assert (in_win (nxt_off r) hi) by (unfold in_win, hi; lia).
  destruct (merged_spec isn P (nxt_off r) x0 sd) with (T := T) as
    (a & d & Hm & Hh & Ha & Hb & Halo & Hbhi & Hall & Ha' & Hb'); [done|done|done|done|done| |].
  { apply mergeable_of; [done|]. intros x Hx. by destruct (T_in x Hx). }
  destruct (merged_spec isn (fun o _ => covers T o \/ x0 <= o < hi) (nxt_off r) x0 sd) with (T := T) as
    (a2 & d2 & Hm2 & Hh2 & Hwa2 & _); [done|done| |done|done| |].
  { intros i b Hi. right. apply lookup_lt_Some in Hi. unfold hi, zlen. lia. }
  { apply mergeable_of; [|intros x Hx; by destruct (T_in x Hx)]. apply List.Forall_forall. intros x Hx.
    rewrite List.Forall_forall in HeT. destruct (HeT x Hx) as [H1 H2 H3 H4]. split; [done..|].
    intros i b Hi. left. exists x. split; [by apply list_elem_of_In|]. apply lookup_lt_Some in Hi. unfold finish, zlen. lia. }
  assert (d2 = d) by congruence. subst d2.
  assert (a2 = a) as -> by (unfold in_win in *; apply (at_off_inj isn); [lia|congruence]).
  rewrite List.Forall_forall in Hall.
  assert (forall x, x ∈ T -> a <= fst x /\ finish x <= a + zlen d) as HaT
    by (intros x Hx; apply Hall; by apply list_elem_of_In).
  assert (nxt_off r < a) as HBa.
  { destruct Ha' as [->|(x & Hx & ->)]; [done|]. apply list_elem_of_In in Hx. rewrite List.Forall_forall in HeT.
    apply (eo_pos _ _ _ _ (HeT x Hx)). }
  exists a, d. split_and!; [done| | |].
  - unfold in_win, finish in *. split; cbn [fst snd e_seq e_data]; [done|unfold finish; cbn; lia|unfold finish; cbn; lia|done].
  - intros o. split.
    + intros [(x & Hx & Ho)|Ho]; [|lia]. apply HaT in Hx. lia.
    + intros Ho. destruct (lookup_lt_is_Some_2 d (Z.to_nat (o - a))) as [b Hbo]; [unfold zlen in Ho; lia|].
      apply Hh2 in Hbo. by replace (a + Z.of_nat (Z.to_nat (o - a))) with o in Hbo by lia.
  - intros x Hx. unfold rest in Hx. apply list_elem_of_filter in Hx as [Htx Hx].
    assert (forall y, y ∈ T -> finish x < fst y \/ finish y < fst x) as Hxy.
    { intros y Hy. apply T_in in Hy as [Hy Hty]. apply (sorted_total x y (ooo r)); [done..|congruence]. }
    pose proof (finish_ge x). unfold touch in Htx. apply andb_false_iff in Htx as [Htx|Htx]; bool2prop.
    + left. destruct Ha' as [->|(y & Hy & ->)]; [done|]. pose proof (T_in y Hy) as [_ Hty]. unfold touch in Hty.
      bool2prop. destruct (Hxy y Hy); [done|lia].
    + right. destruct Hb' as [->|(y & Hy & ->)]; [done|]. pose proof (T_in y Hy) as [_ Hty]. unfold touch in Hty.
      bool2prop. destruct (Hxy y Hy); [lia|done].
Qed.

(** The memory the map takes grows by no more than the segment's own. *)
Lemma merged_cost a (d : list Z) :
  (forall o, a <= o < a + zlen d -> covers T o \/ x0 <= o < hi) ->
  zlen d + RANGE_OVERHEAD <= mem_of T + zlen sd + RANGE_OVERHEAD.
Proof using Hne.
  intros Hc. set (J := mjoin ((fun x => seqZ (fst x) (zlen (e_data (snd x)))) <$> T)).
  assert (incl (seqZ a (zlen d)) (seqZ x0 (zlen sd) ++ J)) as Hi.
  { intros o Ho. apply list_elem_of_In, elem_of_seqZ in Ho. apply list_elem_of_In, elem_of_app.
    destruct (Hc o Ho) as [(x & Hx & Hox)|Hox]; [right|left; apply elem_of_seqZ; unfold hi in *; lia].
    apply list_elem_of_join. eexists. split; [|apply list_elem_of_fmap; by exists x].
    apply elem_of_seqZ. unfold finish in Hox. lia. }
  apply NoDup_incl_length in Hi; [|apply NoDup_ListNoDup, NoDup_seqZ].
  rewrite length_app, !length_seqZ in Hi.
  assert (Z.of_nat (length J) <= mem_of T).
  { unfold J. clear. generalize T as l. induction l as [|x l IH]; [done|]. cbn [fmap list_fmap mjoin list_join].
    rewrite length_app, length_seqZ. cbn [mem_of foldr]. fold (mem_of l).
    unfold cost, RANGE_OVERHEAD. pose proof (zlen_nonneg (e_data (snd x))). rewrite Nat2Z.inj_add, Z2Nat.id by done.
    eapply Z.le_trans; [apply Z.add_le_mono_l, IH|lia]. }
  pose proof (zlen_nonneg d). pose proof (zlen_nonneg sd). lia.
Qed.

Lemma insert_ooo_spec :
  exists m' mem' d', insert_ooo r (at_off isn x0) sd = Some (with_dup (with_ooo r m' mem') d') /\
    ooo_inv isn P (nxt_off r) m' /\ mem' = mem_of m' /\ mem' <= ooo_mem r + zlen sd + RANGE_OVERHEAD /\
    (forall o, covers m' o <-> covers (ooo r) o \/ x0 <= o < hi).
Proof using R Hx0 Hne Hw H64 Hd.
  pose proof (ri_ooo _ _ _ R) as Ho. pose proof (ri_mem _ _ _ R) as Hmem. unfold insert_ooo. rewrite keys_T.
  destruct (decide (T = [])) as [HT|HT].
  - rewrite HT. cbn [fmap list_fmap]. rewrite (off_at isn P) by (done || lia).
    destruct (bt_insert_inv isn P (nxt_off r) x0 (mkEntry (at_off isn x0) sd) (ooo r)) as (Hi & Hm & Hc); [done| | |].
    + unfold hi, finish in *. split; cbn [fst snd e_seq e_data finish]; try done; unfold finish; cbn; lia.
    + intros x Hx. assert (touch x0 hi x = false) as Ht.
      { destruct (touch x0 hi x) eqn:E; [|done]. assert (x ∈ T) as HxT by (by apply list_elem_of_filter).
        rewrite HT in HxT. by apply not_elem_of_nil in HxT. }
      unfold touch in Ht. apply andb_false_iff in Ht as [Ht|Ht]; bool2prop; [left|right]; done.
    + exists (bt_insert x0 (mkEntry (at_off isn x0) sd) (ooo r)), (ooo_mem r + cost (mkEntry (at_off isn x0) sd)), (dup r).
      split; [done|]. unfold cost in *. cbn [e_data] in *.
      split_and!; [done|lia|lia|done].
  - assert (exists k ks, T.*1 = k :: ks) as (k & ks & Ek) by (destruct T; [done|cbn; eauto]).
    pose proof (oi_sorted _ _ _ _ Ho) as Hs.
    rewrite Ek, <- Ek.
    rewrite (take_out_spec T) by (done || (apply sorted_keys_nodup, sorted_filter; done) || (intros x Hx; apply T_in in Hx; tauto)).
    cbn [mbind option_bind]. 
    assert (filter (fun x => fst x ∉ T.*1) (ooo r) = rest) as -> by (by apply rest_of_touching).
    destruct (note_first_dup_only (with_ooo r rest (ooo_mem r - mem_of T)) (at_off isn x0)
      (wrapping_add (at_off isn x0) (u32 (zlen sd))) T.*2) as [d' ->].
    destruct (merged_T HT) as (a & d & -> & Hok & Hcov & Hap). cbn [mbind option_bind e_seq].
    destruct Hok as [Hs1 Hp1 Hw1 Hh1] eqn:Ehok. clear Ehok. cbn [fst snd] in *.
    assert (off (with_dup (with_ooo r rest (ooo_mem r - mem_of T)) d') (at_off isn a) = a) as ->.
    { change (off r (at_off isn a) = a). apply (off_at isn P); [done| |done]. unfold finish in *. cbn in *.
      pose proof (zlen_nonneg d). lia. }
    destruct (bt_insert_inv isn P (nxt_off r) a (mkEntry (at_off isn a) d) rest) as (Hi & Hm & Hc); [|done|done|].
    { by apply ooo_inv_filter. }
    exists (bt_insert a (mkEntry (at_off isn a) d) rest), (ooo_mem r - mem_of T + cost (mkEntry (at_off isn a) d)), d'.
    split; [done|]. cbn [ooo ooo_mem with_dup with_ooo].
    pose proof mem_split. unfold cost in *. cbn [e_data] in *.
    assert (zlen d + RANGE_OVERHEAD <= mem_of T + zlen sd + RANGE_OVERHEAD) by (apply (merged_cost a); apply Hcov).
    split_and!; [done|lia|lia|].
    intros o. rewrite Hc, covers_split, <- Hcov. tauto.
Qed.
End InsertOoo.

Lemma prune_spec budget rm :
  0 <= budget ->
  exists gone rm', rm = gone ++ rm' /\ prune budget rm (mem_of rm) = Some (rm', mem_of rm') /\
    mem_of rm' <= budget /\ (mem_of rm <= budget -> gone = []).
Proof.
  intros Hb. induction rm as [|x rm IH]; cbn [prune].
  { exists [], []. cbn. replace (0 >? budget) with false by lia. done. }
  destruct (mem_of (x :: rm) >? budget) eqn:E.
  - destruct x as [k e]. cbn [mem_of foldr snd]. fold (mem_of rm). unfold checked_sub.
    pose proof (mem_of_nonneg rm). destruct (_ <? _) eqn:E2; bool2prop; [lia|]. cbn [mbind option_bind].
    replace (cost e + mem_of rm - cost e) with (mem_of rm) by lia. destruct IH as (gone & rm' & -> & Hp & Hle & _).
    exists ((k, e) :: gone), rm'. split_and!; [done|done|done|]. intros Hle'.
    change (mem_of ((k, e) :: gone ++ rm')) with (cost e + mem_of (gone ++ rm')) in E. lia.
  - exists [], (x :: rm). split_and!; [done|done|lia|done].
Qed.

(** ** Joining out-of-order ranges to the stream *)

Lemma ooo_inv_cons isn P B x m :
  ooo_inv isn P B (x :: m) <-> entry_ok isn P B x /\ Forall (apart x) m /\ ooo_inv isn P B m.
Proof.
  split.
  - intros [Hs He]. inversion_clear Hs. apply Forall_cons_iff in He as [? ?]. split; [done|split; [done|by split]].
  - intros (Hx & Ha & [Hs He]). split; constructor; done.
Qed.

Lemma covers_cons x m o : covers (x :: m) o <-> fst x <= o < finish x \/ covers m o.
Proof.
  unfold covers. setoid_rewrite elem_of_cons. split.
  - intros (y & [->|Hy] & Ho); [by left|right; by exists y].
  - intros [Ho|(y & Hy & Ho)]; [exists x; auto|exists y; auto].
Qed.

Lemma covers_nil o : ~ covers [] o.
Proof. intros (x & Hx & _). by apply not_elem_of_nil in Hx. Qed.

(** Every range left starts past an offset that is not past the first. *)
Lemma ooo_inv_raise isn P B n m :
  ooo_inv isn P B m -> B <= n -> (forall x, head m = Some x -> n < fst x) -> ooo_inv isn P n m.
Proof.
  intros [Hs He] HB Hh. split; [done|]. apply List.Forall_forall. intros x Hx.
  rewrite List.Forall_forall in He. destruct (He x Hx) as [H1 H2 H3 H4]. split; [done| |lia|done].
  enough (n < fst x) by lia. destruct Hs as [|y m Hs Hy]; [done|]. specialize (Hh y eq_refl).
  destruct Hx as [->|Hx]; [done|]. rewrite List.Forall_forall in Hy. specialize (Hy x Hx).
  unfold apart in Hy. pose proof (finish_ge y). lia.
Qed.

Lemma merge_loop_spec isn P B m b noff :
  ooo_inv isn P B m -> B <= noff <= B + 2 ^ 30 ->
  exists new noff' m', merge_loop b (at_off isn noff) noff m (mem_of m)
      = Some (b ++ new, at_off isn noff', noff', m', mem_of m') /\
    holds P noff new /\ noff + zlen new = noff' /\ noff' <= B + 2 ^ 30 /\ ooo_inv isn P noff' m' /\
    mem_of m' <= mem_of m /\
    (forall x, x < noff' \/ covers m' x <-> x < noff \/ covers m x).
Proof.
  revert b noff. induction m as [|[k e] m IH]; intros b noff Hi Hn.
  { exists [], noff, []. rewrite app_nil_r. split_and!; [done|apply holds_nil|rewrite zlen_nil; lia|lia| |lia|done].
    apply (ooo_inv_raise _ _ B); [done|lia|done]. }
  pose proof Hi as Hi0. apply ooo_inv_cons in Hi as ([Hseq [Hp1 Hp2] Hw Hh] & Ha & Hi). cbn [fst snd] in *. cbn [merge_loop].
  assert (mem_of ((k, e) :: m) = cost e + mem_of m) as Hm by done.
  destruct (k >? noff) eqn:E.
  { exists [], noff, ((k, e) :: m). rewrite app_nil_r. split_and!; [done|apply holds_nil|rewrite zlen_nil; lia|lia| |lia|done].
    apply (ooo_inv_raise _ _ B); [done|lia|]. intros x [= <-]. cbn. lia. }
  unfold checked_sub. rewrite Hm. pose proof (mem_of_nonneg m). replace (_ <? _) with false by lia. cbn [mbind option_bind].
  replace (cost e + mem_of m - cost e) with (mem_of m) by lia.
  assert (e_end e = at_off isn (finish (k, e))) as -> by (by apply (e_end_at isn (k, e))).
  rewrite seq_after_at by lia. destruct (noff <? finish (k, e)) eqn:E2; bool2prop.
  - rewrite Hseq. unfold extend_from_deque. rewrite !wrapping_sub_at_le by lia.
    unfold finish in *. cbn [fst snd] in *. replace (_ <=? _) with true by lia. cbn [mbind option_bind].
    replace (noff + (k + zlen (e_data e) - noff)) with (k + zlen (e_data e)) by lia.
    assert (holds P noff (zdrop (noff - k) (e_data e))) as Hz.
    { replace noff with (k + (noff - k)) at 1 by lia. apply holds_zdrop; [lia|done]. }
    assert (zlen (zdrop (noff - k) (e_data e)) = k + zlen (e_data e) - noff) as Hzl by zl.
    destruct (IH (b ++ zdrop (noff - k) (e_data e)) (k + zlen (e_data e))) as
      (new & noff' & m' & Hml & H1 & H2 & H3 & H4 & H5 & H6); [done|lia|].
    exists (zdrop (noff - k) (e_data e) ++ new), noff', m'. rewrite Hml, app_assoc. split_and!; [done| | |lia|done| |].
    + apply holds_app. split; [done|]. by replace (noff + zlen (zdrop (noff - k) (e_data e))) with (k + zlen (e_data e)) by lia.
    + rewrite zlen_app. lia.
    + unfold cost, RANGE_OVERHEAD. pose proof (zlen_nonneg (e_data e)). lia.
    + intros x. rewrite H6, covers_cons. unfold finish. cbn [fst snd]. intuition lia.
  - destruct (IH b noff) as (new & noff' & m' & Hml & H1 & H2 & H3 & H4 & H5 & H6); [done..|].
    exists new, noff', m'. rewrite Hml. split_and!; [done|done|lia|lia|done| |].
    + unfold cost, RANGE_OVERHEAD. pose proof (zlen_nonneg (e_data e)). lia.
    + intros x. rewrite H6, covers_cons. cbn [fst]. intuition lia.
Qed.

(** ** What an insertion does *)

(** Offset [o] of the stream is in the buffer or was read from it. *)
Definition held (r : RecvBuf) (o : Z) : Prop := o < nxt_off r \/ covers (ooo r) o.

(** After taking [lo, hi): what is held, in which order it is given up, and
    what it costs; [grow] bounds the memory a segment can add. *)
Record inserted (isn : Z) (P : Z -> Z -> Prop) (r r' : RecvBuf) (lo hi grow : Z) : Prop := {
  in_inv : rinv isn P r';
  in_new : exists new, rb_buf r' = rb_buf r ++ new /\ holds P (nxt_off r) new /\ nxt_off r' = nxt_off r + zlen new;
  in_win_size : window_size r' = window_size r /\ adv_edge r' = adv_edge r;
  in_budget : ooo_mem r <= ooo_budget r -> ooo_mem r' <= ooo_budget r;
  in_sound : forall o, held r' o -> held r o \/ lo <= o < hi;
  in_kept : forall o, held r o \/ lo <= o < hi -> held r' o \/ (forall o', held r' o' -> o' < o);
  in_all : ooo_mem r + grow <= ooo_budget r -> forall o, held r o \/ lo <= o < hi -> held r' o }.

(** Nothing taken. *)
Lemma inserted_nothing isn P r d lo hi grow :
  rinv isn P r -> (forall o, lo <= o < hi -> o < nxt_off r) -> inserted isn P r (with_dup r d) lo hi grow.
Proof.
  intros R Hlo. split; try done.
  - destruct R. split; done.
  - exists []. rewrite app_nil_r. split_and!; [done|apply holds_nil|cbn; rewrite zlen_nil; lia].
  - intros o Ho. by left.
  - intros o [Ho|Ho]; left; [done|]. left. cbn. auto.
  - intros _ o [Ho|Ho]; [done|]. left. cbn. auto.
Qed.

Lemma inserted_dup isn P r d r' lo hi grow :
  inserted isn P (with_dup r d) r' lo hi grow -> inserted isn P r r' lo hi grow.
Proof. intros [? ? ? ? ? ? ?]. split; done. Qed.

Lemma rinv_dup isn P r d : rinv isn P r -> rinv isn P (with_dup r d).
Proof. intros [? ? ? ?]. by split. Qed.

Lemma budget_nonneg r : 0 <= ooo_budget r.
Proof. unfold ooo_budget. pose proof (Z.div_pos (Z.max (window_size r) 65535) 2). lia. Qed.

Lemma insert_in_order_spec isn P r d grow :
  rinv isn P r -> zlen d <= 2 ^ 30 -> holds P (nxt_off r) d ->
  exists r', insert_in_order r (at_off isn (nxt_off r + zlen d)) d = Some (r', zlen d) /\
    inserted isn P r r' (nxt_off r) (nxt_off r + zlen d) grow.
Proof.
  intros R Hd Hh. pose proof (zlen_nonneg d). unfold insert_in_order.
  match goal with |- context [match ooo r with [] => r | _ => _ end] =>
    assert (exists dd, match ooo r with [] => r | (_, e) :: _ =>
        if seq_before (e_seq e) (at_off isn (nxt_off r + zlen d)) then
          note_dup r (e_seq e) (if seq_before (e_end e) (at_off isn (nxt_off r + zlen d)) then e_end e
            else at_off isn (nxt_off r + zlen d)) else r end = with_dup r dd) as [dd ->] end.
  { destruct (ooo r) as [|[k e] m]; [exists (dup r); by destruct r|].
    destruct (seq_before _ _); [apply note_dup_only|exists (dup r); by destruct r]. }
  unfold merge_ooo. cbn [with_stream with_dup rb_buf rb_nxt nxt_off ooo ooo_mem recent].
  rewrite (ri_mem _ _ _ R).
  destruct (merge_loop_spec isn P (nxt_off r) (ooo r) (rb_buf r ++ d) (nxt_off r + zlen d)) as
    (new & noff' & m' & -> & H1 & H2 & H3 & H4 & H5 & H6); [apply R|lia|].
  cbn [mbind option_bind]. eexists. split; [done|]. pose proof (ri_off _ _ _ R). pose proof (zlen_nonneg new).
  assert (forall o, held r o \/ nxt_off r <= o < nxt_off r + zlen d <-> o < noff' \/ covers m' o) as Hheld.
  { intros o. rewrite H6. unfold held. destruct (decide (o < nxt_off r)); intuition lia. }
  split; try done.
  - split; cbn; [done|lia|done|done].
  - exists (d ++ new). cbn. rewrite app_assoc. split_and!; [done|by apply holds_app|rewrite zlen_app; lia].
  - cbn. rewrite (ri_mem _ _ _ R). lia.
  - intros o Ho. by apply Hheld.
  - intros o Ho. left. by apply Hheld.
  - intros _ o Ho. by apply Hheld.
Qed.

Lemma range_of_dup r d s : range_of (with_dup r d) s = range_of r s.
Proof. done. Qed.

Lemma note_recent_only r s : exists l, note_recent r s = with_recent r l.
Proof.
  unfold note_recent. destruct (range_of r s); [by eexists|]. exists (recent r). by destruct r.
Qed.

Lemma insert_out_of_order_spec isn P r x0 d :
  rinv isn P r -> nxt_off r < x0 -> 0 < zlen d -> x0 + zlen d <= nxt_off r + 2 ^ 30 ->
  nxt_off r + 2 ^ 30 < 2 ^ 64 -> holds P x0 d ->
  exists r', insert_out_of_order r (at_off isn x0) d = Some (r', 0) /\
    inserted isn P r r' x0 (x0 + zlen d) (zlen d + RANGE_OVERHEAD).
Proof.
  intros R Hx0 Hne Hw H64 Hh. unfold insert_out_of_order.
  destruct (insert_ooo_spec isn P r x0 d R Hx0 Hne Hw H64 Hh) as (m & mem & dd & -> & Hm & -> & Hle & Hc).
  cbn [mbind option_bind with_dup with_ooo ooo ooo_mem].
  change (ooo_budget (with_dup (with_ooo r m (mem_of m)) dd)) with (ooo_budget r).
  destruct (prune_spec (ooo_budget r) (reverse m) (budget_nonneg r)) as (gone & rm & Em & Hp & Hb & Hnone).
  rewrite (mem_of_Permutation m (reverse m)) by (by rewrite reverse_Permutation). rewrite Hp. cbn [mbind option_bind].
  match goal with |- context [note_recent ?r0 ?s] => destruct (note_recent_only r0 s) as [l ->] end.
  eexists. split; [done|].
  assert (m = reverse rm ++ reverse gone) as Em' by (rewrite <- reverse_app, <- Em; by rewrite reverse_involutive).
  assert (forall o, covers m o <-> covers (reverse rm) o \/ covers (reverse gone) o) as Hcov.
  { intros o. rewrite Em'. unfold covers. setoid_rewrite elem_of_app. naive_solver. }
  assert (forall o, held r o \/ x0 <= o < x0 + zlen d <-> o < nxt_off r \/ covers m o) as Hheld.
  { intros o. rewrite Hc. unfold held. tauto. }
  destruct Hm as [Hs He]. rewrite Em' in Hs, He. apply Forall_app in He as [He Heg].
  split.
  - split; cbn; [apply R|apply R| |by apply mem_of_Permutation; rewrite reverse_Permutation].
    split; [by eapply StronglySorted_app_1_l|done].
  - exists []. rewrite app_nil_r. split_and!; [done|apply holds_nil|cbn; rewrite zlen_nil; lia].
  - done.
  - intros _. exact Hb.
  - intros o Ho. apply Hheld. destruct Ho as [Ho|Ho]; [by left|right]. apply Hcov. by left.
  - intros o Ho. apply Hheld in Ho as [Ho|Ho]; [by left; left|].
    apply Hcov in Ho as [Ho|(x & Hx & Hox)]; [by left; right|right].
    intros o' [Ho'|(y & Hy & Hoy)].
    + cbn in Ho'. rewrite List.Forall_forall in Heg. apply list_elem_of_In in Hx. destruct (Heg x Hx) as [_ [? ?] _ _]. lia.
    + assert (apart y x) as Hyx by (eapply StronglySorted_app_1_elem_of; [exact Hs|exact Hy|exact Hx]).
      unfold apart in Hyx. lia.
  - intros Hg o Ho. apply Hheld in Ho. rewrite Em', Hnone in Ho; [|rewrite <- (mem_of_Permutation m) by (by rewrite reverse_Permutation); lia].
    rewrite reverse_nil, app_nil_r in Ho. exact Ho.
Qed.

(** The offset a sequence number stands for: the one nearest RCV.NXT. *)
Definition seg_off (r : RecvBuf) (seq : Z) : Z := nxt_off r + i32 (wrapping_sub seq (rb_nxt r)).

(** A number of 32 bits within 2^30 of RCV.NXT, which is the largest window
    there is (RFC 7323). *)
Definition near (r : RecvBuf) (seq : Z) : bool :=
  (0 <=? seq) && (seq <? 2 ^ 32) && (Z.abs (i32 (wrapping_sub seq (rb_nxt r))) <=? 2 ^ 30).

(** What a connection inserts: segments near the window. *)
Definition acceptable (r : RecvBuf) (seq : Z) (data : list Z) : bool :=
  near r seq && (zlen data <? 2 ^ 30) && (0 <=? window_size r) && (window_size r <=? 2 ^ 30) &&
  (nxt_off r <? 2 ^ 63) && match adv_edge r with None => true | Some a => near r a end.

Definition edge_off (r : RecvBuf) : Z :=
  let e := nxt_off r + window r in
  match adv_edge r with
  | Some a => Z.max e (seg_off r a)
  | None => e
  end.

(** Where the window cuts a segment that starts at offset [x0]. *)
Definition taken_end (r : RecvBuf) (x0 n : Z) : Z :=
  if (window_size r =? 0) && (x0 <=? nxt_off r) then x0 + n else Z.min (x0 + n) (edge_off r).

Lemma taken_end_le r x0 n : taken_end r x0 n <= x0 + n.
Proof. unfold taken_end. destruct (_ && _); lia. Qed.

Section Insert.
Context (isn : Z) (P : Z -> Z -> Prop).

Lemma seg_off_at r seq : rinv isn P r -> near r seq = true ->
  seq = at_off isn (seg_off r seq) /\ nxt_off r - 2 ^ 30 <= seg_off r seq <= nxt_off r + 2 ^ 30.
Proof.
  intros R Hn. unfold near in Hn. bool2prop. unfold seg_off. split; [|lia].
  rewrite (ri_nxt _ _ _ R). symmetry. apply at_off_signed. lia.
Qed.

Lemma right_edge_at r seq data :
  rinv isn P r -> acceptable r seq data = true ->
  right_edge r = at_off isn (edge_off r) /\ nxt_off r <= edge_off r <= nxt_off r + 2 ^ 30.
Proof.
  intros R Ha. unfold acceptable in Ha. apply andb_true_iff in Ha as [Ha Hadv]. bool2prop.
  assert (0 <= window r <= 2 ^ 30) as Hw.
  { unfold window. case_if; [lia|]. unfold sat_sub. pose proof (zlen_nonneg (rb_buf r)). rewrite u32_small; lia. }
  unfold right_edge, edge_off. rewrite (ri_nxt _ _ _ R), wrapping_add_at.
  destruct (adv_edge r) as [a|]; [|split; [done|lia]].
  destruct (seg_off_at r a R Hadv) as [Ea Hb]. set (y := seg_off r a) in *. rewrite Ea.
  rewrite seq_after_at by lia. destruct (_ <? _) eqn:E; bool2prop; (split; [f_equal; lia|lia]).
Qed.

(** What [trim_right] leaves of a segment that starts at or after RCV.NXT. *)
Lemma trim_right_spec r seq data x x1 start fin :
  rinv isn P r -> acceptable r seq data = true ->
  nxt_off r <= x <= nxt_off r + 2 ^ 30 -> x < x1 < x + 2 ^ 30 -> x1 - x = fin - start ->
  let e := if (window_size r =? 0) && (x =? nxt_off r) then x1 else Z.min x1 (edge_off r) in
  trim_right r (at_off isn x) (at_off isn x1) start fin
  = if e <=? x then None else Some (start + (e - x), at_off isn e).
Proof.
  intros R Ha Hx Hx1 Hlen e. destruct (right_edge_at r seq data R Ha) as [Hre Hb].
  unfold acceptable in Ha. bool2prop. unfold trim_right. rewrite Hre, (ri_nxt _ _ _ R).
  assert ((at_off isn x =? at_off isn (nxt_off r)) = (x =? nxt_off r)) as ->.
  { destruct (x =? nxt_off r) eqn:E; bool2prop; [apply Z.eqb_eq; congruence|]. apply Z.eqb_neq.
    intros E'. apply at_off_inj in E'; lia. }
  assert ((window_size r >? 0) || negb (x =? nxt_off r) = negb ((window_size r =? 0) && (x =? nxt_off r))) as ->.
  { replace (window_size r >? 0) with (negb (window_size r =? 0)) by lia. by rewrite negb_andb. }
  unfold e. destruct ((window_size r =? 0) && (x =? nxt_off r)); cbn [negb].
  - destruct (x1 <=? x) eqn:E; bool2prop; [lia|]. do 2 f_equal. lia.
  - rewrite seq_after_at by lia. destruct (edge_off r <? x1) eqn:E; bool2prop.
    + rewrite wrapping_sub_at_le, Z.min_r by lia.
      replace (x1 - edge_off r >=? fin - start) with (edge_off r <=? x) by lia.
      destruct (_ <=? _); [done|]. do 2 f_equal. lia.
    + rewrite Z.min_l by lia. replace (x1 <=? x) with false by lia. do 2 f_equal. lia.
Qed.

(** The segment from its first byte at or after RCV.NXT on. *)
Lemma insert_rest r seq0 data0 data x start grow :
  rinv isn P r -> acceptable r seq0 data0 = true -> zlen data < 2 ^ 30 -> 0 <= start < zlen data ->
  nxt_off r <= x <= nxt_off r + 2 ^ 30 -> holds P (x - start) data -> zlen data + RANGE_OVERHEAD <= grow ->
  let x1 := x + (zlen data - start) in
  let e := if (window_size r =? 0) && (x =? nxt_off r) then x1 else Z.min x1 (edge_off r) in
  exists r' n,
    match trim_right r (at_off isn x) (at_off isn x1) start (zlen data) with
    | None => Some (r, 0)
    | Some (fin, end_seq) =>
        d ← get_range data start fin;
        if at_off isn x =? rb_nxt r then insert_in_order r end_seq d
        else insert_out_of_order r (at_off isn x) d
    end = Some (r', n) /\ inserted isn P r r' x e grow.
Proof.
  intros R Ha Hd Hst Hx Hh Hg x1 e. destruct (right_edge_at r seq0 data0 R Ha) as [_ Hb].
  rewrite (trim_right_spec r seq0 data0) by (done || (unfold x1; lia)). fold x1 e.
  destruct (e <=? x) eqn:E; bool2prop.
  { exists r, 0. split; [done|]. replace r with (with_dup r (dup r)) at 2 by (by destruct r).
    apply inserted_nothing; [done|lia]. }
  assert (e <= x1) by (unfold e; destruct (_ && _); lia).
  unfold get_range. replace (_ && _) with true by (unfold x1 in *; lia). cbn [mbind option_bind].
  set (d := slice data start (start + (e - x))).
  assert (zlen d = e - x) as Hzd by (unfold d, x1 in *; rewrite zlen_slice; lia).
  assert (holds P x d) as Hhd by (replace x with ((x - start) + start) by lia; apply holds_slice; [lia|done]).
  rewrite (ri_nxt _ _ _ R). destruct (at_off isn x =? _) eqn:E2; bool2prop.
  - apply at_off_inj in E2; [|lia]. assert (at_off isn e = at_off isn (nxt_off r + zlen d)) as -> by (f_equal; lia).
    destruct (insert_in_order_spec isn P r d grow) as (r' & Hr & Hin);
      [done|unfold x1 in *; lia|by rewrite <- E2|].
    exists r', (zlen d). split; [done|]. replace x with (nxt_off r) by lia.
    by replace e with (nxt_off r + zlen d) by lia.
  - assert (x <> nxt_off r) by congruence. unfold acceptable in Ha. bool2prop.
    assert (e <= nxt_off r + 2 ^ 30).
    { unfold e. destruct ((window_size r =? 0) && (x =? nxt_off r)) eqn:E3; bool2prop; lia. }
    destruct (insert_out_of_order_spec isn P r x d) as (r' & Hr & Hin); [done|lia..|done|].
    exists r', 0. split; [done|]. replace (x + zlen d) with e in Hin by lia.
    destruct Hin as [? ? ? ? ? ? Hall]. split; try done. intros Hgr. apply Hall. lia.
Qed.

Lemma inserted_widen r r' lo hi lo' grow :
  inserted isn P r r' lo hi grow -> lo' <= lo <= nxt_off r -> inserted isn P r r' lo' hi grow.
Proof.
  intros [H1 H2 H3 H4 Hs Hk Ha] Hlo.
  assert (forall o, held r o \/ lo' <= o < hi <-> held r o \/ lo <= o < hi) as E.
  { intros o. unfold held. destruct (decide (o < nxt_off r)); [tauto|]. intuition lia. }
  split; try done.
  - intros o Ho. apply E. auto.
  - intros o Ho. apply Hk, E, Ho.
  - intros Hg o Ho. apply Ha, E, Ho. done.
Qed.

Lemma insert_spec r seq data :
  rinv isn P r -> acceptable r seq data = true -> holds P (seg_off r seq) data ->
  exists r' n, insert r seq data = Some (r', n) /\
    inserted isn P r r' (seg_off r seq) (taken_end r (seg_off r seq) (zlen data)) (zlen data + RANGE_OVERHEAD).
Proof.
  intros R Ha Hh. pose proof Ha as Ha'. unfold acceptable in Ha'. bool2prop.
  destruct (seg_off_at r seq R) as [Eseq Hx0]; [done|]. set (x0 := seg_off r seq) in *. unfold insert.
  destruct data as [|b data'].
  { exists (with_dup r None), 0. split; [done|]. apply inserted_nothing; [done|].
    pose proof (taken_end_le r x0 (zlen (@nil Z))). rewrite zlen_nil in *. lia. }
  set (data := b :: data') in *.
  assert (0 < zlen data) by (unfold data; rewrite zlen_cons; pose proof (zlen_nonneg data'); lia). clearbody data.
  cbn [rb_nxt with_dup]. rewrite Eseq, (ri_nxt _ _ _ R), seq_before_at by lia.
  destruct (x0 <? nxt_off r) eqn:E; bool2prop.
  - rewrite wrapping_sub_at_le by lia.
    match goal with |- context [note_dup ?a ?b ?c] => destruct (note_dup_only a b c) as [dd ->] end.
    change (with_dup (with_dup r None) dd) with (with_dup r dd).
    destruct (nxt_off r - x0 >=? zlen data - 0) eqn:E2.
    + exists (with_dup r dd), 0. split; [done|]. apply inserted_nothing; [done|].
      pose proof (taken_end_le r x0 (zlen data)). lia.
    + rewrite Z.add_0_l, wrapping_add_at_u32.
      destruct (insert_rest (with_dup r dd) seq data data (nxt_off r) (nxt_off r - x0) (zlen data + RANGE_OVERHEAD))
        as (r' & n & Hr & Hin); [by apply rinv_dup|done|lia|lia|cbn; lia| |lia|].
      { by replace (nxt_off r - (nxt_off r - x0)) with x0 by lia. }
      replace (nxt_off r + (zlen data - (nxt_off r - x0))) with (x0 + zlen data) in Hr, Hin by lia.
      cbn [with_dup rb_nxt window_size] in Hr, Hin |- *. rewrite (ri_nxt _ _ _ R) in Hr |- *.
      exists r', n. split; [exact Hr|]. apply inserted_dup in Hin.
      apply (inserted_widen _ _ (nxt_off r)); [|lia]. change (edge_off (with_dup r dd)) with (edge_off r) in Hin.
      change (nxt_off (with_dup r dd)) with (nxt_off r) in Hin. rewrite Z.eqb_refl in Hin. unfold taken_end.
      by replace (x0 <=? nxt_off r) with true by lia.
  - rewrite wrapping_add_at_u32.
    destruct (insert_rest (with_dup r None) seq data data x0 0 (zlen data + RANGE_OVERHEAD))
      as (r' & n & Hr & Hin); [by apply rinv_dup|done|lia|lia|cbn; lia| |lia|].
    { by rewrite Z.sub_0_r. }
    rewrite Z.sub_0_r in Hr, Hin. cbn [with_dup rb_nxt window_size] in Hr, Hin |- *. rewrite (ri_nxt _ _ _ R) in Hr |- *.
    exists r', n. split; [exact Hr|]. apply inserted_dup in Hin.
    change (edge_off (with_dup r None)) with (edge_off r) in Hin. change (nxt_off (with_dup r None)) with (nxt_off r) in Hin.
    unfold taken_end. by replace (x0 <=? nxt_off r) with (x0 =? nxt_off r) by lia.
Qed.
End Insert.

(** ** Runs *)

(** What happens to the buffer of a connection whose peer sends the stream
    [f]: pieces of the stream arrive in any order, overlapping or again, and
    the application reads. *)
Inductive rop :=
  | Segment (x0 n : Z) (* the bytes at offsets [x0, x0 + n) *)
  | Read (front plen : Z)
  | SetLimit (limit : Z)
  | SetAdvEdge (edge : Z)
  | TakeDup
  | Release.

Section Runs.
Context (f : Z -> Z) (isn : Z).

Definition piece (x0 n : Z) : list Z := f <$> seqZ x0 n.

Definition rallowed (r : RecvBuf) (o : rop) : bool :=
  match o with
  | Segment x0 n => (Z.abs (x0 - nxt_off r) <=? 2 ^ 30) && acceptable r (at_off isn x0) (piece x0 n)
  | Read front plen => (0 <=? plen) && (0 <=? front) && (front <=? zlen (rb_buf r))
  | SetLimit limit => (0 <=? limit) && (limit <=? 2 ^ 30)
  | SetAdvEdge _ | TakeDup | Release => true
  end.

Definition rstep (st : RecvBuf * list Z) (o : rop) : option (RecvBuf * list Z) :=
  let '(r, out) := st in
  match o with
  | Segment x0 n => '(r, _) ← insert r (at_off isn x0) (piece x0 n); Some (r, out)
  | Read front plen => let '(r, got) := read front r plen in Some (r, out ++ got)
  | SetLimit limit => Some (set_limit r limit, out)
  | SetAdvEdge edge => Some (set_adv_edge r edge, out)
  | TakeDup => Some ((take_dup r).1, out)
  | Release => Some (release_memory r true, out)
  end.

(** [None] when an operation panics. *)
Fixpoint rrun (st : RecvBuf * list Z) (os : list rop) : option (RecvBuf * list Z) :=
  match os with
  | [] => Some st
  | o :: os => st ← rstep st o; rrun st os
  end.

Fixpoint all_rallowed (st : RecvBuf * list Z) (os : list rop) : bool :=
  match os with
  | [] => true
  | o :: os =>
      rallowed st.1 o && match rstep st o with Some st => all_rallowed st os | None => true end
  end.

(** The invariant of a run: what was read and what is unread are the stream
    up to RCV.NXT. *)
Record run_inv (st : RecvBuf * list Z) : Prop := {
  ru_inv : rinv isn (fun o b => b = f o) st.1;
  ru_stream : st.2 ++ rb_buf st.1 = piece 0 (nxt_off st.1) }.

Lemma holds_piece x0 n : holds (fun o b => b = f o) x0 (piece x0 n).
Proof.
  intros i b Hi. unfold piece in Hi. rewrite list_lookup_fmap in Hi.
  destruct (seqZ x0 n !! i) eqn:E; [|done]. apply lookup_seqZ in E as [-> _]. by injection Hi as <-.
Qed.

Lemma holds_eq_piece x0 d : holds (fun o b => b = f o) x0 d -> d = piece x0 (zlen d).
Proof.
  intros H. apply list_eq. intros i. unfold piece. rewrite list_lookup_fmap.
  destruct (d !! i) as [b|] eqn:E.
  - pose proof (lookup_lt_Some _ _ _ E). rewrite (proj2 (lookup_seqZ x0 (zlen d) i (x0 + Z.of_nat i))) by (unfold zlen; lia).
    cbn. by rewrite (H i b E).
  - apply lookup_ge_None in E. rewrite lookup_seqZ_ge by (unfold zlen; lia). done.
Qed.

Lemma piece_app a n m : 0 <= n -> 0 <= m -> piece a (n + m) = piece a n ++ piece (a + n) m.
Proof. intros. unfold piece. by rewrite seqZ_app, fmap_app by lia. Qed.

Lemma segment_off r x0 n :
  rinv isn (fun o b => b = f o) r -> rallowed r (Segment x0 n) = true -> seg_off r (at_off isn x0) = x0.
Proof.
  intros R Ha. cbn [rallowed] in Ha. apply andb_true_iff in Ha as [Ha _]. bool2prop. unfold seg_off.
  rewrite (ri_nxt _ _ _ R), signed_at by lia. lia.
Qed.

Lemma segment_spec r x0 n :
  rinv isn (fun o b => b = f o) r -> rallowed r (Segment x0 n) = true ->
  exists r' k, insert r (at_off isn x0) (piece x0 n) = Some (r', k) /\
    inserted isn (fun o b => b = f o) r r' x0 (taken_end r x0 (zlen (piece x0 n))) (zlen (piece x0 n) + RANGE_OVERHEAD).
Proof.
  intros R Ha. pose proof (segment_off r x0 n R Ha) as Hoff. cbn [rallowed] in Ha. apply andb_true_iff in Ha as [_ Ha].
  pose proof (insert_spec isn (fun o b => b = f o) r (at_off isn x0) (piece x0 n) R Ha) as K.
  rewrite Hoff in K. apply K, holds_piece.
Qed.

Lemma set_adv_edge_only r edge : exists a, set_adv_edge r edge
  = mkRecvBuf (rb_buf r) (rb_nxt r) (nxt_off r) (ooo r) (ooo_mem r) (recent r) (window_size r) a (dup r).
Proof.
  unfold set_adv_edge. destruct r as [? ? ? ? ? ? ? [a|] ?]; cbn; [destruct (seq_after edge a)|]; by eexists.
Qed.

Lemma run_inv_new w : 0 <= isn < 2 ^ 32 -> run_inv (RecvBuf_new isn w, []).
Proof.
  intros Hi. split; [|done]. split; cbn; [|done| |done]; [unfold at_off; rewrite Z.add_0_r; by rewrite u32_small|].
  split; constructor.
Qed.

Lemma rstep_inv st o :
  run_inv st -> rallowed st.1 o = true -> exists st', rstep st o = Some st' /\ run_inv st'.
Proof.
  destruct st as [r out]. intros [R Hs] Ha. cbn [fst snd] in *. pose proof (ri_off _ _ _ R). destruct o; cbn [rstep].
  - destruct (segment_spec r x0 n R Ha) as (r' & k & -> & Hin). cbn [mbind option_bind]. eexists. split; [done|].
    destruct Hin as [R' (new & Hb & Hn & Ho) _ _ _ _ _]. split; [done|]. cbn [fst snd].
    rewrite Hb, app_assoc, Hs, Ho, piece_app by (done || apply zlen_nonneg). f_equal. by apply holds_eq_piece.
  - cbn [rallowed] in Ha. bool2prop. unfold read. eexists. split; [done|]. split; cbn [fst snd].
    + destruct R. by split.
    + cbn. rewrite <- app_assoc, ztake_zdrop. done.
  - eexists. split; [done|]. split; [destruct R; by split|done].
  - eexists. split; [done|]. destruct (set_adv_edge_only r edge) as [a ->]. split; [destruct R; by split|done].
  - eexists. split; [done|]. split; [destruct R; by split|done].
  - eexists. split; [done|]. unfold release_memory. cbn [negb orb].
    assert (rinv isn (fun o b => b = f o) (with_recent (with_ooo r [] 0) [])) as R'
      by (destruct R; split; cbn; try done; split; constructor).
    case_if; cbn in *; split; cbn; try done; [destruct R'; by split|].
    apply zlen_zero in Heqb. rewrite Heqb, app_nil_r in Hs. by rewrite app_nil_r.
Qed.

Lemma rrun_inv st os :
  run_inv st -> all_rallowed st os = true -> exists st', rrun st os = Some st' /\ run_inv st'.
Proof.
  revert st. induction os as [|o os IH]; intros st R Ha; [by exists st|]. cbn [all_rallowed] in Ha.
  apply andb_true_iff in Ha as [Ho Ha]. destruct (rstep_inv st o R Ho) as (st1 & E & R1).
  cbn [rrun]. rewrite E in Ha |- *. cbn [mbind option_bind]. auto.
Qed.
End Runs.

(** ** SACK blocks *)

Lemma range_of_elem r s e : range_of r s = Some e -> e ∈ (ooo r).*2.
Proof.
  unfold range_of. destruct (negb _); [done|]. destruct (bt_last_le _ _) as [[k e']|] eqn:E; [|done]. cbn.
  destruct (seq_before _ _); [|done]. intros [= <-]. unfold bt_last_le in E. apply list.last_Some in E as [l' E].
  apply list_elem_of_fmap. exists (k, e'). split; [done|].
  assert ((k, e') ∈ filter (fun x => x.1 <= off r s) (ooo r)) as Hin by (rewrite E; apply elem_of_app; right; left).
  apply list_elem_of_filter in Hin. tauto.
Qed.

Lemma push_blocks_spec max es out :
  NoDup out -> zlen out <= max ->
  let res := push_blocks max out es in
  NoDup res /\ zlen res <= max /\ (forall b, b ∈ res -> b ∈ out \/ b ∈ block <$> es) /\
  (zlen res < max -> forall b, b ∈ out \/ b ∈ block <$> es -> b ∈ res).
Proof.
  revert out. induction es as [|e es IH]; intros out Hnd Hl; cbn [push_blocks].
  { cbn. split_and!; auto. intros _ b [Hb|Hb]; [done|by apply not_elem_of_nil in Hb]. }
  destruct (zlen out =? max) eqn:E; bool2prop.
  { cbn. split_and!; auto; lia. }
  rewrite fmap_cons. setoid_rewrite elem_of_cons. case_bool_decide as Hin.
  - destruct (IH out Hnd Hl) as (H1 & H2 & H3 & H4). split_and!; [done|done| |].
    + intros b Hb. apply H3 in Hb. tauto.
    + intros Hlt b Hb. apply H4; [done|]. destruct Hb as [Hb|[->|Hb]]; tauto.
  - destruct (IH (out ++ [block e])) as (H1 & H2 & H3 & H4).
    { apply list.NoDup_app. split_and!; [done| |repeat constructor; apply not_elem_of_nil].
      intros b Hb Hb'. apply list_elem_of_singleton in Hb' as ->. done. }
    { zl. }
    setoid_rewrite elem_of_app in H3. setoid_rewrite elem_of_app in H4. setoid_rewrite list_elem_of_singleton in H3.
    setoid_rewrite list_elem_of_singleton in H4. split_and!; [done|done| |].
    + intros b Hb. apply H3 in Hb. tauto.
    + intros Hlt b Hb. apply H4; [done|]. tauto.
Qed.

(** A block covers one whole range, between bytes that are missing. *)
Definition whole_range (isn : Z) (r : RecvBuf) (b : SackBlock) (lo hi : Z) : Prop :=
  b = mkSack (at_off isn lo) (at_off isn hi) /\ nxt_off r < lo < hi /\
  (forall o, lo <= o < hi -> held r o) /\ ~ held r (lo - 1) /\ ~ held r hi.

Lemma block_whole isn P r x :
  rinv isn P r -> x ∈ ooo r -> whole_range isn r (block (snd x)) (fst x) (finish x).
Proof.
  intros R Hx. destruct (ri_ooo _ _ _ R) as [Hs He]. rewrite List.Forall_forall in He.
  destruct (He x) as [H1 H2 H3 _]; [by apply list_elem_of_In|].
  unfold whole_range, block. rewrite (e_end_at isn x H1), H1. split_and!; [done|lia|lia| | |].
  - intros o Ho. right. by exists x.
  - intros [Ho|(y & Hy & Ho)]; [lia|]. destruct (decide (x = y)) as [->|Hne]; [lia|].
    destruct (sorted_total x y (ooo r) Hs Hx Hy Hne) as [Ha|Ha]; unfold apart in Ha; lia.
  - intros [Ho|(y & Hy & Ho)]; [lia|]. destruct (decide (x = y)) as [->|Hne]; [lia|].
    destruct (sorted_total x y (ooo r) Hs Hx Hy Hne) as [Ha|Ha]; unfold apart in Ha; lia.
Qed.

Lemma sack_blocks_spec isn P r max :
  rinv isn P r -> 0 <= max ->
  let bs := sack_blocks_up_to r max in
  NoDup bs /\ zlen bs <= Z.min max MAX_SACK_BLOCKS /\
  (forall b, b ∈ bs -> exists lo hi, whole_range isn r b lo hi) /\
  (zlen bs < Z.min max MAX_SACK_BLOCKS -> forall o, held r o -> nxt_off r <= o ->
     exists b lo hi, b ∈ bs /\ whole_range isn r b lo hi /\ lo <= o < hi).
Proof.
  intros R Hmax. unfold sack_blocks_up_to.
  destruct (push_blocks_spec (Z.min max MAX_SACK_BLOCKS) (omap (range_of r) (recent r) ++ (ooo r).*2) [])
    as (H1 & H2 & H3 & H4); [apply NoDup_nil_2|change (zlen []) with 0; unfold MAX_SACK_BLOCKS; lia|].
  assert (forall e, e ∈ omap (range_of r) (recent r) ++ (ooo r).*2 -> e ∈ (ooo r).*2) as Hes.
  { intros e He. apply elem_of_app in He as [He|He]; [|done]. apply list_elem_of_omap in He as (s & _ & Hs).
    by eapply range_of_elem. }
  split_and!; [done|done| |].
  - intros b Hb. apply H3 in Hb as [Hb|Hb]; [by apply not_elem_of_nil in Hb|].
    apply list_elem_of_fmap in Hb as (e & -> & He). apply Hes, list_elem_of_fmap in He as (x & -> & Hx).
    exists (fst x), (finish x). by eapply block_whole.
  - intros Hlt o [Ho|(x & Hx & Ho)] Hn; [lia|]. exists (block (snd x)), (fst x), (finish x).
    split_and!; [|by eapply block_whole|lia|lia]. apply H4; [done|]. right.
    apply list_elem_of_fmap. exists (snd x). split; [done|]. apply elem_of_app. right.
    apply list_elem_of_fmap. by exists x.
Qed.

Lemma rstep_budget f isn w st o st' :
  run_inv f isn st -> rallowed f isn st.1 o = true -> match o with SetLimit _ => False | _ => True end ->
  ooo_mem st.1 <= ooo_budget st.1 /\ window_size st.1 = w -> rstep f isn st o = Some st' ->
  ooo_mem st'.1 <= ooo_budget st'.1 /\ window_size st'.1 = w.
Proof.
  destruct st as [r out]. intros [R _] Ha Ho [Hm Hw] E. cbn [fst] in *. destruct o; cbn [rstep] in E; try done.
  - destruct (segment_spec f isn r x0 n R Ha) as (r' & k & Ei & Hin). rewrite Ei in E. injection E as <-. cbn [fst].
    destruct (in_win_size _ _ _ _ _ _ _ Hin) as [Hs _]. split; [|congruence].
    replace (ooo_budget r') with (ooo_budget r) by (unfold ooo_budget; by rewrite Hs). by apply (in_budget _ _ _ _ _ _ _ Hin).
  - by injection E as <-.
  - destruct (set_adv_edge_only r edge) as [a Ea]. injection E as <-. rewrite Ea. done.
  - by injection E as <-.
  - injection E as <-. cbn [fst]. unfold release_memory. case_if; (split; [apply budget_nonneg|done]).
Qed.

(** ** The properties *)

(** A stream to run on: the bytes of it are the offsets modulo 256. *)
Definition sample (o : Z) : Z := o mod 256.

(** C3: Whatever pieces of the peer's stream arrive (in any order, overlapping,
    again, or past the window) and however the application reads, the buffer
    never panics, and the bytes read followed by the unread ones are exactly
    the stream up to RCV.NXT: nothing is lost, doubled, reordered or corrupted
    on the way, across wraps of the sequence space. *)
Theorem recvbuf_delivers_stream (f : Z -> Z) (isn w : Z) (os : list rop) :
  0 <= isn < 2 ^ 32 -> all_rallowed f isn (RecvBuf_new isn w, []) os = true ->
  exists r out, rrun f isn (RecvBuf_new isn w, []) os = Some (r, out) /\
    out ++ rb_buf r = piece f 0 (nxt_off r) /\ rb_nxt r = at_off isn (nxt_off r).
Proof.
  intros Hi Ha. destruct (rrun_inv f isn _ os (run_inv_new f isn w Hi) Ha) as ([r out] & Hr & [R Hs]).
  exists r, out. split_and!; [done|done|apply R].
Qed.

Lemma recvbuf_delivers_stream_witness :
  let os := [Segment 6 4; Segment 12 3; Segment 0 4; Read 4 3; Segment 2 11; Read 10 8] in
  (fun st => st.2) <$> rrun sample (2 ^ 32 - 5) (RecvBuf_new (2 ^ 32 - 5) 1000, []) os
  = Some [0; 1; 2; 3; 4; 5; 6; 7; 8; 9; 10] /\
  exists r out, rrun sample (2 ^ 32 - 5) (RecvBuf_new (2 ^ 32 - 5) 1000, []) os = Some (r, out) /\
    out ++ rb_buf r = piece sample 0 (nxt_off r) /\ rb_nxt r = at_off (2 ^ 32 - 5) (nxt_off r).
Proof.
  cbv zeta. split; [vm_compute; reflexivity|]. apply recvbuf_delivers_stream; [lia|vm_compute; reflexivity].
Defined.

(** A segment inserted into any buffer a run leads to is taken as far as
    the window reaches: afterwards exactly the bytes held before and those of
    the segment inside the window are held, as long as the memory bound has
    room for the segment; over the bound, what is given up lies past
    everything that is kept.  RCV.NXT is always the first byte missing, so no
    byte that continues the stream is withheld from the reader. *)
Theorem recvbuf_insert_takes_window (f : Z -> Z) (isn w : Z) (os : list rop) (r : RecvBuf) (out : list Z) (x0 n : Z) :
  0 <= isn < 2 ^ 32 -> all_rallowed f isn (RecvBuf_new isn w, []) os = true ->
  rrun f isn (RecvBuf_new isn w, []) os = Some (r, out) -> rallowed f isn r (Segment x0 n) = true ->
  exists r' k, insert r (at_off isn x0) (piece f x0 n) = Some (r', k) /\
    let fresh o := x0 <= o < taken_end r x0 (zlen (piece f x0 n)) in
    (forall o, held r' o -> held r o \/ fresh o) /\
    (ooo_mem r + (zlen (piece f x0 n) + RANGE_OVERHEAD) <= ooo_budget r -> forall o, held r o \/ fresh o -> held r' o) /\
    (forall o, held r o \/ fresh o -> held r' o \/ (forall o', held r' o' -> o' < o)) /\
    ~ held r' (nxt_off r').
Proof.
  intros Hi Ha Hr Ho. destruct (rrun_inv f isn _ os (run_inv_new f isn w Hi) Ha) as (st & Hr' & [R _]).
  rewrite Hr in Hr'. injection Hr' as <-. destruct (segment_spec f isn r x0 n R Ho) as (r' & k & E & Hin).
  exists r', k. destruct Hin as [R' _ _ _ H1 H2 H3]. split; [done|]. cbv zeta. split_and!; [done|done|done|].
  intros [Hn|(x & Hx & Hox)]; [lia|]. destruct (ri_ooo _ _ _ R') as [_ He]. rewrite List.Forall_forall in He.
  destruct (He x) as [_ ? _ _]; [by apply list_elem_of_In|]. lia.
Qed.

Lemma recvbuf_insert_takes_window_witness :
  exists r' k, insert (RecvBuf_new 7 10) (at_off 7 4) (piece sample 4 20) = Some (r', k) /\
    let fresh o := 4 <= o < taken_end (RecvBuf_new 7 10) 4 (zlen (piece sample 4 20)) in
    (forall o, held r' o -> held (RecvBuf_new 7 10) o \/ fresh o) /\
    (0 + (zlen (piece sample 4 20) + RANGE_OVERHEAD) <= 98302 ->
      forall o, held (RecvBuf_new 7 10) o \/ fresh o -> held r' o) /\
    (forall o, held (RecvBuf_new 7 10) o \/ fresh o -> held r' o \/ (forall o', held r' o' -> o' < o)) /\
    ~ held r' (nxt_off r').
Proof.
  apply (recvbuf_insert_takes_window sample 7 10 [] (RecvBuf_new 7 10) [] 4 20);
    [lia|vm_compute; reflexivity..].
Defined.

(** C33: In any buffer a run leads to, every SACK block reported is one whole
    out-of-order range (all of it held, the bytes before and after it
    missing); there are at most four, none twice; and when there is room for
    more, every out-of-order byte held is in one of them. *)
Theorem recvbuf_sack_exact (f : Z -> Z) (isn w : Z) (os : list rop) (r : RecvBuf) (out : list Z) (max : Z) :
  0 <= isn < 2 ^ 32 -> all_rallowed f isn (RecvBuf_new isn w, []) os = true ->
  rrun f isn (RecvBuf_new isn w, []) os = Some (r, out) -> 0 <= max ->
  let bs := sack_blocks_up_to r max in
  NoDup bs /\ zlen bs <= Z.min max 4 /\
  (forall b, b ∈ bs -> exists lo hi, whole_range isn r b lo hi) /\
  (zlen bs < Z.min max 4 -> forall o, held r o -> nxt_off r <= o ->
     exists b lo hi, b ∈ bs /\ whole_range isn r b lo hi /\ lo <= o < hi).
Proof.
  intros Hi Ha Hr Hmax. destruct (rrun_inv f isn _ os (run_inv_new f isn w Hi) Ha) as (st & Hr' & [R _]).
  rewrite Hr in Hr'. injection Hr' as <-. by apply (sack_blocks_spec isn _ r max R).
Qed.

Definition sample_run : option (RecvBuf * list Z) :=
  rrun sample 7 (RecvBuf_new 7 1000, []) [Segment 5 2; Segment 20 3; Segment 9 1].

Lemma recvbuf_sack_exact_witness :
  match sample_run with
  | Some (r, _) =>
      sack_blocks_up_to r 3 = [mkSack 16 17; mkSack 27 30; mkSack 12 14] /\
      NoDup (sack_blocks_up_to r 3) /\
      (forall b, b ∈ sack_blocks_up_to r 3 -> exists lo hi, whole_range 7 r b lo hi)
  | None => False
  end.
Proof.
  destruct sample_run as [[r out]|] eqn:E; [|vm_compute in E; discriminate].
  assert (sack_blocks_up_to r 3 = [mkSack 16 17; mkSack 27 30; mkSack 12 14])
    by (vm_compute in E; injection E as <- _; vm_compute; reflexivity).
  destruct (recvbuf_sack_exact sample 7 1000 [Segment 5 2; Segment 20 3; Segment 9 1] r out 3)
    as (H1 & _ & H2 & _); [lia|vm_compute; reflexivity|exact E|lia|auto].
Defined.

(** Without a change of the buffer's size, the out-of-order ranges never
    cost more than one and a half times the larger of the buffer and 65535
    bytes, headers of 128 bytes a range included, whatever arrives. *)
Theorem recvbuf_memory_bounded (f : Z -> Z) (isn w : Z) (os : list rop) (r : RecvBuf) (out : list Z) :
  0 <= isn < 2 ^ 32 -> all_rallowed f isn (RecvBuf_new isn w, []) os = true ->
  Forall (fun o => match o with SetLimit _ => False | _ => True end) os ->
  rrun f isn (RecvBuf_new isn w, []) os = Some (r, out) ->
  mem_of (ooo r) <= Z.max w 65535 + Z.max w 65535 / 2.
Proof.
  intros Hi Ha Hos Hr.
  enough (run_inv f isn (r, out) /\ ooo_mem r <= ooo_budget r /\ window_size r = w) as ([R _] & Hm & Hw).
  { cbn [fst] in R. rewrite <- (ri_mem _ _ _ R). unfold ooo_budget in Hm. by rewrite Hw in Hm. }
  pose proof (run_inv_new f isn w Hi) as R0.
  assert (ooo_mem (RecvBuf_new isn w) <= ooo_budget (RecvBuf_new isn w) /\ window_size (RecvBuf_new isn w) = w) as H0
    by (split; [apply budget_nonneg|done]).
  revert R0 H0 Ha Hr. generalize (RecvBuf_new isn w) (@nil Z). induction Hos as [|o os Ho Hos IH]; intros r0 out0 R0 H0 Ha Hr.
  { injection Hr as -> ->. done. }
  cbn [all_rallowed] in Ha. apply andb_true_iff in Ha as [Hal Ha].
  destruct (rstep_inv f isn _ o R0 Hal) as ([r1 out1] & E & R1). cbn [rrun] in Hr. rewrite E in Ha, Hr.
  apply (IH r1 out1 R1); [|done|done]. by apply (rstep_budget f isn w (r0, out0) o (r1, out1)).
Qed.

Lemma recvbuf_memory_bounded_witness :
  match sample_run with
  | Some (r, _) => mem_of (ooo r) = 390 /\ mem_of (ooo r) <= Z.max 1000 65535 + Z.max 1000 65535 / 2
  | None => False
  end.
Proof.
  destruct sample_run as [[r out]|] eqn:E; [|vm_compute in E; discriminate]. split.
  - vm_compute in E. injection E as <- _. vm_compute. reflexivity.
  - apply (recvbuf_memory_bounded sample 7 1000 [Segment 5 2; Segment 20 3; Segment 9 1] r out);
      [lia|vm_compute; reflexivity|repeat constructor|exact E].
Defined.
