(* ===== verification/TcpCodec.v ===== *)
(** * TCP options and segments ([src/src/vtcp/options.rs],
    [src/src/vtcp/segment.rs])

    The codec of the TCP engine.  [None] is a panic (an index or a slice out
    of range) or a loop that does not end. *)

From S2P Require Import Prelude SeqSpace RecvBuf.

(** ** Options *)

Module kind.
Definition End : Z := 0.
Definition Nop : Z := 1.
Definition Mss : Z := 2.
Definition WScale : Z := 3.
Definition SackPerm : Z := 4.
Definition Sack : Z := 5.
Definition Timestamp : Z := 8.
Definition FastOpen : Z := 34.
End kind.

Record TcpOption := mkOption { o_kind : Z; o_data : list Z }.

(** [while i < raw.len()] *)
Fixpoint parse_loop (fuel : nat) (raw : list Z) (i : Z) (opts : list TcpOption) : option (list TcpOption) :=
  match fuel with
  | O => None
  | S fuel =>
      if i <? zlen raw then
        k ← get raw i;
        if k =? kind.End then Some opts
        else if k =? kind.Nop then parse_loop fuel raw (i + 1) (opts ++ [mkOption kind.Nop []])
        else if i + 1 >=? zlen raw then Some opts
        else
          l ← get raw (i + 1);
          if (l <? 2) || (i + l >? zlen raw) then Some opts
          else
            data ← if l >? 2 then get_range raw (i + 2) (i + l) else Some [];
            parse_loop fuel raw (i + l) (opts ++ [mkOption k data])
      else Some opts
  end.

(** Every turn moves [i] on, so one more turn than bytes is enough. *)
Definition parse_options (raw : list Z) : option (list TcpOption) := parse_loop (S (length raw)) raw 0 [].

Definition option_len (o : TcpOption) : Z := if o_kind o =? kind.Nop then 1 else 2 + zlen (o_data o).

Definition next_multiple_of_4 (n : Z) : Z := (n + 3) / 4 * 4.

Definition options_len (opts : list TcpOption) : Z :=
  next_multiple_of_4 (foldr (fun o acc => option_len o + acc) 0 opts).

(** [buf[i..i + bs.len()].copy_from_slice(bs)] *)
Definition put (buf : list Z) (i : Z) (bs : list Z) : option (list Z) :=
  if (0 <=? i) && (i + zlen bs <=? zlen buf) then Some (splice buf i bs) else None.

Fixpoint write_loop (opts : list TcpOption) (buf : list Z) (i : Z) : option (list Z * Z) :=
  match opts with
  | [] => Some (buf, i)
  | o :: opts =>
      buf ← put buf i [o_kind o];
      let i := i + 1 in
      if o_kind o =? kind.Nop then write_loop opts buf i
      else
        buf ← put buf i [u8 (2 + zlen (o_data o))];
        buf ← put buf (i + 1) (o_data o);
        write_loop opts buf (i + (1 + zlen (o_data o)))
  end.

Definition write_options (opts : list TcpOption) (buf : list Z) : option (list Z) :=
  '(buf, i) ← write_loop opts buf 0;
  put buf i (replicate (Z.to_nat (zlen buf - i)) kind.End).

Definition mss_option (mss : Z) : TcpOption := mkOption kind.Mss (be16 mss).
Definition wscale_option (shift : Z) : TcpOption := mkOption kind.WScale [shift].
Definition sack_perm_option : TcpOption := mkOption kind.SackPerm [].
Definition sack_option (blocks : list SackBlock) : TcpOption :=
  mkOption kind.Sack (mjoin ((fun b => be_bytes 4 (sk_left b) ++ be_bytes 4 (sk_right b)) <$> blocks)).
Definition timestamp_option (ts_val ts_ecr : Z) : TcpOption :=
  mkOption kind.Timestamp (be_bytes 4 ts_val ++ be_bytes 4 ts_ecr).

(** [for o in opts]: the first that [ok] takes. *)
Fixpoint find_opt (ok : TcpOption -> bool) (opts : list TcpOption) : option TcpOption :=
  match opts with
  | [] => None
  | o :: opts => if ok o then Some o else find_opt ok opts
  end.

Definition get_mss (opts : list TcpOption) : Z :=
  match find_opt (fun o => (o_kind o =? kind.Mss) && (zlen (o_data o) =? 2)) opts with
  | Some o => of_be_bytes (o_data o)
  | None => 0
  end.

Definition MIN_MSS : Z := 88.

Definition peer_mss (opts : list TcpOption) (ipv6 : bool) : Z :=
  let m := get_mss opts in
  if m =? 0 then if ipv6 then 1220 else 536 else Z.max m MIN_MSS.

Definition get_wscale (opts : list TcpOption) : option Z :=
  o ← find_opt (fun o => (o_kind o =? kind.WScale) && (zlen (o_data o) =? 1)) opts;
  Some (o_data o).[0].

Definition get_timestamp (opts : list TcpOption) : option (Z * Z) :=
  o ← find_opt (fun o => (o_kind o =? kind.Timestamp) && (zlen (o_data o) =? 8)) opts;
  Some (of_be_bytes (slice (o_data o) 0 4), of_be_bytes (slice (o_data o) 4 8)).

Definition get_sack_blocks (opts : list TcpOption) : list SackBlock :=
  match find_opt (fun o => (o_kind o =? kind.Sack) && (zlen (o_data o) >=? 8) && (zlen (o_data o) mod 8 =? 0)) opts with
  | Some o =>
      let d := o_data o in
      (fun i => let base := i * 8 in
         mkSack (of_be_bytes (slice d base (base + 4))) (of_be_bytes (slice d (base + 4) (base + 8))))
      <$> seqZ 0 (zlen d / 8)
  | None => []
  end.

Definition has_sack_perm (opts : list TcpOption) : bool :=
  match find_opt (fun o => o_kind o =? kind.SackPerm) opts with Some _ => true | None => false end.

(** ** Segments *)

Module flags.
Definition FIN : Z := 1.
Definition SYN : Z := 2.
Definition RST : Z := 4.
Definition PSH : Z := 8.
Definition ACK : Z := 16.
Definition URG : Z := 32.
Definition ECE : Z := 64.
Definition CWR : Z := 128.
End flags.

Record Segment := mkSegment {
  src_port : Z; dst_port : Z; seq_num : Z; ack_num : Z; s_flags : Z; ae : bool;
  s_window : Z; s_checksum : Z; urgent : Z; options : list TcpOption; payload : list Z }.

(** The two [io::Error]s of [parse]. *)
Inductive parse_error := TooShort | InvalidDataOffset.

Definition parse (raw : list Z) : option (Segment + parse_error) :=
  if zlen raw <? 20 then Some (inr TooShort)
  else
    let data_off := Z.shiftr raw.[12] 4 * 4 in
    if (data_off <? 20) || (data_off >? zlen raw) then Some (inr InvalidDataOffset)
    else
      opts ← if data_off >? 20 then r ← get_range raw 20 data_off; parse_options r else Some [];
      pl ← if data_off <? zlen raw then get_range raw data_off (zlen raw) else Some [];
      Some (inl (mkSegment (of_be16 raw.[0] raw.[1]) (of_be16 raw.[2] raw.[3])
        (of_be_bytes (slice raw 4 8)) (of_be_bytes (slice raw 8 12)) raw.[13]
        (negb (Z.land raw.[12] 1 =? 0)) (of_be16 raw.[14] raw.[15]) (of_be16 raw.[16] raw.[17])
        (of_be16 raw.[18] raw.[19]) opts pl)).

Definition marshal (s : Segment) : option (list Z) :=
  let hdr_len := 20 + options_len (options s) in
  let out := replicate (Z.to_nat (hdr_len + zlen (payload s))) 0 in
  out ← put out 0 (be16 (src_port s));
  out ← put out 2 (be16 (dst_port s));
  out ← put out 4 (be_bytes 4 (seq_num s));
  out ← put out 8 (be_bytes 4 (ack_num s));
  out ← put out 12 [Z.lor (u8 (Z.shiftl (u8 (hdr_len / 4)) 4)) (if ae s then 1 else 0)];
  out ← put out 13 [s_flags s];
  out ← put out 14 (be16 (s_window s));
  out ← put out 18 (be16 (urgent s));
  area ← get_range out 20 hdr_len;
  area ← write_options (options s) area;
  out ← put out 20 area;
  if negb (zlen (payload s) =? 0) then
    (if zlen out - hdr_len =? zlen (payload s) then put out hdr_len (payload s) else None)
  else Some out.

Definition data_len (s : Segment) : Z := u32 (zlen (payload s)).

Definition seg_len (s : Segment) : Z :=
  let n := u32 (zlen (payload s)) in
  let n := if negb (Z.land (s_flags s) flags.SYN =? 0) then u32 (n + 1) else n in
  if negb (Z.land (s_flags s) flags.FIN =? 0) then u32 (n + 1) else n.

Definition has_flag (s : Segment) (flag : Z) : bool := negb (Z.land (s_flags s) flag =? 0).

(** ** What is sent and read back *)

(** Options that have a wire form: not the end marker, a no-op without data,
    at most 253 bytes of data. *)
Definition option_ok (o : TcpOption) : Prop :=
  byte_ok (o_kind o) /\ o_kind o <> kind.End /\ bytes_ok (o_data o) /\
  (if o_kind o =? kind.Nop then o_data o = [] else zlen (o_data o) <= 253).

Definition enc (o : TcpOption) : list Z :=
  if o_kind o =? kind.Nop then [kind.Nop] else o_kind o :: (2 + zlen (o_data o)) :: o_data o.

Definition encs (opts : list TcpOption) : list Z := mjoin (enc <$> opts).

Lemma zlen_enc o : zlen (enc o) = option_len o.
Proof. unfold enc, option_len. destruct (_ =? _); [done|]. rewrite !zlen_cons. lia. Qed.

Lemma zlen_encs opts : zlen (encs opts) = foldr (fun o acc => option_len o + acc) 0 opts.
Proof.
  induction opts as [|o opts IH]; [done|]. unfold encs in *. cbn [fmap list_fmap mjoin list_join foldr].
  rewrite zlen_app, zlen_enc. by rewrite <- IH.
Qed.

Lemma encs_cons o opts : encs (o :: opts) = enc o ++ encs opts.
Proof. done. Qed.

Lemma put_app (a b c bs : list Z) : zlen b = zlen bs -> put (a ++ b ++ c) (zlen a) bs = Some (a ++ bs ++ c).
Proof.
  intros Hl. unfold put. pose proof (zlen_nonneg a). pose proof (zlen_nonneg c). pose proof (zlen_nonneg b).
  replace (_ && _) with true; [|symmetry; apply andb_true_iff; split; apply Z.leb_le; rewrite ?zlen_app; lia].
  by rewrite splice_app.
Qed.

Lemma put_at (pre body bs : list Z) i :
  i = zlen pre -> zlen bs <= zlen body -> put (pre ++ body) i bs = Some (pre ++ bs ++ zdrop (zlen bs) body).
Proof.
  intros -> Hl. pose proof (zlen_nonneg bs). rewrite <- (ztake_zdrop (zlen bs) body) at 1. apply put_app. zl.
Qed.

Lemma write_one o opts pre body :
  option_ok o -> option_len o <= zlen body ->
  write_loop (o :: opts) (pre ++ body) (zlen pre)
  = write_loop opts ((pre ++ enc o) ++ zdrop (option_len o) body) (zlen (pre ++ enc o)).
Proof.
  intros (Hk & _ & _ & Hd) Hl. cbn [write_loop]. unfold option_len, enc in *. pose proof (zlen_nonneg (o_data o)).
  assert (zlen [o_kind o] = 1) as H1 by done.
  rewrite put_at by (rewrite ?H1; destruct (_ =? _); done || lia). cbn [mbind option_bind]. rewrite H1.
  destruct (o_kind o =? kind.Nop) eqn:E; bool2prop.
  - rewrite E, zlen_app, <- app_assoc. done.
  - rewrite app_assoc. unfold u8. rewrite Z.mod_small by lia.
    assert (zlen [2 + zlen (o_data o)] = 1) as H2 by done.
    rewrite put_at by (rewrite ?H2, ?zlen_app, ?H1, ?zlen_zdrop; lia). cbn [mbind option_bind]. rewrite H2, zdrop_zdrop by lia.
    rewrite app_assoc. rewrite put_at by (rewrite ?zlen_app, ?zlen_zdrop, ?H1, ?H2; lia). cbn [mbind option_bind].
    rewrite zdrop_zdrop by lia. rewrite <- !app_assoc. cbn [app].
    replace (1 + 1 + zlen (o_data o)) with (2 + zlen (o_data o)) by lia.
    replace (zlen pre + 1 + (1 + zlen (o_data o)))
      with (zlen (pre ++ o_kind o :: (2 + zlen (o_data o)) :: o_data o)) by (rewrite zlen_app, !zlen_cons; lia).
    done.
Qed.

Lemma write_loop_spec opts pre body :
  Forall option_ok opts -> zlen (encs opts) <= zlen body ->
  write_loop opts (pre ++ body) (zlen pre)
  = Some (pre ++ encs opts ++ zdrop (zlen (encs opts)) body, zlen pre + zlen (encs opts)).
Proof.
  revert pre body. induction opts as [|o opts IH]; intros pre body Hok Hl.
  { change (encs []) with (@nil Z). cbn [write_loop app]. rewrite (@zlen_nil Z), zdrop_nonpos, Z.add_0_r by lia. done. }
  apply Forall_cons_iff in Hok as [Ho Hok]. rewrite encs_cons, zlen_app, zlen_enc in *.
  pose proof (zlen_nonneg (encs opts)). pose proof (zlen_nonneg (enc o)). rewrite zlen_enc in *.
  rewrite write_one, IH by (done || (rewrite ?zlen_zdrop; lia)).
  rewrite zlen_app, zlen_enc, zdrop_zdrop, <- !app_assoc by lia. do 2 f_equal. lia.
Qed.

Lemma options_len_ge opts : zlen (encs opts) <= options_len opts < zlen (encs opts) + 4.
Proof.
  unfold options_len, next_multiple_of_4. rewrite <- zlen_encs. set (n := zlen (encs opts)).
  pose proof (Z.div_mod (n + 3) 4 ltac:(lia)). pose proof (Z.mod_pos_bound (n + 3) 4 ltac:(lia)). lia.
Qed.

(** The wire form of options: one after the other, ended by zeros. *)
Definition wire (opts : list TcpOption) : list Z :=
  encs opts ++ replicate (Z.to_nat (options_len opts - zlen (encs opts))) 0.

Lemma zlen_wire opts : zlen (wire opts) = options_len opts.
Proof. unfold wire. pose proof (options_len_ge opts). rewrite zlen_app, zlen_replicate. lia. Qed.

Lemma write_options_spec opts buf :
  Forall option_ok opts -> zlen buf = options_len opts -> write_options opts buf = Some (wire opts).
Proof.
  intros Hok Hl. pose proof (options_len_ge opts). unfold write_options.
  change buf with ([] ++ buf) at 1. change 0 with (zlen (@nil Z)) at 1.
  rewrite write_loop_spec by (done || lia). cbn [mbind option_bind app]. rewrite zlen_nil, Z.add_0_l.
  rewrite zlen_app, zlen_zdrop. rewrite Z.max_r, Z.max_r by (pose proof (zlen_nonneg (encs opts)); lia).
  replace (zlen (encs opts) + (zlen buf - zlen (encs opts)) - zlen (encs opts)) with (options_len opts - zlen (encs opts)) by lia.
  rewrite put_at by (done || (rewrite zlen_replicate, zlen_zdrop; pose proof (zlen_nonneg (encs opts)); lia)).
  rewrite zdrop_all; [by rewrite app_nil_r|]. rewrite zlen_zdrop, zlen_replicate. pose proof (zlen_nonneg (encs opts)). lia.
Qed.

(** ** Reading options back *)

Lemma get_at (pre : list Z) x r i : i = zlen pre -> get (pre ++ x :: r) i = Some x.
Proof.
  intros ->. unfold get. pose proof (zlen_nonneg pre). replace (0 <=? zlen pre) with true by lia.
  unfold zlen. rewrite Nat2Z.id. by apply list_lookup_middle.
Qed.

Lemma get_range_mid (pre mid post : list Z) a b :
  a = zlen pre -> b = zlen pre + zlen mid -> get_range (pre ++ mid ++ post) a b = Some mid.
Proof.
  intros -> ->. unfold get_range. pose proof (zlen_nonneg pre). pose proof (zlen_nonneg mid). pose proof (zlen_nonneg post).
  replace (_ && _) with true; [|rewrite !zlen_app; lia].
  f_equal. unfold slice. rewrite zdrop_app. replace (zlen pre + zlen mid - zlen pre) with (zlen mid) by lia. apply ztake_app.
Qed.

(** One option read. *)
Lemma parse_one fuel pre o rest acc :
  option_ok o ->
  parse_loop (S fuel) (pre ++ enc o ++ rest) (zlen pre) acc
  = parse_loop fuel ((pre ++ enc o) ++ rest) (zlen (pre ++ enc o)) (acc ++ [o]).
Proof.
  intros (Hk & Hne & _ & Hd). rewrite <- app_assoc. set (raw := pre ++ enc o ++ rest). cbn [parse_loop].
  pose proof (zlen_nonneg pre). pose proof (zlen_nonneg rest). pose proof (zlen_enc o) as Hz. pose proof (zlen_nonneg (o_data o)).
  assert (zlen raw = zlen pre + option_len o + zlen rest) as Hraw by (unfold raw; rewrite !zlen_app; lia).
  assert (zlen (pre ++ enc o) = zlen pre + option_len o) as -> by (rewrite zlen_app; lia).
  unfold option_len in *. destruct o as [k d]. cbn [o_kind o_data] in *.
  replace (zlen pre <? zlen raw) with true by (destruct (k =? kind.Nop); lia).
  assert (get raw (zlen pre) = Some k) as ->.
  { unfold raw, enc. cbn [o_kind o_data]. destruct (k =? kind.Nop) eqn:E; bool2prop; [subst k|]; by apply get_at. }
  cbn [mbind option_bind]. replace (k =? kind.End) with false by (symmetry; by apply Z.eqb_neq).
  destruct (k =? kind.Nop) eqn:E; [by bool2prop; subst|].
  replace (zlen pre + 1 >=? zlen raw) with false by lia.
  assert (raw = (pre ++ [k]) ++ (2 + zlen d) :: d ++ rest) as Er.
  { unfold raw, enc. cbn [o_kind o_data]. rewrite E. by rewrite <- app_assoc. }
  rewrite Er at 1. rewrite get_at by (rewrite zlen_app; done). cbn [mbind option_bind].
  replace ((2 + zlen d <? 2) || (zlen pre + (2 + zlen d) >? zlen raw)) with false by lia.
  destruct (2 + zlen d >? 2) eqn:E2; [|].
  - assert (get_range raw (zlen pre + 2) (zlen pre + (2 + zlen d)) = Some d) as ->; [|done].
    replace raw with ((pre ++ [k; 2 + zlen d]) ++ d ++ rest) by (rewrite Er, <- !app_assoc; done).
    apply get_range_mid; rewrite zlen_app; change (zlen [k; 2 + zlen d]) with 2; lia.
  - cbn [mbind option_bind]. assert (d = []) as -> by (apply zlen_zero; lia). done.
Qed.

(** Whatever follows, the loop ends at the zeros. *)
Lemma parse_end fuel raw pre pad acc :
  raw = pre ++ replicate pad 0 -> parse_loop (S fuel) raw (zlen pre) acc = Some acc.
Proof.
  intros ->. cbn [parse_loop]. destruct pad as [|pad].
  - cbn [replicate]. rewrite app_nil_r, Z.ltb_irrefl. done.
  - assert (zlen pre < zlen (pre ++ replicate (S pad) 0)) as Hl by (rewrite zlen_app, zlen_replicate; lia).
    apply Z.ltb_lt in Hl. rewrite Hl. cbn [replicate]. rewrite (get_at pre 0 (replicate pad 0) (zlen pre) eq_refl). reflexivity.
Qed.

Lemma parse_loop_wire opts fuel pre pad acc :
  Forall option_ok opts -> (length opts < fuel)%nat ->
  parse_loop fuel (pre ++ encs opts ++ replicate pad 0) (zlen pre) acc = Some (acc ++ opts).
Proof.
  revert fuel pre acc. induction opts as [|o opts IH]; intros [|fuel] pre acc Hok Hf; cbn [length] in Hf; [lia| |lia|].
  - rewrite app_nil_r. by apply parse_end with (pad := pad).
  - apply Forall_cons_iff in Hok as [Ho Hok]. rewrite encs_cons, <- app_assoc, parse_one by done.
    rewrite IH by (done || lia). by rewrite <- app_assoc.
Qed.

Lemma enc_pos o : 1 <= zlen (enc o).
Proof. rewrite zlen_enc. unfold option_len. pose proof (zlen_nonneg (o_data o)). destruct (_ =? _); lia. Qed.

Lemma length_encs opts : Forall option_ok opts -> (length opts <= length (encs opts))%nat.
Proof.
  induction 1 as [|o opts Ho _ IH]; [done|]. rewrite encs_cons, length_app. cbn [length].
  pose proof (enc_pos o) as Hz. unfold zlen in Hz. lia.
Qed.

Lemma parse_options_wire opts : Forall option_ok opts -> parse_options (wire opts) = Some opts.
Proof.
  intros Hok. unfold parse_options, wire. change 0 with (zlen (@nil Z)) at 2. apply (parse_loop_wire opts _ [] _ []); [done|].
  pose proof (length_encs opts Hok). rewrite length_app. lia.
Qed.

(** ** The segment on the wire *)

Definition u16_ok (x : Z) : Prop := 0 <= x < 2 ^ 16.
Definition u32_ok (x : Z) : Prop := 0 <= x < 2 ^ 32.

(** Fields of their widths, and options that fit the header. *)
Record segment_ok (s : Segment) : Prop := {
  so_ports : u16_ok (src_port s) /\ u16_ok (dst_port s);
  so_nums : u32_ok (seq_num s) /\ u32_ok (ack_num s);
  so_flags : byte_ok (s_flags s);
  so_window : u16_ok (s_window s) /\ u16_ok (urgent s);
  so_options : Forall option_ok (options s) /\ options_len (options s) <= 40 }.

Definition off_byte (s : Segment) : Z := (20 + options_len (options s)) / 4 * 16 + (if ae s then 1 else 0).

Definition header (s : Segment) : list Z :=
  be16 (src_port s) ++ be16 (dst_port s) ++ be_bytes 4 (seq_num s) ++ be_bytes 4 (ack_num s) ++
  [off_byte s] ++ [s_flags s] ++ be16 (s_window s) ++ [0; 0] ++ be16 (urgent s).

Lemma options_len_div opts : options_len opts mod 4 = 0 /\ 0 <= options_len opts.
Proof.
  pose proof (options_len_ge opts). pose proof (zlen_nonneg (encs opts)). split; [|lia].
  unfold options_len, next_multiple_of_4. by rewrite Z.mod_mul.
Qed.

Lemma off_byte_spec s :
  options_len (options s) <= 40 ->
  Z.lor (u8 (Z.shiftl (u8 ((20 + options_len (options s)) / 4)) 4)) (if ae s then 1 else 0) = off_byte s /\
  0 <= off_byte s < 256 /\ Z.shiftr (off_byte s) 4 * 4 = 20 + options_len (options s) /\
  negb (Z.land (off_byte s) 1 =? 0) = ae s.
Proof.
  intros Hl. destruct (options_len_div (options s)) as [Hm Hp]. set (n := options_len (options s)) in *.
  assert ((20 + n) / 4 * 4 = 20 + n) as Hd by (pose proof (Z.div_mod (20 + n) 4 ltac:(lia)) as E; rewrite Zplus_mod, Hm in E; change ((20 mod 4 + 0) mod 4) with 0 in E; lia).
  unfold off_byte. fold n. set (q := (20 + n) / 4) in *. assert (5 <= q <= 15) as Hq by lia. clearbody q.
  assert (forall q', 5 <= q' <= 15 -> forall b : bool,
    Z.lor (u8 (Z.shiftl (u8 q') 4)) (if b then 1 else 0) = q' * 16 + (if b then 1 else 0) /\
    0 <= q' * 16 + (if b then 1 else 0) < 256 /\ Z.shiftr (q' * 16 + (if b then 1 else 0)) 4 = q' /\
    negb (Z.land (q' * 16 + (if b then 1 else 0)) 1 =? 0) = b) as K.
  { intros q' Hq' b. assert (q' = 5 \/ q' = 6 \/ q' = 7 \/ q' = 8 \/ q' = 9 \/ q' = 10 \/ q' = 11 \/ q' = 12 \/
      q' = 13 \/ q' = 14 \/ q' = 15) as Hc by lia.
    destruct b; repeat destruct Hc as [->|Hc]; try (subst q'); repeat split; done. }
  destruct (K q Hq (ae s)) as (K1 & K2 & K3 & K4). rewrite K1, K3, K4. repeat split; lia.
Qed.

(** Writing fields one after the other into a buffer of zeros. *)
Lemma put_zeros pre n bs i :
  i = zlen pre -> zlen bs <= Z.of_nat n ->
  put (pre ++ replicate n 0) i bs = Some ((pre ++ bs) ++ replicate (n - length bs) 0).
Proof.
  intros Hi Hl. rewrite put_at by (done || (rewrite zlen_replicate; lia)). rewrite <- app_assoc. do 3 f_equal.
  unfold zdrop, zlen. rewrite Nat2Z.id, drop_replicate. done.
Qed.

Lemma marshal_spec s : segment_ok s -> marshal s = Some (header s ++ wire (options s) ++ payload s).
Proof.
  intros [_ _ _ _ [Hok Hlen]]. unfold marshal. rewrite (proj1 (off_byte_spec s Hlen)).
  destruct (options_len_div (options s)) as [_ Hp]. pose proof (zlen_nonneg (payload s)).
  set (m := (Z.to_nat (options_len (options s)) + length (payload s))%nat).
  replace (Z.to_nat (20 + options_len (options s) + zlen (payload s))) with (20 + m)%nat by (unfold m, zlen; lia).
  change (replicate (20 + m) 0) with ([] ++ replicate (20 + m) 0).
  do 7 (rewrite put_zeros by (reflexivity || (unfold zlen; cbn [length be16 be_bytes]; lia)); cbn [mbind option_bind]).
  match goal with |- context [(?pre ++ replicate ?k 0)] =>
    replace (pre ++ replicate k 0) with ((pre ++ [0; 0]) ++ replicate (2 + m) 0)
      by (rewrite <- app_assoc; cbn; rewrite ?Nat.sub_0_r; done) end.
  rewrite put_zeros by (reflexivity || (unfold zlen; cbn [length be16 be_bytes]; lia)). cbn [mbind option_bind].
  replace (2 + m - length (be16 (urgent s)))%nat with m by (cbn; lia).
  match goal with |- context [?pre ++ replicate m 0] => assert (pre = header s) as -> by (by rewrite <- !app_assoc) end.
  assert (zlen (header s) = 20) as Hh by done.
  assert (replicate m 0 = replicate (Z.to_nat (options_len (options s))) 0 ++ replicate (length (payload s)) 0) as ->
    by apply replicate_add.
  rewrite get_range_mid by (rewrite ?zlen_replicate; lia). cbn [mbind option_bind].
  rewrite write_options_spec by (done || (rewrite zlen_replicate; lia)). cbn [mbind option_bind].
  rewrite <- Hh at 1. rewrite put_app by (rewrite zlen_replicate, zlen_wire; lia). cbn [mbind option_bind].
  destruct (zlen (payload s) =? 0) eqn:E; bool2prop; cbn [negb].
  { apply zlen_zero in E. rewrite E. done. }
  rewrite !zlen_app, zlen_wire, zlen_replicate, Hh. fold (zlen (payload s)).
  replace (_ =? _) with true by (symmetry; apply Z.eqb_eq; lia).
  rewrite app_assoc. rewrite put_at by (rewrite ?zlen_app, ?zlen_wire, ?zlen_replicate, ?Hh; unfold zlen; lia).
  rewrite zdrop_all by (rewrite zlen_replicate; unfold zlen; lia). by rewrite app_nil_r, <- app_assoc.
Qed.

Lemma segment_readback (s : Segment) :
  segment_ok s ->
  exists raw, marshal s = Some raw /\
    parse raw = Some (inl (mkSegment (src_port s) (dst_port s) (seq_num s) (ack_num s) (s_flags s) (ae s)
      (s_window s) 0 (urgent s) (options s) (payload s))).
Proof.
  intros Hs. exists (header s ++ wire (options s) ++ payload s). split; [by apply marshal_spec|].
  destruct Hs as [[Hp1 Hp2] [Hn1 Hn2] Hf [Hw Hu] [Hok Hlen]]. unfold u16_ok, u32_ok in *.
  destruct (off_byte_spec s Hlen) as (_ & _ & Hoff & Hae). destruct (options_len_div (options s)) as [_ Hpos].
  assert (zlen (header s) = 20) as Hh by done. pose proof (zlen_nonneg (payload s)). unfold parse.
  set (raw := header s ++ wire (options s) ++ payload s).
  assert (zlen raw = 20 + options_len (options s) + zlen (payload s)) as Hraw
    by (unfold raw; rewrite !zlen_app, zlen_wire; lia).
  change (raw.[12]) with (off_byte s). rewrite Hoff, Hae.
  replace (zlen raw <? 20) with false by lia.
  replace ((20 + options_len (options s) <? 20) || (20 + options_len (options s) >? zlen raw)) with false by lia.
  assert ((if 20 + options_len (options s) >? 20 then r ← get_range raw 20 (20 + options_len (options s)); parse_options r
           else Some []) = Some (options s)) as ->.
  { destruct (20 + options_len (options s) >? 20) eqn:E.
    - unfold raw. rewrite get_range_mid by (rewrite ?zlen_wire; lia). by apply parse_options_wire.
    - pose proof (options_len_ge (options s)). pose proof (length_encs (options s) Hok) as Hle. unfold zlen in *.
      destruct (options s); [done|cbn [length] in Hle; lia]. }
  cbn [mbind option_bind].
  assert ((if 20 + options_len (options s) <? zlen raw then get_range raw (20 + options_len (options s)) (zlen raw) else Some [])
    = Some (payload s)) as ->.
  { destruct (_ <? _) eqn:E; bool2prop; [|f_equal; symmetry; apply zlen_zero; lia].
    replace raw with ((header s ++ wire (options s)) ++ payload s ++ []) by (unfold raw; by rewrite app_nil_r, <- app_assoc).
    apply get_range_mid; rewrite ?app_nil_r, ?zlen_app, ?zlen_wire; lia. }
  cbn [mbind option_bind].
  change (slice raw 4 8) with (be_bytes 4 (seq_num s)). change (slice raw 8 12) with (be_bytes 4 (ack_num s)).
  rewrite !of_be_bytes_be_bytes by (change (256 ^ Z.of_nat 4) with (2 ^ 32); lia).
  change (raw.[0]) with (src_port s / 256). change (raw.[1]) with (src_port s mod 256).
  change (raw.[2]) with (dst_port s / 256). change (raw.[3]) with (dst_port s mod 256).
  change (raw.[13]) with (s_flags s). change (raw.[14]) with (s_window s / 256). change (raw.[15]) with (s_window s mod 256).
  change (raw.[16]) with 0. change (raw.[17]) with 0.
  change (raw.[18]) with (urgent s / 256). change (raw.[19]) with (urgent s mod 256).
  by rewrite !of_be16_be16.
Qed.

(** C36: What [marshal] puts on the wire, [parse] reads back: every field, every
    option in order, and the payload (the checksum field is left at zero for
    the sender to fill), for any segment whose fields fit their widths and
    whose options fit the header. *)
Theorem segment_roundtrip (s : Segment) :
  segment_ok s ->
  exists raw, marshal s = Some raw /\
    parse raw = Some (inl (mkSegment (src_port s) (dst_port s) (seq_num s) (ack_num s) (s_flags s) (ae s)
      (s_window s) 0 (urgent s) (options s) (payload s))).
Proof. apply segment_readback. Qed.

Definition sample_syn : Segment :=
  mkSegment 443 51000 4294967290 7 flags.SYN true 64240 0 0
    [mss_option 1460; sack_perm_option; timestamp_option 1000 0; mkOption kind.Nop []; wscale_option 7] [1; 2; 3].

Lemma segment_roundtrip_witness :
  segment_ok sample_syn /\
  exists raw, marshal sample_syn = Some raw /\
    parse raw = Some (inl (mkSegment 443 51000 4294967290 7 2 true 64240 0 0 (options sample_syn) [1; 2; 3])).
Proof.
  assert (segment_ok sample_syn) as H.
  { split; unfold u16_ok, u32_ok, byte_ok; cbn; try lia; [unfold flags.SYN; lia|].
    split; [|vm_compute; discriminate].
    assert (forall l, forallb (fun b => (0 <=? b) && (b <? 256)) l = true -> bytes_ok l) as K.
    { intros l Hl. apply List.Forall_forall. intros x Hx. rewrite forallb_forall in Hl. apply Hl in Hx. unfold byte_ok. lia. }
    repeat (constructor; [unfold option_ok; split_and!; [done|done|apply K; done|done]|]). constructor. }
  split; [exact H|]. apply (segment_roundtrip sample_syn H).
Defined.

(** ** Reading any bytes *)

(** Where the options end: at the end of the area, at an end marker, or at an
    option cut off or with a length that cannot be. *)
Definition stops (rest : list Z) : Prop :=
  match rest with
  | [] => True
  | k :: r => k = kind.End \/
      (k <> kind.Nop /\ match r with [] => True | l :: _ => l < 2 \/ zlen rest < l end)
  end.

Lemma parse_loop_total fuel pre suf acc :
  bytes_ok suf -> (length suf < fuel)%nat ->
  exists opts rest, parse_loop fuel (pre ++ suf) (zlen pre) acc = Some (acc ++ opts) /\
    suf = encs opts ++ rest /\ Forall option_ok opts /\ stops rest.
Proof.
  revert pre suf acc. induction fuel as [|fuel IH]; intros pre suf acc Hb Hf; [lia|].
  pose proof (zlen_nonneg pre). set (raw := pre ++ suf).
  assert (forall suf', stops suf' -> suf' = suf -> exists opts rest, Some acc = Some (acc ++ opts) /\
    suf = encs opts ++ rest /\ Forall option_ok opts /\ stops rest) as Kend.
  { intros suf' Hst ->. exists [], suf. rewrite app_nil_r. repeat split; [constructor|done]. }
  assert (forall o rest', option_ok o -> suf = enc o ++ rest' ->
    exists opts rest, parse_loop fuel raw (zlen pre + option_len o) (acc ++ [o]) = Some (acc ++ opts) /\
      suf = encs opts ++ rest /\ Forall option_ok opts /\ stops rest) as Kmore.
  { intros o rest' Ho Es. subst suf. apply Forall_app in Hb as [_ Hb]. rewrite length_app in Hf.
    pose proof (enc_pos o) as Hl1. unfold zlen in Hl1.
    destruct (IH (pre ++ enc o) rest' (acc ++ [o])) as (opts & rest & Hp & -> & Hok & Hst); [done|lia|].
    exists (o :: opts), rest. unfold raw. rewrite app_assoc. rewrite zlen_app, zlen_enc in Hp. rewrite Hp.
    split; [by rewrite <- app_assoc|]. split; [by rewrite encs_cons, <- app_assoc|]. split; [by constructor|done]. }
  cbn [parse_loop]. destruct suf as [|k r].
  { unfold raw. rewrite app_nil_r, Z.ltb_irrefl. by apply (Kend []). }
  apply Forall_cons_iff in Hb as [Hk Hb].
  assert (zlen raw = zlen pre + 1 + zlen r) as Hraw by (unfold raw; rewrite zlen_app, zlen_cons; lia).
  pose proof (zlen_nonneg r). replace (zlen pre <? zlen raw) with true by lia.
  assert (get raw (zlen pre) = Some k) as -> by (by apply get_at). cbn [mbind option_bind].
  destruct (k =? kind.End) eqn:E0; bool2prop; [apply (Kend (k :: r)); [by left|done]|].
  destruct (k =? kind.Nop) eqn:E1.
  { bool2prop. subst k. apply (Kmore (mkOption kind.Nop []) r); [|done]. split_and!; try done. constructor. }
  destruct r as [|l d].
  { replace (zlen pre + 1 >=? zlen raw) with true by (rewrite zlen_nil in *; lia).
    apply (Kend [k]); [|done]. bool2prop. by right. }
  apply Forall_cons_iff in Hb as [Hl Hb]. rewrite zlen_cons in *. pose proof (zlen_nonneg d).
  replace (zlen pre + 1 >=? zlen raw) with false by lia.
  assert (get raw (zlen pre + 1) = Some l) as ->.
  { replace raw with ((pre ++ [k]) ++ l :: d) by (unfold raw; by rewrite <- app_assoc). apply get_at. by rewrite zlen_app. }
  cbn [mbind option_bind].
  destruct ((l <? 2) || (zlen pre + l >? zlen raw)) eqn:E2.
  { apply (Kend (k :: l :: d)); [|done]. bool2prop. right. split; [done|]. rewrite !zlen_cons.
    apply orb_true_iff in E2 as [E2|E2]; lia. }
  apply orb_false_iff in E2 as [E2 E3]. bool2prop. unfold byte_ok in Hl.
  assert (d = ztake (l - 2) d ++ zdrop (l - 2) d) as Ed by (by rewrite ztake_zdrop).
  assert (zlen (ztake (l - 2) d) = l - 2) as Hz by (rewrite zlen_ztake; lia).
  assert ((if l >? 2 then get_range raw (zlen pre + 2) (zlen pre + l) else Some []) = Some (ztake (l - 2) d)) as ->.
  { destruct (l >? 2) eqn:E4; [|rewrite ztake_nonpos by lia; done].
    replace raw with ((pre ++ [k; l]) ++ ztake (l - 2) d ++ zdrop (l - 2) d)
      by (rewrite ztake_zdrop; unfold raw; by rewrite <- app_assoc).
    apply get_range_mid; rewrite zlen_app; change (zlen [k; l]) with 2; lia. }
  cbn [mbind option_bind]. apply Z.eqb_neq in E1.
  set (o := mkOption k (ztake (l - 2) d)).
  assert (zlen pre + l = zlen pre + option_len o) as -> by (unfold option_len, o; cbn [o_kind o_data]; rewrite E1; lia).
  apply (Kmore o (zdrop (l - 2) d)); unfold o.
  - unfold option_ok. cbn [o_kind o_data]. rewrite E1. split_and!; [done|done|by apply bytes_ok_ztake|lia].
  - unfold enc. cbn [o_kind o_data]. rewrite E1, Hz. cbn [app]. rewrite ztake_zdrop. replace (2 + (l - 2)) with l by lia. done.
Qed.

(** [parse] returns on every byte string, without panicking: an error
    exactly when the segment is shorter than a header or its data offset
    lies before the end of the header or past the segment; otherwise the
    payload is all that follows the data offset and the options are the
    encodings the option area starts with, up to its end, an end marker or
    the first malformed one. *)
Theorem segment_parse_total (raw : list Z) :
  bytes_ok raw ->
  let off := Z.shiftr raw.[12] 4 * 4 in
  match parse raw with
  | None => False
  | Some (inr TooShort) => zlen raw < 20
  | Some (inr InvalidDataOffset) => 20 <= zlen raw /\ (off < 20 \/ zlen raw < off)
  | Some (inl s) =>
      20 <= off <= zlen raw /\ payload s = zdrop off raw /\ Forall option_ok (options s) /\
      exists rest, slice raw 20 off = encs (options s) ++ rest /\ stops rest
  end.
Proof.
  intros Hb off. unfold parse. fold off. destruct (zlen raw <? 20) eqn:E; bool2prop; [done|].
  destruct ((off <? 20) || (off >? zlen raw)) eqn:E2; [split; [lia|]; apply orb_true_iff in E2 as [E2|E2]; lia|].
  apply orb_false_iff in E2 as [E2 E3]. bool2prop.
  assert (exists opts rest, (if off >? 20 then r ← get_range raw 20 off; parse_options r else Some []) = Some opts /\
    slice raw 20 off = encs opts ++ rest /\ Forall option_ok opts /\ stops rest) as (opts & rest & -> & Hs & Hok & Hst).
  { destruct (off >? 20) eqn:E4.
    - unfold get_range. replace (_ && _) with true by lia. cbn [mbind option_bind]. unfold parse_options.
      destruct (parse_loop_total (S (length (slice raw 20 off))) [] (slice raw 20 off) []) as (opts & rest & Hp & Hs & Hok & Hst);
        [by apply bytes_ok_slice|lia|]. by exists opts, rest.
    - exists [], []. rewrite slice_nil by lia. repeat split. constructor. }
  cbn [mbind option_bind].
  assert ((if off <? zlen raw then get_range raw off (zlen raw) else Some []) = Some (zdrop off raw)) as ->.
  { destruct (off <? zlen raw) eqn:E4; bool2prop; [|by rewrite zdrop_all by lia].
    unfold get_range. replace (_ && _) with true by lia. by rewrite slice_to_end. }
  cbn [mbind option_bind options payload]. split; [lia|]. split; [done|]. split; [done|]. by exists rest.
Qed.

Lemma segment_parse_total_witness :
  let raw := [0; 80; 1; 187; 0; 0; 0; 1; 0; 0; 0; 2; 96; 16; 1; 0; 0; 0; 0; 0; 1; 8; 10; 0; 99] in
  (exists s, parse raw = Some (inl s) /\ options s = [mkOption 1 []] /\ payload s = [99]) /\
  match parse raw with Some (inl s) => payload s = zdrop 24 raw | _ => False end.
Proof.
  cbv zeta. split; [eexists; split; [vm_compute; reflexivity|done]|].
  refine (_ (segment_parse_total [0; 80; 1; 187; 0; 0; 0; 1; 0; 0; 0; 2; 96; 16; 1; 0; 0; 0; 0; 0; 1; 8; 10; 0; 99] _)).
  - intros H. revert H. vm_compute. tauto.
  - repeat (constructor; [unfold byte_ok; lia|]). constructor.
Defined.

(** ** What the options say *)

Definition block_bytes (b : SackBlock) : list Z := be_bytes 4 (sk_left b) ++ be_bytes 4 (sk_right b).

Definition block_ok (b : SackBlock) : Prop := u32_ok (sk_left b) /\ u32_ok (sk_right b).

Lemma zlen_blocks bs : zlen (mjoin (block_bytes <$> bs)) = 8 * zlen bs.
Proof.
  induction bs as [|b bs IH]; [done|].
  change (mjoin (block_bytes <$> b :: bs)) with (block_bytes b ++ mjoin (block_bytes <$> bs)).
  rewrite zlen_app, zlen_cons, IH. change (zlen (block_bytes b)) with 8. lia.
Qed.

Lemma blocks_at pre bs :
  Forall block_ok bs -> zlen pre mod 8 = 0 ->
  (fun i => mkSack (of_be_bytes (slice (pre ++ mjoin (block_bytes <$> bs)) (i * 8) (i * 8 + 4)))
     (of_be_bytes (slice (pre ++ mjoin (block_bytes <$> bs)) (i * 8 + 4) (i * 8 + 8)))) <$> seqZ (zlen pre / 8) (zlen bs) = bs.
Proof.
  intros Hok. revert pre. induction Hok as [|b bs [Hl Hr] _ IH]; intros pre Hm; [done|].
  rewrite zlen_cons, seqZ_cons by (pose proof (zlen_nonneg bs); lia). rewrite fmap_cons.
  change (mjoin (block_bytes <$> b :: bs)) with (block_bytes b ++ mjoin (block_bytes <$> bs)).
  pose proof (Z.div_mod (zlen pre) 8 ltac:(lia)). unfold u32_ok in *. f_equal.
  - replace (zlen pre / 8 * 8) with (zlen pre) by lia. rewrite (slice_app_r _ _ (zlen pre) (zlen pre + 4)), (slice_app_r _ _ (zlen pre + 4)) by lia. rewrite Z.sub_diag.
    replace (zlen pre + 4 - zlen pre) with 4 by lia. replace (zlen pre + 8 - zlen pre) with 8 by lia.
    change (slice (block_bytes b ++ _) 0 4) with (be_bytes 4 (sk_left b)).
    change (slice (block_bytes b ++ _) 4 8) with (be_bytes 4 (sk_right b)).
    rewrite (of_be_bytes_be_bytes 4 (sk_left b)), (of_be_bytes_be_bytes 4 (sk_right b)) by (change (256 ^ Z.of_nat 4) with (2 ^ 32); lia). by destruct b.
  - rewrite app_assoc. assert (zlen (pre ++ block_bytes b) = zlen pre + 8) as Hz by (rewrite zlen_app; done).
    specialize (IH (pre ++ block_bytes b)). rewrite Hz in IH.
    replace (Z.succ (zlen pre / 8)) with ((zlen pre + 8) / 8) by (replace (zlen pre + 8) with (zlen pre + 1 * 8) by lia; rewrite Z.div_add by lia; lia).
    replace (Z.pred (zlen bs + 1)) with (zlen bs) by lia. apply IH.
    replace (zlen pre + 8) with (zlen pre + 1 * 8) by lia. by rewrite Z.mod_add.
Qed.

Lemma get_sack_blocks_spec bs :
  Forall block_ok bs -> 0 < zlen bs -> get_sack_blocks [sack_option bs] = bs.
Proof.
  intros Hok Hn. unfold get_sack_blocks. cbn [find_opt]. unfold sack_option. cbn [o_kind o_data].
  fold block_bytes. change (fun b => be_bytes 4 (sk_left b) ++ be_bytes 4 (sk_right b)) with block_bytes.
  rewrite !zlen_blocks. replace (8 * zlen bs >=? 8) with true by lia.
  replace (8 * zlen bs mod 8 =? 0) with true by (rewrite Z.mul_comm, Z.mod_mul by lia; done).
  change ((kind.Sack =? kind.Sack) && true && true) with true. cbv iota beta zeta. cbn [o_data].
  rewrite zlen_blocks, Z.mul_comm, Z.div_mul by lia. apply (blocks_at []); done.
Qed.
