(* ===== verification/AckOptions.v ===== *)
(** * What an acknowledgement reports ([segment_options] of
    [src/src/vtcp/conn.rs])

    The receive buffer and the codec together: the options of an ACK, and
    what the peer reads out of them. *)

From stdpp Require Import sorting.
From S2P Require Import Prelude SeqSpace RecvBuf TcpCodec.

(** [for b in rb.sack_blocks_up_to(max)]; the blocks from [skip] on are not
    repeated. *)
Fixpoint add_blocks (max : Z) (skip : nat) (blocks bs : list SackBlock) : list SackBlock :=
  match bs with
  | [] => blocks
  | b :: bs =>
      if zlen blocks =? max then blocks
      else if bool_decide (b ∈ drop skip blocks) then add_blocks max skip blocks bs
      else add_blocks max skip (blocks ++ [b]) bs
  end.

Definition sack_report (rb : RecvBuf) (dsack_out : option SackBlock) (max : Z) : list SackBlock :=
  let blocks :=
    match dsack_out with
    | Some d => d :: match sack_block_around rb (sk_left d) (sk_right d) with Some a => [a] | None => [] end
    | None => []
    end in
  add_blocks max (match dsack_out with Some _ => 1 | None => 0 end) blocks (sack_blocks_up_to rb max).

(** [ts] is the timestamps a segment carries when [ts_ok]. *)
Definition segment_options (ts : option (Z * Z)) (sack_ok : bool) (recv_buf : option RecvBuf)
    (dsack_out : option SackBlock) : list TcpOption :=
  match ts with Some (v, e) => [timestamp_option v e] | None => [] end ++
  match recv_buf with
  | Some rb =>
      if sack_ok && (has_ooo rb || match dsack_out with Some _ => true | None => false end) then
        let max := match ts with Some _ => 3 | None => 4 end in
        let blocks := sack_report rb dsack_out max in
        match blocks with [] => [] | _ => [sack_option blocks] end
      else []
  | None => []
  end.

Section Report.
Context (isn : Z) (P : Z -> Z -> Prop) (rb : RecvBuf) (R : rinv isn P rb).

Lemma whole_block_ok b lo hi : whole_range isn rb b lo hi -> block_ok b.
Proof using. intros (-> & _). split; apply u32_bound. Qed.

Lemma around_whole l rt b : sack_block_around rb l rt = Some b -> exists lo hi, whole_range isn rb b lo hi.
Proof using R.
  unfold sack_block_around. destruct (range_of rb l) as [e|] eqn:E; [|done]. cbn. destruct (seq_before_eq _ _); [|done].
  intros [= <-]. apply range_of_elem in E. apply list_elem_of_fmap in E as (x & -> & Hx).
  exists (fst x), (finish x). by apply (block_whole isn P).
Qed.

Lemma add_blocks_spec max skip bs blocks :
  zlen blocks <= max ->
  zlen (add_blocks max skip blocks bs) <= max /\
  (forall b, b ∈ add_blocks max skip blocks bs -> b ∈ blocks \/ b ∈ bs) /\
  exists more, add_blocks max skip blocks bs = blocks ++ more.
Proof using.
  revert blocks. induction bs as [|b bs IH]; intros blocks Hl; cbn [add_blocks].
  { split_and!; [done|auto|]. exists []. by rewrite app_nil_r. }
  destruct (zlen blocks =? max) eqn:E; bool2prop.
  { split_and!; [done|auto|]. exists []. by rewrite app_nil_r. }
  case_bool_decide.
  - destruct (IH blocks Hl) as (H1 & H2 & H3). split_and!; [done| |done]. intros x Hx. apply H2 in Hx. rewrite elem_of_cons. tauto.
  - destruct (IH (blocks ++ [b])) as (H1 & H2 & more & H3); [rewrite zlen_app; change (zlen [b]) with 1; lia|].
    split_and!; [done| |].
    + intros x Hx. apply H2 in Hx. rewrite elem_of_app, list_elem_of_singleton in Hx. rewrite elem_of_cons. tauto.
    + exists (b :: more). rewrite H3, <- app_assoc. done.
Qed.

(** The report: at most [max] blocks, the duplicate first, and every other
    block a whole range held. *)
Lemma sack_report_spec dsack max :
  2 <= max <= 4 -> match dsack with Some d => block_ok d | None => True end ->
  let bs := sack_report rb dsack max in
  zlen bs <= max /\ Forall block_ok bs /\
  match dsack with Some d => head bs = Some d | None => True end /\
  (forall b, b ∈ bs -> dsack = Some b \/ exists lo hi, whole_range isn rb b lo hi).
Proof using R.
  intros Hmax Hd. unfold sack_report. destruct (sack_blocks_spec isn P rb max R ltac:(lia)) as (_ & _ & Hw & _).
  assert (forall blocks skip, zlen blocks <= max -> (forall b, b ∈ blocks -> dsack = Some b \/ exists lo hi, whole_range isn rb b lo hi) ->
    zlen (add_blocks max skip blocks (sack_blocks_up_to rb max)) <= max /\
    Forall block_ok (add_blocks max skip blocks (sack_blocks_up_to rb max)) /\
    (exists more, add_blocks max skip blocks (sack_blocks_up_to rb max) = blocks ++ more) /\
    (forall b, b ∈ add_blocks max skip blocks (sack_blocks_up_to rb max) -> dsack = Some b \/ exists lo hi, whole_range isn rb b lo hi)) as K.
  { intros blocks skip Hl Hb. destruct (add_blocks_spec max skip (sack_blocks_up_to rb max) blocks Hl) as (H1 & H2 & H3).
    assert (forall b, b ∈ add_blocks max skip blocks (sack_blocks_up_to rb max) -> dsack = Some b \/ exists lo hi, whole_range isn rb b lo hi) as H4.
    { intros b Hin. apply H2 in Hin as [Hin|Hin]; auto. }
    split_and!; [done| |done|done]. apply List.Forall_forall. intros b Hin. apply list_elem_of_In in Hin.
    apply H4 in Hin as [->|(lo & hi & Hin)]; [done|]. by apply whole_block_ok in Hin. }
  destruct dsack as [d|].
  - edestruct (K (d :: match sack_block_around rb (sk_left d) (sk_right d) with Some a => [a] | None => [] end) 1%nat)
      as (H1 & H2 & [more H3] & H4).
    + destruct (sack_block_around _ _ _); rewrite !zlen_cons, zlen_nil; lia.
    + intros b Hb. apply elem_of_cons in Hb as [->|Hb]; [by left|right].
      destruct (sack_block_around rb _ _) eqn:E; [|by apply not_elem_of_nil in Hb].
      apply list_elem_of_singleton in Hb as ->. by eapply around_whole.
    + split_and!; [done|done|by rewrite H3|done].
  - edestruct (K [] 0%nat) as (H1 & H2 & _ & H4); [rewrite zlen_nil; lia|intros b Hb; by apply not_elem_of_nil in Hb|].
    split_and!; [done|done|done|done].
Qed.
End Report.

Definition ts_ok (ts : option (Z * Z)) : Prop :=
  match ts with Some (v, e) => u32_ok v /\ u32_ok e | None => True end.

Definition dsack_ok (d : option SackBlock) : Prop := match d with Some d => block_ok d | None => True end.

(** The blocks an acknowledgement is to report. *)
Definition reported (ts : option (Z * Z)) (rb : RecvBuf) (dsack : option SackBlock) : list SackBlock :=
  if has_ooo rb || match dsack with Some _ => true | None => false end
  then sack_report rb dsack (match ts with Some _ => 3 | None => 4 end) else [].

Definition ack_options (ts : option (Z * Z)) (bs : list SackBlock) : list TcpOption :=
  match ts with Some (v, e) => [timestamp_option v e] | None => [] end ++
  match bs with [] => [] | bs => [sack_option bs] end.

Lemma segment_options_eq ts rb dsack :
  segment_options ts true (Some rb) dsack = ack_options ts (reported ts rb dsack).
Proof.
  unfold segment_options, ack_options, reported. cbn [andb]. destruct (has_ooo rb || _); [|done]. by destruct (sack_report _ _ _).
Qed.

Lemma timestamp_option_ok v e : option_ok (timestamp_option v e).
Proof. unfold option_ok, timestamp_option. cbn [o_kind o_data]. split_and!; [done|done|bok|done]. Qed.

Lemma sack_option_ok bs : zlen bs <= 4 -> option_ok (sack_option bs).
Proof.
  intros Hl. unfold option_ok, sack_option. cbn [o_kind o_data]. split_and!; [done|done| |].
  - clear Hl. induction bs as [|b bs IH]; [constructor|]. cbn [fmap list_fmap mjoin list_join].
    apply bytes_ok_app; [bok|exact IH].
  - change (zlen (mjoin (block_bytes <$> bs)) <= 253). rewrite zlen_blocks. lia.
Qed.

Lemma ack_options_ok ts bs :
  zlen bs <= match ts with Some _ => 3 | None => 4 end ->
  Forall option_ok (ack_options ts bs) /\ options_len (ack_options ts bs) <= 40.
Proof.
  intros Hl. unfold ack_options. assert (zlen bs <= 4) by (destruct ts; lia).
  assert (bs <> [] -> option_len (sack_option bs) = 2 + 8 * zlen bs) as Hol.
  { intros _. unfold option_len. cbn [o_kind sack_option o_data]. change (kind.Sack =? kind.Nop) with false. cbv iota.
    change (2 + zlen (mjoin (block_bytes <$> bs)) = 2 + 8 * zlen bs). by rewrite zlen_blocks. }
  pose proof (sack_option_ok bs ltac:(lia)) as Hs. pose proof (zlen_nonneg bs).
  assert (forall n, n <= 36 -> next_multiple_of_4 n <= 40) as Hn.
  { intros n Hn. unfold next_multiple_of_4. pose proof (Z.div_mod (n + 3) 4 ltac:(lia)).
    pose proof (Z.mod_pos_bound (n + 3) 4 ltac:(lia)). lia. }
  split.
  - apply Forall_app. split.
    + destruct ts as [[v e]|]; [|constructor]. constructor; [apply timestamp_option_ok|constructor].
    + destruct bs as [|b bs]; [constructor|]. constructor; [done|constructor].
  - unfold options_len. apply Hn. destruct ts as [[v e]|]; [|destruct bs; cbn [app foldr]; rewrite ?Hol by done; lia].
    assert (option_len (timestamp_option v e) = 10) as H10 by done.
    destruct bs; cbn [app foldr]; rewrite H10, ?Hol by done; lia.
Qed.

Lemma ack_options_read ts bs :
  ts_ok ts -> Forall block_ok bs ->
  get_timestamp (ack_options ts bs) = ts /\ get_sack_blocks (ack_options ts bs) = bs.
Proof.
  intros Ht Hb. unfold ack_options. destruct ts as [[v e]|].
  - destruct Ht as [Hv He]. unfold u32_ok in *. split.
    + cbn [app]. unfold get_timestamp. cbn [find_opt timestamp_option o_kind o_data].
      change ((kind.Timestamp =? kind.Timestamp) && (zlen (be_bytes 4 v ++ be_bytes 4 e) =? 8)) with true.
      cbn [mbind option_bind o_data]. change (slice (o_data (timestamp_option v e)) 0 4) with (be_bytes 4 v).
      change (slice (o_data (timestamp_option v e)) 4 8) with (be_bytes 4 e).
      rewrite (of_be_bytes_be_bytes 4 v), (of_be_bytes_be_bytes 4 e) by (change (256 ^ Z.of_nat 4) with (2 ^ 32); lia). done.
    + transitivity (get_sack_blocks match bs with [] => [] | bs => [sack_option bs] end); [done|].
      destruct bs as [|b bs]; [done|]. apply get_sack_blocks_spec; [done|].
      rewrite zlen_cons. pose proof (zlen_nonneg bs). lia.
  - split; [by destruct bs|]. cbn [app]. destruct bs as [|b bs]; [done|]. apply get_sack_blocks_spec; [done|].
    rewrite zlen_cons. pose proof (zlen_nonneg bs). lia.
Qed.

(** C37: From the receive buffer to the peer: whatever pieces of the stream
    have arrived, the options an acknowledgement carries fit its header, and
    what the peer parses out of the bytes sent is the timestamps and exactly
    the blocks to report: at most three beside timestamps and four alone,
    the duplicate segment (D-SACK) first, and every other block a whole
    range of bytes that are held. *)
Theorem ack_report_roundtrip (f : Z -> Z) (isn w : Z) (os : list rop) (rb : RecvBuf) (out : list Z)
    (ts : option (Z * Z)) (dsack : option SackBlock) (s : Segment) :
  0 <= isn < 2 ^ 32 -> all_rallowed f isn (RecvBuf_new isn w, []) os = true ->
  rrun f isn (RecvBuf_new isn w, []) os = Some (rb, out) ->
  ts_ok ts -> dsack_ok dsack ->
  u16_ok (src_port s) /\ u16_ok (dst_port s) -> u32_ok (seq_num s) /\ u32_ok (ack_num s) ->
  byte_ok (s_flags s) -> u16_ok (s_window s) /\ u16_ok (urgent s) ->
  options s = segment_options ts true (Some rb) dsack ->
  exists raw s', marshal s = Some raw /\ parse raw = Some (inl s') /\
    get_timestamp (options s') = ts /\ get_sack_blocks (options s') = reported ts rb dsack /\
    zlen (reported ts rb dsack) <= match ts with Some _ => 3 | None => 4 end /\
    match dsack with Some d => head (reported ts rb dsack) = Some d | None => True end /\
    (forall b, b ∈ reported ts rb dsack -> dsack = Some b \/ exists lo hi, whole_range isn rb b lo hi).
Proof.
  intros Hi Ha Hr Ht Hd Hp Hn Hf Hw Ho.
  destruct (rrun_inv f isn _ os (run_inv_new f isn w Hi) Ha) as (st & Hr' & [R _]).
  rewrite Hr in Hr'. injection Hr' as <-. cbn [fst] in R.
  destruct (sack_report_spec isn _ rb R dsack (match ts with Some _ => 3 | None => 4 end)) as (H1 & H2 & H3 & H4);
    [destruct ts; lia|done|].
  assert (Forall block_ok (reported ts rb dsack) /\ zlen (reported ts rb dsack) <= match ts with Some _ => 3 | None => 4 end /\
    match dsack with Some d => head (reported ts rb dsack) = Some d | None => True end /\
    (forall b, b ∈ reported ts rb dsack -> dsack = Some b \/ exists lo hi, whole_range isn rb b lo hi)) as (K1 & K2 & K3 & K4).
  { unfold reported. destruct dsack; [rewrite orb_true_r; done|]. rewrite orb_false_r.
    destruct (has_ooo rb); [done|]. split_and!; [constructor|destruct ts; done|done|intros b Hb; by apply not_elem_of_nil in Hb]. }
  rewrite segment_options_eq in Ho. destruct (ack_options_ok ts (reported ts rb dsack) K2) as [Hok Hlen].
  destruct (ack_options_read ts (reported ts rb dsack) Ht K1) as [Hts Hbs].
  destruct (segment_readback s) as (raw & Hm & Hparse); [split; [done|done|done|done|rewrite Ho; exact (conj Hok Hlen)]|].
  eexists raw, _. split; [done|]. split; [exact Hparse|]. cbn [options]. rewrite Ho. split_and!; done.
Qed.

Lemma ack_report_roundtrip_witness :
  match rrun sample 7 (RecvBuf_new 7 1000, []) [RecvBuf.Segment 5 2; RecvBuf.Segment 20 3; RecvBuf.Segment 9 1] with
  | Some (rb, _) =>
      let s := mkSegment 80 5000 1 7 16 false 1000 0 0 (segment_options (Some (5, 6)) true (Some rb) None) [] in
      exists raw s', marshal s = Some raw /\ parse raw = Some (inl s') /\
        get_timestamp (options s') = Some (5, 6) /\ get_sack_blocks (options s') = reported (Some (5, 6)) rb None
  | None => False
  end.
Proof.
  destruct (rrun sample 7 (RecvBuf_new 7 1000, []) [RecvBuf.Segment 5 2; RecvBuf.Segment 20 3; RecvBuf.Segment 9 1]) as [[rb out]|] eqn:E;
    [|vm_compute in E; discriminate]. cbv zeta.
  edestruct (ack_report_roundtrip sample 7 1000 [RecvBuf.Segment 5 2; RecvBuf.Segment 20 3; RecvBuf.Segment 9 1] rb out (Some (5, 6)) None
    (mkSegment 80 5000 1 7 16 false 1000 0 0 (segment_options (Some (5, 6)) true (Some rb) None) []))
    as (raw & s' & H1 & H2 & H3 & H4 & _);
    [lia|vm_compute; reflexivity|exact E|cbn; unfold u32_ok; lia|exact I|cbn; unfold u16_ok; lia|cbn; unfold u32_ok; lia
    |cbn; unfold byte_ok; lia|cbn; unfold u16_ok; lia|reflexivity|].
  exists raw, s'. auto.
Defined.
