(* ===== verification/Ports.v ===== *)
(** * Outside ports of the NAT ([src/src/nat/ports.rs])

    The port table (holder counts, the bitmap of free ports, the free counts
    of the dynamic pool), the word-at-a-time search over the bitmap, the
    choice of a port for a mapping, and the tables that hold ports. *)

From S2P Require Import Prelude Bitmap.

Definition PORTS : Z := Z.shiftl 1 16.
Definition WORDS : Z := PORTS / 64.
Definition EVEN : Z := 6148914691236517205. (* 0x5555_5555_5555_5555 *)
Definition PRESERVE_MIN : Z := 1024.

Record PortUse := mkPortUse {
  holders : list Z; free_bits : list Z; free_even : Z; free_odd : Z; pool : Z * Z }.

Definition PortUse_new (lo hi : Z) : PortUse :=
  let evens := (hi / 2 + 1) - (lo + 1) / 2 in
  let total := hi - lo + 1 in
  mkPortUse (replicate (Z.to_nat PORTS) 0) (replicate (Z.to_nat WORDS) U64_MAX) evens (total - evens) (lo, hi).

Definition in_pool (u : PortUse) (p : Z) : bool := (fst (pool u) <=? p) && (p <=? snd (pool u)).

(** [free[usize::from(p & 1)]] *)
Definition free_at (u : PortUse) (odd : bool) : Z := if odd then free_odd u else free_even u.

Definition add_free (u : PortUse) (p d : Z) : PortUse :=
  if Z.land p 1 =? 1 then mkPortUse (holders u) (free_bits u) (free_even u) (u32 (free_odd u + d)) (pool u)
  else mkPortUse (holders u) (free_bits u) (u32 (free_even u + d)) (free_odd u) (pool u).

(** Atomic [fetch_add] and [fetch_sub] wrap around. *)
Definition acquire (u : PortUse) (p : Z) : PortUse :=
  let old := (holders u).[p] in
  let u := mkPortUse (set_byte (holders u) p (u16 (old + 1))) (free_bits u) (free_even u) (free_odd u) (pool u) in
  if old =? 0 then
    let u := mkPortUse (holders u) (clear_bit (free_bits u) (p / 64) (p mod 64)) (free_even u) (free_odd u) (pool u) in
    if in_pool u p then add_free u p (-1) else u
  else u.

Definition release (u : PortUse) (p : Z) : PortUse :=
  let old := (holders u).[p] in
  let u := mkPortUse (set_byte (holders u) p (u16 (old - 1))) (free_bits u) (free_even u) (free_odd u) (pool u) in
  if old =? 1 then
    let u := mkPortUse (holders u) (set_bit (free_bits u) (p / 64) (p mod 64)) (free_even u) (free_odd u) (pool u) in
    if in_pool u p then add_free u p 1 else u
  else u.

Definition is_free (u : PortUse) (p : Z) : bool := (holders u).[p] =? 0.

Definition pool_free (u : PortUse) (odd : option bool) : Z :=
  match odd with
  | Some odd => free_at u odd
  | None => free_even u + free_odd u
  end.

Definition free_word (u : PortUse) (word : Z) (range : Z * Z) : Z :=
  let '(lo, hi) := range in
  let base := word * 64 in
  let lo := sat_sub lo base in
  let hi := Z.min (hi - base) 63 in
  Z.land (Z.land (free_bits u).[word] (u64 (Z.shiftl U64_MAX lo))) (Z.shiftr U64_MAX (63 - hi)).

(** [bits.trailing_zeros()] of a word that is not zero. *)
Fixpoint trailing_zeros (n : nat) (bits i : Z) : Z :=
  match n with
  | O => i
  | S n => if Z.testbit bits i then i else trailing_zeros n bits (i + 1)
  end.

(** [(first..=last).find_map(..)] *)
Fixpoint find_word (u : PortUse) (range : Z * Z) (pick : Z -> Z) (ws : list Z) : option Z :=
  match ws with
  | [] => None
  | w :: ws =>
      let bits := pick (free_word u w range) in
      if negb (bits =? 0) then Some (u16 (w * 64 + trailing_zeros 64 bits 0))
      else find_word u range pick ws
  end.

Definition found (u : PortUse) (pick : Z -> Z) (range : Z * Z) : option Z :=
  let first := fst range / 64 in
  let last := snd range / 64 in
  find_word u range pick (seqZ first (last - first + 1)).

Definition search (u : PortUse) (range : Z * Z) (from : Z) (pick : Z -> Z) : option Z :=
  let '(lo, hi) := range in
  if lo >? hi then None
  else
    let from := Z.max lo (Z.min from hi) in
    match found u pick (from, hi) with
    | Some p => Some p
    | None => if from >? lo then found u pick (lo, from) else None
    end.

Definition find (u : PortUse) (range : Z * Z) (from : Z) (odd : option bool) : option Z :=
  let mask := match odd with None => U64_MAX | Some false => EVEN | Some true => u64 (Z.shiftl EVEN 1) end in
  search u range from (fun bits => Z.land bits mask).

Definition choose (u : PortUse) (want from : Z) : option Z :=
  if (PRESERVE_MIN <=? want) && is_free u want then Some want
  else
    let odd := Some (Z.land want 1 =? 1) in
    if pool_free u odd >? 0 then find u (pool u) from odd
    else if pool_free u None >? 0 then find u (pool u) from None
    else None.

Definition find_pair (u : PortUse) (range : Z * Z) (from : Z) : option Z :=
  search u range from (fun bits => Z.land (Z.land bits (Z.shiftr bits 1)) EVEN).

(** ** The search is a scan of the ports one by one *)

(** The first element of a list that passes a test. *)
Fixpoint first_of (Q : Z -> bool) (l : list Z) : option Z :=
  match l with
  | [] => None
  | x :: l => if Q x then Some x else first_of Q l
  end.

Lemma first_of_app Q l k :
  first_of Q (l ++ k) = match first_of Q l with Some x => Some x | None => first_of Q k end.
Proof. induction l as [|x l IH]; [done|]. cbn. by destruct (Q x). Qed.

Lemma first_of_none Q l : (forall x, x ∈ l -> Q x = false) -> first_of Q l = None.
Proof.
  induction l as [|x l IH]; intros H; [done|]. cbn. rewrite H by left. apply IH. intros y Hy. apply H. by right.
Qed.

Lemma first_of_ext Q Q' l : (forall x, x ∈ l -> Q x = Q' x) -> first_of Q l = first_of Q' l.
Proof.
  induction l as [|x l IH]; intros H; [done|]. cbn. rewrite H by left.
  destruct (Q' x); [done|]. apply IH. intros y Hy. apply H. by right.
Qed.

Lemma first_of_some Q l x : first_of Q l = Some x -> x ∈ l /\ Q x = true.
Proof.
  induction l as [|y l IH]; [done|]. cbn. destruct (Q y) eqn:E; [intros [= ->]; split; [left|done]|].
  intros H. apply IH in H as [H1 H2]. split; [by right|done].
Qed.

Lemma first_of_complete Q l : first_of Q l = None -> forall x, x ∈ l -> Q x = false.
Proof.
  induction l as [|y l IH]; intros H x Hx; [by apply not_elem_of_nil in Hx|]. cbn in H.
  destruct (Q y) eqn:E; [done|]. apply elem_of_cons in Hx as [->|Hx]; auto.
Qed.

(** A range inside another, when the test fails outside it. *)
Lemma first_of_sub Q a n a' n' :
  a <= a' -> 0 <= n' -> a' + n' <= a + n -> (forall x, a <= x < a + n -> Q x = true -> a' <= x < a' + n') ->
  first_of Q (seqZ a n) = first_of Q (seqZ a' n').
Proof.
  intros Ha Hn Hb HQ. replace n with ((a' - a) + (n' + (a + n - a' - n'))) by lia.
  rewrite !seqZ_app by lia. rewrite !first_of_app. replace (a + (a' - a)) with a' by lia.
  rewrite (first_of_none Q (seqZ a (a' - a))).
  - rewrite (first_of_none Q (seqZ (a' + n') _)); [by destruct (first_of Q (seqZ a' n'))|].
    intros x Hx. apply elem_of_seqZ in Hx. destruct (Q x) eqn:E; [apply HQ in E; lia|done].
  - intros x Hx. apply elem_of_seqZ in Hx. destruct (Q x) eqn:E; [apply HQ in E; lia|done].
Qed.

Lemma trailing_zeros_spec n bits i :
  trailing_zeros n bits i
  = match first_of (Z.testbit bits) (seqZ i (Z.of_nat n)) with Some j => j | None => i + Z.of_nat n end.
Proof.
  revert i. induction n as [|n IH]; intros i; cbn [trailing_zeros].
  { rewrite seqZ_nil by lia. cbn [first_of]. lia. }
  rewrite seqZ_cons by lia. cbn [first_of]. destruct (Z.testbit bits i); [done|].
  rewrite IH. replace (Z.pred (Z.of_nat (S n))) with (Z.of_nat n) by lia. replace (Z.succ i) with (i + 1) by lia.
  destruct (first_of _ _); [done|lia].
Qed.

Lemma first_of_map Q f l : first_of Q (f <$> l) = f <$> first_of (fun x => Q (f x)) l.
Proof. induction l as [|x l IH]; [done|]. rewrite fmap_cons. cbn. destruct (Q (f x)); [done|exact IH]. Qed.

Lemma testbit_u64 x b : 0 <= b -> Z.testbit (u64 x) b = (b <? 64) && Z.testbit x b.
Proof.
  intros Hb. unfold u64. destruct (b <? 64) eqn:E; bool2prop.
  - by rewrite Z.mod_pow2_bits_low by lia.
  - by rewrite Z.mod_pow2_bits_high by lia.
Qed.

Lemma word_ok_bits x : word_ok x -> forall b, 64 <= b -> Z.testbit x b = false.
Proof.
  intros [H0 H1] b Hb. destruct (decide (x = 0)) as [->|]; [apply Z.testbit_0_l|].
  apply Z.bits_above_log2; [done|]. assert (Z.log2 x < 64) by (apply Z.log2_lt_pow2; lia). lia.
Qed.

Section Search.
Context (u : PortUse).

(** Port [p] is marked free. *)
Definition marked_free (p : Z) : bool := test_bit (free_bits u) (p / 64) (p mod 64).

Lemma free_word_bit w lo hi b :
  0 <= b < 64 -> lo <= w * 64 + 63 -> w * 64 <= hi ->
  Z.testbit (free_word u w (lo, hi)) b
  = Z.testbit (free_bits u).[w] b && (lo <=? w * 64 + b) && (w * 64 + b <=? hi).
Proof.
  intros Hb Hlo Hhi. unfold free_word, sat_sub. rewrite !Z.land_spec.
  rewrite testbit_u64, Z.shiftr_spec, testbit_max by lia. replace (b <? 64) with true by lia. cbn [andb].
  f_equal; [f_equal|lia]. rewrite Z.shiftl_spec by lia.
  destruct (decide (b < Z.max 0 (lo - w * 64))).
  - rewrite Z.testbit_neg_r by lia. lia.
  - rewrite testbit_max by lia. lia.
Qed.

Lemma free_word_ok w lo hi : w * 64 <= hi -> word_ok (free_word u w (lo, hi)).
Proof.
  intros Hhi. unfold word_ok, free_word. set (x := Z.land _ (u64 _)). set (k := 63 - Z.min (hi - w * 64) 63).
  assert (0 <= k <= 63) by lia. rewrite Z.land_comm.
  assert (0 <= Z.shiftr U64_MAX k <= U64_MAX) as Hs.
  { rewrite Z.shiftr_div_pow2 by lia. unfold U64_MAX. split; [apply Z.div_pos; lia|]. apply Z.div_le_upper_bound; [lia|].
    assert (1 <= 2 ^ k) by (apply (Z.pow_le_mono_r 2 0 k); lia). nia. }
  split; [apply Z.land_nonneg; left; lia|].
  apply (Z.le_lt_trans _ (Z.shiftr U64_MAX k)); [|unfold U64_MAX in *; lia].
  apply Z.ldiff_le; [lia|]. apply Z.bits_inj'. intros n Hn. rewrite Z.ldiff_spec, Z.land_spec, Z.testbit_0_l.
  destruct (Z.testbit (Z.shiftr U64_MAX k) n), (Z.testbit x n); done.
Qed.

(** Testing a picked word is testing its ports. *)
Definition picked (pick : Z -> Z) (range : Z * Z) (p : Z) : bool :=
  Z.testbit (pick (free_word u (p / 64) range)) (p mod 64).

Context (pick : Z -> Z) (Hpick : forall x, word_ok x -> word_ok (pick x)).

Lemma word_of_port w b : 0 <= b < 64 -> (w * 64 + b) / 64 = w /\ (w * 64 + b) mod 64 = b.
Proof using.
  intros Hb. rewrite Z.add_comm. split.
  - rewrite Z.div_add by lia. rewrite Z.div_small by lia. lia.
  - rewrite Z.mod_add by lia. apply Z.mod_small. lia.
Qed.

Lemma one_word range w :
  0 <= w < WORDS -> w * 64 <= snd range ->
  (if negb (pick (free_word u w range) =? 0) then Some (u16 (w * 64 + trailing_zeros 64 (pick (free_word u w range)) 0))
   else None) = first_of (picked pick range) (seqZ (w * 64) 64).
Proof using Hpick.
  intros Hw Hhi. destruct range as [lo hi]. cbn [snd] in Hhi. pose proof (Hpick _ (free_word_ok w lo hi Hhi)) as Hok.
  set (bits := pick (free_word u w (lo, hi))) in *.
  replace (w * 64) with (w * 64 + 0) at 2 by lia. rewrite <- fmap_add_seqZ, first_of_map.
  rewrite (first_of_ext _ (Z.testbit bits)).
  2:{ intros b Hb. apply elem_of_seqZ in Hb. unfold picked. destruct (word_of_port w b ltac:(lia)) as [-> ->]. done. }
  rewrite trailing_zeros_spec. change (Z.of_nat 64) with 64. destruct (bits =? 0) eqn:E; bool2prop; cbn [negb].
  - rewrite first_of_none; [done|]. intros b _. rewrite E. apply Z.testbit_0_l.
  - destruct (first_of (Z.testbit bits) (seqZ 0 64)) as [j|] eqn:Ef.
    + apply first_of_some in Ef as [Hj _]. apply elem_of_seqZ in Hj. cbn. f_equal. unfold u16.
      change WORDS with 1024 in Hw. apply Z.mod_small. lia.
    + exfalso. apply E. apply Z.bits_inj'. intros n Hn. rewrite Z.testbit_0_l.
      destruct (decide (n < 64)); [|apply word_ok_bits; [done|lia]].
      apply (first_of_complete _ _ Ef). apply elem_of_seqZ. lia.
Qed.

Lemma find_word_spec range n first :
  0 <= first -> 0 <= n -> first + n <= WORDS -> (first + n - 1) * 64 <= snd range ->
  find_word u range pick (seqZ first n) = first_of (picked pick range) (seqZ (first * 64) (n * 64)).
Proof using Hpick.
  intros Hf Hn Hle Hhi. revert first Hf Hle Hhi. pattern n. apply natlike_ind; [done| |done]. clear n Hn.
  intros n Hn IH first Hf Hle Hhi. rewrite seqZ_cons by lia. replace (Z.pred (Z.succ n)) with n by lia. cbn [find_word].
  replace (Z.succ n * 64) with (64 + n * 64) by lia. rewrite seqZ_app, first_of_app by lia.
  rewrite <- one_word by lia. destruct (negb _); [done|].
  replace (first * 64 + 64) with ((Z.succ first) * 64) by lia. apply IH; lia.
Qed.

Lemma found_spec lo hi :
  0 <= lo <= hi -> hi < PORTS ->
  (forall p, picked pick (lo, hi) p = true -> 0 <= p -> lo / 64 <= p / 64 <= hi / 64 -> lo <= p <= hi) ->
  found u pick (lo, hi) = first_of (picked pick (lo, hi)) (seqZ lo (hi - lo + 1)).
Proof using Hpick.
  intros Hlo Hhi Hin. unfold found. cbn [fst snd].
  pose proof (Z.div_mod lo 64 ltac:(lia)). pose proof (Z.mod_pos_bound lo 64 ltac:(lia)).
  pose proof (Z.div_mod hi 64 ltac:(lia)). pose proof (Z.mod_pos_bound hi 64 ltac:(lia)).
  assert (lo / 64 <= hi / 64) by (apply Z.div_le_mono; lia).
  assert (hi / 64 < WORDS) by (apply Z.div_lt_upper_bound; [lia|]; exact Hhi).
  rewrite find_word_spec by (cbn [snd]; lia || (apply Z.div_pos; lia)).
  apply first_of_sub; try lia. intros x Hx HQ.
  assert (lo / 64 <= x / 64 <= hi / 64) by (split; [apply Z.div_le_lower_bound|apply Z.lt_succ_r, Z.div_lt_upper_bound]; lia).
  enough (lo <= x <= hi) by lia. apply Hin; lia || done.
Qed.
End Search.

(** Ports [lo..=hi] in the order of a search from [from]: up to [hi], then
    from [lo] on. *)
Definition rotation (lo hi from : Z) : list Z :=
  let from := Z.max lo (Z.min from hi) in seqZ from (hi - from + 1) ++ seqZ lo (from - lo).

Definition parity_ok (odd : option bool) (p : Z) : bool :=
  match odd with None => true | Some o => Bool.eqb (Z.odd p) o end.

Definition mask_of (odd : option bool) : Z :=
  match odd with None => U64_MAX | Some false => EVEN | Some true => u64 (Z.shiftl EVEN 1) end.

Lemma mask_bit odd b : 0 <= b < 64 -> Z.testbit (mask_of odd) b = parity_ok odd b.
Proof.
  intros Hb. assert (forall P : Z -> bool, forallb P (seqZ 0 64) = true -> P b = true) as K.
  { intros P HP. rewrite forallb_forall in HP. apply HP, list_elem_of_In, elem_of_seqZ. lia. }
  apply eqb_prop. destruct odd as [[|]|].
  - apply (K (fun b => Bool.eqb (Z.testbit (mask_of (Some true)) b) (parity_ok (Some true) b))). done.
  - apply (K (fun b => Bool.eqb (Z.testbit (mask_of (Some false)) b) (parity_ok (Some false) b))). done.
  - apply (K (fun b => Bool.eqb (Z.testbit (mask_of None) b) (parity_ok None b))). done.
Qed.

Lemma word_ok_land x y : word_ok x -> 0 <= y -> word_ok (Z.land x y).
Proof.
  intros [H0 H1] Hy. split; [apply Z.land_nonneg; by left|]. apply (Z.le_lt_trans _ x); [|done].
  apply Z.ldiff_le; [done|]. apply Z.bits_inj'. intros n Hn. rewrite Z.ldiff_spec, Z.land_spec, Z.testbit_0_l.
  destruct (Z.testbit x n), (Z.testbit y n); done.
Qed.

Lemma odd_mod_64 p : Z.odd (p mod 64) = Z.odd p.
Proof. rewrite (Z.div_mod p 64) at 2 by lia. rewrite Z.add_comm, Z.odd_add, Z.odd_mul. cbn. by rewrite xorb_false_r. Qed.

Section Scan.
Context (u : PortUse) (lo hi : Z) (Hlo : 0 <= lo <= hi) (Hhi : hi < PORTS).

(** The ports a word covers. *)
Lemma in_word p : 0 <= p -> p / 64 * 64 + p mod 64 = p /\ 0 <= p mod 64 < 64.
Proof using.
  intros Hp. pose proof (Z.div_mod p 64 ltac:(lia)). pose proof (Z.mod_pos_bound p 64 ltac:(lia)). lia.
Qed.

Lemma word_overlaps p a b : a / 64 <= p / 64 <= b / 64 -> a <= p / 64 * 64 + 63 /\ p / 64 * 64 <= b.
Proof using.
  intros H. pose proof (Z.div_mod a 64 ltac:(lia)). pose proof (Z.mod_pos_bound a 64 ltac:(lia)).
  pose proof (Z.div_mod b 64 ltac:(lia)). pose proof (Z.mod_pos_bound b 64 ltac:(lia)). lia.
Qed.

Lemma picked_find a b odd p :
  0 <= p -> a / 64 <= p / 64 <= b / 64 ->
  picked u (fun bits => Z.land bits (mask_of odd)) (a, b) p
  = marked_free u p && (a <=? p) && (p <=? b) && parity_ok odd p.
Proof using.
  intros Hp Hw. destruct (in_word p Hp) as [Ep Hm]. destruct (word_overlaps p a b Hw) as [H1 H2]. unfold picked, marked_free.
  rewrite Z.land_spec, free_word_bit, mask_bit, Ep, test_bit_testbit by lia. f_equal.
  unfold parity_ok. destruct odd; [by rewrite odd_mod_64|done].
Qed.

Lemma picked_pair a b p :
  0 <= p -> a / 64 <= p / 64 <= b / 64 ->
  picked u (fun bits => Z.land (Z.land bits (Z.shiftr bits 1)) EVEN) (a, b) p
  = marked_free u p && marked_free u (p + 1) && (a <=? p) && (p + 1 <=? b) && Z.even p.
Proof using.
  intros Hp Hw. destruct (in_word p Hp) as [Ep Hm]. destruct (word_overlaps p a b Hw) as [H1 H2]. unfold picked.
  change EVEN with (mask_of (Some false)). rewrite !Z.land_spec, mask_bit by lia. unfold parity_ok. rewrite odd_mod_64.
  replace (Bool.eqb (Z.odd p) false) with (Z.even p) by (rewrite <- Z.negb_odd; by destruct (Z.odd p)).
  destruct (Z.even p) eqn:Ev; [|by rewrite !andb_false_r].
  assert (p mod 64 <> 63) as H63.
  { intros E. rewrite <- Z.negb_odd, <- odd_mod_64, E in Ev. done. }
  assert ((p + 1) / 64 = p / 64 /\ (p + 1) mod 64 = p mod 64 + 1) as [E1 E2].
  { replace (p + 1) with (p / 64 * 64 + (p mod 64 + 1)) by lia. apply word_of_port. lia. }
  unfold marked_free. rewrite E1, E2, Z.shiftr_spec, !free_word_bit, !test_bit_testbit by lia.
  replace (p / 64 * 64 + (p mod 64 + 1)) with (p + 1) by lia. rewrite Ep.
  destruct (Z.testbit _ (p mod 64)), (Z.testbit _ (p mod 64 + 1)); cbn [andb]; try lia.
Qed.

(** Two passes of a search are one over the rotation. *)
Lemma two_passes pick (Q : Z -> bool) from :
  (forall x, word_ok x -> word_ok (pick x)) ->
  (forall a b p, lo <= a -> b <= hi -> a <= p <= b -> picked u pick (a, b) p = true -> Q p = true) ->
  (forall a b p, lo <= a -> b <= hi -> 0 <= p -> a / 64 <= p / 64 <= b / 64 -> picked u pick (a, b) p = true -> a <= p <= b) ->
  (forall p, Q p = true -> lo <= p <= hi) ->
  (forall a p, lo <= a -> a <= p <= hi -> Q p = true -> picked u pick (a, hi) p = true) ->
  (forall b p, b <= hi -> lo <= p < b -> Q p = true -> picked u pick (lo, b) p = true) ->
  search u (lo, hi) from pick = first_of Q (rotation lo hi from).
Proof using Hlo Hhi.
  intros Hok H1 H2 H3 H4 H5. unfold search, rotation. replace (lo >? hi) with false by lia.
  set (f := Z.max lo (Z.min from hi)). assert (lo <= f <= hi) by lia.
  assert (forall a b p, lo <= a -> b <= hi -> picked u pick (a, b) p = true -> 0 <= p -> a / 64 <= p / 64 <= b / 64 -> a <= p <= b)
    as H2' by (intros; eapply H2; eassumption).
  rewrite first_of_app, found_spec; [|done|lia|done|intros p Hpk Hp0 Hpw; apply (H2' f hi p); (lia || done)].
  rewrite (first_of_ext _ Q (seqZ f (hi - f + 1))).
  2:{ intros p Hp. apply elem_of_seqZ in Hp. destruct (Q p) eqn:E; [apply H4; lia || done|].
      destruct (picked u pick (f, hi) p) eqn:E2; [|done]. rewrite (H1 f hi p) in E; [done|lia|lia|lia|done]. }
  destruct (first_of Q (seqZ f (hi - f + 1))) as [p|] eqn:E1; [done|].
  destruct (f >? lo) eqn:E2.
  2:{ replace (f - lo) with 0 by lia. done. }
  rewrite found_spec; [|done|lia|lia|intros p Hpk Hp0 Hpw; apply (H2' lo f p); (lia || done)].
  replace (f - lo + 1) with ((f - lo) + 1) by lia. rewrite seqZ_app, first_of_app by lia.
  rewrite (first_of_ext _ Q (seqZ lo (f - lo))).
  2:{ intros p Hp. apply elem_of_seqZ in Hp. destruct (Q p) eqn:E; [apply H5; lia || done|].
      destruct (picked u pick (lo, f) p) eqn:E3; [|done]. rewrite (H1 lo f p) in E; [done|lia|lia|lia|done]. }
  destruct (first_of Q (seqZ lo (f - lo))); [done|]. apply first_of_none. intros p Hp. apply elem_of_seqZ in Hp.
  replace p with f by lia. destruct (picked u pick (lo, f) f) eqn:E3; [|done]. apply H1 in E3; [|lia..].
  rewrite (first_of_complete _ _ E1 f) in E3; [done|]. apply elem_of_seqZ. lia.
Qed.

Lemma div_range a b p : a <= p <= b -> a / 64 <= p / 64 <= b / 64.
Proof using. intros. split; apply Z.div_le_mono; lia. Qed.

Lemma find_scan from odd :
  find u (lo, hi) from odd = first_of (fun p => marked_free u p && (lo <=? p) && (p <=? hi) && parity_ok odd p) (rotation lo hi from).
Proof using Hlo Hhi.
  unfold find. fold (mask_of odd). apply two_passes.
  - intros x Hx. apply word_ok_land; [done|]. by destruct odd as [[|]|].
  - intros a b p Ha Hb Hp. rewrite picked_find by (lia || by apply div_range). rewrite ?andb_true_iff, ?Z.leb_le. intuition lia.
  - intros a b p Ha Hb Hp Hw. rewrite picked_find by done. rewrite ?andb_true_iff, ?Z.leb_le. intuition lia.
  - intros p. rewrite ?andb_true_iff, ?Z.leb_le. intuition lia.
  - intros a p Ha Hp. rewrite picked_find by (lia || by apply div_range). rewrite ?andb_true_iff, ?Z.leb_le. intuition lia.
  - intros b p Hb Hp. rewrite picked_find by (lia || (apply div_range; lia)). rewrite ?andb_true_iff, ?Z.leb_le. intuition lia.
Qed.

Lemma find_pair_scan from :
  find_pair u (lo, hi) from
  = first_of (fun p => marked_free u p && marked_free u (p + 1) && (lo <=? p) && (p + 1 <=? hi) && Z.even p) (rotation lo hi from).
Proof using Hlo Hhi.
  unfold find_pair. apply two_passes.
  - intros x Hx. apply word_ok_land; [|done]. apply word_ok_land; [done|]. apply Z.shiftr_nonneg, Hx.
  - intros a b p Ha Hb Hp. rewrite picked_pair by (lia || by apply div_range). rewrite ?andb_true_iff, ?Z.leb_le. intuition lia.
  - intros a b p Ha Hb Hp Hw. rewrite picked_pair by done. rewrite ?andb_true_iff, ?Z.leb_le. intuition lia.
  - intros p. rewrite ?andb_true_iff, ?Z.leb_le. intuition lia.
  - intros a p Ha Hp. rewrite picked_pair by (lia || by apply div_range). rewrite ?andb_true_iff, ?Z.leb_le. intuition lia.
  - intros b p Hb Hp. rewrite picked_pair by (lia || (apply div_range; lia)). rewrite ?andb_true_iff, ?Z.leb_le. intuition lia.
Qed.
End Scan.

(** ** The table is exact *)

(** Ports of the range [l] that [h] gives no holder, of one parity. *)
Definition vacant (h : Z -> Z) (odd : bool) (p : Z) : Z := if (h p =? 0) && Bool.eqb (Z.odd p) odd then 1 else 0.

Definition zsum (f : Z -> Z) (l : list Z) : Z := foldr (fun p acc => f p + acc) 0 l.

Definition count_free (h : Z -> Z) (range : Z * Z) (odd : bool) : Z :=
  zsum (vacant h odd) (seqZ (fst range) (snd range - fst range + 1)).

Definition upd (h : Z -> Z) (p v q : Z) : Z := if q =? p then v else h q.

(** [h p] holders hold port [p], for every [p]. *)
Record puse_inv (h : Z -> Z) (u : PortUse) : Prop := {
  pi_len : zlen (holders u) = PORTS /\ zlen (free_bits u) = WORDS;
  pi_holders : forall p, 0 <= p < PORTS -> (holders u).[p] = h p /\ 0 <= h p < 2 ^ 16;
  pi_bits : forall p, 0 <= p < PORTS -> marked_free u p = (h p =? 0);
  pi_pool : 0 <= fst (pool u) <= snd (pool u) /\ snd (pool u) < PORTS;
  pi_free : forall odd, free_at u odd = count_free h (pool u) odd }.

Lemma zsum_cons f x l : zsum f (x :: l) = f x + zsum f l.
Proof. done. Qed.

Lemma zsum_ext f g l : (forall p, p ∈ l -> f p = g p) -> zsum f l = zsum g l.
Proof.
  induction l as [|x l IH]; intros H; [done|]. rewrite !zsum_cons.
  rewrite H by left. rewrite IH; [done|]. intros p Hp. apply H. by right.
Qed.

Lemma zsum_change f g l p :
  NoDup l -> (forall q, q ∈ l -> q <> p -> f q = g q) -> zsum g l = zsum f l + (if bool_decide (p ∈ l) then g p - f p else 0).
Proof.
  induction 1 as [|x l Hx Hnd IH]; intros Hfg; [done|]. rewrite !zsum_cons.
  destruct (decide (x = p)) as [->|Hne].
  - rewrite bool_decide_eq_true_2 by left. rewrite (zsum_ext g f l); [lia|]. intros q Hq. symmetry. apply Hfg; [by right|].
    intros ->. done.
  - rewrite IH by (intros q Hq; apply Hfg; by right). rewrite (Hfg x) by (done || left).
    rewrite (bool_decide_ext (p ∈ x :: l) (p ∈ l)); [lia|]. rewrite elem_of_cons. split; [intros [->|]; done|auto].
Qed.

Lemma zsum_bound f l : (forall p, 0 <= f p <= 1) -> 0 <= zsum f l <= zlen l.
Proof.
  intros H. induction l as [|x l IH]; [done|]. rewrite zsum_cons. rewrite zlen_cons. specialize (H x). lia.
Qed.

Lemma vacant_bound h odd p : 0 <= vacant h odd p <= 1.
Proof. unfold vacant. destruct (_ && _); lia. Qed.

Lemma count_free_bound h range odd : 0 <= fst range -> snd range < PORTS -> 0 <= count_free h range odd <= PORTS.
Proof.
  intros Hl Hh. unfold count_free. pose proof (zsum_bound (vacant h odd) (seqZ (fst range) (snd range - fst range + 1)) (vacant_bound h odd)) as H.
  unfold zlen in H. rewrite length_seqZ in H. assert (0 <= PORTS) by done. lia.
Qed.

(** Changing the holders of one port. *)
Lemma count_free_upd h lo hi odd p v :
  count_free (upd h p v) (lo, hi) odd
  = count_free h (lo, hi) odd
    + (if (lo <=? p) && (p <=? hi) && Bool.eqb (Z.odd p) odd
       then (if v =? 0 then 1 else 0) - (if h p =? 0 then 1 else 0) else 0).
Proof.
  unfold count_free. cbn [fst snd]. rewrite (zsum_change (vacant h odd) (vacant (upd h p v) odd) _ p).
  2: apply NoDup_seqZ.
  2:{ intros q _ Hq. unfold vacant, upd. by rewrite (proj2 (Z.eqb_neq q p)). }
  f_equal. unfold vacant, upd. rewrite Z.eqb_refl.
  destruct (bool_decide _) eqn:E; [apply bool_decide_eq_true, elem_of_seqZ in E|apply bool_decide_eq_false in E; rewrite elem_of_seqZ in E].
  - replace ((lo <=? p) && (p <=? hi)) with true by lia. cbn [andb]. destruct (Bool.eqb _ _); rewrite ?andb_true_r, ?andb_false_r; lia.
  - replace ((lo <=? p) && (p <=? hi)) with false by lia. done.
Qed.

Lemma land_1_odd p : (Z.land p 1 =? 1) = Z.odd p.
Proof.
  change 1 with (Z.ones 1). rewrite Z.land_ones by lia. change (2 ^ 1) with 2. rewrite Zmod_odd. by destruct (Z.odd p).
Qed.

Lemma port_word p : 0 <= p < PORTS -> 0 <= p / 64 < WORDS /\ 0 <= p mod 64 < 64.
Proof.
  intros Hp. split; [|apply Z.mod_pos_bound; lia].
  split; [apply Z.div_pos; lia|apply Z.div_lt_upper_bound; [lia|]]. change (64 * WORDS) with PORTS. lia.
Qed.

(** A change of one port that keeps holders, bits and counts in step. *)
Lemma inv_step h u p v bits fe fo :
  puse_inv h u -> 0 <= p < PORTS -> 0 <= v < 2 ^ 16 -> zlen bits = WORDS ->
  (forall q, 0 <= q < PORTS -> test_bit bits (q / 64) (q mod 64) = (upd h p v q =? 0)) ->
  (forall odd, (if odd : bool then fo else fe) = count_free (upd h p v) (pool u) odd) ->
  puse_inv (upd h p v) (mkPortUse (set_byte (holders u) p v) bits fe fo (pool u)).
Proof.
  intros [[Hl1 Hl2] Hh Hb Hp Hf] Hr Hv Hlb Hbits Hfree. split; cbn [holders free_bits pool].
  - split; [by rewrite zlen_set_byte|done].
  - intros q Hq. unfold upd. destruct (q =? p) eqn:E; bool2prop.
    + subst q. rewrite byte_at_set_eq by lia. lia.
    + rewrite byte_at_set_ne by lia. by apply Hh.
  - done.
  - done.
  - exact Hfree.
Qed.

Lemma acquire_inv h u p :
  puse_inv h u -> 0 <= p < PORTS -> h p + 1 < 2 ^ 16 -> puse_inv (upd h p (h p + 1)) (acquire u p).
Proof.
  intros I Hp Hlt. pose proof I as [[Hl1 Hl2] Hh Hb [Hp1 Hp2] Hf]. destruct (Hh p Hp) as [Ehp Hhp]. destruct (port_word p Hp) as [Hw Hm].
  unfold acquire. rewrite Ehp. unfold u16. rewrite Z.mod_small by (change (2 ^ 16) with 65536 in *; lia).
  assert (forall odd, count_free (upd h p (h p + 1)) (pool u) odd = free_at u odd +
    (if in_pool u p && Bool.eqb (Z.odd p) odd then (if h p =? 0 then -1 else 0) else 0)) as Hc.
  { intros odd. rewrite Hf. destruct (pool u) as [lo hi] eqn:E. rewrite count_free_upd. unfold in_pool. rewrite E. cbn [fst snd].
    replace (h p + 1 =? 0) with false by lia. destruct (_ && Bool.eqb _ _); destruct (h p =? 0); lia. }
  assert (forall odd, 0 <= count_free (upd h p (h p + 1)) (pool u) odd <= PORTS) as Hcb
    by (intros odd; apply count_free_bound; lia).
  cbn [holders free_bits free_even free_odd pool]. destruct (h p =? 0) eqn:E0; bool2prop.
  - assert (forall q, 0 <= q < PORTS -> test_bit (clear_bit (free_bits u) (p / 64) (p mod 64)) (q / 64) (q mod 64)
      = (upd h p (h p + 1) q =? 0)) as Hbits.
    { intros q Hq. destruct (port_word q Hq). rewrite test_clear_bit, same_place by lia.
      change (test_bit (free_bits u) (q / 64) (q mod 64)) with (marked_free u q). rewrite Hb by done. unfold upd.
      destruct (q =? p) eqn:E; bool2prop; [subst; lia|done]. }
    change (in_pool (mkPortUse _ _ _ _ (pool u)) p) with (in_pool u p).
    destruct (in_pool u p) eqn:Ep.
    + unfold add_free. rewrite land_1_odd. cbn [holders free_bits free_even free_odd pool].
      destruct (Z.odd p) eqn:Eo; (apply inv_step; [done|done|lia|by unfold clear_bit; rewrite zlen_set_byte|done|]);
        intros odd; specialize (Hc odd); specialize (Hcb odd); rewrite Hc in *; unfold free_at in *;
        destruct odd; cbn [andb Bool.eqb] in *; try lia; unfold u32; rewrite Z.mod_small; try lia; change PORTS with 65536 in *; lia.
    + apply inv_step; [done|done|lia|by unfold clear_bit; rewrite zlen_set_byte|done|].
      intros odd. rewrite Hc. cbn [andb]. rewrite Z.add_0_r. by destruct odd.
  - apply inv_step; [done|done|lia|done| |].
    + intros q Hq. change (test_bit (free_bits u) (q / 64) (q mod 64)) with (marked_free u q). rewrite Hb by done. unfold upd.
      destruct (q =? p) eqn:E; bool2prop; [subst; lia|done].
    + intros odd. rewrite Hc. destruct (_ && _); rewrite Z.add_0_r; by destruct odd.
Qed.

Lemma release_inv h u p :
  puse_inv h u -> 0 <= p < PORTS -> 0 < h p -> puse_inv (upd h p (h p - 1)) (release u p).
Proof.
  intros I Hp Hlt. pose proof I as [[Hl1 Hl2] Hh Hb [Hp1 Hp2] Hf]. destruct (Hh p Hp) as [Ehp Hhp]. destruct (port_word p Hp) as [Hw Hm].
  unfold release. rewrite Ehp. unfold u16. rewrite Z.mod_small by (change (2 ^ 16) with 65536 in *; lia).
  assert (forall odd, count_free (upd h p (h p - 1)) (pool u) odd = free_at u odd +
    (if in_pool u p && Bool.eqb (Z.odd p) odd then (if h p =? 1 then 1 else 0) else 0)) as Hc.
  { intros odd. rewrite Hf. destruct (pool u) as [lo hi] eqn:E. rewrite count_free_upd. unfold in_pool. rewrite E. cbn [fst snd].
    replace (h p - 1 =? 0) with (h p =? 1) by lia. replace (h p =? 0) with false by lia.
    destruct (_ && Bool.eqb _ _); destruct (h p =? 1); lia. }
  assert (forall odd, 0 <= count_free (upd h p (h p - 1)) (pool u) odd <= PORTS) as Hcb
    by (intros odd; apply count_free_bound; lia).
  cbn [holders free_bits free_even free_odd pool]. destruct (h p =? 1) eqn:E0; bool2prop.
  - assert (forall q, 0 <= q < PORTS -> test_bit (set_bit (free_bits u) (p / 64) (p mod 64)) (q / 64) (q mod 64)
      = (upd h p (h p - 1) q =? 0)) as Hbits.
    { intros q Hq. destruct (port_word q Hq). rewrite test_set_bit, same_place by lia.
      change (test_bit (free_bits u) (q / 64) (q mod 64)) with (marked_free u q). rewrite Hb by done. unfold upd.
      destruct (q =? p) eqn:E; bool2prop; [subst; rewrite E0; done|done]. }
    change (in_pool (mkPortUse _ _ _ _ (pool u)) p) with (in_pool u p).
    destruct (in_pool u p) eqn:Ep.
    + unfold add_free. rewrite land_1_odd. cbn [holders free_bits free_even free_odd pool].
      destruct (Z.odd p) eqn:Eo; (apply inv_step; [done|done|lia|by rewrite zlen_set_bit|done|]);
        intros odd; specialize (Hc odd); specialize (Hcb odd); rewrite Hc in *; unfold free_at in *;
        destruct odd; cbn [andb Bool.eqb] in *; try lia; unfold u32; rewrite Z.mod_small; try lia; change PORTS with 65536 in *; lia.
    + apply inv_step; [done|done|lia|by rewrite zlen_set_bit|done|].
      intros odd. rewrite Hc. cbn [andb]. rewrite Z.add_0_r. by destruct odd.
  - apply inv_step; [done|done|lia|done| |].
    + intros q Hq. change (test_bit (free_bits u) (q / 64) (q mod 64)) with (marked_free u q). rewrite Hb by done. unfold upd.
      destruct (q =? p) eqn:E; bool2prop; [subst; lia|done].
    + intros odd. rewrite Hc. destruct (_ && _); rewrite Z.add_0_r; by destruct odd.
Qed.

(** ** A new table *)

Lemma evens_of_range lo n :
  0 <= n -> zsum (vacant (fun _ => 0) false) (seqZ lo n) = (lo + n - 1) / 2 + 1 - (lo + 1) / 2.
Proof.
  intros Hn. revert lo. pattern n. apply natlike_ind; [| |done]; clear n Hn.
  - intros lo. rewrite seqZ_nil by lia. cbn. replace (lo + 1) with (lo + 0 - 1 + 1 * 2) by lia. rewrite Z.div_add by lia. lia.
  - intros n Hn IH lo. rewrite seqZ_cons by lia. rewrite zsum_cons.
    replace (Z.pred (Z.succ n)) with n by lia. rewrite IH.
    replace (Z.succ lo + n - 1) with (lo + Z.succ n - 1) by lia. unfold vacant. cbn [Z.eqb andb].
    assert ((Z.succ lo + 1) / 2 = (lo + 1) / 2 + (if Bool.eqb (Z.odd lo) false then 1 else 0)) as ->; [|lia].
    pose proof (Zmod_odd lo) as Hm. pose proof (Z.div_mod lo 2 ltac:(lia)). destruct (Z.odd lo); cbn [Bool.eqb].
    + replace (Z.succ lo + 1) with (1 + (lo / 2 + 1) * 2) by lia. replace (lo + 1) with (0 + (lo / 2 + 1) * 2) by lia.
      rewrite !Z.div_add by lia. change (0 / 2) with 0. change (1 / 2) with 0. lia.
    + replace (Z.succ lo + 1) with (0 + (lo / 2 + 1) * 2) by lia. replace (lo + 1) with (1 + (lo / 2) * 2) by lia.
      rewrite !Z.div_add by lia. change (0 / 2) with 0. change (1 / 2) with 0. lia.
Qed.

Lemma parity_split h lo n :
  zsum (vacant (fun _ => h) true) (seqZ lo n) + zsum (vacant (fun _ => h) false) (seqZ lo n)
  = if h =? 0 then zlen (seqZ lo n) else 0.
Proof.
  generalize (seqZ lo n) as l. induction l as [|x l IH]; [by destruct (h =? 0)|]. rewrite !zsum_cons, zlen_cons.
  unfold vacant at 1 3. destruct (h =? 0); cbn [andb]; [|lia]. destruct (Z.odd x); cbn [Bool.eqb]; lia.
Qed.

Lemma new_inv lo hi : 0 <= lo <= hi -> hi < PORTS -> puse_inv (fun _ => 0) (PortUse_new lo hi).
Proof.
  intros Hlo Hhi. assert (0 <= PORTS /\ 0 <= WORDS) by done.
  split; cbn [PortUse_new holders free_bits pool fst snd].
  - rewrite !zlen_replicate. lia.
  - intros p Hp. split; [|lia]. unfold byte_at. by rewrite (lookup_replicate_2 _ _ (Z.to_nat p)) by lia.
  - intros p Hp. destruct (port_word p Hp) as [Hw Hm]. unfold marked_free. rewrite test_bit_testbit by lia.
    cbn [PortUse_new free_bits]. unfold byte_at. rewrite (lookup_replicate_2 _ _ (Z.to_nat (p / 64))) by lia. cbn.
    rewrite testbit_max by lia. lia.
  - lia.
  - intros odd. unfold count_free. cbn [fst snd].
    pose proof (evens_of_range lo (hi - lo + 1) ltac:(lia)) as He. replace (lo + (hi - lo + 1) - 1) with hi in He by lia.
    pose proof (parity_split 0 lo (hi - lo + 1)) as Hs. cbn [Z.eqb] in Hs. unfold zlen in Hs. rewrite length_seqZ in Hs.
    destruct odd; cbn; lia.
Qed.

(** ** Choosing *)

Lemma is_free_spec h u p : puse_inv h u -> 0 <= p < PORTS -> is_free u p = (h p =? 0).
Proof. intros I Hp. unfold is_free. by rewrite (proj1 (pi_holders _ _ I p Hp)). Qed.

Lemma zsum_zero f l : (forall p, 0 <= f p) -> zsum f l = 0 -> forall p, p ∈ l -> f p = 0.
Proof.
  intros Hf. induction l as [|x l IH]; intros H p Hp; [by apply not_elem_of_nil in Hp|].
  rewrite zsum_cons in H. assert (0 <= zsum f l).
  { clear -Hf. induction l as [|y l IH]; [done|]. rewrite zsum_cons. specialize (Hf y). lia. }
  specialize (Hf x) as Hx. apply elem_of_cons in Hp as [->|Hp]; [lia|]. apply IH; [lia|done].
Qed.

Lemma count_zero h range odd p :
  count_free h range odd = 0 -> fst range <= p <= snd range -> Z.odd p = odd -> h p <> 0.
Proof.
  intros Hc Hp Ho Hh. unfold count_free in Hc.
  apply (zsum_zero _ _ (fun q => proj1 (vacant_bound h odd q))) with (p := p) in Hc; [|apply elem_of_seqZ; lia].
  unfold vacant in Hc. rewrite Hh, Ho in Hc. destruct odd; done.
Qed.

Lemma count_pos h range odd :
  0 < count_free h range odd -> exists p, fst range <= p <= snd range /\ Z.odd p = odd /\ h p = 0.
Proof.
  unfold count_free. intros Hc.
  destruct (decide (Exists (fun p => (h p =? 0) && Bool.eqb (Z.odd p) odd = true) (seqZ (fst range) (snd range - fst range + 1)))) as [He|Hn].
  - apply Exists_exists in He as (p & Hp & Hq). apply list_elem_of_In, elem_of_seqZ in Hp. exists p. bool2prop.
    split_and!; [lia|lia|by apply eqb_prop|done].
  - exfalso. rewrite (zsum_ext _ (fun _ => 0)) in Hc.
    + clear -Hc. induction (seqZ _ _) as [|x l IH]; [done|]. rewrite zsum_cons in Hc. apply IH. lia.
    + intros p Hp. unfold vacant. destruct ((h p =? 0) && _) eqn:E; [|done]. exfalso. apply Hn. apply Exists_exists.
      exists p. split; [by apply list_elem_of_In|done].
Qed.

Lemma rotation_elem lo hi from p : lo <= hi -> p ∈ rotation lo hi from <-> lo <= p <= hi.
Proof. intros H. unfold rotation. rewrite elem_of_app, !elem_of_seqZ. lia. Qed.

(** Finding in the pool, by what is held. *)
Lemma find_in_pool h u from odd :
  puse_inv h u ->
  find u (pool u) from odd
  = first_of (fun p => (h p =? 0) && parity_ok odd p) (rotation (fst (pool u)) (snd (pool u)) from).
Proof.
  intros I. destruct (pi_pool _ _ I) as [H1 H2]. destruct (pool u) as [lo hi] eqn:E. cbn [fst snd] in *.
  rewrite find_scan by done. apply first_of_ext. intros p Hp. apply rotation_elem in Hp; [|lia].
  rewrite (pi_bits _ _ I) by lia. replace (lo <=? p) with true by lia. replace (p <=? hi) with true by lia.
  by rewrite !andb_true_r.
Qed.

(** In a table that is exact about its holders, the search over words of
    the bitmap finds just what a scan of the ports one by one finds: the
    first port, from [from] up to [hi] and then from [lo] on, that is free
    and of the parity asked for; and for pairs the first even port that is
    free along with the next one, both inside the range. *)
Theorem port_search_is_scan (h : Z -> Z) (u : PortUse) (lo hi from : Z) (odd : option bool) :
  puse_inv h u -> 0 <= lo <= hi -> hi < PORTS ->
  find u (lo, hi) from odd = first_of (fun p => is_free u p && parity_ok odd p) (rotation lo hi from) /\
  find_pair u (lo, hi) from
  = first_of (fun p => Z.even p && is_free u p && ((p + 1 <=? hi) && is_free u (p + 1))) (rotation lo hi from).
Proof.
  intros I Hlo Hhi. rewrite find_scan, find_pair_scan by done. split; apply first_of_ext; intros p Hp;
    apply rotation_elem in Hp; try lia; rewrite !(pi_bits _ _ I), !(is_free_spec h) by (done || lia).
  - replace (lo <=? p) with true by lia. replace (p <=? hi) with true by lia. by rewrite !andb_true_r.
  - replace (lo <=? p) with true by lia. destruct (p + 1 <=? hi) eqn:E; bool2prop.
    + rewrite (pi_bits _ _ I), (is_free_spec h) by (done || lia). destruct (Z.even p), (h p =? 0), (h (p + 1) =? 0); done.
    + cbn [andb]. by rewrite !andb_false_r.
Qed.

Lemma port_search_is_scan_witness :
  let u := acquire (acquire (PortUse_new 40000 40010) 40003) 40000 in
  find u (40000, 40010) 40003 (Some true) = Some 40005 /\
  find u (40000, 40010) 40003 (Some true)
  = first_of (fun p => is_free u p && parity_ok (Some true) p) (rotation 40000 40010 40003).
Proof.
  cbv zeta. split; [vm_compute; reflexivity|].
  refine (proj1 (port_search_is_scan (upd (upd (fun _ => 0) 40003 1) 40000 1) _ 40000 40010 40003 (Some true) _ _ _));
    [|lia|done].
  refine (acquire_inv (upd (fun _ => 0) 40003 1) _ 40000 _ _ _); [|done|done].
  refine (acquire_inv (fun _ => 0) _ 40003 _ _ _); [apply new_inv; done|done|done].
Defined.

(** The choice of a port, on every branch. *)
Lemma choose_spec (h : Z -> Z) (u : PortUse) (want from : Z) :
  puse_inv h u -> 0 <= want < PORTS ->
  let kept := (PRESERVE_MIN <=? want) && is_free u want in
  match choose u want from with
  | Some p =>
      is_free u p = true /\
      (if kept then p = want
       else in_pool u p = true /\
         (Z.odd p = Z.odd want \/ forall q, in_pool u q = true -> Z.odd q = Z.odd want -> is_free u q = false))
  | None => kept = false /\ forall q, in_pool u q = true -> is_free u q = false
  end.
Proof.
  intros I Hw kept. destruct (pi_pool _ _ I) as [Hp1 Hp2]. unfold choose. fold kept.
  destruct kept eqn:Ek; [unfold kept in Ek; bool2prop; done|].
  assert (forall q, in_pool u q = true -> fst (pool u) <= q <= snd (pool u)) as Hin by (intros q; unfold in_pool; lia).
  assert (forall q, fst (pool u) <= q <= snd (pool u) -> in_pool u q = true) as Hin' by (intros q; unfold in_pool; lia).
  rewrite land_1_odd. cbn [pool_free]. rewrite !(find_in_pool h u from) by done.
  assert (forall odd, (free_at u odd >? 0) = false -> forall q, in_pool u q = true -> Z.odd q = odd -> is_free u q = false) as Hz.
  { intros odd Ho q Hq Hqo. apply Hin in Hq. rewrite (is_free_spec h) by (done || lia). apply Z.eqb_neq.
    apply (count_zero h (pool u) odd); [|done|done]. rewrite <- (pi_free _ _ I odd).
    pose proof (count_free_bound h (pool u) odd ltac:(lia) Hp2). rewrite <- (pi_free _ _ I odd) in *. lia. }
  assert (forall odd p, first_of (fun p => (h p =? 0) && parity_ok odd p) (rotation (fst (pool u)) (snd (pool u)) from) = Some p ->
    is_free u p = true /\ in_pool u p = true /\ parity_ok odd p = true) as Hs.
  { intros odd p Hf. apply first_of_some in Hf as [Hf1 Hf2]. apply rotation_elem in Hf1; [|lia]. bool2prop.
    rewrite (is_free_spec h) by (done || lia). split_and!; [lia|auto|done]. }
  assert (forall odd, (exists q, in_pool u q = true /\ h q = 0 /\ parity_ok odd q = true) ->
    first_of (fun p => (h p =? 0) && parity_ok odd p) (rotation (fst (pool u)) (snd (pool u)) from) <> None) as Hc.
  { intros odd (q & Hq & Hq0 & Hqp) Hf. pose proof (first_of_complete _ _ Hf q) as K. cbv beta in K. rewrite Hq0, Hqp in K.
    discriminate K. apply rotation_elem; [lia|]. by apply Hin. }
  destruct (free_at u (Z.odd want) >? 0) eqn:E1.
  { destruct (count_pos h (pool u) (Z.odd want)) as (q & Hq & Hqo & Hq0); [rewrite <- (pi_free _ _ I); lia|].
    destruct (first_of _ _) as [p|] eqn:Ef.
    - apply Hs in Ef as (H1 & H2 & H3). split; [done|]. split; [done|]. left. by apply eqb_prop.
    - exfalso. apply (Hc (Some (Z.odd want))); [|done]. exists q. split_and!; [auto|done|]. cbn. rewrite Hqo. apply eqb_reflx. }
  specialize (Hz _ E1) as Hz1. pose proof (pi_free _ _ I true) as F1. pose proof (pi_free _ _ I false) as F0.
  unfold free_at in F1, F0. rewrite F1, F0.
  destruct (count_free h (pool u) false + count_free h (pool u) true >? 0) eqn:E2.
  - destruct (first_of _ _) as [p|] eqn:Ef.
    + apply Hs in Ef as (H1 & H2 & _). split; [done|]. split; [done|]. right. exact Hz1.
    + exfalso. pose proof (count_free_bound h (pool u) true ltac:(lia) Hp2). pose proof (count_free_bound h (pool u) false ltac:(lia) Hp2).
      apply (Hc None); [|done].
      destruct (decide (0 < count_free h (pool u) true)) as [Hpos|Hpos].
      * destruct (count_pos _ _ _ Hpos) as (q & Hq & _ & Hq0). exists q. split_and!; [auto|done|done].
      * destruct (count_pos h (pool u) false) as (q & Hq & _ & Hq0); [lia|]. exists q. split_and!; [auto|done|done].
  - split; [done|]. intros q Hq. pose proof (count_free_bound h (pool u) true ltac:(lia) Hp2).
    pose proof (count_free_bound h (pool u) false ltac:(lia) Hp2).
    apply (Hz (Z.odd q)); [|done|done]. unfold free_at. destruct (Z.odd q); lia.
Qed.

(** The port chosen for a mapping is always free: the inside port itself
    if that is free and unprivileged, else one of the dynamic pool, of the
    same parity whenever the pool has one free.  No port is chosen only if
    the inside port cannot be kept and the whole pool is taken. *)
Theorem choose_correct (h : Z -> Z) (u : PortUse) (want from : Z) :
  puse_inv h u -> 0 <= want < PORTS ->
  let kept := (PRESERVE_MIN <=? want) && is_free u want in
  match choose u want from with
  | Some p =>
      is_free u p = true /\
      (if kept then p = want
       else in_pool u p = true /\
         (Z.odd p = Z.odd want \/ forall q, in_pool u q = true -> Z.odd q = Z.odd want -> is_free u q = false))
  | None => kept = false /\ forall q, in_pool u q = true -> is_free u q = false
  end.
Proof. apply choose_spec. Qed.

Lemma choose_correct_witness :
  let u := acquire (PortUse_new 40000 40001) 5060 in
  choose u 5060 40000 = Some 40000 /\
  match choose u 5060 40000 with
  | Some p => is_free u p = true /\ (in_pool u p = true /\
      (Z.odd p = Z.odd 5060 \/ forall q, in_pool u q = true -> Z.odd q = Z.odd 5060 -> is_free u q = false))
  | None => False
  end.
Proof.
  cbv zeta. assert (puse_inv (upd (fun _ => 0) 5060 1) (acquire (PortUse_new 40000 40001) 5060)) as I
    by (refine (acquire_inv (fun _ => 0) _ 5060 _ _ _); [apply new_inv; done|done|done]).
  pose proof (choose_correct _ _ 5060 40000 I ltac:(done)) as H. cbv zeta in H.
  assert ((PRESERVE_MIN <=? 5060) && is_free (acquire (PortUse_new 40000 40001) 5060) 5060 = false) as K
    by (vm_compute; reflexivity).
  assert (choose (acquire (PortUse_new 40000 40001) 5060) 5060 40000 = Some 40000) as E by (vm_compute; reflexivity).
  split; [exact E|]. rewrite E, K in H. rewrite E. exact H.
Defined.
