(* ===== verification/NatPorts.v ===== *)
(** * The NAT's tables that hold outside ports ([src/src/nat/ports.rs],
    [src/src/nat/nat.rs])

    The reverse table and the port forwards ([PortMap]s), and the pending
    expectations of the application gateways, all counting their ports in one
    shared [PortUse]. *)

From stdpp Require Import strings.
From S2P Require Import Prelude Bitmap Ports.

(** A key naming an outside port. *)
Class PortKey (R : Type) := port : R -> Z.

(** ** [PortMap]: a table and the shared port table *)

Section PortMap.
Context {R K : Type} `{Countable R} `{PortKey R}.

Definition pm_insert (m : gmap R K) (u : PortUse) (rk : R) (k : K) : gmap R K * PortUse * option K :=
  let old := m !! rk in
  (<[rk := k]> m, match old with None => acquire u (port rk) | Some _ => u end, old).

Definition pm_remove (m : gmap R K) (u : PortUse) (rk : R) : gmap R K * PortUse * option K :=
  let old := m !! rk in
  (delete rk m, match old with Some _ => release u (port rk) | None => u end, old).

(** [order] is the order in which the hash map visits its entries. *)
Definition pm_retain (order : list (R * K)) (keep : R -> K -> bool) (m : gmap R K) (u : PortUse) :
    gmap R K * PortUse :=
  foldl (fun '(m, u) '(rk, k) => if keep rk k then (m, u) else (delete rk m, release u (port rk))) (m, u) order.

(** How many entries hold port [p]. *)
Definition held_in (m : gmap R K) (p : Z) : Z := Z.of_nat (size (filter (fun x => port (fst x) = p) m)).

Lemma held_in_empty p : held_in ∅ p = 0.
Proof. unfold held_in. by rewrite map_filter_empty, map_size_empty. Qed.

Lemma held_in_nonneg m p : 0 <= held_in m p.
Proof. unfold held_in. lia. Qed.

Lemma held_in_insert m rk k p :
  m !! rk = None -> held_in (<[rk := k]> m) p = held_in m p + (if p =? port rk then 1 else 0).
Proof.
  intros Hn. unfold held_in. destruct (p =? port rk) eqn:E; bool2prop.
  - rewrite map_filter_insert_True by done. rewrite map_size_insert_None; [lia|].
    apply map_lookup_filter_None. by left.
  - rewrite map_filter_insert_not' by (cbn; congruence || (intros; cbn; congruence)). lia.
Qed.

Lemma held_in_delete m rk k p :
  m !! rk = Some k -> held_in (delete rk m) p = held_in m p - (if p =? port rk then 1 else 0).
Proof.
  intros Hs. rewrite <- (insert_delete_id m rk k Hs) at 2. rewrite held_in_insert by apply lookup_delete_eq. lia.
Qed.

Lemma held_in_replace m rk k k' p : m !! rk = Some k' -> held_in (<[rk := k]> m) p = held_in m p.
Proof.
  intros Hs. rewrite <- insert_delete_eq. rewrite held_in_insert by apply lookup_delete_eq.
  rewrite (held_in_delete m rk k') by done. lia.
Qed.

Lemma held_in_pos m p : 0 < held_in m p <-> exists rk k, m !! rk = Some k /\ port rk = p.
Proof.
  unfold held_in. split.
  - intros Hp. destruct (decide (filter (fun x => port (fst x) = p) m = ∅)) as [E|E]; [rewrite E, map_size_empty in Hp; done|].
    apply map_choose in E as (rk & k & Hk). apply map_lookup_filter_Some in Hk as [? ?]. by exists rk, k.
  - intros (rk & k & Hk & Hp). destruct (decide (size (filter (fun x => port (fst x) = p) m) = 0%nat)) as [E|E]; [|lia].
    apply map_size_empty_inv in E. exfalso. assert (filter (fun x => port (fst x) = p) m !! rk = Some k) as Hf
      by (apply map_lookup_filter_Some; done). rewrite E in Hf. by apply lookup_empty_Some in Hf.
Qed.
End PortMap.

Lemma puse_inv_ext h h' u : (forall p, h p = h' p) -> puse_inv h u -> puse_inv h' u.
Proof.
  intros E [H1 H2 H3 H4 H5]. split; [done| | |done|].
  - intros p Hp. rewrite <- E. auto.
  - intros p Hp. rewrite <- E. auto.
  - intros odd. rewrite H5. unfold count_free. apply zsum_ext. intros p _. unfold vacant. by rewrite E.
Qed.

(** ** The tables *)

Record NatKey := mkNatKey { nk_ns : Z; nk_proto : Z; nk_ip : Z; nk_port : Z }.
Record NatRevKey := mkNatRevKey { rk_proto : Z; rk_port : Z }.

#[global] Instance NatKey_eq_dec : EqDecision NatKey.
Proof. solve_decision. Defined.
#[global] Instance NatKey_countable : Countable NatKey.
Proof.
  apply (inj_countable' (fun k => (nk_ns k, nk_proto k, nk_ip k, nk_port k))
    (fun '(a, b, c, d) => mkNatKey a b c d)). by intros [].
Defined.
#[global] Instance NatRevKey_eq_dec : EqDecision NatRevKey.
Proof. solve_decision. Defined.
#[global] Instance NatRevKey_countable : Countable NatRevKey.
Proof. apply (inj_countable' (fun k => (rk_proto k, rk_port k)) (fun '(a, b) => mkNatRevKey a b)). by intros []. Defined.

#[global] Instance NatRevKey_port : PortKey NatRevKey := rk_port.

Record PortForward := mkPortForward {
  pf_proto : Z; pf_outside_port : Z; pf_inside_ip : Z; pf_inside_port : Z; pf_description : string;
  pf_expires : option Z; pf_namespace : Z; pf_id : Z }.

Record Expectation := mkExpectation {
  ex_proto : Z; ex_remote_ip : Z; ex_remote_port : Z; ex_inside_ip : Z; ex_inside_port : Z;
  ex_outside_port : Z; ex_namespace : Z; ex_expires : Z; ex_one_remote : bool }.

(** The fields of [NatInner], [Forwards] and [Expectations] that hold ports
    or index them. *)
Record Tables := mkTables {
  reverse_table : gmap NatRevKey NatKey;
  by_port : gmap NatRevKey PortForward;
  by_endpoint : gmap NatKey NatRevKey;
  expectations : list Expectation;
  next_lapse : option Z;
  ports : PortUse }.

Definition Tables_new (lo hi : Z) : Tables := mkTables ∅ ∅ ∅ [] None (PortUse_new lo hi).

Definition reverse_insert (t : Tables) (rk : NatRevKey) (k : NatKey) : Tables :=
  let '(m, u, _) := pm_insert (reverse_table t) (ports t) rk k in
  mkTables m (by_port t) (by_endpoint t) (expectations t) (next_lapse t) u.

Definition reverse_remove (t : Tables) (rk : NatRevKey) : Tables :=
  let '(m, u, _) := pm_remove (reverse_table t) (ports t) rk in
  mkTables m (by_port t) (by_endpoint t) (expectations t) (next_lapse t) u.

(** *** [Forwards] *)

Definition endpoint (pf : PortForward) : NatKey :=
  mkNatKey (pf_namespace pf) (pf_proto pf) (pf_inside_ip pf) (pf_inside_port pf).

Definition for_endpoint (t : Tables) (k : NatKey) : option (NatRevKey * PortForward) :=
  rk ← by_endpoint t !! k; pf ← by_port t !! rk; Some (rk, pf).

Definition forward_remove (t : Tables) (rk : NatRevKey) : Tables * option PortForward :=
  let '(m, u, old) := pm_remove (by_port t) (ports t) rk in
  match old with
  | None => (mkTables (reverse_table t) m (by_endpoint t) (expectations t) (next_lapse t) u, None)
  | Some pf =>
      let ep := endpoint pf in
      let idx := if bool_decide (by_endpoint t !! ep = Some rk) then delete ep (by_endpoint t) else by_endpoint t in
      (mkTables (reverse_table t) m idx (expectations t) (next_lapse t) u, Some pf)
  end.

Definition forward_insert (t : Tables) (rk : NatRevKey) (pf : PortForward) : Tables :=
  let t := (forward_remove t rk).1 in
  let idx := <[endpoint pf := rk]> (by_endpoint t) in
  let '(m, u, _) := pm_insert (by_port t) (ports t) rk pf in
  mkTables (reverse_table t) m idx (expectations t) (next_lapse t) u.

Definition forward_retain (order : list (NatRevKey * PortForward)) (keep : PortForward -> bool) (t : Tables) : Tables :=
  let '(m, u) := pm_retain order (fun _ pf => keep pf) (by_port t) (ports t) in
  mkTables (reverse_table t) m (filter (fun x => is_Some (m !! snd x)) (by_endpoint t))
    (expectations t) (next_lapse t) u.

(** *** [Expectations] *)

Definition with_exps (t : Tables) (l : list Expectation) (lapse : option Z) (u : PortUse) : Tables :=
  mkTables (reverse_table t) (by_port t) (by_endpoint t) l lapse u.

Definition push (t : Tables) (e : Expectation) : Tables :=
  with_exps t (expectations t ++ [e])
    (Some (match next_lapse t with Some x => Z.min x (ex_expires e) | None => ex_expires e end))
    (acquire (ports t) (ex_outside_port e)).

(** [self.list.retain(..)] *)
Fixpoint retain_list (keep : Expectation -> bool) (l : list Expectation) (u : PortUse) : list Expectation * PortUse :=
  match l with
  | [] => ([], u)
  | e :: l =>
      if keep e then let '(l, u) := retain_list keep l u in (e :: l, u)
      else retain_list keep l (release u (ex_outside_port e))
  end.

Definition retain (t : Tables) (keep : Expectation -> bool) : Tables :=
  let '(l, u) := retain_list keep (expectations t) (ports t) in with_exps t l (next_lapse t) u.

(** [iter().map(..).min()] *)
Fixpoint min_expires (l : list Expectation) : option Z :=
  match l with
  | [] => None
  | e :: l => Some (match min_expires l with Some x => Z.min (ex_expires e) x | None => ex_expires e end)
  end.

Definition purge_lapsed (t : Tables) (now : Z) : Tables :=
  if match next_lapse t with None => true | Some x => now <=? x end then t
  else
    let t := retain t (fun e => now <=? ex_expires e) in
    with_exps t (expectations t) (min_expires (expectations t)) (ports t).

(** [None] when [i] is out of range. *)
Definition remove (t : Tables) (i : nat) : option (Tables * Expectation) :=
  e ← expectations t !! i;
  Some (with_exps t (take i (expectations t) ++ drop (S i) (expectations t)) (next_lapse t)
          (release (ports t) (ex_outside_port e)), e).

(** [Vec::swap_remove]: the last element takes the place of the one removed. *)
Definition swap_out (l : list Expectation) (i : nat) : list Expectation :=
  match list.last l with
  | Some x => take (length l - 1) (<[i := x]> l)
  | None => l
  end.

Definition swap_remove (t : Tables) (i : nat) : option Tables :=
  e ← expectations t !! i;
  Some (with_exps t (swap_out (expectations t) i) (next_lapse t) (release (ports t) (ex_outside_port e))).

Definition extend (t : Tables) (i : nat) (expires : Z) : option Tables :=
  e ← expectations t !! i;
  let e' := mkExpectation (ex_proto e) (ex_remote_ip e) (ex_remote_port e) (ex_inside_ip e) (ex_inside_port e)
    (ex_outside_port e) (ex_namespace e) (Z.max (ex_expires e) expires) (ex_one_remote e) in
  Some (with_exps t (<[i := e']> (expectations t)) (next_lapse t) (ports t)).

(** ** What holds a port *)

Definition exp_held (l : list Expectation) (p : Z) : Z :=
  foldr (fun e acc => (if p =? ex_outside_port e then 1 else 0) + acc) 0 l.

Definition hold (t : Tables) (p : Z) : Z :=
  held_in (reverse_table t) p + held_in (by_port t) p + exp_held (expectations t) p.

Definition port_ok (p : Z) : Prop := 0 <= p < PORTS.

Record tables_inv (t : Tables) : Prop := {
  ti_use : puse_inv (hold t) (ports t);
  ti_reverse : forall rk k, reverse_table t !! rk = Some k -> port_ok (rk_port rk);
  ti_forward : forall rk pf, by_port t !! rk = Some pf -> port_ok (rk_port rk);
  ti_exps : Forall (fun e => port_ok (ex_outside_port e)) (expectations t);
  ti_index : forall k rk, by_endpoint t !! k = Some rk -> exists pf, by_port t !! rk = Some pf /\ endpoint pf = k;
  ti_lapse : match next_lapse t with
             | None => expectations t = []
             | Some x => Forall (fun e => x <= ex_expires e) (expectations t)
             end }.

Lemma use_acquire h h' u p :
  puse_inv h u -> port_ok p -> h p + 1 < 2 ^ 16 -> (forall q, h' q = h q + (if q =? p then 1 else 0)) ->
  puse_inv h' (acquire u p).
Proof.
  intros I Hp Hlt E. apply (puse_inv_ext (upd h p (h p + 1))); [|by apply acquire_inv].
  intros q. rewrite E. unfold upd. destruct (q =? p) eqn:Eq; bool2prop; [by subst|lia].
Qed.

Lemma use_release h h' u p :
  puse_inv h u -> port_ok p -> 0 < h p -> (forall q, h' q = h q - (if q =? p then 1 else 0)) ->
  puse_inv h' (release u p).
Proof.
  intros I Hp Hlt E. apply (puse_inv_ext (upd h p (h p - 1))); [|by apply release_inv].
  intros q. rewrite E. unfold upd. destruct (q =? p) eqn:Eq; bool2prop; [by subst|lia].
Qed.

Lemma exp_held_app l k p : exp_held (l ++ k) p = exp_held l p + exp_held k p.
Proof. induction l as [|e l IH]; [done|]. cbn [exp_held foldr app]. fold (exp_held (l ++ k) p) (exp_held l p). lia. Qed.

Lemma exp_held_cons e l p : exp_held (e :: l) p = (if p =? ex_outside_port e then 1 else 0) + exp_held l p.
Proof. done. Qed.

Lemma exp_held_nonneg l p : 0 <= exp_held l p.
Proof. induction l as [|e l IH]; [done|]. rewrite exp_held_cons. destruct (_ =? _); lia. Qed.

Lemma exp_held_perm l k p : l ≡ₚ k -> exp_held l p = exp_held k p.
Proof. induction 1; rewrite ?exp_held_cons; lia. Qed.

Lemma exp_held_pos l p : 0 < exp_held l p <-> exists e, e ∈ l /\ ex_outside_port e = p.
Proof.
  induction l as [|e l IH]; [split; [done|intros (e & He & _); by apply not_elem_of_nil in He]|].
  rewrite exp_held_cons. pose proof (exp_held_nonneg l p). setoid_rewrite elem_of_cons.
  destruct (p =? ex_outside_port e) eqn:E; bool2prop; split; intros Hp.
  - exists e. auto.
  - lia.
  - destruct (proj1 IH ltac:(lia)) as (e' & ? & ?). exists e'. auto.
  - destruct Hp as (e' & [->|He] & Hp); [congruence|]. pose proof (proj2 IH (ex_intro _ e' (conj He Hp))). lia.
Qed.

Lemma hold_nonneg t p : 0 <= hold t p.
Proof. unfold hold. pose proof (held_in_nonneg (reverse_table t) p). pose proof (held_in_nonneg (by_port t) p). pose proof (exp_held_nonneg (expectations t) p). lia. Qed.

(** *** A [PortMap] and the shared table *)

Section PmInv.
Context {R K : Type} `{Countable R} `{PortKey R} (others : Z -> Z).
Implicit Types m : gmap R K.
Let h m (p : Z) : Z := others p + held_in m p.

Lemma pm_insert_inv m u rk k :
  puse_inv (h m) u -> port_ok (port rk) -> h m (port rk) + 1 < 2 ^ 16 ->
  puse_inv (h (pm_insert m u rk k).1.1) (pm_insert m u rk k).1.2.
Proof.
  intros I Hp Hlt. unfold pm_insert. cbn [fst snd]. destruct (m !! rk) as [k'|] eqn:E.
  - apply (puse_inv_ext (h m)); [|done]. intros p. unfold h. by rewrite (held_in_replace m rk k k').
  - apply (use_acquire (h m)); [done|done|done|]. intros q. unfold h. rewrite held_in_insert by done. lia.
Qed.

Lemma held_at m rk k : m !! rk = Some k -> 0 < held_in m (port rk).
Proof using. intros E. apply held_in_pos. by exists rk, k. Qed.

Lemma pm_remove_inv m u rk :
  (forall p, 0 <= others p) -> puse_inv (h m) u -> (m !! rk <> None -> port_ok (port rk)) ->
  puse_inv (h (pm_remove m u rk).1.1) (pm_remove m u rk).1.2.
Proof.
  intros Ho I Hp. unfold pm_remove. cbn [fst snd]. destruct (m !! rk) as [k'|] eqn:E.
  - pose proof (held_at m rk k' E). specialize (Ho (port rk)).
    apply (use_release (h m)); [done|by apply Hp|unfold h; lia|]. intros q. unfold h. rewrite (held_in_delete m rk k') by done. lia.
  - apply (puse_inv_ext (h m)); [|done]. intros p. by rewrite delete_id.
Qed.

(** Entry by entry, the ones not kept go and give up their ports. *)
Lemma pm_retain_inv order keep m u :
  (forall p, 0 <= others p) -> puse_inv (h m) u -> (forall rk k, m !! rk = Some k -> port_ok (port rk)) ->
  NoDup order.*1 -> (forall rk k, (rk, k) ∈ order -> m !! rk = Some k) ->
  let res := pm_retain order keep m u in
  puse_inv (h res.1) res.2 /\
  (forall rk k, res.1 !! rk = Some k <-> m !! rk = Some k /\ ~ (keep rk k = false /\ (rk, k) ∈ order)).
Proof.
  intros Ho. revert m u. induction order as [|[rk k] order IH]; intros m u I Hp Hnd Hin.
  { cbn. split; [done|]. intros rk k. split; [intros E; split; [done|]; intros [_ Hn]; by apply not_elem_of_nil in Hn|tauto]. }
  unfold pm_retain. cbn [foldl]. fold (pm_retain order keep). rewrite fmap_cons in Hnd. cbn [fst] in Hnd.
  apply list.NoDup_cons in Hnd as [Hni Hnd].
  assert (m !! rk = Some k) as Hrk by (apply Hin; left).
  assert (forall k', (rk, k') ∉ order) as Hni'.
  { intros k' Hk'. apply Hni. apply list_elem_of_fmap. by exists (rk, k'). }
  destruct (keep rk k) eqn:Ek.
  - destruct (IH m u I Hp Hnd) as [I' Hm']; [intros rk' k' Hk'; apply Hin; by right|]. split; [exact I'|].
    intros rk' k'. rewrite Hm', elem_of_cons. split; [intros [E Hn]; split; [done|]; intros [Hf [Heq|Hio]]; [congruence|tauto]|].
    intros [E Hn]. split; [done|]. tauto.
  - pose proof (pm_remove_inv m u rk Ho I ltac:(intros _; by eapply Hp)) as I1. unfold pm_remove in I1. cbn [fst snd] in I1. rewrite Hrk in I1.
    destruct (IH (delete rk m) (release u (port rk)) I1) as [I' Hm'].
    + intros rk' k' Hk'. apply lookup_delete_Some in Hk' as [_ Hk']. by eapply Hp.
    + done.
    + intros rk' k' Hk'. apply lookup_delete_Some. split; [|apply Hin; by right]. intros ->. by apply Hni' in Hk'.
    + split; [exact I'|]. intros rk' k'. rewrite Hm', elem_of_cons, lookup_delete_Some. split.
      * intros [[Hne E] Hn]. split; [done|]. intros [Hf [Heq|Hio]]; [congruence|tauto].
      * intros [E Hn]. split; [split; [|done]|tauto]. intros ->. rewrite Hrk in E. injection E as <-. apply Hn. split; [done|by left].
Qed.
End PmInv.

(** ** Every change keeps the tables and the port table in step *)

Lemma others_nonneg t : (forall p, 0 <= held_in (by_port t) p + exp_held (expectations t) p) /\
  (forall p, 0 <= held_in (reverse_table t) p + exp_held (expectations t) p).
Proof.
  split; intros p; pose proof (exp_held_nonneg (expectations t) p); pose proof (held_in_nonneg (by_port t) p);
    pose proof (held_in_nonneg (reverse_table t) p); lia.
Qed.

Lemma reverse_insert_inv t rk k :
  tables_inv t -> port_ok (rk_port rk) -> hold t (rk_port rk) + 1 < 2 ^ 16 -> tables_inv (reverse_insert t rk k).
Proof.
  intros [Hu Hr Hf He Hi Hl] Hp Hlt.
  pose proof (pm_insert_inv (fun p => held_in (by_port t) p + exp_held (expectations t) p) (reverse_table t) (ports t) rk k) as K.
  unfold reverse_insert. cbn [pm_insert]. unfold pm_insert in *. cbn [fst snd] in K. split; cbn; try done.
  - eapply puse_inv_ext; [|apply K; [eapply puse_inv_ext; [|exact Hu]|done|]].
    + intros p. unfold hold. cbn [reverse_table by_port expectations]. lia.
    + intros p. unfold hold. lia.
    + unfold hold in Hlt. change (port rk) with (rk_port rk). lia.
  - intros rk' k' E. apply lookup_insert_Some in E as [[<- _]|[_ E]]; [done|by eapply Hr].
Qed.

Lemma reverse_remove_inv t rk : tables_inv t -> tables_inv (reverse_remove t rk).
Proof.
  intros [Hu Hr Hf He Hi Hl].
  pose proof (pm_remove_inv (fun p => held_in (by_port t) p + exp_held (expectations t) p) (reverse_table t) (ports t) rk
    (proj1 (others_nonneg t))) as K.
  unfold reverse_remove, pm_remove in *. cbn [fst snd] in K. split; cbn; try done.
  - eapply puse_inv_ext; [|apply K; [eapply puse_inv_ext; [|exact Hu]|]].
    + intros p. unfold hold. cbn [reverse_table by_port expectations]. lia.
    + intros p. unfold hold. lia.
    + destruct (reverse_table t !! rk) eqn:E; [intros _; by eapply Hr|done].
  - intros rk' k' E. apply lookup_delete_Some in E as [_ E]. by eapply Hr.
Qed.

Lemma forward_remove_inv t rk : tables_inv t -> tables_inv (forward_remove t rk).1.
Proof.
  intros [Hu Hr Hf He Hi Hl].
  pose proof (pm_remove_inv (fun p => held_in (reverse_table t) p + exp_held (expectations t) p) (by_port t) (ports t) rk
    (proj2 (others_nonneg t))) as K.
  unfold forward_remove, pm_remove in *. cbn [fst snd] in K.
  assert (puse_inv (fun p => held_in (reverse_table t) p + held_in (delete rk (by_port t)) p + exp_held (expectations t) p)
    match by_port t !! rk with Some _ => release (ports t) (port rk) | None => ports t end) as Hu'.
  { eapply puse_inv_ext; [|apply K; [eapply puse_inv_ext; [|exact Hu]|]].
    - intros p. cbn beta. lia.
    - intros p. unfold hold. lia.
    - destruct (by_port t !! rk) eqn:E; [intros _; by eapply Hf|done]. }
  assert (forall rk' pf, delete rk (by_port t) !! rk' = Some pf -> port_ok (rk_port rk')) as Hf'.
  { intros rk' pf E. apply lookup_delete_Some in E as [_ E]. by eapply Hf. }
  destruct (by_port t !! rk) as [pf|] eqn:E; split; cbn; try done.
  - intros k rk' Ek. assert (by_endpoint t !! k = Some rk' /\ rk' <> rk) as [Ek' Hne].
    { destruct (bool_decide _) eqn:Eb.
      - apply bool_decide_eq_true in Eb. apply lookup_delete_Some in Ek as [Hne Ek]. split; [done|]. intros ->.
        destruct (Hi k rk Ek) as (pf' & Ep & Eq). congruence.
      - apply bool_decide_eq_false in Eb. split; [done|]. intros ->. destruct (Hi k rk Ek) as (pf' & Ep & Eq). congruence. }
    destruct (Hi k rk' Ek') as (pf' & Ep & Eq). exists pf'. split; [|done]. by rewrite lookup_delete_ne.
  - intros k rk' Ek. destruct (Hi k rk' Ek) as (pf' & Ep & Eq). exists pf'. split; [|done]. rewrite lookup_delete_ne; [done|].
    intros ->. congruence.
Qed.

Lemma forward_remove_gone t rk : by_port (forward_remove t rk).1 !! rk = None.
Proof. unfold forward_remove, pm_remove. destruct (by_port t !! rk); cbn; apply lookup_delete_eq. Qed.

Lemma forward_remove_hold t rk p : hold (forward_remove t rk).1 p <= hold t p.
Proof.
  unfold forward_remove, pm_remove, hold. destruct (by_port t !! rk) as [pf|] eqn:E; cbn [fst reverse_table by_port expectations].
  - rewrite (held_in_delete _ _ pf) by done. case_match; lia.
  - rewrite delete_id by done. lia.
Qed.

Lemma forward_insert_inv t rk pf :
  tables_inv t -> port_ok (rk_port rk) -> hold t (rk_port rk) + 1 < 2 ^ 16 -> tables_inv (forward_insert t rk pf).
Proof.
  intros I Hp Hlt. pose proof (forward_remove_inv t rk I) as I1. pose proof (forward_remove_gone t rk) as Hg.
  pose proof (forward_remove_hold t rk (rk_port rk)) as Hle. unfold forward_insert. set (t1 := (forward_remove t rk).1) in *. clearbody t1.
  destruct I1 as [Hu Hr Hf He Hi Hl].
  pose proof (pm_insert_inv (fun p => held_in (reverse_table t1) p + exp_held (expectations t1) p) (by_port t1) (ports t1) rk pf) as K.
  unfold pm_insert in *. cbn [fst snd] in K. split; cbn; try done.
  - eapply puse_inv_ext; [|apply K; [eapply puse_inv_ext; [|exact Hu]|done|]].
    + intros p. unfold hold. cbn [reverse_table by_port expectations]. lia.
    + intros p. unfold hold. lia.
    + unfold hold in Hle, Hlt. change (port rk) with (rk_port rk). unfold hold in *. lia.
  - intros rk' k' E. apply lookup_insert_Some in E as [[<- _]|[_ E]]; [done|by eapply Hf].
  - intros k rk' E. apply lookup_insert_Some in E as [[<- <-]|[Hne E]].
    + exists pf. by rewrite lookup_insert_eq.
    + destruct (Hi k rk' E) as (pf' & Ep & Eq). exists pf'. split; [|done]. rewrite lookup_insert_ne; [done|]. intros ->. congruence.
Qed.

Lemma forward_retain_inv order keep t :
  tables_inv t -> order ≡ₚ map_to_list (by_port t) ->
  tables_inv (forward_retain order keep t) /\
  (forall rk pf, by_port (forward_retain order keep t) !! rk = Some pf <-> by_port t !! rk = Some pf /\ keep pf = true).
Proof.
  intros [Hu Hr Hf He Hi Hl] Ho. unfold forward_retain.
  destruct (pm_retain_inv (fun p => held_in (reverse_table t) p + exp_held (expectations t) p) order (fun _ pf => keep pf)
    (by_port t) (ports t) (proj2 (others_nonneg t))) as [I' Hm'].
  { eapply puse_inv_ext; [|exact Hu]. intros p. unfold hold. lia. }
  { exact Hf. }
  { rewrite Ho. apply NoDup_fst_map_to_list. }
  { intros rk pf E. rewrite Ho in E. by apply elem_of_map_to_list in E. }
  destruct (pm_retain order (fun _ pf => keep pf) (by_port t) (ports t)) as [m u]. cbn [fst snd] in *.
  assert (forall rk pf, m !! rk = Some pf <-> by_port t !! rk = Some pf /\ keep pf = true) as Hm.
  { intros rk pf. rewrite Hm', Ho, elem_of_map_to_list. destruct (keep pf); naive_solver. }
  split; [|exact Hm]. split; cbn; try done.
  - eapply puse_inv_ext; [|exact I']. intros p. unfold hold. cbn [reverse_table by_port expectations]. lia.
  - intros rk pf E. apply Hm in E as [E _]. by eapply Hf.
  - intros k rk E. apply map_lookup_filter_Some in E as [E [pf Epf]]. cbn in Epf. exists pf. split; [done|].
    apply Hm in Epf as [Epf _]. destruct (Hi k rk E) as (pf' & Ep & Eq). congruence.
Qed.

(** The expectation list changed, nothing else. *)
Lemma with_exps_inv t l lapse u :
  tables_inv t ->
  puse_inv (fun p => held_in (reverse_table t) p + held_in (by_port t) p + exp_held l p) u ->
  Forall (fun e => port_ok (ex_outside_port e)) l ->
  match lapse with None => l = [] | Some x => Forall (fun e => x <= ex_expires e) l end ->
  tables_inv (with_exps t l lapse u).
Proof. intros [Hu Hr Hf He Hi Hl] Hu' He' Hl'. split; done. Qed.

Lemma lapse_sub t l :
  tables_inv t -> (forall e, e ∈ l -> e ∈ expectations t) ->
  Forall (fun e => port_ok (ex_outside_port e)) l /\
  match next_lapse t with None => l = [] | Some x => Forall (fun e => x <= ex_expires e) l end.
Proof.
  intros I Hin. pose proof (ti_exps t I) as He. pose proof (ti_lapse t I) as Hl. rewrite list.Forall_forall in He. split.
  - apply list.Forall_forall. auto.
  - destruct (next_lapse t).
    + rewrite list.Forall_forall in Hl. apply list.Forall_forall. auto.
    + rewrite Hl in Hin. destruct l as [|e l]; [done|]. destruct (not_elem_of_nil e). apply Hin. left.
Qed.

Lemma exp_push_inv t e :
  tables_inv t -> port_ok (ex_outside_port e) -> hold t (ex_outside_port e) + 1 < 2 ^ 16 -> tables_inv (push t e).
Proof.
  intros I Hp Hlt. unfold push. apply with_exps_inv; [done| | |].
  - apply (use_acquire (hold t)); [apply I|done|done|]. intros q. unfold hold. rewrite exp_held_app, exp_held_cons. cbn [exp_held foldr]. lia.
  - apply Forall_app. split; [apply I|by apply Forall_singleton].
  - pose proof (ti_lapse t I) as Hl. apply Forall_app. split.
    + destruct (next_lapse t); [|by rewrite Hl]. eapply list.Forall_impl; [exact Hl|]. cbn. lia.
    + apply Forall_singleton. destruct (next_lapse t); lia.
Qed.

(** [retain_list] keeps the list's order and gives up the ports of the rest. *)
Lemma retain_list_spec base keep l u :
  (forall p, 0 <= base p) -> Forall (fun e => port_ok (ex_outside_port e)) l ->
  puse_inv (fun p => base p + exp_held l p) u ->
  (retain_list keep l u).1 = filter (fun e => keep e = true) l /\
  puse_inv (fun p => base p + exp_held (retain_list keep l u).1 p) (retain_list keep l u).2.
Proof.
  revert base u. induction l as [|e l IH]; intros base u Hb Hf Hu; [done|].
  apply Forall_cons_iff in Hf as [He Hf]. cbn [retain_list]. destruct (keep e) eqn:E.
  - rewrite filter_cons_True by done. specialize (IH (fun p => base p + (if p =? ex_outside_port e then 1 else 0)) u).
    destruct IH as [IH1 IH2]; [intros p; specialize (Hb p); case_match; lia|done| |].
    { eapply puse_inv_ext; [|exact Hu]. intros p. cbn beta. rewrite exp_held_cons. lia. }
    destruct (retain_list keep l u) as [l' u']. cbn [fst snd] in *. split; [by rewrite IH1|].
    eapply puse_inv_ext; [|exact IH2]. intros p. cbn beta. rewrite exp_held_cons. lia.
  - rewrite filter_cons_False by (by rewrite E). apply IH; [done|done|].
    eapply use_release; [exact Hu|done| |].
    + cbn beta. rewrite exp_held_cons, Z.eqb_refl. pose proof (exp_held_nonneg l (ex_outside_port e)). specialize (Hb (ex_outside_port e)). lia.
    + intros q. cbn beta. rewrite exp_held_cons. lia.
Qed.

Lemma retain_spec t keep :
  tables_inv t ->
  tables_inv (retain t keep) /\ expectations (retain t keep) = filter (fun e => keep e = true) (expectations t).
Proof.
  intros I. destruct (retain_list_spec (fun p => held_in (reverse_table t) p + held_in (by_port t) p) keep
    (expectations t) (ports t)) as [E Hu].
  { intros p. pose proof (held_in_nonneg (reverse_table t) p). pose proof (held_in_nonneg (by_port t) p). lia. }
  { apply I. } { apply I. }
  unfold retain. destruct (retain_list keep (expectations t) (ports t)) as [l u]. cbn [fst snd] in *. split; [|done].
  destruct (lapse_sub t l I) as [H1 H2]; [intros e; rewrite E; intros He; apply list_elem_of_filter in He; tauto|].
  by apply with_exps_inv.
Qed.

Lemma min_expires_le l x : min_expires l = Some x -> Forall (fun e => x <= ex_expires e) l.
Proof.
  revert x. induction l as [|e l IH]; [done|]. intros x. cbn [min_expires]. intros [= <-]. constructor.
  - destruct (min_expires l); lia.
  - destruct (min_expires l) as [y|] eqn:E; [|by destruct l].
    eapply list.Forall_impl; [by apply IH|]. cbn. lia.
Qed.

Lemma filter_kept {A} (f : A -> bool) (l : list A) : Forall (fun x => f x = true) l -> filter (fun x => f x = true) l = l.
Proof. induction 1; [done|]. rewrite filter_cons_True by done. by f_equal. Qed.

Lemma purge_spec t now :
  tables_inv t ->
  tables_inv (purge_lapsed t now) /\
  expectations (purge_lapsed t now) = filter (fun e => (now <=? ex_expires e) = true) (expectations t).
Proof.
  intros I. unfold purge_lapsed. destruct (match next_lapse t with None => true | Some x => now <=? x end) eqn:E.
  - split; [done|]. symmetry. apply (filter_kept (fun e => now <=? ex_expires e)). pose proof (ti_lapse t I) as Hl.
    destruct (next_lapse t); [|by rewrite Hl]. bool2prop. eapply list.Forall_impl; [exact Hl|]. cbn. intros. apply Z.leb_le. lia.
  - destruct (retain_spec t (fun e => now <=? ex_expires e) I) as [I' E']. split; [|exact E'].
    apply with_exps_inv; [done|apply I'|apply I'|]. destruct (min_expires _) eqn:Em; [by apply min_expires_le|].
    by destruct (expectations _).
Qed.

(** One expectation taken out, the rest in any order. *)
Lemma drop_one_inv t e l :
  tables_inv t -> expectations t ≡ₚ e :: l ->
  tables_inv (with_exps t l (next_lapse t) (release (ports t) (ex_outside_port e))).
Proof.
  intros I Hp. destruct (lapse_sub t l I) as [H1 H2]; [intros x Hx; rewrite Hp; by right|].
  apply with_exps_inv; [done| |done|done].
  pose proof (fun p => exp_held_perm _ _ p Hp) as Hh. setoid_rewrite exp_held_cons in Hh.
  apply (use_release (hold t)); [apply I| | |].
  - pose proof (ti_exps t I) as He. rewrite list.Forall_forall in He. apply He. rewrite Hp. left.
  - unfold hold. rewrite Hh, Z.eqb_refl. pose proof (held_in_nonneg (reverse_table t) (ex_outside_port e)).
    pose proof (held_in_nonneg (by_port t) (ex_outside_port e)). pose proof (exp_held_nonneg l (ex_outside_port e)). lia.
  - intros q. unfold hold. rewrite Hh. lia.
Qed.

Lemma remove_inv t i t' e :
  tables_inv t -> remove t i = Some (t', e) -> tables_inv t' /\ expectations t !! i = Some e /\ expectations t' = delete i (expectations t).
Proof.
  intros I E. unfold remove in E. destruct (expectations t !! i) as [e'|] eqn:Ei; [|done]. cbn in E. injection E as <- <-.
  split_and!; [|done|cbn; by rewrite delete_take_drop]. apply drop_one_inv; [done|]. rewrite <- delete_take_drop.
  by apply delete_Permutation.
Qed.

Lemma swap_out_perm l i e : l !! i = Some e -> l ≡ₚ e :: swap_out l i.
Proof.
  intros Ei. unfold swap_out. destruct l as [|x l] using rev_ind; [done|]. clear IHl. rewrite last_snoc, length_app. cbn [length].
  replace (length l + 1 - 1)%nat with (length l) by lia. destruct (decide (i < length l)%nat) as [Hi|Hi].
  - rewrite insert_app_l by done. rewrite take_app_le, take_ge by (rewrite length_insert; lia).
    rewrite lookup_app_l in Ei by done. rewrite Permutation_app_comm. cbn [app].
    rewrite (insert_take_drop l i x Hi), (delete_Permutation l i e Ei) at 1. rewrite delete_take_drop.
    rewrite <- Permutation_middle. apply Permutation_swap.
  - assert (i = length l) as ->. { apply lookup_lt_Some in Ei. rewrite length_app in Ei. cbn in Ei. lia. }
    rewrite list_lookup_middle in Ei by done. injection Ei as ->. rewrite insert_app_r_alt by lia. rewrite take_app_le, take_ge by lia.
    by rewrite Permutation_app_comm.
Qed.

Lemma swap_remove_inv t i t' : tables_inv t -> swap_remove t i = Some t' -> tables_inv t'.
Proof.
  intros I E. unfold swap_remove in E. destruct (expectations t !! i) as [e'|] eqn:Ei; [|done]. cbn in E. injection E as <-.
  apply drop_one_inv; [done|]. by apply swap_out_perm.
Qed.

Lemma extend_inv t i x t' : tables_inv t -> extend t i x = Some t' -> tables_inv t'.
Proof.
  intros I E. unfold extend in E. destruct (expectations t !! i) as [e|] eqn:Ei; [|done]. cbn in E. injection E as <-.
  pose proof (ti_exps t I) as He. pose proof (ti_lapse t I) as Hl. apply with_exps_inv; [done| | |].
  - eapply puse_inv_ext; [|apply I]. intros p. unfold hold. f_equal.
    rewrite (insert_take_drop _ _ _ (lookup_lt_Some _ _ _ Ei)). rewrite <- (take_drop_middle _ _ _ Ei) at 1.
    by rewrite !exp_held_app, !exp_held_cons.
  - apply list.Forall_insert; [done|]. rewrite Forall_lookup in He. cbn. by eapply He.
  - destruct (next_lapse t); [|by rewrite Hl in Ei]. apply list.Forall_insert; [done|]. rewrite Forall_lookup in Hl. apply Hl in Ei. cbn. lia.
Qed.

(** ** Sequences of changes *)

Inductive change :=
| ReverseInsert (rk : NatRevKey) (k : NatKey)
| ReverseRemove (rk : NatRevKey)
| ForwardInsert (rk : NatRevKey) (pf : PortForward)
| ForwardRemove (rk : NatRevKey)
| ForwardRetain (order : list (NatRevKey * PortForward)) (keep : PortForward -> bool)
| Push (e : Expectation)
| Retain (keep : Expectation -> bool)
| PurgeLapsed (now : Z)
| Remove (i : nat)
| SwapRemove (i : nat)
| Extend (i : nat) (expires : Z).

Definition apply_change (t : Tables) (c : change) : option Tables :=
  match c with
  | ReverseInsert rk k => Some (reverse_insert t rk k)
  | ReverseRemove rk => Some (reverse_remove t rk)
  | ForwardInsert rk pf => Some (forward_insert t rk pf)
  | ForwardRemove rk => Some (forward_remove t rk).1
  | ForwardRetain order keep => Some (forward_retain order keep t)
  | Push e => Some (push t e)
  | Retain keep => Some (retain t keep)
  | PurgeLapsed now => Some (purge_lapsed t now)
  | Remove i => fst <$> remove t i
  | SwapRemove i => swap_remove t i
  | Extend i x => extend t i x
  end.

(** Ports are [u16]s whose holder counts do not overflow one, an index is in
    range, and a hash map visits each of its entries once. *)
Definition change_ok (t : Tables) (c : change) : Prop :=
  match c with
  | ReverseInsert rk _ | ForwardInsert rk _ => port_ok (rk_port rk) /\ hold t (rk_port rk) + 1 < 2 ^ 16
  | Push e => port_ok (ex_outside_port e) /\ hold t (ex_outside_port e) + 1 < 2 ^ 16
  | ForwardRetain order _ => order ≡ₚ map_to_list (by_port t)
  | Remove i | SwapRemove i | Extend i _ => (i < length (expectations t))%nat
  | _ => True
  end.

Inductive reached (lo hi : Z) : Tables -> Prop :=
| reached_new : reached lo hi (Tables_new lo hi)
| reached_step t c t' : reached lo hi t -> change_ok t c -> apply_change t c = Some t' -> reached lo hi t'.

Lemma apply_change_inv t c : tables_inv t -> change_ok t c -> exists t', apply_change t c = Some t' /\ tables_inv t'.
Proof.
  intros I Hok. destruct c; cbn [apply_change change_ok] in *.
  1-8: eexists; split; [reflexivity|].
  - destruct Hok. by apply reverse_insert_inv.
  - by apply reverse_remove_inv.
  - destruct Hok. by apply forward_insert_inv.
  - by apply forward_remove_inv.
  - apply forward_retain_inv; done.
  - destruct Hok. by apply exp_push_inv.
  - apply retain_spec; done.
  - apply purge_spec; done.
  - apply lookup_lt_is_Some_2 in Hok as [e E]. assert (exists t', remove t i = Some (t', e)) as [t' Er].
    { unfold remove. rewrite E. by eexists. }
    exists t'. rewrite Er. split; [done|]. apply (remove_inv t i t' e I Er).
  - apply lookup_lt_is_Some_2 in Hok as [e E]. assert (exists t', swap_remove t i = Some t') as [t' Er].
    { unfold swap_remove. rewrite E. by eexists. }
    exists t'. split; [done|]. by eapply swap_remove_inv.
  - apply lookup_lt_is_Some_2 in Hok as [e E]. assert (exists t', extend t i expires = Some t') as [t' Er].
    { unfold extend. rewrite E. by eexists. }
    exists t'. split; [done|]. by eapply extend_inv.
Qed.

Lemma hold_new lo hi p : hold (Tables_new lo hi) p = 0.
Proof. unfold hold. cbn [Tables_new reverse_table by_port expectations]. by rewrite !held_in_empty. Qed.

Lemma Tables_new_inv lo hi : 0 <= lo <= hi -> hi < PORTS -> tables_inv (Tables_new lo hi).
Proof.
  intros H1 H2. split; [|done|done|constructor|done|done].
  eapply puse_inv_ext; [|by apply new_inv]. intros p. by rewrite hold_new.
Qed.

Lemma reached_inv lo hi t : 0 <= lo <= hi -> hi < PORTS -> reached lo hi t -> tables_inv t.
Proof.
  intros H1 H2. induction 1 as [|t c t' _ IH Hok E]; [by apply Tables_new_inv|].
  destruct (apply_change_inv t c IH Hok) as (t2 & E2 & I2). congruence.
Qed.

(** Some table entry or expectation names the port. *)
Definition named (t : Tables) (p : Z) : Prop :=
  (exists rk k, reverse_table t !! rk = Some k /\ rk_port rk = p) \/
  (exists rk pf, by_port t !! rk = Some pf /\ rk_port rk = p) \/
  (exists e, e ∈ expectations t /\ ex_outside_port e = p).

Lemma named_hold t p : named t p <-> hold t p <> 0.
Proof.
  pose proof (held_in_nonneg (reverse_table t) p). pose proof (held_in_nonneg (by_port t) p).
  pose proof (exp_held_nonneg (expectations t) p). unfold named, hold.
  pose proof (held_in_pos (reverse_table t) p) as Hr. pose proof (held_in_pos (by_port t) p) as Hf.
  change (@port NatRevKey _) with rk_port in Hr, Hf. rewrite <- (exp_held_pos (expectations t) p), <- Hr, <- Hf. lia.
Qed.

(** C17: whatever the NAT does to its tables -- the reverse table, the port
    forwards, the pending expectations -- an outside port is free in the
    shared port table exactly when no entry of any of the three names it, the
    pool's two free counters are the true counts of free ports of each
    parity, no change in its domain fails, and the index of forwards by inside
    endpoint only leads to installed forwards that go to that endpoint. *)
Theorem tables_exact (lo hi : Z) (t : Tables) :
  0 <= lo <= hi -> hi < PORTS -> reached lo hi t ->
  (forall p, port_ok p -> is_free (ports t) p = true <-> ~ named t p) /\
  (forall odd, free_at (ports t) odd = count_free (hold t) (pool (ports t)) odd) /\
  (forall c, change_ok t c -> is_Some (apply_change t c)) /\
  (forall k rk pf, for_endpoint t k = Some (rk, pf) <-> by_endpoint t !! k = Some rk /\ by_port t !! rk = Some pf /\ endpoint pf = k) /\
  (forall k, for_endpoint t k = None <-> by_endpoint t !! k = None).
Proof.
  intros Hlo Hhi Hr. pose proof (reached_inv lo hi t Hlo Hhi Hr) as I. split_and!.
  - intros p Hp. rewrite (is_free_spec _ _ p (ti_use t I) Hp), named_hold. lia.
  - apply (ti_use t I).
  - intros c Hc. destruct (apply_change_inv t c I Hc) as (t' & E & _). by exists t'.
  - intros k rk pf. unfold for_endpoint. split.
    + intros E. destruct (by_endpoint t !! k) as [rk'|] eqn:Ek; [|done]. cbn in E.
      destruct (ti_index t I k rk' Ek) as (pf' & Ep & Eq). rewrite Ep in E. cbn in E. by simplify_eq.
    + intros (E1 & E2 & _). rewrite E1. cbn. by rewrite E2.
  - intros k. unfold for_endpoint. destruct (by_endpoint t !! k) as [rk|] eqn:Ek; [|done]. cbn.
    destruct (ti_index t I k rk Ek) as (pf & -> & _). done.
Qed.

(** Purging drops exactly the expectations that have lapsed, in whatever
    state the tables are, although it looks at the list only when the
    recorded earliest expiry has passed (an expiry that is only ever a lower
    bound, since extending or removing an expectation leaves it as it was),
    and their ports are free again unless something else names them. *)
Theorem purge_lapsed_exact (lo hi : Z) (t : Tables) (now : Z) :
  0 <= lo <= hi -> hi < PORTS -> reached lo hi t ->
  expectations (purge_lapsed t now) = filter (fun e => (now <=? ex_expires e) = true) (expectations t) /\
  (forall p, port_ok p ->
     is_free (ports (purge_lapsed t now)) p = true <->
     ~ (exists rk k, reverse_table t !! rk = Some k /\ rk_port rk = p) /\
     ~ (exists rk pf, by_port t !! rk = Some pf /\ rk_port rk = p) /\
     (forall e, e ∈ expectations t -> ex_outside_port e = p -> ex_expires e < now)).
Proof.
  intros Hlo Hhi Hr. pose proof (reached_inv lo hi t Hlo Hhi Hr) as I. destruct (purge_spec t now I) as [I' E].
  split; [done|]. intros p Hp. rewrite (is_free_spec _ _ p (ti_use _ I') Hp), Z.eqb_eq.
  assert (reverse_table (purge_lapsed t now) = reverse_table t /\ by_port (purge_lapsed t now) = by_port t) as [E1 E2].
  { unfold purge_lapsed, retain. case_match; [done|]. by destruct (retain_list _ _ _). }
  destruct (named_hold (purge_lapsed t now) p) as [N1 N2]. unfold named in N1, N2. rewrite E1, E2, E in N1, N2.
  setoid_rewrite list_elem_of_filter in N1. setoid_rewrite list_elem_of_filter in N2. split.
  - intros Hz. split_and!; [tauto|tauto|]. intros e He Hpe. destruct (now <=? ex_expires e) eqn:El; bool2prop; [|lia].
    exfalso. apply N1; [|done]. right; right. exists e. rewrite Z.leb_le. auto.
  - intros (H1 & H2 & H3). destruct (decide (hold (purge_lapsed t now) p = 0)) as [|Hn]; [done|].
    destruct (N2 Hn) as [?|[?|(e & [He1 He2] & He3)]]; [done|done|]. apply Z.leb_le in He1. specialize (H3 e He2 He3). lia.
Qed.

Definition demo_expectation : Expectation := mkExpectation 6 1 80 2 5000 1501 0 10 false.
Definition demo_mapped : Tables := reverse_insert (Tables_new 1000 2000) (mkNatRevKey 6 1500) (mkNatKey 0 6 2 5000).
Definition demo_tables : Tables := push demo_mapped demo_expectation.

Lemma demo_reached : reached 1000 2000 demo_tables.
Proof.
  apply (reached_step _ _ demo_mapped (Push demo_expectation)); [|split; [done|]|reflexivity].
  - apply (reached_step _ _ (Tables_new 1000 2000) (ReverseInsert (mkNatRevKey 6 1500) (mkNatKey 0 6 2 5000)));
      [constructor|split; [done|]|reflexivity].
    rewrite hold_new. done.
  - vm_compute. reflexivity.
Qed.

Lemma tables_exact_witness :
  named demo_tables 1501 /\ (is_free (ports demo_tables) 1501 = true <-> ~ named demo_tables 1501).
Proof.
  split; [right; right; exists demo_expectation; split; [left|done]|].
  refine (proj1 (tables_exact 1000 2000 demo_tables _ _ demo_reached) 1501 _); done.
Defined.

Lemma purge_lapsed_exact_witness : expectations demo_tables = [demo_expectation] /\ expectations (purge_lapsed demo_tables 11) = [].
Proof.
  split; [reflexivity|].
  refine (eq_trans (proj1 (purge_lapsed_exact 1000 2000 demo_tables 11 _ _ demo_reached)) _); [done|done|reflexivity].
Defined.
