(* ===== verification/OvpnControl.v ===== *)
(** * OpenVPN control packets ([src/src/ovpn/opcode.rs],
    [src/src/ovpn/consts.rs], [src/src/ovpn/packet_ctrl.rs])

    The opcode byte, the reader and the control packet codec. *)

From S2P Require Import Prelude.

(** ** Opcodes and constants *)

Module Opcode.
Definition CONTROL_SOFT_RESET_V1 : Z := 3.
Definition CONTROL_V1 : Z := 4.
Definition ACK_V1 : Z := 5.
Definition CONTROL_HARD_RESET_CLIENT_V2 : Z := 7.
Definition CONTROL_HARD_RESET_SERVER_V2 : Z := 8.

Definition from_byte (b : Z) : Z * Z := (Z.shiftr b 3, Z.land b 7).
Definition to_byte (op key_id : Z) : Z := Z.lor (u8 (Z.shiftl op 3)) (Z.land key_id 7).
End Opcode.

Definition P_KEY_ID_MASK : Z := 7.
Definition P_OPCODE_SHIFT : Z := 3.
Definition CONTROL_SEND_ACK_MAX : Z := 4.
Definition TLS_RELIABLE_N_SEND_BUFFERS : Z := 6.
Definition TLS_RELIABLE_N_REC_BUFFERS : Z := 12.
Definition TLS_MTU : Z := 1250.
Definition DATAGRAM_OVERHEAD : Z := 40 + 8.
Definition MAX_CONTROL_HEADER_SIZE : Z := 1 + 8 + 1 + 4 * CONTROL_SEND_ACK_MAX + 8 + 4.
Definition CONTROL_CHANNEL_MTU : Z := TLS_MTU - DATAGRAM_OVERHEAD - MAX_CONTROL_HEADER_SIZE.
Definition MAX_CONTROL_PAYLOAD : Z := 1500 + 100.

(** ** The packet *)

Record ControlPacket := mkControl {
  opcode : Z; key_id : Z; pid : option Z; session_id : list Z; remote_id : list Z;
  payload : list Z; acked_pids : list Z }.

Definition zero_id : list Z := replicate 8 0.

Definition ControlPacket_new (op key : Z) (sid rid : list Z) : ControlPacket :=
  mkControl op key None sid rid [] [].

Definition set_pid (p : ControlPacket) (id : Z) : ControlPacket :=
  mkControl (opcode p) (key_id p) (Some id) (session_id p) (remote_id p) (payload p) (acked_pids p).

(** ** The reader *)

Inductive ctrl_error := EmptyPacket | Truncated.

(** [io::Result], with its [?]. *)
Definition result (A : Type) : Type := A + ctrl_error.
Definition Ok {A} (x : A) : result A := inl x.
Definition Err {A} (e : ctrl_error) : result A := inr e.
#[global] Instance result_bind : MBind result := fun A B f r => match r with inl x => f x | inr e => inr e end.

Record Reader := mkReader { r_buf : list Z; r_pos : Z }.

Definition Reader_new (buf : list Z) : Reader := mkReader buf 0.

Definition take_u8 (r : Reader) : result (Z * Reader) :=
  if r_pos r >=? zlen (r_buf r) then Err Truncated
  else Ok ((r_buf r).[r_pos r], mkReader (r_buf r) (r_pos r + 1)).

Definition take_u32 (r : Reader) : result (Z * Reader) :=
  if r_pos r + 4 >? zlen (r_buf r) then Err Truncated
  else Ok (of_be_bytes [(r_buf r).[r_pos r]; (r_buf r).[r_pos r + 1]; (r_buf r).[r_pos r + 2]; (r_buf r).[r_pos r + 3]],
            mkReader (r_buf r) (r_pos r + 4)).

Definition take_8 (r : Reader) : result (list Z * Reader) :=
  if r_pos r + 8 >? zlen (r_buf r) then Err Truncated
  else Ok (slice (r_buf r) (r_pos r) (r_pos r + 8), mkReader (r_buf r) (r_pos r + 8)).

Definition rest (r : Reader) : list Z := zdrop (r_pos r) (r_buf r).

(** [for _ in 0..ack_count] *)
Fixpoint take_acks (n : nat) (r : Reader) (acked : list Z) : result (list Z * Reader) :=
  match n with
  | O => Ok (acked, r)
  | S n => '(a, r) ← take_u32 r; take_acks n r (acked ++ [a])
  end.

(** ** The codec *)

(** The acknowledgements and the session they name. *)
Definition parse_acks (ack_count : Z) (r : Reader) : result (list Z * list Z * Reader) :=
  if ack_count >? 0 then
    '(acked, r) ← take_acks (Z.to_nat ack_count) r [];
    '(rid, r) ← take_8 r;
    Ok (acked, rid, r)
  else Ok ([], zero_id, r).

Definition parse_pid (op : Z) (r : Reader) : result (option Z * Reader) :=
  let has_pid := negb (op =? Opcode.ACK_V1) in
  if has_pid then '(id, r) ← take_u32 r; Ok (Some id, r) else Ok (None, r).

Definition parse (data : list Z) : result ControlPacket :=
  match data with
  | [] => Err EmptyPacket
  | head :: tl =>
      let op := Z.shiftr head P_OPCODE_SHIFT in
      let key := Z.land head P_KEY_ID_MASK in
      '(sid, r) ← take_8 (Reader_new tl);
      '(ack_count, r) ← take_u8 r;
      '(acked, rid, r) ← parse_acks ack_count r;
      '(id, r) ← parse_pid op r;
      Ok (mkControl op key id sid rid (rest r) acked)
  end.

Definition to_bytes (p : ControlPacket) (ack : list Z) : list Z :=
  [Opcode.to_byte (opcode p) (key_id p)] ++ session_id p ++ [u8 (zlen ack)] ++
  (match ack with [] => [] | _ => mjoin (be_bytes 4 <$> ack) ++ remote_id p end) ++
  (match pid p with Some id => be_bytes 4 id | None => [] end) ++
  payload p.

(** ** The bytes of a packet *)

Definition u32_ok (x : Z) : Prop := 0 <= x < 2 ^ 32.

(** A packet of this protocol: the opcode fits its five bits, the key id its
    three, and every packet but a plain acknowledgement has an id. *)
Record control_ok (p : ControlPacket) : Prop := {
  co_op : 0 <= opcode p < 32;
  co_key : 0 <= key_id p < 8;
  co_sid : zlen (session_id p) = 8;
  co_rid : zlen (remote_id p) = 8;
  co_pid : match pid p with Some id => opcode p <> Opcode.ACK_V1 /\ u32_ok id | None => opcode p = Opcode.ACK_V1 end }.

(** What the peer reads out of the packet sent with these acknowledgements. *)
Definition received (p : ControlPacket) (ack : list Z) : ControlPacket :=
  mkControl (opcode p) (key_id p) (pid p) (session_id p)
    (match ack with [] => zero_id | _ => remote_id p end) (payload p) ack.

Lemma head_byte op key :
  0 <= op < 32 -> 0 <= key < 8 ->
  let b := Opcode.to_byte op key in
  byte_ok b /\ Z.shiftr b P_OPCODE_SHIFT = op /\ Z.land b P_KEY_ID_MASK = key.
Proof.
  intros Ho Hk. unfold Opcode.to_byte, P_OPCODE_SHIFT, P_KEY_ID_MASK, u8.
  rewrite Z.shiftl_mul_pow2 by lia. rewrite (Z.mod_small (op * 2 ^ 3)) by lia.
  change 7 with (Z.ones 3). rewrite (Z.land_ones key), (Z.mod_small key) by lia.
  rewrite lor_add, Z.land_ones, Z.shiftr_div_pow2 by lia. unfold byte_ok. change (2 ^ 3) with 8. Z.to_euclidean_division_equations; lia.
Qed.

Lemma split_head b : byte_ok b ->
  0 <= Z.shiftr b P_OPCODE_SHIFT < 32 /\ 0 <= Z.land b P_KEY_ID_MASK < 8 /\
  Opcode.to_byte (Z.shiftr b P_OPCODE_SHIFT) (Z.land b P_KEY_ID_MASK) = b.
Proof.
  intros Hb. unfold Opcode.to_byte, P_OPCODE_SHIFT, P_KEY_ID_MASK, u8, byte_ok in *.
  change 7 with (Z.ones 3). rewrite !Z.land_ones, Z.shiftr_div_pow2, Z.shiftl_mul_pow2 by lia.
  change (2 ^ 3) with 8. change (2 ^ 8) with 256.
  rewrite (Z.mod_small (b / 8 * 8)), Z.mod_mod by (Z.to_euclidean_division_equations; lia).
  pose proof (lor_add (b / 8) (b mod 8) 3) as E. change (2 ^ 3) with 8 in E.
  rewrite E by (Z.to_euclidean_division_equations; lia). Z.to_euclidean_division_equations; lia.
Qed.

Definition at_pos (pre suf : list Z) : Reader := mkReader (pre ++ suf) (zlen pre).

Lemma at_pos_next pre mid suf : mkReader (pre ++ mid ++ suf) (zlen pre + zlen mid) = at_pos (pre ++ mid) suf.
Proof. unfold at_pos. by rewrite zlen_app, <- app_assoc. Qed.

Lemma take_u8_at pre suf :
  take_u8 (at_pos pre suf) = match suf with [] => Err Truncated | b :: suf => Ok (b, at_pos (pre ++ [b]) suf) end.
Proof.
  unfold take_u8. cbn [at_pos r_buf r_pos]. rewrite zlen_app. destruct suf as [|b suf].
  - rewrite zlen_nil. by replace (_ >=? _) with true by lia.
  - pose proof (zlen_nonneg suf). rewrite zlen_cons. replace (_ >=? _) with false by lia.
    rewrite byte_at_app_r, Z.sub_diag by lia. do 2 f_equal. apply (at_pos_next pre [b] suf).
Qed.

Lemma take_8_at pre suf :
  take_8 (at_pos pre suf) =
  if zlen suf <? 8 then Err Truncated else Ok (ztake 8 suf, at_pos (pre ++ ztake 8 suf) (zdrop 8 suf)).
Proof.
  unfold take_8. cbn [at_pos r_buf r_pos]. rewrite zlen_app. case_if; case_if; try lia; [done|].
  rewrite slice_app_r, Z.sub_diag by lia. replace (zlen pre + 8 - zlen pre) with 8 by lia. rewrite slice_from_0.
  do 2 f_equal. rewrite <- at_pos_next, ztake_zdrop. f_equal. zl.
Qed.

Lemma take_u32_at pre suf :
  take_u32 (at_pos pre suf) =
  if zlen suf <? 4 then Err Truncated else Ok (of_be_bytes (ztake 4 suf), at_pos (pre ++ ztake 4 suf) (zdrop 4 suf)).
Proof.
  unfold take_u32. cbn [at_pos r_buf r_pos]. rewrite zlen_app. case_if; case_if; try lia; [done|].
  rewrite !byte_at_app_r by lia. do 2 f_equal.
  - f_equal. replace (zlen pre - zlen pre) with 0 by lia. replace (zlen pre + 1 - zlen pre) with 1 by lia.
    replace (zlen pre + 2 - zlen pre) with 2 by lia. replace (zlen pre + 3 - zlen pre) with 3 by lia.
    destruct suf as [|a [|b [|c [|d suf]]]]; [exfalso; unfold zlen in *; cbn in *; lia..|]. reflexivity.
  - rewrite <- at_pos_next, ztake_zdrop. f_equal. zl.
Qed.

(** The acknowledgements a reader finds before [suf]. *)
Definition be_list (l : list Z) : list Z := mjoin (be_bytes 4 <$> l).

Lemma be_list_cons x l : be_list (x :: l) = be_bytes 4 x ++ be_list l.
Proof. done. Qed.

Lemma zlen_be_list l : zlen (be_list l) = 4 * zlen l.
Proof.
  induction l as [|x l IH]; [done|]. rewrite be_list_cons, zlen_app, zlen_be_bytes, IH, zlen_cons. lia.
Qed.

Lemma be_word x suf : u32_ok x -> of_be_bytes (ztake 4 (be_bytes 4 x ++ suf)) = x.
Proof.
  intros Hx. change 4 with (zlen (be_bytes 4 x)) at 1. rewrite ztake_app, of_be_bytes_be_bytes; [done|].
  change (256 ^ Z.of_nat 4) with (2 ^ 32). exact Hx.
Qed.

Lemma take_u32_word pre x suf : u32_ok x ->
  take_u32 (at_pos pre (be_bytes 4 x ++ suf)) = Ok (x, at_pos (pre ++ be_bytes 4 x) suf).
Proof.
  intros Hx. rewrite take_u32_at, be_word by done. rewrite zlen_app, zlen_be_bytes. pose proof (zlen_nonneg suf).
  case_if; [lia|]. change 4 with (zlen (be_bytes 4 x)). by rewrite ztake_app, zdrop_app.
Qed.

Lemma take_acks_list l pre suf acc : Forall u32_ok l ->
  take_acks (length l) (at_pos pre (be_list l ++ suf)) acc = Ok (acc ++ l, at_pos (pre ++ be_list l) suf).
Proof.
  revert pre acc. induction l as [|x l IH]; intros pre acc Hl.
  { cbn. by rewrite !app_nil_r. }
  apply Forall_cons_iff in Hl as [Hx Hl]. cbn [length take_acks].
  rewrite be_list_cons, <- app_assoc, take_u32_word by done. cbn [mbind result_bind Ok].
  rewrite IH by done. by rewrite <- !app_assoc.
Qed.

Lemma take_8_id pre id suf : zlen id = 8 -> take_8 (at_pos pre (id ++ suf)) = Ok (id, at_pos (pre ++ id) suf).
Proof.
  intros Hid. rewrite take_8_at, zlen_app, Hid. pose proof (zlen_nonneg suf). case_if; [lia|].
  rewrite <- Hid. by rewrite ztake_app, zdrop_app.
Qed.

Lemma rest_at pre suf : rest (at_pos pre suf) = suf.
Proof. unfold rest. cbn [at_pos r_pos r_buf]. apply zdrop_app. Qed.

(** The pieces of a packet on the wire. *)
Definition ack_bytes (ack rid : list Z) : list Z := match ack with [] => [] | _ => be_list ack ++ rid end.
Definition pid_bytes (id : option Z) : list Z := match id with Some id => be_bytes 4 id | None => [] end.

Lemma to_bytes_eq p ack :
  to_bytes p ack = Opcode.to_byte (opcode p) (key_id p) :: session_id p ++ u8 (zlen ack) :: ack_bytes ack (remote_id p) ++ pid_bytes (pid p) ++ payload p.
Proof. done. Qed.

Lemma parse_acks_at pre ack rid suf : zlen rid = 8 -> Forall u32_ok ack ->
  parse_acks (zlen ack) (at_pos pre (ack_bytes ack rid ++ suf)) =
  Ok (ack, match ack with [] => zero_id | _ => rid end, at_pos (pre ++ ack_bytes ack rid) suf).
Proof.
  intros Hrid Hack. unfold parse_acks. destruct ack as [|a ack]; [cbn; by rewrite app_nil_r|].
  rewrite zlen_cons. pose proof (zlen_nonneg ack). case_if; [|lia].
  replace (Z.to_nat (zlen ack + 1)) with (length (a :: ack)) by (unfold zlen; cbn; lia).
  cbn [ack_bytes]. rewrite <- (app_assoc (be_list _)), take_acks_list by done. cbn [mbind result_bind Ok app].
  rewrite take_8_id by done. cbn [mbind result_bind Ok]. by rewrite <- app_assoc.
Qed.

Lemma parse_pid_at op pre id suf :
  match id with Some i => op <> Opcode.ACK_V1 /\ u32_ok i | None => op = Opcode.ACK_V1 end ->
  parse_pid op (at_pos pre (pid_bytes id ++ suf)) = Ok (id, at_pos (pre ++ pid_bytes id) suf).
Proof.
  intros Hid. unfold parse_pid. destruct id as [id|].
  - destruct Hid as [Hne Hid]. replace (op =? Opcode.ACK_V1) with false by lia. cbn [negb pid_bytes]. by rewrite take_u32_word.
  - rewrite Hid, Z.eqb_refl. cbn [negb pid_bytes app]. by rewrite app_nil_r.
Qed.

Lemma control_readback (p : ControlPacket) (ack : list Z) :
  control_ok p -> zlen ack < 256 -> Forall u32_ok ack -> parse (to_bytes p ack) = Ok (received p ack).
Proof.
  intros [Hop Hkey Hsid Hrid Hpid] Hn Hack. destruct (head_byte (opcode p) (key_id p) Hop Hkey) as (_ & E1 & E2).
  rewrite to_bytes_eq. cbn [parse]. cbv zeta in E1, E2. rewrite E1, E2.
  change (Reader_new ?l) with (at_pos [] l). rewrite take_8_id by done. cbn [mbind result_bind Ok].
  rewrite take_u8_at. cbn [mbind result_bind Ok]. unfold u8. pose proof (zlen_nonneg ack). rewrite Z.mod_small by lia.
  rewrite parse_acks_at by done. cbn [mbind result_bind Ok]. rewrite parse_pid_at by done. cbn [mbind result_bind Ok].
  by rewrite rest_at.
Qed.

(** C38: the peer reads back what was put on the wire: every field of the
    control packet, its payload, and the acknowledgements attached to it,
    with the session they name whenever there are any. *)
Theorem control_roundtrip (p : ControlPacket) (ack : list Z) :
  control_ok p -> zlen ack < 256 -> Forall u32_ok ack -> parse (to_bytes p ack) = Ok (received p ack).
Proof. apply control_readback. Qed.

Definition sample_control : ControlPacket :=
  mkControl Opcode.CONTROL_V1 3 (Some 7) [1; 2; 3; 4; 5; 6; 7; 8] [9; 9; 9; 9; 9; 9; 9; 9] [22; 3; 1] [].

Lemma control_roundtrip_witness :
  parse (to_bytes sample_control [5; 6]) = Ok (received sample_control [5; 6]).
Proof. apply control_roundtrip; [split; [done..|cbn; done]|done|repeat constructor; done]. Defined.

(** ** Every datagram *)

Lemma word_be suf : bytes_ok suf -> 4 <= zlen suf ->
  be_bytes 4 (of_be_bytes (ztake 4 suf)) = ztake 4 suf /\ u32_ok (of_be_bytes (ztake 4 suf)).
Proof.
  intros Hok Hl. destruct suf as [|a [|b [|c [|d suf]]]]; [exfalso; unfold zlen in *; cbn in *; lia..|].
  change (ztake 4 (a :: b :: c :: d :: suf)) with [a; b; c; d].
  assert (bytes_ok [a; b; c; d]) as Hb. { apply (bytes_ok_ztake 4) in Hok. exact Hok. }
  split; [exact (be_bytes_of_be_bytes [a; b; c; d] Hb)|].
  unfold bytes_ok, byte_ok in Hb. rewrite !Forall_cons_iff in Hb. unfold u32_ok. cbn [of_be_bytes length].
  change (256 ^ zlen [b; c; d]) with 16777216. change (256 ^ zlen [c; d]) with 65536. change (256 ^ zlen [d]) with 256.
  change (256 ^ zlen []) with 1. lia.
Qed.

Lemma take_acks_total n pre suf acc : bytes_ok suf ->
  (zlen suf < 4 * Z.of_nat n /\ take_acks n (at_pos pre suf) acc = Err Truncated) \/
  (exists l suf', suf = be_list l ++ suf' /\ length l = n /\ Forall u32_ok l /\
     take_acks n (at_pos pre suf) acc = Ok (acc ++ l, at_pos (pre ++ be_list l) suf')).
Proof.
  revert pre suf acc. induction n as [|n IH]; intros pre suf acc Hok.
  { right. exists [], suf. by rewrite !app_nil_r. }
  cbn [take_acks]. rewrite take_u32_at. case_if; [left; split; [lia|done]|].
  destruct (word_be suf Hok ltac:(lia)) as [Eb Hu]. cbn [mbind result_bind Ok].
  pose proof (ztake_zdrop 4 suf) as Es. assert (zlen suf = 4 + zlen (zdrop 4 suf)) as El by zl.
  destruct (IH (pre ++ ztake 4 suf) (zdrop 4 suf) (acc ++ [of_be_bytes (ztake 4 suf)]) ltac:(bok)) as [[Hs ->]|(l & suf' & E & Hl & Hf & ->)].
  - left. split; [lia|done].
  - right. exists (of_be_bytes (ztake 4 suf) :: l), suf'. rewrite be_list_cons, Eb, <- !app_assoc, <- E, Es. split_and!; [done|cbn; lia|by constructor|done].
Qed.

(** How long a datagram beginning with these bytes must be. *)
Definition needed (data : list Z) : Z :=
  10 + (if data.[9] >? 0 then 4 * data.[9] + 8 else 0) +
  (if fst (Opcode.from_byte data.[0]) =? Opcode.ACK_V1 then 0 else 4).

Lemma parse_acks_total n pre suf : byte_ok n -> bytes_ok suf ->
  let need := if n >? 0 then 4 * n + 8 else 0 in
  (zlen suf < need /\ parse_acks n (at_pos pre suf) = Err Truncated) \/
  (exists l rid suf', suf = ack_bytes l rid ++ suf' /\ zlen l = n /\ Forall u32_ok l /\ zlen rid = 8 /\ (l = [] -> rid = zero_id) /\
     zlen suf = need + zlen suf' /\ parse_acks n (at_pos pre suf) = Ok (l, rid, at_pos (pre ++ ack_bytes l rid) suf')).
Proof.
  intros Hn Hok. cbv zeta. unfold byte_ok in Hn. unfold parse_acks. destruct (n >? 0) eqn:En; bool2prop.
  - destruct (take_acks_total (Z.to_nat n) pre suf [] Hok) as [[Hs ->]|(l & suf' & -> & Hl & Hf & ->)]; [left; split; [lia|done]|].
    cbn [mbind result_bind Ok]. rewrite take_8_at. rewrite zlen_app, zlen_be_list. assert (zlen l = n) as Hln by (unfold zlen; lia).
    case_if; [left; split; [lia|done]|]. right. exists l, (ztake 8 suf'), (zdrop 8 suf').
    destruct l as [|a l]; [unfold zlen in Hln; cbn in Hln; lia|]. cbn [ack_bytes mbind result_bind Ok].
    rewrite <- !app_assoc, ztake_zdrop. split_and!; [done|done|done|zl|done|zl|done].
  - right. exists [], zero_id, suf. cbn [ack_bytes app]. rewrite app_nil_r. split_and!; [done|rewrite (@zlen_nil Z); lia|constructor|done..].
Qed.

Lemma parse_pid_total op pre suf : bytes_ok suf ->
  let need := if op =? Opcode.ACK_V1 then 0 else 4 in
  (zlen suf < need /\ parse_pid op (at_pos pre suf) = Err Truncated) \/
  (exists id suf', suf = pid_bytes id ++ suf' /\ zlen suf = need + zlen suf' /\
     match id with Some i => op <> Opcode.ACK_V1 /\ u32_ok i | None => op = Opcode.ACK_V1 end /\
     parse_pid op (at_pos pre suf) = Ok (id, at_pos (pre ++ pid_bytes id) suf')).
Proof.
  intros Hok. cbv zeta. unfold parse_pid. destruct (op =? Opcode.ACK_V1) eqn:E; bool2prop; cbn [negb].
  - right. exists None, suf. cbn [pid_bytes app]. by rewrite app_nil_r.
  - rewrite take_u32_at. case_if; [left; split; [lia|done]|]. right. destruct (word_be suf Hok ltac:(lia)) as [Eb Hu].
    exists (Some (of_be_bytes (ztake 4 suf))), (zdrop 4 suf). cbn [mbind result_bind Ok pid_bytes]. rewrite Eb, ztake_zdrop.
    split_and!; [done|zl|done|done|done].
Qed.

(** Parsing decides every datagram without going past its end. It refuses
    an empty one, and one shorter than its opcode and its count of
    acknowledgements call for, and no other; what it makes of any other
    datagram is a packet of the protocol that serializes, with its
    acknowledgements, to exactly that datagram. *)
Theorem control_parse_exact (data : list Z) : bytes_ok data ->
  match parse data with
  | inr EmptyPacket => data = []
  | inr Truncated => data <> [] /\ zlen data < needed data
  | inl p =>
      needed data <= zlen data /\ control_ok p /\ Forall u32_ok (acked_pids p) /\ zlen (acked_pids p) < 256 /\
      (acked_pids p = [] -> remote_id p = zero_id) /\ to_bytes p (acked_pids p) = data
  end.
Proof.
  intros Hok. destruct data as [|head tl]; [done|].
  assert (byte_ok head /\ bytes_ok tl) as [Hh Ht] by (by apply Forall_cons_iff in Hok).
  destruct (split_head head Hh) as (Hop & Hkey & Hhb). unfold needed. cbn [parse].
  change ((head :: tl).[0]) with head. change (fst (Opcode.from_byte head)) with (Z.shiftr head P_OPCODE_SHIFT).
  set (op := Z.shiftr head P_OPCODE_SHIFT) in *. set (key := Z.land head P_KEY_ID_MASK) in *.
  assert (0 <= (if op =? Opcode.ACK_V1 then 0 else 4)) as Htail by (case_match; lia).
  rewrite (zlen_cons head tl). change (Reader_new tl) with (at_pos [] tl). rewrite take_8_at.
  destruct (zlen tl <? 8) eqn:E8; bool2prop.
  { split; [done|]. unfold byte_at. rewrite lookup_ge_None_2 by (cbn; unfold zlen in *; lia). cbn [default Z.gtb Z.compare]. lia. }
  cbn [mbind result_bind Ok]. rewrite take_u8_at. pose proof (ztake_zdrop 8 tl) as Etl. set (sid := ztake 8 tl) in *.
  assert (zlen sid = 8) as Hsid by (unfold sid; zl). assert (bytes_ok (zdrop 8 tl)) as Hok8 by bok.
  assert (zlen tl = 8 + zlen (zdrop 8 tl)) as Hl8 by zl.
  assert ((head :: tl).[9] = (zdrop 8 tl).[0]) as ->. { rewrite byte_at_zdrop by lia. reflexivity. }
  destruct (zdrop 8 tl) as [|n r]; [split; [done|]; rewrite Hl8, (@zlen_nil Z); change ([].[0]) with 0; cbn [Z.gtb Z.compare]; lia|].
  change ((n :: r).[0]) with n. rewrite zlen_cons in Hl8. cbn [mbind result_bind Ok].
  assert (byte_ok n /\ bytes_ok r) as [Hn Hr] by (by apply Forall_cons_iff in Hok8).
  destruct (parse_acks_total n ([] ++ sid ++ [n]) r Hn Hr) as [[Hs Ep]|(l & rid & s1 & -> & Hln & Hf & Hrid & Hz & Hl9 & Ep)];
    rewrite app_assoc in Ep; rewrite Ep; cbn [mbind result_bind Ok]; [split; [done|lia]|].
  match goal with |- context [parse_pid op (at_pos ?pre s1)] =>
    destruct (parse_pid_total op pre s1 (proj2 (proj1 (Forall_app _ _ _) Hr))) as [[Hs1 ->]|(id & pl & -> & Hl10 & Hid & ->)] end;
    cbn [mbind result_bind Ok]; [split; [done|lia]|].
  pose proof (zlen_nonneg pl). unfold byte_ok in Hn. cbn [acked_pids remote_id]. rewrite to_bytes_eq, rest_at. cbn [opcode key_id session_id pid payload remote_id].
  rewrite Hhb, Hln. unfold u8. rewrite Z.mod_small by lia. split_and!; [lia|done|done|lia|done|]. f_equal. exact Etl.
Qed.

Lemma control_parse_exact_witness :
  bytes_ok (to_bytes sample_control [5]) /\ needed (to_bytes sample_control [5]) <= zlen (to_bytes sample_control [5]).
Proof.
  assert (bytes_ok (to_bytes sample_control [5])) as H by (repeat constructor; done).
  split; [exact H|]. exact (proj1 (control_parse_exact (to_bytes sample_control [5]) H)).
Defined.
