(* ===== verification/OvpnReliable.v ===== *)
(** * The OpenVPN reliable control channel ([src/src/ovpn/reliable.rs], and the
    part of [src/src/ovpn/peer.rs] that drives it)

    Packet ids, the send window, acknowledgement and retransmission, and the
    reorder buffer; then two endpoints joined by a network that loses,
    duplicates and reorders datagrams. Instants and durations are
    nanoseconds. *)

From stdpp Require Import sorting.
From S2P Require Import Prelude OvpnControl.

Definition RETRANSMIT_INITIAL : Z := 1 * 10 ^ 9.
Definition RETRANSMIT_MAX_INTERVAL : Z := 8 * 10 ^ 9.
Definition MAX_HELD_TLS : Z := 64 * 1024.

Record Unacked := mkUnacked { u_pkt : ControlPacket; last_sent : Z; attempts : Z }.

Record Reliable := mkReliable {
  local_id : list Z;
  peer_id : list Z;
  rel_key : Z;
  out_counter : Z;
  unacked : gmap Z Unacked;
  held : list Z;
  in_counter : Z;
  in_buf : gmap Z ControlPacket;
  pending_ack : list Z }.

Inductive recv_error := OtherKey | AckOtherSession | MissingPid | ResetPid | PidInvalid | TooBig.

(** [Duration::checked_mul], seconds being a [u64]. *)
Definition checked_mul (d n : Z) : option Z := if d * n <? 2 ^ 64 * 10 ^ 9 then Some (d * n) else None.

Definition backoff (n : Z) : Z :=
  let shift := Z.min (sat_sub n 1) 16 in
  let scaled := default RETRANSMIT_MAX_INTERVAL (checked_mul RETRANSMIT_INITIAL (Z.shiftl 1 shift)) in
  Z.min scaled RETRANSMIT_MAX_INTERVAL.

Definition Reliable_new (local : list Z) : Reliable := mkReliable local zero_id 0 0 ∅ [] 0 ∅ [].

(** [KeyState::new]: the session ids and the key id are set. *)
Definition key_new (key : Z) (local remote : list Z) : Reliable := mkReliable local remote key 0 ∅ [] 0 ∅ [].

(** ** Receiving *)

Definition with_in (s : Reliable) (inc : Z) (buf : gmap Z ControlPacket) : Reliable :=
  mkReliable (local_id s) (peer_id s) (rel_key s) (out_counter s) (unacked s) (held s) inc buf (pending_ack s).

Definition with_pending (s : Reliable) (l : list Z) : Reliable :=
  mkReliable (local_id s) (peer_id s) (rel_key s) (out_counter s) (unacked s) (held s) (in_counter s) (in_buf s) l.

Definition with_peer (s : Reliable) (id : list Z) : Reliable :=
  mkReliable (local_id s) id (rel_key s) (out_counter s) (unacked s) (held s) (in_counter s) (in_buf s) (pending_ack s).

Definition with_unacked (s : Reliable) (m : gmap Z Unacked) : Reliable :=
  mkReliable (local_id s) (peer_id s) (rel_key s) (out_counter s) m (held s) (in_counter s) (in_buf s) (pending_ack s).

(** [for pid in &pkt.acked_pids] *)
Definition remove_acked (m : gmap Z Unacked) (ids : list Z) : gmap Z Unacked := foldl (fun m id => delete id m) m ids.

(** [while let Some(p) = self.in_buf.remove(&self.in_counter)]; each turn
    takes an entry out. *)
Fixpoint drain_in (fuel : nat) (inc : Z) (buf : gmap Z ControlPacket) (tls : list Z) : Z * gmap Z ControlPacket * list Z :=
  match fuel with
  | O => (inc, buf, tls)
  | S fuel =>
      match buf !! inc with
      | None => (inc, buf, tls)
      | Some p => drain_in fuel (u32 (inc + 1)) (delete inc buf)
                    (if opcode p =? Opcode.CONTROL_V1 then tls ++ payload p else tls)
      end
  end.

Definition without_acks (p : ControlPacket) : ControlPacket :=
  mkControl (opcode p) (key_id p) (pid p) (session_id p) (remote_id p) (payload p) [].

(** [in_buf.entry(pid).or_insert(pkt)] and the loop after it. *)
Definition reorder (s : Reliable) (id : Z) (pkt : ControlPacket) : Reliable * list Z :=
  let buf := match in_buf s !! id with Some _ => in_buf s | None => <[id := without_acks pkt]> (in_buf s) end in
  let '(inc, buf, tls) := drain_in (S (size buf)) (in_counter s) buf [] in
  (with_in s inc buf, tls).

Definition is_hard_reset (op : Z) : bool :=
  (op =? Opcode.CONTROL_HARD_RESET_CLIENT_V2) || (op =? Opcode.CONTROL_HARD_RESET_SERVER_V2).

Definition recv_packet (s : Reliable) (pkt : ControlPacket) : Reliable * (list Z + recv_error) :=
  if negb (bool_decide (acked_pids pkt = [])) && negb (bool_decide (remote_id pkt = local_id s)) then (s, inr AckOtherSession)
  else
    let s := with_unacked s (remove_acked (unacked s) (acked_pids pkt)) in
    let is_ack := opcode pkt =? Opcode.ACK_V1 in
    if negb is_ack && bool_decide (pid pkt = None) then (s, inr MissingPid)
    else
      let id := if is_ack then None else pid pkt in
      if is_hard_reset (opcode pkt) && negb (bool_decide (id = Some 0)) then (s, inr ResetPid)
      else if match id with Some id => u32 (in_counter s + TLS_RELIABLE_N_REC_BUFFERS) <=? id | None => false end then (s, inr PidInvalid)
      else if zlen (payload pkt) >? MAX_CONTROL_PAYLOAD then (s, inr TooBig)
      else
        match id with
        | None => (s, inl [])
        | Some id =>
            let s := if bool_decide (id ∈ pending_ack s) then s else with_pending s (pending_ack s ++ [id]) in
            let s := if (opcode pkt =? Opcode.CONTROL_HARD_RESET_SERVER_V2) && bool_decide (peer_id s = zero_id)
                     then with_peer s (session_id pkt) else s in
            if id <? in_counter s then (s, inl [])
            else let '(s, tls) := reorder s id pkt in (s, inl tls)
        end.

(** [KeyState::recv] *)
Definition key_recv (s : Reliable) (pkt : ControlPacket) : Reliable * (list Z + recv_error) :=
  if negb (key_id pkt =? rel_key s) then (s, inr OtherKey) else recv_packet s pkt.

(** ** Sending *)

Definition take_pending_acks (s : Reliable) : Reliable * list Z :=
  let n := Z.min (zlen (pending_ack s)) CONTROL_SEND_ACK_MAX in
  (with_pending s (zdrop n (pending_ack s)), ztake n (pending_ack s)).

Definition has_pending_acks (s : Reliable) : bool := match pending_ack s with [] => false | _ => true end.

(** [track_unacked] with the id and counter update before it; [now] is the
    clock. *)
Definition track (s : Reliable) (pkt : ControlPacket) (now : Z) : Reliable * ControlPacket :=
  let id := out_counter s in
  let pkt := set_pid pkt id in
  (mkReliable (local_id s) (peer_id s) (rel_key s) (u32 (id + 1)) (<[id := mkUnacked pkt now 1]> (unacked s)) (held s)
     (in_counter s) (in_buf s) (pending_ack s), pkt).

Definition build_control (s : Reliable) (data : list Z) (now : Z) : Reliable * ControlPacket :=
  track s (mkControl Opcode.CONTROL_V1 (rel_key s) None (local_id s) (peer_id s) data []) now.

Definition build_reset (s : Reliable) (op now : Z) : Reliable * ControlPacket :=
  track s (ControlPacket_new op (rel_key s) (local_id s) (peer_id s)) now.

Definition build_hard_reset (s : Reliable) (now : Z) := build_reset s Opcode.CONTROL_HARD_RESET_SERVER_V2 now.
Definition build_soft_reset (s : Reliable) (now : Z) := build_reset s Opcode.CONTROL_SOFT_RESET_V1 now.
Definition build_client_hard_reset (s : Reliable) (now : Z) := build_reset s Opcode.CONTROL_HARD_RESET_CLIENT_V2 now.

Definition skip_reset (s : Reliable) : Reliable :=
  mkReliable (local_id s) (peer_id s) (rel_key s) (Z.max (out_counter s) 1) (unacked s) (held s)
    (Z.max (in_counter s) 1) (in_buf s) (pending_ack s).

Definition reset_acked (s : Reliable) : bool := (out_counter s >? 0) && bool_decide (unacked s !! 0 = None).

Definition build_ack (s : Reliable) : ControlPacket := ControlPacket_new Opcode.ACK_V1 (rel_key s) (local_id s) (peer_id s).

Definition with_held (s : Reliable) (h : list Z) : Reliable :=
  mkReliable (local_id s) (peer_id s) (rel_key s) (out_counter s) (unacked s) h (in_counter s) (in_buf s) (pending_ack s).

Definition queue_tls (s : Reliable) (data : list Z) : Reliable := with_held s (held s ++ data).

Definition held_len (s : Reliable) : Z := zlen (held s).

(** [keys().min()] *)
Definition min_key (m : gmap Z Unacked) : option Z :=
  foldr (fun k acc => Some (match acc with Some x => Z.min k x | None => k end)) None (map_to_list m).*1.

Definition can_send (s : Reliable) : bool :=
  match min_key (unacked s) with
  | Some oldest => out_counter s <? Z.min (oldest + TLS_RELIABLE_N_SEND_BUFFERS) (2 ^ 32 - 1)
  | None => true
  end.

(** Each turn drains at least a byte; [now id] is the clock when packet [id]
    is built. *)
Fixpoint flush_loop (fuel : nat) (s : Reliable) (now : Z -> Z) (packets : list ControlPacket) : Reliable * list ControlPacket :=
  match fuel with
  | O => (s, packets)
  | S fuel =>
      if negb (bool_decide (held s = [])) && can_send s then
        let n := Z.min (zlen (held s)) CONTROL_CHANNEL_MTU in
        let chunk := ztake n (held s) in
        let '(s, p) := build_control (with_held s (zdrop n (held s))) chunk (now (out_counter s)) in
        flush_loop fuel s now (packets ++ [p])
      else (s, packets)
  end.

Definition flush_tls (s : Reliable) (now : Z -> Z) : Reliable * list ControlPacket :=
  flush_loop (S (length (held s))) s now [].

(** [for pkt in self.reliable.flush_tls()] of [KeyState::pump] *)
Fixpoint send_packets (s : Reliable) (pkts : list ControlPacket) (out : list (list Z)) : Reliable * list (list Z) :=
  match pkts with
  | [] => (s, out)
  | p :: pkts => let '(s, acks) := take_pending_acks s in send_packets s pkts (out ++ [to_bytes p acks])
  end.

(** [while self.reliable.has_pending_acks()]; each turn takes at least one. *)
Fixpoint send_acks (fuel : nat) (s : Reliable) (out : list (list Z)) : Reliable * list (list Z) :=
  match fuel with
  | O => (s, out)
  | S fuel =>
      if has_pending_acks s then
        let '(s, acks) := take_pending_acks s in send_acks fuel s (out ++ [to_bytes (build_ack s) acks])
      else (s, out)
  end.

(** [KeyState::pump], the TLS engine's output being [tls_out]: [None] when it
    gives up on the key. *)
Definition pump (s : Reliable) (tls_out : list Z) (now : Z -> Z) : option (Reliable * list (list Z)) :=
  let s := queue_tls s tls_out in
  if held_len s >? MAX_HELD_TLS then None
  else
    let '(s, out) :=
      if reset_acked s then let '(s, pkts) := flush_tls s now in send_packets s pkts [] else (s, []) in
    Some (send_acks (length (pending_ack s)) s out).

(** ** Retransmission *)

Definition is_due (now : Z) (u : Unacked) : bool := backoff (attempts u) <=? Z.max 0 (now - last_sent u).

Definition due (now : Z) (m : gmap Z Unacked) : list Z :=
  merge_sort Z.le (filter (fun x => is_due now (snd x) = true) (map_to_list m)).*1.

(** [for pid in due]: [None] when the packet is gone ([expect]). *)
Fixpoint resend_loop (now : Z) (ids : list Z) (m : gmap Z Unacked) (out : list (list Z)) : option (gmap Z Unacked * list (list Z)) :=
  match ids with
  | [] => Some (m, out)
  | id :: ids =>
      match m !! id with
      | None => None
      | Some u => resend_loop now ids (<[id := mkUnacked (u_pkt u) now (Z.min (attempts u + 1) (2 ^ 32 - 1))]> m)
                    (out ++ [to_bytes (u_pkt u) []])
      end
  end.

Definition tick (s : Reliable) (now : Z) : option (Reliable * list (list Z)) :=
  '(m, out) ← resend_loop now (due now (unacked s)) (unacked s) [];
  Some (with_unacked s m, out).

(** ** What a side has said, and what of it the other has *)

(** The opcode and payload of each packet of a stream, by packet id. *)
Abbreviation stream := (list (Z * list Z)).

(** The TLS bytes of a stream. *)
Definition tls_of (log : stream) : list Z :=
  mjoin ((fun e => if fst e =? Opcode.CONTROL_V1 then snd e else []) <$> log).

(** A packet id taken in, in order or ahead of its turn. *)
Definition recvd (s : Reliable) (id : Z) : Prop := 0 <= id /\ (id < in_counter s \/ is_Some (in_buf s !! id)).

(** Packet ids never come near the end of their 32 bits. *)
Definition log_ok (log : stream) : Prop :=
  zlen log + TLS_RELIABLE_N_REC_BUFFERS < 2 ^ 32 /\
  forall i op pl, log !! i = Some (op, pl) ->
    0 <= op < 32 /\ op <> Opcode.ACK_V1 /\ (is_hard_reset op = true -> i = O) /\ zlen pl <= CONTROL_CHANNEL_MTU.

(** A packet of the stream, or a plain acknowledgement, between these
    sessions. *)
Record genuine (log : stream) (sid rid : list Z) (key : Z) (p : ControlPacket) : Prop := {
  g_ok : control_ok p;
  g_key : key_id p = key;
  g_sid : session_id p = sid;
  g_rid : remote_id p = rid;
  g_log : match pid p with
          | None => payload p = []
          | Some id => 0 <= id /\ log !! Z.to_nat id = Some (opcode p, payload p)
          end }.

(** A datagram carrying such a packet and acknowledgements of ids in [R]. *)
Definition genuine_dg (log : stream) (sid rid : list Z) (key : Z) (R : Z -> Prop) (p : ControlPacket) (acks d : list Z) : Prop :=
  d = to_bytes p acks /\ genuine log sid rid key p /\ zlen acks <= CONTROL_SEND_ACK_MAX /\ Forall (fun a => u32_ok a /\ R a) acks.

(** The receiving half: in order up to [in_counter], the rest of the window in
    [in_buf]. *)
Record takes (s : Reliable) (got : list Z) (log : stream) : Prop := {
  rv_in : 0 <= in_counter s <= zlen log;
  rv_buf : forall id p, in_buf s !! id = Some p ->
    in_counter s < id < zlen log /\ log !! Z.to_nat id = Some (opcode p, payload p);
  rv_got : got = tls_of (ztake (in_counter s) log) }.

(** Acknowledgements are owed only for what was taken in. *)
Definition receives (s : Reliable) (got : list Z) (log : stream) : Prop :=
  takes s got log /\ Forall (recvd s) (pending_ack s).

(** The sending half: what is queued is what was packed plus what is held
    back, and the window reaches six packets past the oldest unacknowledged. *)
Record sends (s : Reliable) (queued : list Z) (log : stream) : Prop := {
  sd_out : out_counter s = zlen log;
  sd_log : log_ok log;
  sd_unacked : forall id u, unacked s !! id = Some u ->
    pid (u_pkt u) = Some id /\ genuine log (local_id s) (peer_id s) (rel_key s) (u_pkt u);
  sd_window : forall id, is_Some (unacked s !! id) -> zlen log <= id + TLS_RELIABLE_N_SEND_BUFFERS;
  sd_queued : queued = tls_of log ++ held s;
  sd_held : zlen (held s) <= MAX_HELD_TLS }.

Lemma tls_of_app l k : tls_of (l ++ k) = tls_of l ++ tls_of k.
Proof. unfold tls_of. by rewrite fmap_app, join_app. Qed.

Lemma ztake_next {A} (l : list A) n x : 0 <= n -> l !! Z.to_nat n = Some x -> ztake (n + 1) l = ztake n l ++ [x].
Proof. intros Hn E. unfold ztake. replace (Z.to_nat (n + 1)) with (S (Z.to_nat n)) by lia. by apply take_S_r. Qed.

Lemma zlookup_lt {A} (l : list A) n x : 0 <= n -> l !! Z.to_nat n = Some x -> n < zlen l.
Proof. intros Hn E. apply lookup_lt_Some in E. unfold zlen. lia. Qed.

(** *** Receiving *)

Lemma remove_acked_lookup m ids id :
  remove_acked m ids !! id = if bool_decide (id ∈ ids) then None else m !! id.
Proof.
  unfold remove_acked. revert m. induction ids as [|x ids IH]; intros m; [done|]. cbn [foldl]. rewrite IH.
  destruct (decide (id ∈ ids)) as [H|H].
  - rewrite !bool_decide_true by set_solver. done.
  - rewrite bool_decide_false by done. destruct (decide (id = x)) as [->|Hne].
    + rewrite lookup_delete_eq, bool_decide_true by set_solver. done.
    + rewrite lookup_delete_ne, bool_decide_false by set_solver. done.
Qed.

Lemma drain_in_spec log fuel inc buf tls :
  (size buf < fuel)%nat -> 0 <= inc -> log_ok log ->
  inc <= zlen log ->
  (forall id p, buf !! id = Some p -> inc <= id < zlen log /\ log !! Z.to_nat id = Some (opcode p, payload p)) ->
  let '(inc', buf', tls') := drain_in fuel inc buf tls in
  inc <= inc' <= zlen log /\
  (exists sfx, tls' = tls ++ sfx /\ tls_of (ztake inc' log) = tls_of (ztake inc log) ++ sfx) /\
  (forall id p, buf' !! id = Some p -> inc' < id < zlen log /\ log !! Z.to_nat id = Some (opcode p, payload p)) /\
  (forall id, is_Some (buf !! id) -> id < inc' \/ is_Some (buf' !! id)).
Proof.
  revert inc buf tls. induction fuel as [|fuel IH]; intros inc buf tls Hf H0 Hlog Hle Hb; [lia|].
  cbn [drain_in]. destruct (buf !! inc) as [p|] eqn:E.
  - destruct (Hb inc p E) as [Hr Hl]. destruct Hlog as [Hlen Hlog']. unfold u32. change TLS_RELIABLE_N_REC_BUFFERS with 12 in Hlen. rewrite Z.mod_small by lia.
    specialize (IH (inc + 1) (delete inc buf) (if opcode p =? Opcode.CONTROL_V1 then tls ++ payload p else tls)).
    destruct (drain_in fuel _ _ _) as [[inc' buf'] tls']. destruct IH as (H1 & (sfx & -> & H2) & H3 & H4).
    { rewrite map_size_delete_Some by (by exists p). destruct (size buf) eqn:Es; [|lia].
      apply map_size_empty_inv in Es. by rewrite Es, lookup_empty in E. } { lia. } { done. } { lia. }
    { intros id q Eq. apply lookup_delete_Some in Eq as [Hne Eq]. destruct (Hb id q Eq). split; [lia|done]. }
    split_and!; [lia|lia| |done|].
    + exists ((if opcode p =? Opcode.CONTROL_V1 then payload p else []) ++ sfx).
      rewrite H2, (ztake_next _ _ _ H0 Hl), tls_of_app. unfold tls_of at 2. cbn [fmap list_fmap fst snd mjoin list_join].
      split; [|by rewrite app_nil_r, <- app_assoc]. destruct (_ =? _); [by rewrite app_assoc|done].
    + intros id Hid. destruct (decide (id = inc)) as [->|Hne]; [lia|]. apply H4. by rewrite lookup_delete_ne.
  - split_and!; [lia|lia| | |].
    + exists []. by rewrite !app_nil_r.
    + intros id p Ep. destruct (Hb id p Ep) as [Hr Hl]. split; [|done]. destruct (decide (id = inc)); [congruence|lia].
    + auto.
Qed.

(** The sending half of a state. *)
Definition same_out (s s' : Reliable) : Prop :=
  local_id s' = local_id s /\ peer_id s' = peer_id s /\ rel_key s' = rel_key s /\ out_counter s' = out_counter s /\ held s' = held s.

Lemma reorder_spec log s got id p :
  takes s got log -> log_ok log -> in_counter s <= id -> log !! Z.to_nat id = Some (opcode p, payload p) ->
  let '(s', tls) := reorder s id p in
  takes s' (got ++ tls) log /\ recvd s' id /\ (forall x, recvd s x -> recvd s' x) /\ same_out s s' /\
  unacked s' = unacked s /\ pending_ack s' = pending_ack s.
Proof.
  intros [Hin Hbuf Hgot] Hlog Hid Hl. pose proof (zlookup_lt log id _ ltac:(lia) Hl) as Hlt. unfold reorder.
  set (buf := match in_buf s !! id with Some _ => in_buf s | None => <[id := without_acks p]> (in_buf s) end).
  assert (is_Some (buf !! id) /\ forall x, is_Some (in_buf s !! x) -> is_Some (buf !! x)) as [Hhas Hsub].
  { unfold buf. destruct (in_buf s !! id) eqn:E; [by rewrite E|]. rewrite lookup_insert_eq. split; [done|].
    intros x Hx. by apply lookup_insert_is_Some'; right. }
  pose proof (drain_in_spec log (S (size buf)) (in_counter s) buf [] ltac:(lia) ltac:(lia) Hlog ltac:(lia)) as D.
  destruct (drain_in _ _ _ _) as [[inc' buf'] tls]. destruct D as (H1 & (sfx & -> & H2) & H3 & H4).
  { intros x q E. unfold buf in E. destruct (in_buf s !! id) eqn:Ei.
    - destruct (Hbuf x q E). split; [lia|done].
    - apply lookup_insert_Some in E as [[<- <-]|[_ E]]; [done|]. destruct (Hbuf x q E). split; [lia|done]. }
  assert (forall x, recvd s x -> recvd (with_in s inc' buf') x) as Hmono.
  { intros x [Hx [Hc|Hb]]; (split; [done|]); cbn; [lia|]. by apply H4, Hsub. }
  split_and!; [|split; [lia|by apply H4]|done|by repeat split|done|done].
  split; cbn; [lia|done|by rewrite H2, Hgot].
Qed.

(** Taking in a packet of the stream that is within the window. *)
Lemma take_in_spec log s got id p :
  receives s got log -> log_ok log -> 0 <= id -> peer_id s = session_id p -> log !! Z.to_nat id = Some (opcode p, payload p) ->
  let s1 := if bool_decide (id ∈ pending_ack s) then s else with_pending s (pending_ack s ++ [id]) in
  let s2 := if (opcode p =? Opcode.CONTROL_HARD_RESET_SERVER_V2) && bool_decide (peer_id s1 = zero_id)
            then with_peer s1 (session_id p) else s1 in
  let '(s', res) := if id <? in_counter s2 then (s2, @inl (list Z) recv_error []) else let '(s3, tls) := reorder s2 id p in (s3, inl tls) in
  receives s' (got ++ match res with inl t => t | inr _ => [] end) log /\ (forall x, recvd s x -> recvd s' x) /\ recvd s' id /\
  same_out s s' /\ unacked s' = unacked s /\ (forall x, x ∈ pending_ack s' <-> x = id \/ x ∈ pending_ack s) /\ (exists t, res = inl t).
Proof.
  intros [HT Hpend] Hlog H0 Hsid Hl. cbv zeta.
  set (s1 := if bool_decide (id ∈ pending_ack s) then s else with_pending s (pending_ack s ++ [id])).
  assert (takes s1 got log /\ (forall x, recvd s1 x <-> recvd s x) /\ in_counter s1 = in_counter s /\ same_out s s1 /\ unacked s1 = unacked s)
    as (HT1 & Fr & Fi & Fo & Fu).
  { unfold s1. case_match; [done|]. destruct HT. split_and!; [by split|done|done|done|done]. }
  assert (forall x, x ∈ pending_ack s1 <-> x = id \/ x ∈ pending_ack s) as Fp.
  { intros x. unfold s1. case_bool_decide; [set_solver|]. cbn. set_solver. }
  assert ((if (opcode p =? Opcode.CONTROL_HARD_RESET_SERVER_V2) && bool_decide (peer_id s1 = zero_id)
    then with_peer s1 (session_id p) else s1) = s1) as ->.
  { case_match; [|done]. destruct Fo as (_ & Fo & _). rewrite <- Hsid, <- Fo. by destruct s1. }
  assert (forall s', (forall x, recvd s x -> recvd s' x) -> recvd s' id -> pending_ack s' = pending_ack s1 -> Forall (recvd s') (pending_ack s')) as Hpp.
  { intros s' Hm Hr ->. apply list.Forall_forall. intros x Hx. apply Fp in Hx as [->|Hx]; [done|].
    rewrite list.Forall_forall in Hpend. auto. }
  rewrite Fi. destruct (id <? in_counter s) eqn:El; bool2prop.
  - assert (recvd s1 id) as Hr by (apply Fr; split; [done|lia]). rewrite app_nil_r.
    split_and!; [split; [done|]; apply Hpp; [intros x; apply Fr|done|done]|intros x; apply Fr|done|done|done|exact Fp|by exists []].
  - pose proof (reorder_spec log s1 got id p HT1 Hlog ltac:(lia) Hl) as D. destruct (reorder s1 id p) as [s' tls].
    destruct D as (D1 & D2 & D3 & D4 & D5 & D6).
    assert (forall x, recvd s x -> recvd s' x) as Hm by (intros x Hx; by apply D3, Fr).
    split_and!; [split; [done|by apply Hpp]|done|done| |congruence|by rewrite D6|by eexists].
    unfold same_out in *. intuition congruence.
Qed.

(** Receiving a genuine datagram: its acknowledgements count, and its packet
    is taken in when it lies within the window. *)
Lemma key_recv_spec log s got p acks :
  receives s got log -> log_ok log -> genuine log (peer_id s) (local_id s) (rel_key s) p ->
  let '(s', res) := key_recv s (received p acks) in
  receives s' (got ++ match res with inl t => t | inr _ => [] end) log /\
  (forall x, recvd s x -> recvd s' x) /\ same_out s s' /\ unacked s' = remove_acked (unacked s) acks /\
  (forall x, x ∈ pending_ack s -> x ∈ pending_ack s') /\
  match pid p with
  | None => res = inl []
  | Some id => id < in_counter s + TLS_RELIABLE_N_REC_BUFFERS -> recvd s' id /\ id ∈ pending_ack s' /\ (exists t, res = inl t)
  end.
Proof.
  intros HR [Hlen Hlog] [Hok Hkey Hsid Hrid Hgl]. unfold key_recv. cbn [received key_id]. rewrite Hkey, Z.eqb_refl. cbn [negb].
  unfold recv_packet. cbn [received acked_pids remote_id opcode pid payload session_id].
  replace (negb (bool_decide (acks = [])) && _) with false by (destruct acks; [done|]; rewrite bool_decide_false, bool_decide_true by done; done).
  set (s1 := with_unacked s (remove_acked (unacked s) acks)).
  assert (receives s1 got log) as HR1 by (destruct HR as [[? ? ?] ?]; done).
  assert (pid p = None \/ opcode p <> Opcode.ACK_V1) as Hne by (pose proof (co_pid p Hok); destruct (pid p); [tauto|auto]).
  destruct (pid p) as [id|] eqn:Ep.
  - destruct Hne as [|Hne]; [done|]. replace (opcode p =? Opcode.ACK_V1) with false by lia. cbn [negb andb].
    rewrite (bool_decide_false (Some id = None)) by done. destruct Hgl as [H0 Hl].
    destruct (Hlog _ _ _ Hl) as (Hop & _ & Hreset & Hpl). pose proof (zlookup_lt log id _ H0 Hl) as Hlt.
    replace (is_hard_reset (opcode p) && negb (bool_decide (Some id = Some 0))) with false.
    2:{ destruct (is_hard_reset (opcode p)); [|done]. rewrite bool_decide_true; [done|]. f_equal. specialize (Hreset eq_refl). lia. }
    assert (u32 (in_counter s1 + TLS_RELIABLE_N_REC_BUFFERS) = in_counter s + TLS_RELIABLE_N_REC_BUFFERS) as ->.
    { cbn. apply Z.mod_small. destruct HR as [[Hin _ _] _]. change TLS_RELIABLE_N_REC_BUFFERS with 12 in *. lia. }
    destruct (_ <=? id) eqn:Ew; bool2prop.
    { rewrite app_nil_r. split_and!; [done|done|done|done|done|lia]. }
    replace (zlen (payload p) >? MAX_CONTROL_PAYLOAD) with false.
    2:{ change CONTROL_CHANNEL_MTU with 1164 in Hpl. change MAX_CONTROL_PAYLOAD with 1600. lia. }
    pose proof (take_in_spec log s1 got id (received p acks) HR1 (conj Hlen Hlog) H0 (eq_sym Hsid) Hl) as D.
    cbn [received opcode session_id] in D. cbv zeta in D.
    match goal with |- let '(s', res) := ?e in _ => destruct e as [s' res] end.
    destruct D as (D1 & D2 & D3 & D4 & D5 & D6 & D7). split_and!; [done|done|done|done| |].
    + intros x Hx. apply D6. by right.
    + intros _. split_and!; [done|apply D6; by left|done].
  - pose proof (co_pid p Hok) as Ha. rewrite Ep in Ha. rewrite Ha, Z.eqb_refl. cbn [negb andb]. rewrite Hgl.
    change (is_hard_reset Opcode.ACK_V1) with false. change (zlen [] >? MAX_CONTROL_PAYLOAD) with false.
    cbn [andb]. by rewrite app_nil_r.
Qed.

(** *** Sending *)

Definition ids_ok (s : Reliable) : Prop := zlen (local_id s) = 8 /\ zlen (peer_id s) = 8 /\ 0 <= rel_key s < 8.

(** The receiving half of a state, and who it is. *)
Definition same_in (s s' : Reliable) : Prop :=
  local_id s' = local_id s /\ peer_id s' = peer_id s /\ rel_key s' = rel_key s /\
  in_counter s' = in_counter s /\ in_buf s' = in_buf s.

Lemma same_in_refl s : same_in s s.
Proof. done. Qed.

Lemma same_in_trans s s' s'' : same_in s s' -> same_in s' s'' -> same_in s s''.
Proof. unfold same_in. intuition congruence. Qed.

Lemma same_in_recvd s s' x : same_in s s' -> recvd s' x <-> recvd s x.
Proof. unfold same_in, recvd. intros (_ & _ & _ & -> & ->). done. Qed.

Lemma same_in_takes s s' got log : same_in s s' -> takes s got log -> takes s' got log.
Proof. intros (_ & _ & _ & Ei & Eb) [H1 H2 H3]. split; by rewrite Ei, ?Eb. Qed.

Lemma genuine_mono log ext sid rid key p : genuine log sid rid key p -> genuine (log ++ ext) sid rid key p.
Proof.
  intros [H1 H2 H3 H4 H5]. split; [done..|]. destruct (pid p); [|done]. destruct H5 as [H5 H6]. split; [done|]. by apply lookup_app_l_Some.
Qed.

Lemma min_key_spec m :
  match min_key m with
  | None => m = ∅
  | Some k => is_Some (m !! k) /\ forall k', is_Some (m !! k') -> k <= k'
  end.
Proof.
  assert (forall l : list Z, match foldr (fun k acc => Some (match acc with Some x => Z.min k x | None => k end)) None l with
    | None => l = [] | Some k => k ∈ l /\ forall k', k' ∈ l -> k <= k' end) as K.
  { induction l as [|x l IH]; [done|]. cbn [foldr]. destruct (foldr _ None l) as [y|].
    - destruct IH as [H1 H2]. split; [destruct (Z.min_spec x y) as [[_ ->]|[_ ->]]; set_solver|].
      intros k' [->|Hk]%elem_of_cons; [lia|]. specialize (H2 k' Hk). lia.
    - subst. split; [set_solver|]. intros k' Hk. apply list_elem_of_singleton in Hk. lia. }
  assert (forall k, k ∈ (map_to_list m).*1 <-> is_Some (m !! k)) as Hin.
  { intros k. rewrite list_elem_of_fmap. split.
    - intros ([k' u] & -> & Hu). apply elem_of_map_to_list in Hu. by exists u.
    - intros [u Hu]. exists (k, u). split; [done|]. by apply elem_of_map_to_list. }
  specialize (K (map_to_list m).*1). unfold min_key. destruct (foldr _ None _) as [k|].
  - destruct K as [H1 H2]. split; [by apply Hin|]. intros k' Hk. by apply H2, Hin.
  - apply fmap_nil_inv in K. by apply map_to_list_empty_iff.
Qed.

Lemma can_send_window s q log : sends s q log ->
  can_send s = true -> forall id, is_Some (unacked s !! id) -> zlen log < id + TLS_RELIABLE_N_SEND_BUFFERS.
Proof.
  intros HS Hc id Hid. unfold can_send in Hc. pose proof (min_key_spec (unacked s)) as Hm. rewrite (sd_out _ _ _ HS) in Hc.
  destruct (min_key (unacked s)) as [k|]; [|rewrite Hm, lookup_empty in Hid; by destruct Hid]. destruct Hm as [_ Hm]. specialize (Hm id Hid). bool2prop. lia.
Qed.

Lemma track_spec s q log op pl h' now :
  sends s q log -> ids_ok s -> (forall id, is_Some (unacked s !! id) -> zlen log < id + TLS_RELIABLE_N_SEND_BUFFERS) ->
  0 <= op < 32 -> op <> Opcode.ACK_V1 -> (is_hard_reset op = true -> log = []) -> zlen pl <= CONTROL_CHANNEL_MTU ->
  zlen log + 1 + TLS_RELIABLE_N_REC_BUFFERS < 2 ^ 32 ->
  held s = (if op =? Opcode.CONTROL_V1 then pl else []) ++ h' ->
  let '(s', p) := track (with_held s h') (mkControl op (rel_key s) None (local_id s) (peer_id s) pl []) now in
  sends s' q (log ++ [(op, pl)]) /\ genuine (log ++ [(op, pl)]) (local_id s) (peer_id s) (rel_key s) p /\
  unacked s' = <[zlen log := mkUnacked p now 1]> (unacked s) /\ same_in s s' /\ pending_ack s' = pending_ack s /\ held s' = h'.
Proof.
  intros [Ho [Hlen Hl] Hu Hw Hq Hh] (I1 & I2 & I3) Hwin Hop Hna Hhr Hpl Hroom Hheld. unfold track. cbn [out_counter with_held set_pid].
  rewrite Ho. pose proof (zlen_nonneg log). change TLS_RELIABLE_N_REC_BUFFERS with 12 in *.
  assert (zlen (log ++ [(op, pl)]) = zlen log + 1) as El by (by rewrite zlen_app).
  assert (genuine (log ++ [(op, pl)]) (local_id s) (peer_id s) (rel_key s) (set_pid (mkControl op (rel_key s) None (local_id s) (peer_id s) pl []) (zlen log))) as Hg.
  { split; cbn; [|done..|]; [split; cbn; try done; split; [done|unfold u32_ok; lia]|]. split; [lia|].
    rewrite lookup_app_r by (unfold zlen; lia). unfold zlen. by rewrite Nat2Z.id, Nat.sub_diag. }
  split_and!; [|done..].
  split; cbn.
  - rewrite El. unfold u32. apply Z.mod_small. lia.
  - split; [change TLS_RELIABLE_N_REC_BUFFERS with 12; lia|]. intros i op' pl' E. apply lookup_app_Some in E as [E|[Hi E]]; [by apply (Hl i op' pl')|].
    apply list_lookup_singleton_Some in E as [Hz [= -> ->]]. split_and!; [lia..|done| |done]. intros Hr. specialize (Hhr Hr). subst log. cbn in *. lia.
  - intros id u E. apply lookup_insert_Some in E as [[<- <-]|[_ E]]; [done|]. destruct (Hu id u E) as [H1 H2]. split; [done|]. by apply genuine_mono.
  - intros id Hid. rewrite El. apply lookup_insert_is_Some in Hid as [<-|[_ Hid]]; [change TLS_RELIABLE_N_SEND_BUFFERS with 6; lia|]. specialize (Hwin id Hid). lia.
  - rewrite Hq, Hheld, tls_of_app. unfold tls_of at 3. cbn [fmap list_fmap fst snd mjoin list_join]. by rewrite app_nil_r, <- app_assoc.
  - rewrite Hheld, zlen_app in Hh. pose proof (zlen_nonneg (if op =? Opcode.CONTROL_V1 then pl else [])). lia.
Qed.

(** One turn of the flush. *)
Lemma flush_turn s q log now :
  sends s q log -> ids_ok s -> zlen log + zlen (held s) + TLS_RELIABLE_N_REC_BUFFERS < 2 ^ 32 ->
  held s <> [] -> can_send s = true ->
  let n := Z.min (zlen (held s)) CONTROL_CHANNEL_MTU in
  let '(s1, p) := build_control (with_held s (zdrop n (held s))) (ztake n (held s)) now in
  let log1 := log ++ [(Opcode.CONTROL_V1, ztake n (held s))] in
  sends s1 q log1 /\ genuine log1 (local_id s) (peer_id s) (rel_key s) p /\
  unacked s1 = <[zlen log := mkUnacked p now 1]> (unacked s) /\ same_in s s1 /\ pending_ack s1 = pending_ack s /\
  held s1 = zdrop n (held s).
Proof.
  intros HS HI Hroom Hne Hc. cbv zeta. unfold build_control. cbn [with_held rel_key local_id peer_id].
  set (n := Z.min (zlen (held s)) CONTROL_CHANNEL_MTU). change CONTROL_CHANNEL_MTU with 1164 in n.
  assert (0 < zlen (held s)). { destruct (held s); [done|]. rewrite zlen_cons. pose proof (zlen_nonneg l). lia. }
  refine (track_spec s q log Opcode.CONTROL_V1 (ztake n (held s)) (zdrop n (held s)) now HS HI (can_send_window s q log HS Hc) _ _ _ _ _ _); try done.
  - change CONTROL_CHANNEL_MTU with 1164. rewrite zlen_ztake. lia.
  - lia.
  - cbn [Z.eqb]. by rewrite Z.eqb_refl, ztake_zdrop.
Qed.

Lemma flush_loop_spec fuel s q log now acc :
  sends s q log -> ids_ok s -> zlen log + zlen (held s) + TLS_RELIABLE_N_REC_BUFFERS < 2 ^ 32 ->
  let '(s', pkts) := flush_loop fuel s now acc in
  exists ext new, pkts = acc ++ new /\ sends s' q (log ++ ext) /\
    Forall (genuine (log ++ ext) (local_id s) (peer_id s) (rel_key s)) new /\ same_in s s' /\ pending_ack s' = pending_ack s /\
    (forall id, is_Some (unacked s' !! id) <-> is_Some (unacked s !! id) \/ zlen log <= id < zlen (log ++ ext)) /\
    (forall id u, unacked s' !! id = Some u -> unacked s !! id = Some u \/ last_sent u = now id) /\
    zlen ext + zlen (held s') <= zlen (held s) /\
    ((length (held s) < fuel)%nat -> held s' = [] \/ can_send s' = false).
Proof.
  revert s log acc. induction fuel as [|fuel IH]; intros s log acc HS HI Hroom; cbn [flush_loop].
  { exists [], []. rewrite !app_nil_r. split_and!; [done|done|done|done|done| |auto|by rewrite zlen_nil|lia]. intros id. intuition lia. }
  destruct (negb (bool_decide (held s = [])) && can_send s) eqn:E.
  - apply andb_true_iff in E as [E1 E2]. apply negb_true_iff, bool_decide_eq_false in E1.
    pose proof (flush_turn s q log (now (out_counter s)) HS HI Hroom E1 E2) as T. cbv zeta in T. set (n := Z.min _ _) in *.
    destruct (build_control _ _ _) as [s1 p]. destruct T as (T1 & T2 & T3 & T4 & T5 & T6).
    set (e := (Opcode.CONTROL_V1, ztake n (held s))) in *.
    assert (1 <= n /\ zlen (zdrop n (held s)) = zlen (held s) - n) as [Hn Hd].
    { unfold n. change CONTROL_CHANNEL_MTU with 1164. assert (0 < zlen (held s)) by (destruct (held s); [done|]; rewrite zlen_cons; pose proof (zlen_nonneg l); lia). split; [lia|]. zl. }
    assert (ids_ok s1) as HI1. { destruct T4 as (E1' & E2' & E3' & _). unfold ids_ok. by rewrite E1', E2', E3'. }
    specialize (IH s1 (log ++ [e]) (acc ++ [p]) T1 HI1 ltac:(rewrite zlen_app, T6, Hd; change (zlen [e]) with 1; lia)).
    destruct (flush_loop fuel s1 now (acc ++ [p])) as [s' pkts].
    destruct IH as (ext & new & -> & H1 & H2 & H3 & H4 & H5 & Hck & H6 & H7). exists (e :: ext), (p :: new).
    rewrite <- app_assoc in *. cbn [app] in *. destruct T4 as (G1 & G2 & G3 & G4). rewrite G1, G2, G3 in H2.
    assert (zlen (log ++ [e]) = zlen log + 1) as El by (by rewrite zlen_app).
    assert (zlen (log ++ e :: ext) = zlen log + 1 + zlen ext) as El2 by (rewrite zlen_app, zlen_cons; lia). pose proof (zlen_nonneg ext).
    split_and!; [done|done| |eapply same_in_trans; [|done]; done|congruence| | | |].
    + constructor; [|done]. replace (log ++ e :: ext) with ((log ++ [e]) ++ ext) by (by rewrite <- app_assoc). by apply genuine_mono.
    + intros id. rewrite H5, T3, lookup_insert_is_Some, El, El2. destruct (decide (zlen log = id)) as [->|]; intuition lia.
    + intros id u Eu. destruct (Hck id u Eu) as [E0|]; [|by right]. rewrite T3 in E0. apply lookup_insert_Some in E0 as [[<- <-]|[_ E0]]; [|by left].
      right. cbn. by rewrite (sd_out _ _ _ HS).
    + rewrite zlen_cons. rewrite T6, Hd in H6. lia.
    + intros Hf. apply H7. rewrite T6. unfold zlen in *. lia.
  - exists [], []. rewrite !app_nil_r. split_and!; [done|done|done|done|done|intros id; intuition lia|auto|by rewrite zlen_nil|].
    intros _. destruct (bool_decide_reflect (held s = [])); [by left|]. cbn in E. by right.
Qed.

(** A flush into an open window moves at least a packet's worth. *)
Lemma flush_progress s q log now :
  sends s q log -> ids_ok s -> zlen log + zlen (held s) + TLS_RELIABLE_N_REC_BUFFERS < 2 ^ 32 -> unacked s = ∅ ->
  zlen (held (flush_tls s now).1) <= Z.max 0 (zlen (held s) - CONTROL_CHANNEL_MTU).
Proof.
  intros HS HI Hroom Hu. unfold flush_tls. cbn [flush_loop].
  assert (can_send s = true) as Hc. { unfold can_send. by rewrite Hu. }
  rewrite Hc. destruct (bool_decide_reflect (held s = [])) as [E|E]; cbn [negb andb]; [cbn [fst]; rewrite E, (@zlen_nil Z); lia|].
  pose proof (flush_turn s q log (now (out_counter s)) HS HI Hroom E Hc) as T. cbv zeta in T. set (n := Z.min _ _) in *.
  destruct (build_control _ _ _) as [s1 p]. destruct T as (T1 & T2 & T3 & T4 & T5 & T6).
  assert (zlen (held s1) <= Z.max 0 (zlen (held s) - CONTROL_CHANNEL_MTU)) as Hd.
  { rewrite T6. unfold n. change CONTROL_CHANNEL_MTU with 1164. zl. }
  assert (1 <= n). { unfold n. change CONTROL_CHANNEL_MTU with 1164. destruct (held s); [done|]; rewrite zlen_cons; pose proof (zlen_nonneg l); lia. }
  assert (ids_ok s1) as HI1. { destruct T4 as (E1' & E2' & E3' & _). unfold ids_ok. by rewrite E1', E2', E3'. }
  pose proof (flush_loop_spec (length (held s)) s1 q _ now ([] ++ [p]) T1 HI1) as F. rewrite zlen_app, T6 in F.
  destruct (flush_loop _ s1 now _) as [s' pkts]. cbn [fst]. destruct F as (ext & new & _ & _ & _ & _ & _ & _ & _ & F & _).
  - match goal with |- context [zlen [?e]] => change (zlen [e]) with 1 end. rewrite zlen_zdrop. pose proof (zlen_nonneg (held s)). lia.
  - rewrite <- T6 in F. pose proof (zlen_nonneg ext). lia.
Qed.

(** *** What a pump puts on the wire *)

(** Packets with the acknowledgements attached to each. *)
Abbreviation shipment := (list (ControlPacket * list Z)).
Definition wire_of (dgs : shipment) : list (list Z) := (fun d => to_bytes (fst d) (snd d)) <$> dgs.

Lemma take_pending_spec s :
  let '(s', acks) := take_pending_acks s in
  s' = with_pending s (pending_ack s') /\ pending_ack s = acks ++ pending_ack s' /\ zlen acks <= CONTROL_SEND_ACK_MAX /\
  (pending_ack s <> [] -> (length (pending_ack s') < length (pending_ack s))%nat).
Proof.
  unfold take_pending_acks. cbn [pending_ack with_pending]. change CONTROL_SEND_ACK_MAX with 4. pose proof (zlen_nonneg (pending_ack s)).
  rewrite ztake_zdrop. split_and!; [done|done|zl|]. intros Hne. destruct (pending_ack s) as [|x l]; [done|].
  unfold zdrop. rewrite length_drop. rewrite zlen_cons in *. cbn [length]. pose proof (zlen_nonneg l). lia.
Qed.

Lemma send_packets_spec pkts s acc :
  let '(s', out) := send_packets s pkts acc in
  exists dgs, out = acc ++ wire_of dgs /\ dgs.*1 = pkts /\ Forall (fun d => zlen (snd d) <= CONTROL_SEND_ACK_MAX) dgs /\
    pending_ack s = mjoin dgs.*2 ++ pending_ack s' /\ s' = with_pending s (pending_ack s').
Proof.
  revert s acc. induction pkts as [|p pkts IH]; intros s acc; cbn [send_packets].
  { exists []. cbn. rewrite app_nil_r. split_and!; [done|done|constructor|done|by destruct s]. }
  pose proof (take_pending_spec s) as T. destruct (take_pending_acks s) as [s1 acks]. destruct T as (T1 & T2 & T3 & _).
  specialize (IH s1 (acc ++ [to_bytes p acks])). destruct (send_packets s1 pkts _) as [s' out].
  destruct IH as (dgs & -> & H1 & H2 & H3 & H4). exists ((p, acks) :: dgs). split_and!.
  - by rewrite <- app_assoc.
  - cbn. by rewrite H1.
  - by constructor.
  - rewrite T2, H3. cbn. by rewrite <- app_assoc.
  - rewrite H4, T1. done.
Qed.

Lemma send_acks_spec fuel s acc : (length (pending_ack s) <= fuel)%nat ->
  let '(s', out) := send_acks fuel s acc in
  exists dgs, out = acc ++ wire_of dgs /\ Forall (fun d => fst d = build_ack s /\ zlen (snd d) <= CONTROL_SEND_ACK_MAX) dgs /\
    pending_ack s = mjoin dgs.*2 /\ s' = with_pending s [].
Proof.
  revert s acc. induction fuel as [|fuel IH]; intros s acc Hf; cbn [send_acks].
  { destruct s as [? ? ? ? ? ? ? ? pend]. cbn in *. destruct pend; [|cbn in Hf; lia]. exists []. cbn. by rewrite app_nil_r. }
  unfold has_pending_acks. destruct (pending_ack s) eqn:E.
  { exists []. cbn. rewrite app_nil_r. split_and!; [done|constructor|done|]. destruct s. cbn in *. by subst. }
  rewrite <- E in *. pose proof (take_pending_spec s) as T. destruct (take_pending_acks s) as [s1 acks]. destruct T as (T1 & T2 & T3 & T4).
  specialize (IH s1 (acc ++ [to_bytes (build_ack s1) acks]) ltac:(specialize (T4 ltac:(by rewrite E)); lia)).
  assert (build_ack s1 = build_ack s) as Eb by (rewrite T1; done). destruct (send_acks fuel s1 _) as [s' out].
  destruct IH as (dgs & -> & H1 & H2 & H3). exists ((build_ack s, acks) :: dgs). rewrite Eb in *. split_and!.
  - by rewrite <- app_assoc.
  - constructor; done.
  - rewrite T2, H2. done.
  - rewrite H3, T1. done.
Qed.

Lemma genuine_ack log s : ids_ok s -> genuine log (local_id s) (peer_id s) (rel_key s) (build_ack s).
Proof. intros (H1 & H2 & H3). by split. Qed.

(** What [pump] sends: the packets of [ext], newly added to the stream, and
    every acknowledgement owed. *)
Record pumped (now : Z -> Z) (s s' : Reliable) (tls q got : list Z) (log rlog ext : stream) (dgs : shipment) : Prop := {
  pm_sends : sends s' (q ++ tls) (log ++ ext);
  pm_receives : receives s' got rlog;
  pm_same : same_in s s';
  pm_genuine : Forall (fun d => genuine (log ++ ext) (local_id s) (peer_id s) (rel_key s) (fst d) /\
    zlen (snd d) <= CONTROL_SEND_ACK_MAX /\ Forall (fun a => u32_ok a /\ recvd s a) (snd d)) dgs;
  pm_unacked : forall id, is_Some (unacked s' !! id) <-> is_Some (unacked s !! id) \/ zlen log <= id < zlen (log ++ ext);
  pm_clock : forall id u, unacked s' !! id = Some u -> unacked s !! id = Some u \/ last_sent u = now id;
  pm_pending : pending_ack s' = [];
  pm_acks : forall a, a ∈ pending_ack s -> exists d, d ∈ dgs /\ a ∈ snd d;
  pm_held : zlen ext + zlen (held s') <= zlen (held s) + zlen tls;
  pm_progress : reset_acked s = true -> unacked s = ∅ ->
    zlen (held s') <= Z.max 0 (zlen (held s) + zlen tls - CONTROL_CHANNEL_MTU) }.

Lemma queue_sends s q log tls : sends s q log -> zlen (held s) + zlen tls <= MAX_HELD_TLS -> sends (queue_tls s tls) (q ++ tls) log.
Proof.
  intros [H1 H2 H3 H4 H5 H6] Hm. split; cbn; [done..| |].
  - by rewrite H5, app_assoc.
  - by rewrite zlen_app.
Qed.

Lemma recvd_u32 s got log a : takes s got log -> log_ok log -> recvd s a -> u32_ok a.
Proof.
  intros [H1 H2 _] [Hl _] [H0 Ha]. change TLS_RELIABLE_N_REC_BUFFERS with 12 in Hl. unfold u32_ok. split; [done|].
  destruct Ha as [|[p E]]; [lia|]. destruct (H2 a p E). lia.
Qed.

(** The flush of a pump, when the peer has acknowledged the reset. *)
Lemma pump_flush s q log now :
  sends s q log -> ids_ok s -> zlen log + zlen (held s) + TLS_RELIABLE_N_REC_BUFFERS < 2 ^ 32 ->
  exists s2 ext new, (if reset_acked s then flush_tls s now else (s, [])) = (s2, new) /\ sends s2 q (log ++ ext) /\
    Forall (genuine (log ++ ext) (local_id s) (peer_id s) (rel_key s)) new /\ same_in s s2 /\ pending_ack s2 = pending_ack s /\
    (forall id, is_Some (unacked s2 !! id) <-> is_Some (unacked s !! id) \/ zlen log <= id < zlen (log ++ ext)) /\
    (forall id u, unacked s2 !! id = Some u -> unacked s !! id = Some u \/ last_sent u = now id) /\
    zlen ext + zlen (held s2) <= zlen (held s) /\
    (reset_acked s = true -> unacked s = ∅ -> zlen (held s2) <= Z.max 0 (zlen (held s) - CONTROL_CHANNEL_MTU)).
Proof.
  intros HS HI Hroom. destruct (reset_acked s) eqn:Er.
  - pose proof (flush_loop_spec (S (length (held s))) s q log now [] HS HI Hroom) as F. fold (flush_tls s now) in F.
    pose proof (flush_progress s q log now HS HI Hroom) as G.
    destruct (flush_tls s now) as [s2 pkts]. destruct F as (ext & new & -> & F1 & F2 & F3 & F4 & F5 & F6 & F7 & _). exists s2, ext, new.
    split_and!; auto.
  - exists s, [], []. rewrite app_nil_r, zlen_nil. split_and!; [done|done|constructor|done|done|intros id; intuition lia|auto|lia|done].
Qed.

Lemma pump_spec s tls now s' out q got log rlog :
  sends s q log -> receives s got rlog -> ids_ok s -> log_ok rlog ->
  zlen log + zlen (held s) + zlen tls + TLS_RELIABLE_N_REC_BUFFERS < 2 ^ 32 ->
  pump s tls now = Some (s', out) -> exists ext dgs, out = wire_of dgs /\ pumped now s s' tls q got log rlog ext dgs.
Proof.
  intros HS [HT HP] HI Hrlog Hroom E. unfold pump in E. destruct (held_len (queue_tls s tls) >? MAX_HELD_TLS) eqn:Eh; [done|].
  assert (zlen (held s) + zlen tls <= MAX_HELD_TLS) as Hh.
  { unfold held_len in Eh. cbn [queue_tls with_held held] in Eh. rewrite zlen_app in Eh. bool2prop. lia. }
  pose proof (queue_sends s q log tls HS Hh) as HS1. set (s1 := queue_tls s tls) in *.
  assert (zlen (held s1) = zlen (held s) + zlen tls) as Hh1 by (cbn; by rewrite zlen_app).
  destruct (pump_flush s1 (q ++ tls) log now HS1 HI ltac:(lia)) as (s2 & ext & new & Ef & F1 & F2 & F3 & F4 & F5 & Fc & F6 & F7).
  assert (exists dg1 s3, (if reset_acked s1 then let '(s, pkts) := flush_tls s1 now in send_packets s pkts [] else (s1, [])) = (s3, wire_of dg1) /\
    dg1.*1 = new /\ Forall (fun d => zlen (snd d) <= CONTROL_SEND_ACK_MAX) dg1 /\ pending_ack s = mjoin dg1.*2 ++ pending_ack s3 /\
    s3 = with_pending s2 (pending_ack s3)) as (dg1 & s3 & Es & G1 & G2 & G3 & G4).
  { destruct (reset_acked s1).
    - rewrite Ef. pose proof (send_packets_spec new s2 []) as G. destruct (send_packets s2 new []) as [s3 o]. destruct G as (dgs & -> & G1 & G2 & G3 & G4).
      exists dgs, s3. rewrite F4 in G3. done.
    - injection Ef as <- <-. exists [], s1. split_and!; [done|done|constructor|done|by destruct s1]. }
  rewrite Es in E. pose proof (send_acks_spec (length (pending_ack s3)) s3 (wire_of dg1) ltac:(lia)) as A.
  injection E as E. rewrite E in A. destruct A as (dg2 & -> & A1 & A2 & ->). exists ext, (dg1 ++ dg2).
  split; [unfold wire_of; by rewrite fmap_app|].
  assert (same_in s s2) as Hsame by (eapply same_in_trans; [|exact F3]; done).
  assert (pending_ack s = mjoin (dg1 ++ dg2).*2) as Hpend by (by rewrite G3, A2, fmap_app, join_app).
  rewrite list.Forall_forall in HP. rewrite list.Forall_forall in F2. rewrite list.Forall_forall in A1. rewrite list.Forall_forall in G2. assert (build_ack s3 = build_ack s) as Eb.
  { rewrite G4. destruct Hsame as (B1 & B2 & B3 & _). unfold build_ack. cbn. by rewrite B1, B2, B3. }
  rewrite G4. split; cbn [with_pending held unacked pending_ack].
  - destruct F1 as [S1 S2 S3 S4 S5 S6]. by split.
  - split; [|constructor]. eapply same_in_takes; [exact Hsame|exact HT].
  - exact Hsame.
  - apply list.Forall_forall. intros d Hd. assert (Forall (fun a => u32_ok a /\ recvd s a) (snd d)) as Ha.
    { apply list.Forall_forall. intros a Ha. assert (recvd s a) as Hr.
      { apply HP. rewrite Hpend. apply list_elem_of_join. exists (snd d). split; [done|]. apply list_elem_of_fmap. by exists d. }
      split; [by eapply recvd_u32|done]. }
    apply elem_of_app in Hd as [Hd|Hd]; (split; [|split; [|done]]).
    + apply F2. rewrite <- G1. apply list_elem_of_fmap. by exists d.
    + by apply G2.
    + destruct (A1 d Hd) as [-> _]. rewrite Eb. by apply genuine_ack.
    + by apply A1.
  - exact F5.
  - exact Fc.
  - done.
  - intros a Ha. rewrite Hpend in Ha. apply list_elem_of_join in Ha as (l & Hl & Hin). apply list_elem_of_fmap in Hin as (d & -> & Hd). by exists d.
  - lia.
  - intros Hr Hu. rewrite <- Hh1. by apply F7.
Qed.

(** *** Retransmission *)

Lemma backoff_eq n : 1 <= n -> backoff n = if n <=? 3 then RETRANSMIT_INITIAL * 2 ^ (n - 1) else RETRANSMIT_MAX_INTERVAL.
Proof.
  intros Hn. unfold backoff, sat_sub. rewrite Z.max_r by lia. case_if.
  - assert (n = 1 \/ n = 2 \/ n = 3) as [-> | [-> | ->]] by lia; reflexivity.
  - set (sh := Z.min (n - 1) 16). assert (3 <= sh <= 16) as Hs by lia. rewrite Z.shiftl_mul_pow2 by lia.
    assert (2 ^ 3 <= 2 ^ sh <= 2 ^ 16) as Hp by (split; apply Z.pow_le_mono_r; lia).
    unfold checked_mul. change RETRANSMIT_INITIAL with 1000000000. change RETRANSMIT_MAX_INTERVAL with 8000000000. change (2 ^ 3) with 8 in Hp.
    case_if; cbn [default from_option Datatypes.id]; lia.
Qed.

Lemma backoff_bound n : backoff n <= RETRANSMIT_MAX_INTERVAL.
Proof. unfold backoff. lia. Qed.

Lemma due_spec now m id : id ∈ due now m <-> exists u, m !! id = Some u /\ is_due now u = true.
Proof.
  unfold due. rewrite merge_sort_Permutation, list_elem_of_fmap. split.
  - intros ([k u] & -> & Hu). apply list_elem_of_filter in Hu as [Hd Hu]. apply elem_of_map_to_list in Hu. by exists u.
  - intros (u & Hu & Hd). exists (id, u). split; [done|]. apply list_elem_of_filter. split; [done|]. by apply elem_of_map_to_list.
Qed.

Lemma due_nodup now m : NoDup (due now m).
Proof.
  unfold due. rewrite merge_sort_Permutation. apply NoDup_fmap_fst; [|apply list.NoDup_filter, NoDup_map_to_list].
  intros k u u' Hu Hu'. apply list_elem_of_filter in Hu as [_ Hu], Hu' as [_ Hu'].
  apply elem_of_map_to_list in Hu, Hu'. congruence.
Qed.

(** The packet [id] would be resent as. *)
Definition resent (m : gmap Z Unacked) (id : Z) : list Z :=
  match m !! id with Some u => to_bytes (u_pkt u) [] | None => [] end.

Definition again (now : Z) (u : Unacked) : Unacked := mkUnacked (u_pkt u) now (Z.min (attempts u + 1) (2 ^ 32 - 1)).

Lemma resend_loop_spec now ids m out :
  NoDup ids -> (forall id, id ∈ ids -> is_Some (m !! id)) ->
  exists m', resend_loop now ids m out = Some (m', out ++ (resent m <$> ids)) /\
    forall id, m' !! id = if bool_decide (id ∈ ids) then again now <$> m !! id else m !! id.
Proof.
  revert m out. induction ids as [|x ids IH]; intros m out Hnd Hin; cbn [resend_loop].
  { exists m. by rewrite app_nil_r. }
  apply list.NoDup_cons in Hnd as [Hx Hnd]. destruct (Hin x ltac:(left)) as [u Hu]. rewrite Hu.
  destruct (IH (<[x := again now u]> m) (out ++ [to_bytes (u_pkt u) []]) Hnd) as (m' & E & Hm).
  { intros id Hid. apply lookup_insert_is_Some'. right. apply Hin. by right. }
  exists m'. split.
  - unfold again in E. rewrite E, <- app_assoc. do 3 f_equal. cbn. f_equal; [unfold resent; by rewrite Hu|].
    apply list_fmap_ext. intros i id Hid. unfold resent. rewrite lookup_insert_ne; [done|]. intros ->. apply Hx. by eapply list_elem_of_lookup_2.
  - intros id. rewrite Hm. destruct (decide (id = x)) as [->|Hne].
    + rewrite bool_decide_false by done. rewrite bool_decide_true by (left). by rewrite lookup_insert_eq, Hu.
    + rewrite lookup_insert_ne by done. destruct (decide (id ∈ ids)).
      * rewrite !bool_decide_true by set_solver. done.
      * rewrite !bool_decide_false by set_solver. done.
Qed.

Lemma tick_spec s now :
  exists m, tick s now = Some (with_unacked s m, resent (unacked s) <$> due now (unacked s)) /\
    forall id, m !! id = (fun u => if is_due now u then again now u else u) <$> unacked s !! id.
Proof.
  destruct (resend_loop_spec now (due now (unacked s)) (unacked s) []) as (m & E & Hm).
  { apply due_nodup. }
  { intros id Hid. apply due_spec in Hid as (u & Hu & _). by exists u. }
  exists m. unfold tick. rewrite E. split; [done|]. intros id. rewrite Hm.
  destruct (unacked s !! id) as [u|] eqn:Eu; cbn [fmap option_fmap option_map].
  - destruct (is_due now u) eqn:Ed.
    + rewrite bool_decide_true; [done|]. apply due_spec. by exists u.
    + rewrite bool_decide_false; [done|]. intros Hin. apply due_spec in Hin as (u' & E1 & E2). congruence.
  - by case_bool_decide.
Qed.

Lemma tick_sends s q log now :
  sends s q log ->
  exists s' dgs, tick s now = Some (s', wire_of dgs) /\ sends s' q log /\ same_in s s' /\ pending_ack s' = pending_ack s /\ held s' = held s /\
    (forall id, is_Some (unacked s' !! id) <-> is_Some (unacked s !! id)) /\
    Forall (fun d => genuine log (local_id s) (peer_id s) (rel_key s) (fst d) /\ snd d = []) dgs /\
    (forall id u, unacked s !! id = Some u -> last_sent u + RETRANSMIT_MAX_INTERVAL <= now -> (u_pkt u, []) ∈ dgs).
Proof.
  intros [S1 S2 S3 S4 S5 S6]. destruct (tick_spec s now) as (m & E & Hm).
  exists (with_unacked s m), ((fun id => (match unacked s !! id with Some u => u_pkt u | None => build_ack s end, [])) <$> due now (unacked s)).
  assert (forall id, is_Some (m !! id) <-> is_Some (unacked s !! id)) as Hd by (intros id; rewrite Hm; apply fmap_is_Some).
  split_and!; [|split; cbn; try done|done|done|done|exact Hd| |].
  - rewrite E. do 2 f_equal. unfold wire_of. rewrite <- list_fmap_compose. apply list_fmap_ext. intros i id Hid.
    apply list_elem_of_lookup_2, due_spec in Hid as (u & Hu & _). unfold resent, compose. by rewrite Hu.
  - intros id u Eu. rewrite Hm in Eu. destruct (unacked s !! id) as [u0|] eqn:E0; [|done]. cbn in Eu. injection Eu as <-.
    destruct (S3 id u0 E0). by destruct (is_due now u0).
  - intros id Hid. by apply S4, Hd.
  - apply list.Forall_forall. intros d Hin. apply list_elem_of_fmap in Hin as (id & -> & Hid). apply due_spec in Hid as (u & Hu & _).
    cbn. rewrite Hu. split; [by apply (S3 id u)|done].
  - intros id u Hu Hlate. apply list_elem_of_fmap. exists id. rewrite Hu. split; [done|]. apply due_spec. exists u. split; [done|].
    unfold is_due. apply Z.leb_le. pose proof (backoff_bound (attempts u)). lia.
Qed.
