(* ===== verification/OvpnChannel.v ===== *)
(** * Two ends of the OpenVPN control channel

    Two endpoints of [OvpnReliable] joined by a network that keeps every
    datagram it was ever given and delivers any of them, at any time, any
    number of times or never: loss, duplication and reordering. *)

From S2P Require Import Prelude OvpnControl OvpnReliable.

(** An endpoint, with the TLS bytes its TLS engine has produced and been
    given. *)
Record Peer := mkPeer { rel : Reliable; queued : list Z; got : list Z }.

Record System := mkSystem { me : Peer; other : Peer; to_other : list (list Z); to_me : list (list Z) }.

Definition swap (s : System) : System := mkSystem (other s) (me s) (to_me s) (to_other s).

Inductive action :=
| Pump (tls_out : list Z) (now : Z -> Z)
| Reset (op now : Z)
| Tick (now : Z)
| Receive (d : list Z).

Definition act (s : System) (a : action) : option System :=
  match a with
  | Pump tls now =>
      '(r, out) ← pump (rel (me s)) tls now;
      Some (mkSystem (mkPeer r (queued (me s) ++ tls) (got (me s))) (other s) (to_other s ++ out) (to_me s))
  | Reset op now =>
      let '(r, p) := build_reset (rel (me s)) op now in
      let '(r, acks) := take_pending_acks r in
      Some (mkSystem (mkPeer r (queued (me s)) (got (me s))) (other s) (to_other s ++ [to_bytes p acks]) (to_me s))
  | Tick now =>
      '(r, out) ← tick (rel (me s)) now;
      Some (mkSystem (mkPeer r (queued (me s)) (got (me s))) (other s) (to_other s ++ out) (to_me s))
  | Receive d =>
      if bool_decide (d ∈ to_me s) then
        match parse d with
        | inr _ => Some s
        | inl pkt =>
            let '(r, res) := key_recv (rel (me s)) pkt in
            Some (mkSystem (mkPeer r (queued (me s)) (got (me s) ++ match res with inl t => t | inr _ => [] end))
                    (other s) (to_other s) (to_me s))
        end
      else None
  end.

(** One side's step: [true] is [me]. *)
Definition do_step (s : System) (x : bool * action) : option System :=
  if fst x then act s (snd x) else swap <$> act (swap s) (snd x).

Fixpoint run (s : System) (xs : list (bool * action)) : option System :=
  match xs with
  | [] => Some s
  | x :: xs => s ← do_step s x; run s xs
  end.

(** Resets open a stream; ids stay clear of the end of their 32 bits. *)
Definition allowed (s : System) (a : action) : Prop :=
  let r := rel (me s) in
  match a with
  | Pump tls _ => out_counter r + zlen (held r) + zlen tls + TLS_RELIABLE_N_REC_BUFFERS < 2 ^ 32
  | Reset op _ =>
      out_counter r = 0 /\
      op ∈ [Opcode.CONTROL_HARD_RESET_CLIENT_V2; Opcode.CONTROL_HARD_RESET_SERVER_V2; Opcode.CONTROL_SOFT_RESET_V1]
  | _ => True
  end.

Definition side_allowed (s : System) (x : bool * action) : Prop := allowed (if fst x then s else swap s) (snd x).

(** A fresh key on both sides; [skip] when the resets were exchanged
    statelessly. *)
Definition start (skip : bool) (key : Z) (ida idb : list Z) : System :=
  let fresh local remote := if skip then skip_reset (key_new key local remote) else key_new key local remote in
  mkSystem (mkPeer (fresh ida idb) [] []) (mkPeer (fresh idb ida) [] []) [] [].

Inductive reachable (skip : bool) (key : Z) (ida idb : list Z) : System -> Prop :=
| reach_start : reachable skip key ida idb (start skip key ida idb)
| reach_step s x s' : reachable skip key ida idb s -> side_allowed s x -> do_step s x = Some s' -> reachable skip key ida idb s'.

(** ** The invariant *)

(** One direction: the stream [log] from [a] to [b]. *)
Record half (a b : Peer) (net : list (list Z)) (log : stream) : Prop := {
  h_sends : sends (rel a) (queued a) log;
  h_receives : receives (rel b) (got b) log;
  h_acked : forall id, 0 <= id < zlen log -> unacked (rel a) !! id = None -> recvd (rel b) id;
  h_net : forall d, d ∈ net -> exists p acks, genuine_dg log (local_id (rel a)) (peer_id (rel a)) (rel_key (rel a)) (recvd (rel a)) p acks d }.

Definition paired (a b : Reliable) : Prop :=
  peer_id b = local_id a /\ local_id b = peer_id a /\ rel_key b = rel_key a /\ ids_ok a.

Definition inv (s : System) : Prop :=
  paired (rel (me s)) (rel (other s)) /\
  exists la lb, half (me s) (other s) (to_other s) la /\ half (other s) (me s) (to_me s) lb.

Lemma swap_swap s : swap (swap s) = s.
Proof. by destruct s. Qed.

Lemma paired_sym a b : paired a b -> paired b a.
Proof. unfold paired, ids_ok. intros (-> & -> & -> & H1 & H2 & H3). done. Qed.

Lemma inv_swap s : inv s -> inv (swap s).
Proof. intros [Hp (la & lb & H1 & H2)]. split; [by apply paired_sym|]. by exists lb, la. Qed.

Lemma takes_mono s got log ext : takes s got log -> takes s got (log ++ ext).
Proof.
  intros [H1 H2 H3]. pose proof (zlen_nonneg ext). split.
  - rewrite zlen_app. lia.
  - intros id p E. destruct (H2 id p E) as [Ha Hb]. rewrite zlen_app. split; [lia|]. by apply lookup_app_l_Some.
  - by rewrite ztake_app_le by lia.
Qed.

Lemma genuine_dg_mono log ext sid rid key (R R' : Z -> Prop) p acks d :
  (forall x, R x -> R' x) -> genuine_dg log sid rid key R p acks d -> genuine_dg (log ++ ext) sid rid key R' p acks d.
Proof.
  intros HR (H1 & H2 & H3 & H4). split_and!; [done|by apply genuine_mono|done|]. eapply list.Forall_impl; [exact H4|]. naive_solver.
Qed.

(** The sender's side of a direction moved on. *)
Lemma half_sender a a' b net net' log ext :
  half a b net log -> sends (rel a') (queued a') (log ++ ext) -> same_in (rel a) (rel a') ->
  (forall id, is_Some (unacked (rel a) !! id) \/ zlen log <= id < zlen (log ++ ext) -> is_Some (unacked (rel a') !! id)) ->
  (forall d, d ∈ net' -> d ∈ net \/ exists p acks, genuine_dg (log ++ ext) (local_id (rel a)) (peer_id (rel a)) (rel_key (rel a)) (recvd (rel a)) p acks d) ->
  half a' b net' (log ++ ext).
Proof.
  intros [H1 [H2 H2'] H3 H4] HS Hsame Hu Hn. split; [done|split; [by apply takes_mono|done]| |].
  - intros id Hid E. assert (~ is_Some (unacked (rel a') !! id)) as Hno by (rewrite E; apply is_Some_None). apply H3.
    + destruct (decide (id < zlen log)); [lia|]. exfalso. apply Hno, Hu. right. lia.
    + apply eq_None_not_Some. intros Hs. apply Hno, Hu. by left.
  - destruct (Hsame) as (E1 & E2 & E3 & _). rewrite E1, E2, E3. intros d Hd.
    destruct (Hn d Hd) as [Hd'|(p & acks & Hg)]; [destruct (H4 d Hd') as (p & acks & Hg)|]; exists p, acks.
    + eapply genuine_dg_mono; [|exact Hg]. intros x Hx. by apply (same_in_recvd _ _ x Hsame).
    + replace (log ++ ext) with ((log ++ ext) ++ []) by apply app_nil_r. eapply genuine_dg_mono; [|exact Hg].
      intros x Hx. by apply (same_in_recvd _ _ x Hsame).
Qed.

(** The receiver's side of a direction moved on. *)
Lemma half_receiver a b b' net log :
  half a b net log -> receives (rel b') (got b') log -> (forall x, recvd (rel b) x -> recvd (rel b') x) -> half a b' net log.
Proof. intros [H1 H2 H3 H4] HR Hm. split; [done|done| |done]. intros id Hid E. auto. Qed.

Lemma elem_of_wire d dgs : d ∈ wire_of dgs <-> exists x, x ∈ dgs /\ d = to_bytes (fst x) (snd x).
Proof. unfold wire_of. rewrite list_elem_of_fmap. naive_solver. Qed.

Lemma reset_opcode op :
  op ∈ [Opcode.CONTROL_HARD_RESET_CLIENT_V2; Opcode.CONTROL_HARD_RESET_SERVER_V2; Opcode.CONTROL_SOFT_RESET_V1] ->
  0 <= op < 32 /\ op <> Opcode.ACK_V1 /\ op <> Opcode.CONTROL_V1.
Proof.
  change Opcode.CONTROL_HARD_RESET_CLIENT_V2 with 7. change Opcode.CONTROL_HARD_RESET_SERVER_V2 with 8. change Opcode.CONTROL_SOFT_RESET_V1 with 3.
  change Opcode.ACK_V1 with 5. change Opcode.CONTROL_V1 with 4. intros [->|[->|[->|[]%elem_of_nil]%elem_of_cons]%elem_of_cons]%elem_of_cons; lia.
Qed.

(** ** Every step keeps it *)

Definition inv_at (s : System) (la lb : stream) : Prop :=
  paired (rel (me s)) (rel (other s)) /\ half (me s) (other s) (to_other s) la /\ half (other s) (me s) (to_me s) lb.

Lemma paired_same a a' b : paired a b -> local_id a' = local_id a /\ peer_id a' = peer_id a /\ rel_key a' = rel_key a -> paired a' b.
Proof. unfold paired, ids_ok. intros H (-> & -> & ->). done. Qed.

Lemma pump_step s la lb tls now r out :
  inv_at s la lb -> allowed s (Pump tls now) -> pump (rel (me s)) tls now = Some (r, out) ->
  exists ext dgs, out = wire_of dgs /\ pumped now (rel (me s)) r tls (queued (me s)) (got (me s)) la lb ext dgs /\
    inv_at (mkSystem (mkPeer r (queued (me s) ++ tls) (got (me s))) (other s) (to_other s ++ out) (to_me s)) (la ++ ext) lb.
Proof.
  intros (HP & HA & HB) Hroom E. cbn [allowed] in Hroom. rewrite (sd_out _ _ _ (h_sends _ _ _ _ HA)) in Hroom.
  destruct (pump_spec _ _ _ _ _ _ _ _ _ (h_sends _ _ _ _ HA) (h_receives _ _ _ _ HB) (proj2 (proj2 (proj2 HP)))
    (sd_log _ _ _ (h_sends _ _ _ _ HB)) Hroom E) as (ext & dgs & -> & Hpm). exists ext, dgs. split; [done|]. split; [done|].
  destruct Hpm as [M1 M2 M3 M4 M5 _ M6 M7 _ _]. split_and!; cbn.
  - eapply paired_same; [exact HP|]. destruct M3 as (? & ? & ? & _). done.
  - apply (half_sender (me s)) with (net := to_other s); [done|done|done|intros id Hid; by apply M5|].
    intros d [Hd|Hd]%elem_of_app; [by left|]. right. apply elem_of_wire in Hd as (x & Hx & ->).
    rewrite list.Forall_forall in M4. destruct (M4 x Hx) as (G1 & G2 & G3). by exists (fst x), (snd x).
  - apply (half_receiver _ (me s)); [done|done|]. intros x Hx. by apply (same_in_recvd _ _ x M3).
Qed.

Lemma tick_step s la lb now :
  inv_at s la lb ->
  exists r dgs, tick (rel (me s)) now = Some (r, wire_of dgs) /\ held r = held (rel (me s)) /\ same_in (rel (me s)) r /\
    (forall id, is_Some (unacked r !! id) <-> is_Some (unacked (rel (me s)) !! id)) /\
    Forall (fun d => genuine la (local_id (rel (me s))) (peer_id (rel (me s))) (rel_key (rel (me s))) (fst d) /\ snd d = []) dgs /\
    (forall id u, unacked (rel (me s)) !! id = Some u -> last_sent u + RETRANSMIT_MAX_INTERVAL <= now -> (u_pkt u, []) ∈ dgs) /\
    inv_at (mkSystem (mkPeer r (queued (me s)) (got (me s))) (other s) (to_other s ++ wire_of dgs) (to_me s)) la lb.
Proof.
  intros (HP & HA & HB). destruct (tick_sends _ _ _ now (h_sends _ _ _ _ HA)) as (r & dgs & E & T1 & T2 & T3 & T4 & T5 & T6 & T7).
  exists r, dgs. split_and!; [done..|]. split_and!; cbn.
  - eapply paired_same; [exact HP|]. destruct T2 as (? & ? & ? & _). done.
  - rewrite <- (app_nil_r la). apply (half_sender (me s)) with (net := to_other s); cbn; rewrite ?app_nil_r; [done|done|done| |].
    + intros id [Hid|]; [by apply T5|lia].
    + intros d [Hd|Hd]%elem_of_app; [by left|]. right. apply elem_of_wire in Hd as (x & Hx & ->).
      rewrite list.Forall_forall in T6. destruct (T6 x Hx) as [G1 G2]. exists (fst x), (snd x). rewrite G2. by split_and!.
  - apply (half_receiver _ (me s)); [done| |intros x Hx; by apply (same_in_recvd _ _ x T2)]. cbn. destruct (h_receives _ _ _ _ HB) as [R1 R2].
    split; [by eapply same_in_takes|]. rewrite T3. eapply list.Forall_impl; [exact R2|]. intros x Hx. by apply (same_in_recvd _ _ x T2).
Qed.

Lemma reset_step s la lb op now r p acks r' :
  inv_at s la lb -> allowed s (Reset op now) -> build_reset (rel (me s)) op now = (r, p) -> take_pending_acks r = (r', acks) ->
  exists la', inv_at (mkSystem (mkPeer r' (queued (me s)) (got (me s))) (other s) (to_other s ++ [to_bytes p acks]) (to_me s)) la' lb.
Proof.
  intros (HP & HA & HB) [H0 Hop] Eb Et. destruct (reset_opcode op Hop) as (O1 & O2 & O3).
  pose proof (h_sends _ _ _ _ HA) as HS. rewrite (sd_out _ _ _ HS) in H0. apply zlen_zero in H0. subst la.
  pose proof (track_spec (rel (me s)) (queued (me s)) [] op [] (held (rel (me s))) now HS (proj2 (proj2 (proj2 HP)))) as T.
  unfold build_reset, ControlPacket_new in Eb.
  assert (with_held (rel (me s)) (held (rel (me s))) = rel (me s)) as Ew by (by destruct (rel (me s))). rewrite Ew, Eb in T.
  destruct T as (T1 & T2 & T3 & T4 & T5 & T6); [|done|done|done|done|done|by replace (op =? Opcode.CONTROL_V1) with false by lia|].
  { intros id [u Hu]. destruct (sd_unacked _ _ _ HS id u Hu) as [Hpid Hg]. pose proof (g_log _ _ _ _ _ Hg) as Hl. rewrite Hpid in Hl. by destruct Hl. }
  pose proof (take_pending_spec r) as P. rewrite Et in P. destruct P as (P1 & P2 & P3 & _).
  destruct (h_receives _ _ _ _ HB) as [R1 R2]. rewrite <- T5, P2 in R2. apply Forall_app in R2 as [Ra Rb].
  assert (same_in (rel (me s)) r') as Hs' by (rewrite P1; exact T4).
  exists ([] ++ [(op, [])]). split_and!; cbn [me other to_other to_me rel queued got].
  - eapply paired_same; [exact HP|]. destruct Hs' as (? & ? & ? & _). done.
  - apply (half_sender (me s)) with (net := to_other s); cbn [rel queued]; [done| |done| |].
    + rewrite P1. destruct T1. by split.
    + intros id Hid. rewrite P1. cbn. rewrite T3. apply lookup_insert_is_Some'. destruct Hid as [Hid|Hid]; [by right|left].
      change (zlen ([] ++ [(op, @nil Z)])) with 1 in Hid. rewrite zlen_nil in *. lia.
    + intros d [Hd|Hd]%elem_of_app; [by left|]. apply list_elem_of_singleton in Hd as ->. right. exists p, acks. split_and!; [done|done|done|].
      apply list.Forall_forall. intros a Ha. rewrite list.Forall_forall in Ra. split; [|auto].
      eapply recvd_u32; [exact R1|apply (sd_log _ _ _ (h_sends _ _ _ _ HB))|auto].
  - apply (half_receiver _ (me s)); [done| |intros x Hx; by apply (same_in_recvd _ _ x Hs')]. split; [by eapply same_in_takes|].
    eapply list.Forall_impl; [exact Rb|]. intros x Hx. by apply (same_in_recvd _ _ x Hs').
Qed.

Lemma sends_acked s s' q log acks :
  sends s q log -> same_out s s' -> unacked s' = remove_acked (unacked s) acks -> sends s' q log.
Proof.
  intros [H1 H2 H3 H4 H5 H6] (E1 & E2 & E3 & E4 & E5) Eu. split; rewrite ?E1, ?E2, ?E3, ?E4, ?E5, ?Eu; try done.
  - intros id u E. rewrite remove_acked_lookup in E. case_bool_decide; [done|]. by apply H3.
  - intros id E. rewrite remove_acked_lookup in E. case_bool_decide; [by destruct E|]. by apply H4.
Qed.

(** Every packet of a stream is within the window of its receiver. *)
Lemma in_window a b net log id : half a b net log -> id < zlen log -> id < in_counter (rel b) + TLS_RELIABLE_N_SEND_BUFFERS.
Proof.
  intros [HS [HT _] HA _] Hid. destruct HT as [[Hi0 Hi] Hbuf _]. change TLS_RELIABLE_N_SEND_BUFFERS with 6.
  destruct (decide (in_counter (rel b) < zlen log)) as [Hlt|]; [|lia].
  destruct (unacked (rel a) !! in_counter (rel b)) as [u|] eqn:E.
  - pose proof (sd_window _ _ _ HS (in_counter (rel b)) ltac:(by exists u)) as Hw. change TLS_RELIABLE_N_SEND_BUFFERS with 6 in Hw. lia.
  - destruct (HA (in_counter (rel b)) ltac:(lia) E) as [_ [|[p Ep]]]; [lia|]. destruct (Hbuf _ p Ep). lia.
Qed.

(** Receiving any datagram the other side ever sent. *)
Lemma recv_step s la lb d :
  inv_at s la lb -> d ∈ to_me s ->
  exists q r t, parse d = Ok q /\ key_recv (rel (me s)) q = (r, inl t) /\ same_out (rel (me s)) r /\
    unacked r = remove_acked (unacked (rel (me s))) (acked_pids q) /\
    (forall x, x ∈ pending_ack (rel (me s)) -> x ∈ pending_ack r) /\
    (forall id, pid q = Some id -> id ∈ pending_ack r) /\
    inv_at (mkSystem (mkPeer r (queued (me s)) (got (me s) ++ t)) (other s) (to_other s) (to_me s)) la lb.
Proof.
  intros (HP & HA & HB) Hd. destruct (h_net _ _ _ _ HB d Hd) as (p & acks & -> & Hg & Hn & Hacks).
  pose proof (h_sends _ _ _ _ HB) as HSb. pose proof (h_sends _ _ _ _ HA) as HSa. destruct HP as (P1 & P2 & P3 & P4).
  exists (received p acks). change CONTROL_SEND_ACK_MAX with 4 in Hn.
  assert (parse (to_bytes p acks) = Ok (received p acks)) as Ep.
  { apply control_readback; [apply Hg|lia|]. eapply list.Forall_impl; [exact Hacks|]. naive_solver. }
  rewrite P1, P2, P3 in Hg. pose proof (key_recv_spec lb (rel (me s)) (got (me s)) p acks (h_receives _ _ _ _ HB) (sd_log _ _ _ HSb)) as K.
  rewrite <- P1 in Hg at 1. rewrite P1 in Hg. specialize (K ltac:(destruct Hg; by split)).
  destruct (key_recv (rel (me s)) (received p acks)) as [r res]. destruct K as (K1 & K2 & K3 & K4 & K5 & K6).
  assert (exists t, res = inl t) as [t ->].
  { destruct (pid p) as [id|] eqn:Eid; [|by eexists]. apply K6. pose proof (g_log _ _ _ _ _ Hg) as Hl. rewrite Eid in Hl.
    destruct Hl as [Hl0 Hl]. pose proof (in_window _ _ _ _ id HB (zlookup_lt lb id _ Hl0 Hl)). change TLS_RELIABLE_N_SEND_BUFFERS with 6 in *. change TLS_RELIABLE_N_REC_BUFFERS with 12. lia. }
  exists r, t. split_and!; [done|done|done|done|done| |].
  { intros id Eid. cbn in Eid. rewrite Eid in K6. apply K6. pose proof (g_log _ _ _ _ _ Hg) as Hl. rewrite Eid in Hl.
    destruct Hl as [Hl0 Hl]. pose proof (in_window _ _ _ _ id HB (zlookup_lt lb id _ Hl0 Hl)). change TLS_RELIABLE_N_SEND_BUFFERS with 6 in *. change TLS_RELIABLE_N_REC_BUFFERS with 12. lia. }
  pose proof K3 as (E1 & E2 & E3 & _). split_and!; cbn [me other to_other to_me rel queued got].
  - eapply paired_same; [by split_and!|done].
  - destruct HA as [_ HR HAck HNet]. split; cbn [rel queued got]; [by eapply sends_acked|done| |].
    + intros id Hid E. rewrite K4, remove_acked_lookup in E. case_bool_decide as Hin; [|by apply HAck].
      rewrite list.Forall_forall in Hacks. by apply Hacks.
    + rewrite E1, E2, E3. intros d Hd'. destruct (HNet d Hd') as (p' & acks' & Hg'). exists p', acks'.
      rewrite <- (app_nil_r la). eapply genuine_dg_mono; [|exact Hg']. exact K2.
  - by apply (half_receiver _ (me s)).
Qed.

Lemma act_inv s a s' : inv s -> allowed s a -> act s a = Some s' -> inv s'.
Proof.
  intros [HP (la & lb & HA & HB)] Hal E. assert (inv_at s la lb) as I by (by split_and!).
  destruct a as [tls now|op now|now|d]; cbn [act] in E.
  - destruct (pump (rel (me s)) tls now) as [[r out]|] eqn:Ep; [|done]. cbn in E. injection E as <-.
    destruct (pump_step s la lb tls now r out I Hal Ep) as (ext & dgs & -> & _ & (I1 & I2 & I3)). split; [done|]. by eexists _, _.
  - destruct (build_reset _ _ _) as [r p] eqn:Eb. destruct (take_pending_acks r) as [r' acks] eqn:Et. injection E as <-.
    destruct (reset_step s la lb op now r p acks r' I Hal Eb Et) as (la' & I1 & I2 & I3). split; [done|]. by eexists _, _.
  - destruct (tick_step s la lb now I) as (r & dgs & Et & _ & _ & _ & _ & _ & (I1 & I2 & I3)). rewrite Et in E. cbn in E. injection E as <-.
    split; [done|]. by eexists _, _.
  - case_bool_decide as Hd; [|done]. destruct (recv_step s la lb d I Hd) as (q & r & t & Ep & Ek & _ & _ & _ & _ & (I1 & I2 & I3)).
    rewrite Ep in E. cbn in E. rewrite Ek in E. injection E as <-. split; [done|]. by eexists _, _.
Qed.

Lemma step_inv s x s' : inv s -> side_allowed s x -> do_step s x = Some s' -> inv s'.
Proof.
  destruct x as [[] a]; unfold side_allowed, do_step; cbn [fst snd]; intros I Hal E; [by eapply act_inv|].
  destruct (act (swap s) a) as [s1|] eqn:Ea; [|done]. cbn in E. injection E as <-. apply inv_swap. eapply act_inv; [|exact Hal|exact Ea]. by apply inv_swap.
Qed.

(** Session ids are eight bytes, key ids three bits. *)
Definition start_ok (key : Z) (ida idb : list Z) : Prop := 0 <= key < 8 /\ zlen ida = 8 /\ zlen idb = 8.

Lemma start_inv skip key ida idb : start_ok key ida idb -> inv (start skip key ida idb).
Proof.
  intros (Hk & Ha & Hb). set (l0 := if skip then [(Opcode.CONTROL_SOFT_RESET_V1, @nil Z)] else []).
  assert (forall local remote, half (mkPeer (if skip then skip_reset (key_new key local remote) else key_new key local remote) [] [])
    (mkPeer (if skip then skip_reset (key_new key remote local) else key_new key remote local) [] []) [] l0) as H.
  { intros local remote. assert (zlen l0 = if skip then 1 else 0) as Hl by (by destruct skip).
    split; [|split|..]; cbn [rel queued got]; [..|by intros d Hd%not_elem_of_nil].
    - split.
      + rewrite Hl. by destruct skip.
      + split; [rewrite Hl; destruct skip; done|]. unfold l0. intros i op pl E. destruct skip; [|done].
        apply list_lookup_singleton_Some in E as [-> [= <- <-]]. done.
      + intros id u E. by destruct skip.
      + intros id [u E]. by destruct skip.
      + by destruct skip.
      + by destruct skip.
    - split; [rewrite Hl; by destruct skip|intros id p E; by destruct skip|by destruct skip].
    - destruct skip; constructor.
    - intros id Hid _. rewrite Hl in Hid. destruct skip; [|lia]. split; [lia|]. left. cbn. lia. }
  split; [|exists l0, l0; split; apply H]. unfold start, paired, ids_ok. cbn. destruct skip; cbn; done.
Qed.

Lemma reachable_inv skip key ida idb s : start_ok key ida idb -> reachable skip key ida idb s -> inv s.
Proof. intros Hok. induction 1 as [|s x s' _ IH Hal E]; [by apply start_inv|by eapply step_inv]. Qed.

(** ** Safety *)

Lemma window_size (m : gmap Z Unacked) n : (forall id, is_Some (m !! id) -> n - TLS_RELIABLE_N_SEND_BUFFERS <= id < n) ->
  Z.of_nat (size m) <= TLS_RELIABLE_N_SEND_BUFFERS.
Proof.
  intros Hm. rewrite <- size_dom. assert (dom m ⊆ (list_to_set (seqZ (n - 6) 6) : gset Z)) as Hs.
  { intros id Hid. apply elem_of_list_to_set, elem_of_seqZ. apply elem_of_dom in Hid. specialize (Hm id Hid). change TLS_RELIABLE_N_SEND_BUFFERS with 6 in Hm. lia. }
  apply subseteq_size in Hs. rewrite size_list_to_set in Hs by apply NoDup_seqZ. rewrite length_seqZ in Hs. change TLS_RELIABLE_N_SEND_BUFFERS with 6. lia.
Qed.

Lemma unacked_range a b net log id : half a b net log -> is_Some (unacked (rel a) !! id) ->
  zlen log - TLS_RELIABLE_N_SEND_BUFFERS <= id < zlen log.
Proof.
  intros [HS _ _ _] Hs. pose proof (sd_window _ _ _ HS id Hs). destruct Hs as [u Hu]. destruct (sd_unacked _ _ _ HS id u Hu) as [Hpid Hg].
  pose proof (g_log _ _ _ _ _ Hg) as Hl. rewrite Hpid in Hl. destruct Hl as [H0 Hl]. pose proof (zlookup_lt log id _ H0 Hl). lia.
Qed.

Lemma half_prefix a b net log : half a b net log -> got b `prefix_of` queued a.
Proof.
  intros [HS [HT _] _ _]. rewrite (sd_queued _ _ _ HS), (rv_got _ _ _ HT). rewrite <- (ztake_zdrop (in_counter (rel b)) log) at 2.
  rewrite tls_of_app, <- app_assoc. by apply prefix_app_r.
Qed.

(** C1: two ends of the control channel over a network that loses,
    duplicates and reorders: whatever the order of steps, the TLS bytes an
    end has delivered are a prefix of those the other end was given, in both
    directions; no end keeps more than six packets in flight, and none of the
    datagrams the network holds would be refused if it arrived now. *)
Theorem channel_delivers_prefix (skip : bool) (key : Z) (ida idb : list Z) (s : System) :
  start_ok key ida idb -> reachable skip key ida idb s ->
  got (other s) `prefix_of` queued (me s) /\ got (me s) `prefix_of` queued (other s) /\
  Z.of_nat (size (unacked (rel (me s)))) <= TLS_RELIABLE_N_SEND_BUFFERS /\
  Z.of_nat (size (unacked (rel (other s)))) <= TLS_RELIABLE_N_SEND_BUFFERS /\
  (forall d, d ∈ to_me s -> exists q r t, parse d = Ok q /\ key_recv (rel (me s)) q = (r, inl t)) /\
  (forall d, d ∈ to_other s -> exists q r t, parse d = Ok q /\ key_recv (rel (other s)) q = (r, inl t)).
Proof.
  intros Hok Hr. destruct (reachable_inv _ _ _ _ s Hok Hr) as [HP (la & lb & HA & HB)]. split_and!.
  - by eapply half_prefix.
  - by eapply half_prefix.
  - apply (window_size _ (zlen la)). intros id. by eapply unacked_range.
  - apply (window_size _ (zlen lb)). intros id. by eapply unacked_range.
  - intros d Hd. destruct (recv_step s la lb d) as (q & r & t & E1 & E2 & _); [by split_and!|done|]. by exists q, r, t.
  - intros d Hd. destruct (recv_step (swap s) lb la d) as (q & r & t & E1 & E2 & _); [split_and!; [by apply paired_sym|done|done]|done|]. by exists q, r, t.
Qed.

(** ** Liveness *)

Definition receive_all (w : bool) (ds : list (list Z)) : list (bool * action) := (fun d => (w, Receive d)) <$> ds.

(** A round in which nothing is lost: [me] retransmits what is due, the other
    side receives it and acknowledges, and [me], having the acknowledgements,
    goes on. *)
Definition round (now : Z) (s : System) : option System :=
  '(_, resent) ← tick (rel (me s)) now;
  s ← run s ((true, Tick now) :: receive_all false resent);
  '(_, acks) ← pump (rel (other s)) [] (fun _ => now);
  s ← run s ((false, Pump [] (fun _ => now)) :: receive_all true acks);
  run s [(true, Pump [] (fun _ => now))].

(** Rounds eight seconds apart, the first at [now]. *)
Fixpoint rounds (n : nat) (now : Z) (s : System) : option System :=
  match n with
  | O => Some s
  | S n => s ← round now s; rounds n (now + RETRANSMIT_MAX_INTERVAL) s
  end.

Lemma run_false s ds : run s (receive_all false ds) = swap <$> run (swap s) (receive_all true ds).
Proof.
  revert s. induction ds as [|d ds IH]; intros s; [cbn; by rewrite swap_swap|].
  cbn [receive_all fmap list_fmap run]. fold (receive_all false ds) (receive_all true ds). unfold do_step. cbn [fst snd].
  destruct (act (swap s) (Receive d)) as [s1|]; [|done]. cbn [fmap option_fmap option_map mbind option_bind]. by rewrite IH, swap_swap.
Qed.

(** What a side that received these datagrams has. *)
Record delivered (s s' : System) (ds : list (list Z)) : Prop := {
  dl_other : other s' = other s;
  dl_nets : to_other s' = to_other s /\ to_me s' = to_me s;
  dl_queued : queued (me s') = queued (me s);
  dl_out : same_out (rel (me s)) (rel (me s'));
  dl_unacked : forall id u, unacked (rel (me s')) !! id = Some u -> unacked (rel (me s)) !! id = Some u;
  dl_pending : forall x, x ∈ pending_ack (rel (me s)) -> x ∈ pending_ack (rel (me s'));
  dl_each : forall d q, d ∈ ds -> parse d = Ok q ->
    (forall a, a ∈ acked_pids q -> unacked (rel (me s')) !! a = None) /\ (forall id, pid q = Some id -> id ∈ pending_ack (rel (me s'))) }.

Lemma deliver_all ds s la lb :
  inv_at s la lb -> (forall d, d ∈ ds -> d ∈ to_me s) ->
  exists s', run s (receive_all true ds) = Some s' /\ inv_at s' la lb /\ delivered s s' ds.
Proof.
  revert s. induction ds as [|d ds IH]; intros s I Hin.
  { exists s. split; [done|]. split; [done|]. split; try done. by intros d q Hd%not_elem_of_nil. }
  destruct (recv_step s la lb d I ltac:(apply Hin; left)) as (q & r & t & Ep & Ek & K1 & K2 & K3 & K4 & I1).
  cbn [receive_all fmap list_fmap run]. fold (receive_all true ds). unfold do_step. cbn [fst snd act].
  rewrite bool_decide_true by (apply Hin; left). rewrite Ep. cbn [Ok]. rewrite Ek. cbn [mbind option_bind].
  destruct (IH _ I1) as (s' & Er & I' & [D1 D2 D3 D4 D5 D6 D7]); [intros d' Hd'; apply Hin; by right|]. exists s'. split; [done|]. split; [done|].
  cbn [me other to_other to_me rel queued] in *. split; try done.
  - unfold same_out in *. intuition congruence.
  - intros id u E. apply D5 in E. rewrite K2, remove_acked_lookup in E. by case_bool_decide.
  - auto.
  - intros d' q' [->|Hd]%elem_of_cons Eq; [|by apply (D7 d')]. rewrite Ep in Eq. injection Eq as <-. split; [|auto].
    intros a Ha. apply eq_None_not_Some. intros [u Hu]. apply D5 in Hu. rewrite K2, remove_acked_lookup, bool_decide_true in Hu; done.
Qed.

Lemma all_received a b net log : half a b net log -> unacked (rel a) = ∅ -> got b = tls_of log.
Proof.
  intros H Hu. pose proof (h_receives _ _ _ _ H) as [[[Hi0 Hi] Hbuf Hgot] _]. rewrite Hgot. f_equal. apply ztake_all.
  destruct (decide (in_counter (rel b) < zlen log)) as [Hlt|]; [|lia].
  destruct (h_acked _ _ _ _ H (in_counter (rel b)) ltac:(lia) ltac:(by rewrite Hu)) as [_ [|[p Ep]]]; [lia|]. destruct (Hbuf _ p Ep). lia.
Qed.

Lemma pump_some s now : zlen (held s) <= MAX_HELD_TLS -> is_Some (pump s [] now).
Proof.
  intros Hh. unfold pump. replace (held_len (queue_tls s []) >? MAX_HELD_TLS) with false; [by case_match|].
  unfold held_len. cbn [queue_tls with_held held]. rewrite app_nil_r. lia.
Qed.

Definition room (log : stream) (r : Reliable) : Prop := zlen log + zlen (held r) + TLS_RELIABLE_N_REC_BUFFERS < 2 ^ 32.

(** First half of a round: the other side has everything sent so far, and owes
    the acknowledgements of it. *)
Lemma round_out now s la lb :
  inv_at s la lb -> (forall id u, unacked (rel (me s)) !! id = Some u -> last_sent u + RETRANSMIT_MAX_INTERVAL <= now) ->
  exists r resent s', tick (rel (me s)) now = Some (r, resent) /\ run s ((true, Tick now) :: receive_all false resent) = Some s' /\
    inv_at s' la lb /\ queued (me s') = queued (me s) /\ held (rel (me s')) = held (rel (me s)) /\
    out_counter (rel (me s')) = out_counter (rel (me s)) /\ held (rel (other s')) = held (rel (other s)) /\
    (forall id, is_Some (unacked (rel (me s')) !! id) -> id ∈ pending_ack (rel (other s'))).
Proof.
  intros I Hlate. destruct (tick_step s la lb now I) as (r & dgs & Et & Th & Ts & Tu & Tg & Tl & I1).
  cbn [run]. unfold do_step at 1. cbn [fst snd act]. rewrite Et. cbn [mbind option_bind].
  set (s1 := mkSystem _ _ _ _) in *.
  assert (inv_at (swap s1) lb la) as I1' by (destruct I1 as (Q1 & Q2 & Q3); split_and!; [by apply paired_sym|done|done]).
  destruct (deliver_all (wire_of dgs) (swap s1) lb la I1') as (s2 & E2 & I2 & [D1 D2 D3 D4 D5 D6 D7]).
  { intros d Hd. cbn. apply elem_of_app. by right. }
  exists r, (wire_of dgs), (swap s2). rewrite run_false, E2. cbn [fmap option_fmap option_map mbind option_bind]. split; [done|]. split; [done|].
  destruct I2 as (Q1 & Q2 & Q3). cbn [swap me other to_other to_me] in *. rewrite D1. cbn [s1 swap me other rel queued] in *.
  destruct I as (_ & HA & _). destruct I1 as (_ & HA1 & _). 
  pose proof (sd_out _ _ _ (h_sends _ _ _ _ HA1)) as O1. pose proof (sd_out _ _ _ (h_sends _ _ _ _ HA)) as O2. cbn [s1 me other rel queued] in O1.
  split_and!; [split_and!; [by apply paired_sym|done|done]|done|done|congruence|by destruct D4 as (_ & _ & _ & _ & D4)|].
  intros id Hid. apply Tu in Hid as [u Hu]. pose proof (Tl id u Hu (Hlate id u Hu)) as Hin.
  destruct (sd_unacked _ _ _ (h_sends _ _ _ _ HA) id u Hu) as [Hpid Hg].
  assert (parse (to_bytes (u_pkt u) []) = Ok (received (u_pkt u) [])) as Ep by (apply control_readback; [apply Hg|done|constructor]).
  apply (D7 (to_bytes (u_pkt u) []) (received (u_pkt u) [])); [|done|done]. apply elem_of_wire. by exists (u_pkt u, []).
Qed.

(** Second half: the acknowledgements come back. *)
Lemma round_back now s la lb :
  inv_at s la lb -> room lb (rel (other s)) -> (forall id, is_Some (unacked (rel (me s)) !! id) -> id ∈ pending_ack (rel (other s))) ->
  exists r acks s' ext, pump (rel (other s)) [] (fun _ => now) = Some (r, acks) /\
    run s ((false, Pump [] (fun _ => now)) :: receive_all true acks) = Some s' /\ inv_at s' la (lb ++ ext) /\
    queued (me s') = queued (me s) /\ held (rel (me s')) = held (rel (me s)) /\ out_counter (rel (me s')) = out_counter (rel (me s)) /\
    unacked (rel (me s')) = ∅ /\ zlen (lb ++ ext) + zlen (held (rel (other s'))) <= zlen lb + zlen (held (rel (other s))).
Proof.
  intros (Q1 & HA & HB) Hroom Hpend. destruct (pump_some (rel (other s)) (fun _ => now) (sd_held _ _ _ (h_sends _ _ _ _ HB))) as [[r acks] Ep].
  assert (inv_at (swap s) lb la) as I' by (split_and!; [by apply paired_sym|done|done]).
  destruct (pump_step (swap s) lb la [] (fun _ => now) r acks I') as (ext & dgs & -> & Pm & (R1 & R2 & R3)); [|done|].
  { cbn [allowed]. unfold room in Hroom. rewrite zlen_nil. cbn [swap me]. rewrite (sd_out _ _ _ (h_sends _ _ _ _ HB)). lia. }
  destruct Pm as [_ _ _ Pg _ _ _ Pa Ph _]. cbn [swap me other to_other to_me rel queued got] in *.
  cbn [run]. unfold do_step at 1. cbn [fst snd act swap me]. rewrite Ep. cbn [mbind option_bind fmap option_fmap option_map swap me other to_other to_me].
  set (s1 := mkSystem (me s) (mkPeer r (queued (other s) ++ []) (got (other s))) (to_other s) (to_me s ++ wire_of dgs)) in *.
  assert (inv_at s1 la (lb ++ ext)) as I1 by (split_and!; [by apply paired_sym|done|done]).
  destruct (deliver_all (wire_of dgs) s1 la (lb ++ ext) I1) as (s2 & E2 & I2 & [D1 D2 D3 D4 D5 D6 D7]).
  { intros d Hd. cbn. apply elem_of_app. by right. }
  exists r, (wire_of dgs), s2, ext. destruct D4 as (_ & _ & _ & D4 & D4'). split_and!; [done|done|done|done|done|done| |].
  - apply map_empty. intros id. apply eq_None_not_Some. intros [u Hu]. pose proof (D5 id u Hu) as Hu0. cbn [s1 me] in Hu0.
    destruct (Pa id (Hpend id ltac:(by exists u))) as ([p al] & Hd & Hal). rewrite list.Forall_forall in Pg. destruct (Pg _ Hd) as (G1 & G2 & G3).
    cbn [fst snd] in *. assert (parse (to_bytes p al) = Ok (received p al)) as Er.
    { apply control_readback; [apply G1|change CONTROL_SEND_ACK_MAX with 4 in G2; lia|]. eapply list.Forall_impl; [exact G3|]. naive_solver. }
    destruct (D7 (to_bytes p al) (received p al)) as [D _]; [apply elem_of_wire; by exists (p, al)|done|]. rewrite (D id Hal) in Hu. done.
  - rewrite D1. cbn [s1 other rel]. rewrite zlen_app. rewrite zlen_nil in Ph. lia.
Qed.

(** What a round achieves. *)
Lemma round_spec now s la lb :
  inv_at s la lb -> 0 < out_counter (rel (me s)) -> room la (rel (me s)) -> room lb (rel (other s)) ->
  (forall id u, unacked (rel (me s)) !! id = Some u -> last_sent u + RETRANSMIT_MAX_INTERVAL <= now) ->
  exists s' la' lb', round now s = Some s' /\ inv_at s' la' lb' /\ 0 < out_counter (rel (me s')) /\
    room la' (rel (me s')) /\ room lb' (rel (other s')) /\ queued (me s') = queued (me s) /\
    (forall id u, unacked (rel (me s')) !! id = Some u -> last_sent u = now) /\
    zlen (held (rel (me s'))) <= Z.max 0 (zlen (held (rel (me s))) - CONTROL_CHANNEL_MTU) /\
    (held (rel (me s)) = [] -> unacked (rel (me s')) = ∅ /\ held (rel (me s')) = [] /\ got (other s') = queued (me s')).
Proof.
  intros I Hpos Ra Rb Hlate. destruct (round_out now s la lb I Hlate) as (r0 & rs & s1 & E0 & E1 & I1 & A1 & A2 & A3 & A4 & A5).
  destruct (round_back now s1 la lb I1 ltac:(unfold room in *; by rewrite A4) A5) as (r1 & acks & s2 & ext & E2 & E3 & I2 & B1 & B2 & B3 & B4 & B5).
  pose proof I2 as (_ & HA2 & _). destruct (pump_some (rel (me s2)) (fun _ => now) (sd_held _ _ _ (h_sends _ _ _ _ HA2))) as [[r2 out] E4].
  pose proof (sd_out _ _ _ (h_sends _ _ _ _ HA2)) as Ho. unfold room in *.
  destruct (pump_step s2 la (lb ++ ext) [] (fun _ => now) r2 out I2) as (ext' & dgs & -> & [P1 P2 P3 P4 P5 P6 P7 P8 P9 P10] & I3); [|done|].
  { cbn [allowed]. rewrite zlen_nil, Ho, B2, A2. lia. }
  unfold round. rewrite E0. cbn [mbind option_bind]. rewrite E1. cbn [mbind option_bind]. rewrite E2. cbn [mbind option_bind]. rewrite E3.
  cbn [mbind option_bind run]. unfold do_step. cbn [fst snd act]. rewrite E4. cbn [mbind option_bind].
  eexists _, (la ++ ext'), (lb ++ ext). split; [done|]. split; [exact I3|]. cbn [me other rel queued got]. rewrite app_nil_r in *.
  rewrite zlen_nil, B2, A2 in P9, P10. pose proof (zlen_nonneg ext').
  split_and!; [|rewrite zlen_app; lia|rewrite A4 in B5; lia|congruence| | |].
  - rewrite (sd_out _ _ _ P1), zlen_app. rewrite B3, A3 in Ho. lia.
  - intros id u Eu. destruct (P6 id u Eu) as [E|]; [by rewrite B4, lookup_empty in E|done].
  - rewrite Z.add_0_r in P10. apply P10; [|done]. unfold reset_acked. rewrite B4, lookup_empty, B3, A3, bool_decide_true by done. apply andb_true_iff. split; [lia|done].
  - intros Hh. rewrite Hh, (@zlen_nil Z) in P9. pose proof (zlen_nonneg (held r2)). assert (ext' = []) as -> by (apply zlen_zero; lia).
    assert (held r2 = []) as Hh2 by (apply zlen_zero; lia). assert (unacked r2 = ∅) as Hu2.
    { apply map_empty. intros id. apply eq_None_not_Some. intros Hs. apply P5 in Hs as [Hs|Hs]; [rewrite B4, lookup_empty in Hs; by destruct Hs|].
      rewrite app_nil_r in Hs. lia. }
    split_and!; [done|done|]. destruct I3 as (_ & HA3 & _). cbn [me other to_other] in HA3.
    rewrite (all_received _ _ _ _ HA3) by done. rewrite (sd_queued _ _ _ P1), Hh2. by rewrite !app_nil_r.
Qed.

Lemma rounds_spec n now s la lb :
  inv_at s la lb -> 0 < out_counter (rel (me s)) -> room la (rel (me s)) -> room lb (rel (other s)) ->
  (forall id u, unacked (rel (me s)) !! id = Some u -> last_sent u + RETRANSMIT_MAX_INTERVAL <= now) ->
  zlen (held (rel (me s))) <= Z.of_nat n * CONTROL_CHANNEL_MTU ->
  exists s', rounds (S n) now s = Some s' /\ queued (me s') = queued (me s) /\
    unacked (rel (me s')) = ∅ /\ held (rel (me s')) = [] /\ got (other s') = queued (me s').
Proof.
  revert now s la lb. induction n as [|n IH]; intros now s la lb I Hpos Ra Rb Hlate Hn.
  - destruct (round_spec now s la lb I Hpos Ra Rb Hlate) as (s' & la' & lb' & E & _ & _ & _ & _ & Q & _ & _ & F).
    exists s'. cbn [rounds]. rewrite E. cbn [mbind option_bind]. destruct F as (F1 & F2 & F3); [|done].
    apply zlen_zero. pose proof (zlen_nonneg (held (rel (me s)))). lia.
  - destruct (round_spec now s la lb I Hpos Ra Rb Hlate) as (s1 & la' & lb' & E & I1 & Hp1 & Ra1 & Rb1 & Q & Hck & Hh & _).
    destruct (IH (now + RETRANSMIT_MAX_INTERVAL) s1 la' lb' I1 Hp1 Ra1 Rb1) as (s' & E' & Q' & F).
    { intros id u Eu. rewrite (Hck id u Eu). lia. }
    { change CONTROL_CHANNEL_MTU with 1164 in *. lia. }
    exists s'. remember (S n) as m. cbn [rounds]. rewrite E. cbn [mbind option_bind]. split; [done|]. split; [congruence|done].
Qed.

(** C2: whatever was lost before, the channel recovers: from any reachable
    state of a stream that has begun, one undisturbed round -- a retransmission
    once every packet in flight is eight seconds old, its receipt, and the
    acknowledgements back -- per packet of output held back, and one more,
    delivers every byte the TLS engine has produced and leaves nothing in
    flight. *)
Theorem channel_recovers (skip : bool) (key : Z) (ida idb : list Z) (s : System) (n : nat) (now : Z) :
  start_ok key ida idb -> reachable skip key ida idb s ->
  0 < out_counter (rel (me s)) ->
  out_counter (rel (me s)) + zlen (held (rel (me s))) + TLS_RELIABLE_N_REC_BUFFERS < 2 ^ 32 ->
  out_counter (rel (other s)) + zlen (held (rel (other s))) + TLS_RELIABLE_N_REC_BUFFERS < 2 ^ 32 ->
  (forall id u, unacked (rel (me s)) !! id = Some u -> last_sent u + RETRANSMIT_MAX_INTERVAL <= now) ->
  zlen (held (rel (me s))) <= Z.of_nat n * CONTROL_CHANNEL_MTU ->
  exists s', rounds (S n) now s = Some s' /\ got (other s') = queued (me s) /\
    unacked (rel (me s')) = ∅ /\ held (rel (me s')) = [].
Proof.
  intros Hok Hr Hpos Ra Rb Hlate Hn. destruct (reachable_inv _ _ _ _ s Hok Hr) as [HP (la & lb & HA & HB)].
  rewrite (sd_out _ _ _ (h_sends _ _ _ _ HA)) in Ra. rewrite (sd_out _ _ _ (h_sends _ _ _ _ HB)) in Rb.
  destruct (rounds_spec n now s la lb) as (s' & E & Q & U & H & G); [by split_and!|done|done|done|done|done|].
  exists s'. by rewrite G, Q.
Qed.

(** A session whose resets were exchanged statelessly; its first packet of
    output is lost, its second arrives ahead of it. *)
Definition demo_a : list Z := [1; 2; 3; 4; 5; 6; 7; 8].
Definition demo_b : list Z := [9; 9; 9; 9; 9; 9; 9; 9].
Definition demo_start : System := start true 1 demo_a demo_b.
Definition demo_steps : list (bool * action) := [(true, Pump [22; 3; 1] (fun _ => 0)); (true, Pump [42] (fun _ => 1))].
Definition demo_sent : System := default demo_start (run demo_start demo_steps).
Definition demo_second : list Z := default [] (list.last (to_other demo_sent)).
Definition demo_lossy : System := default demo_start (do_step demo_sent (false, Receive demo_second)).

Lemma demo_reachable : reachable true 1 demo_a demo_b demo_lossy.
Proof.
  eapply (reach_step _ _ _ _ demo_sent (false, Receive demo_second)); [|done|vm_compute; reflexivity].
  eapply (reach_step _ _ _ _ (default demo_start (run demo_start (take 1 demo_steps))) (true, Pump [42] (fun _ => 1)));
    [|vm_compute; reflexivity|vm_compute; reflexivity].
  eapply (reach_step _ _ _ _ demo_start (true, Pump [22; 3; 1] (fun _ => 0))); [constructor|vm_compute; reflexivity|vm_compute; reflexivity].
Qed.

Lemma demo_ok : start_ok 1 demo_a demo_b.
Proof. done. Qed.

Lemma channel_delivers_prefix_witness :
  got (other demo_lossy) `prefix_of` queued (me demo_lossy) /\ got (other demo_lossy) = [] /\ queued (me demo_lossy) = [22; 3; 1; 42].
Proof.
  split; [|split; vm_compute; reflexivity].
  exact (proj1 (channel_delivers_prefix true 1 demo_a demo_b demo_lossy demo_ok demo_reachable)).
Defined.

Lemma demo_old : forall id u, unacked (rel (me demo_lossy)) !! id = Some u -> last_sent u + RETRANSMIT_MAX_INTERVAL <= 9000000000.
Proof.
  assert (map_Forall (fun _ u => last_sent u + RETRANSMIT_MAX_INTERVAL <= 9000000000) (unacked (rel (me demo_lossy)))) as H.
  { apply (bool_decide_unpack _). vm_compute. exact I. }
  exact H.
Qed.

Lemma channel_recovers_witness :
  exists s', rounds 1 9000000000 demo_lossy = Some s' /\ got (other s') = queued (me demo_lossy) /\
    unacked (rel (me s')) = ∅ /\ held (rel (me s')) = [].
Proof.
  apply (channel_recovers true 1 demo_a demo_b demo_lossy 0 9000000000 demo_ok demo_reachable);
    [vm_compute; reflexivity..|exact demo_old|vm_compute; discriminate].
Defined.
