(* ===== verification/Icmp.v ===== *)
(** * ICMP and ICMPv6 error messages ([src/src/icmp.rs], with the message
    types of [src/src/l4.rs])

    When an error may be sent about a packet, and the error message built. *)

From S2P Require Import Prelude Ip Checksum Packet Build.

Module icmpv4.
Definition DEST_UNREACHABLE : Z := 3.
Definition TIME_EXCEEDED : Z := 11.
Definition PARAMETER_PROBLEM : Z := 12.
Definition CODE_HOST_UNREACHABLE : Z := 1.
Definition CODE_PORT_UNREACHABLE : Z := 3.
Definition CODE_FRAG_NEEDED : Z := 4.
Definition CODE_ADMIN_PROHIBITED : Z := 13.
Definition CODE_TTL_EXCEEDED : Z := 0.
End icmpv4.

Module icmpv6.
Definition DEST_UNREACHABLE : Z := 1.
Definition PACKET_TOO_BIG : Z := 2.
Definition TIME_EXCEEDED : Z := 3.
Definition PARAMETER_PROBLEM : Z := 4.
Definition CODE_NO_ROUTE : Z := 0.
Definition CODE_ADMIN_PROHIBITED : Z := 1.
Definition CODE_PORT_UNREACHABLE : Z := 4.
Definition CODE_HOP_LIMIT_EXCEEDED : Z := 0.
Definition CODE_UNRECOGNIZED_OPTION : Z := 2.
End icmpv6.

Definition ERROR_TTL : Z := 64.
Definition MAX_V4_ERROR : Z := 576.
Definition MAX_V6_ERROR : Z := 1280.

Inductive IcmpError :=
| DestUnreachable (code : Z)
| TimeExceeded (code : Z)
| PacketTooBig (mtu : Z)
| ParameterProblem (code ptr : Z).

(** [IcmpMessage::message_type], [is_icmpv4_error] and [is_icmpv6_error] of a
    message of at least four bytes. *)
Definition message_type (msg : list Z) : Z := if zlen msg =? 0 then 0 else msg.[0].
Definition is_icmpv4_error (msg : list Z) : bool :=
  let t := message_type msg in (t =? 3) || (t =? 4) || (t =? 5) || (t =? 11) || (t =? 12).
Definition is_icmpv6_error (msg : list Z) : bool := message_type msg <? 128.

(** [std::net] predicates. *)
Definition is_unspecified (a : IpAddr) : bool := match a with V4 x | V6 x => x =? 0 end.
Definition addr_is_multicast (a : IpAddr) : bool :=
  match a with V4 x => (224 <=? x / 2 ^ 24) && (x / 2 ^ 24 <=? 239) | V6 x => x / 2 ^ 120 =? 255 end.
Definition v4_is_broadcast (x : Z) : bool := x =? 2 ^ 32 - 1.
Definition v4_is_loopback (x : Z) : bool := x / 2 ^ 24 =? 127.

(** ** When an error may be sent *)

Definition is_later_fragment (p : list Z) : bool :=
  if version p =? 4 then negb (ipv4_fragment_offset p =? 0)
  else if version p =? 6 then transport_protocol p =? 44
  else false.

Definition multicast_exempt (orig : list Z) (err : IcmpError) : bool :=
  if negb (version orig =? 6) then false
  else
    match err with
    | PacketTooBig _ => true
    | ParameterProblem c ptr =>
        if c =? icmpv6.CODE_UNRECOGNIZED_OPTION then
          match get orig ptr with Some opt => Z.shiftr opt 6 =? 2 | None => false end
        else false
    | _ => false
    end.

Definition may_reply_with (orig : list Z) (err : option IcmpError) : bool :=
  if negb (pkt_is_valid orig) then false
  else if is_later_fragment orig then false
  else if (is_multicast orig || is_broadcast orig) &&
          negb (match err with Some e => multicast_exempt orig e | None => false end) then false
  else
    match src_addr orig with
    | None => false
    | Some src =>
        if is_unspecified src || addr_is_multicast src then false
        else if match src with
                | V4 x => v4_is_broadcast x || v4_is_loopback x || (240 <=? x / 2 ^ 24)
                | V6 _ => false
                end then false
        else
          let proto := transport_protocol orig in
          if (version orig =? 6) && is_ipv6_ext_header proto then false
          else if (proto =? ICMP) || (proto =? ICMPV6) then
            let payload := transport_payload orig in
            if 4 <=? zlen payload then
              negb (if proto =? ICMP then is_icmpv4_error payload else is_icmpv6_error payload)
            else false
          else true
    end.

Definition may_reply (orig : list Z) : bool := may_reply_with orig None.

(** ** The message *)

Definition quoted (orig : list Z) (room : Z) : list Z :=
  let declared := total_len orig in
  let have := zlen orig in
  let e := if (0 <? declared) && (declared <=? have) then declared else have in
  ztake (Z.min e room) orig.

(** The type, code and rest of header of each error. *)
Definition v4_fields (err : IcmpError) : Z * Z * list Z :=
  match err with
  | DestUnreachable c => (icmpv4.DEST_UNREACHABLE, c, [0; 0; 0; 0])
  | TimeExceeded c => (icmpv4.TIME_EXCEEDED, c, [0; 0; 0; 0])
  | PacketTooBig mtu => (icmpv4.DEST_UNREACHABLE, icmpv4.CODE_FRAG_NEEDED, [0; 0] ++ be16 (Z.min mtu 65535))
  | ParameterProblem c ptr => (icmpv4.PARAMETER_PROBLEM, c, [Z.min ptr 255; 0; 0; 0])
  end.

Definition v6_fields (err : IcmpError) : Z * Z * list Z :=
  match err with
  | DestUnreachable c => (icmpv6.DEST_UNREACHABLE, c, [0; 0; 0; 0])
  | TimeExceeded c => (icmpv6.TIME_EXCEEDED, c, [0; 0; 0; 0])
  | PacketTooBig mtu => (icmpv6.PACKET_TOO_BIG, 0, be_bytes 4 mtu)
  | ParameterProblem c ptr => (icmpv6.PARAMETER_PROBLEM, c, be_bytes 4 ptr)
  end.

Definition error (orig : list Z) (from : IpAddr) (err : IcmpError) : option (list Z) :=
  if negb (may_reply_with orig (Some err)) then None
  else
    dst ← src_addr orig;
    match from, dst with
    | V4 f, V4 d =>
        if version orig =? 4 then
          let '(t, code, rest) := v4_fields err in
          let room := sat_sub MAX_V4_ERROR (20 + 8) in
          let quote := quoted orig (Z.max room (ipv4_header_len orig + 8)) in
          Some (build_ipv4 f d ICMP ERROR_TTL (build_icmpv4 t code rest quote))
        else None
    | V6 f, V6 d =>
        if version orig =? 6 then
          let '(t, code, rest) := v6_fields err in
          let room := sat_sub MAX_V6_ERROR (40 + 8 + 40) in
          let quote := quoted orig room in
          Some (build_ipv6 f d ICMPV6 ERROR_TTL (build_icmpv6 f d t code rest quote))
        else None
    | _, _ => None
    end.

Definition port_unreachable (orig : list Z) (from : IpAddr) : option (list Z) :=
  if version orig =? 4 then error orig from (DestUnreachable icmpv4.CODE_PORT_UNREACHABLE)
  else if version orig =? 6 then error orig from (DestUnreachable icmpv6.CODE_PORT_UNREACHABLE)
  else None.

Definition no_route (orig : list Z) (from : IpAddr) : option (list Z) :=
  if version orig =? 4 then error orig from (DestUnreachable icmpv4.CODE_HOST_UNREACHABLE)
  else if version orig =? 6 then error orig from (DestUnreachable icmpv6.CODE_NO_ROUTE)
  else None.

Definition admin_prohibited (orig : list Z) (from : IpAddr) : option (list Z) :=
  if version orig =? 4 then error orig from (DestUnreachable icmpv4.CODE_ADMIN_PROHIBITED)
  else if version orig =? 6 then error orig from (DestUnreachable icmpv6.CODE_ADMIN_PROHIBITED)
  else None.

Definition time_exceeded (orig : list Z) (from : IpAddr) : option (list Z) :=
  if version orig =? 4 then error orig from (TimeExceeded icmpv4.CODE_TTL_EXCEEDED)
  else if version orig =? 6 then error orig from (TimeExceeded icmpv6.CODE_HOP_LIMIT_EXCEEDED)
  else None.

Definition packet_too_big (orig : list Z) (from : IpAddr) (mtu : Z) : option (list Z) := error orig from (PacketTooBig mtu).

(** ** The error and what is done with it *)

(** Codes are [u8]s; MTUs and pointers [u32]s. *)
Definition err_ok (err : IcmpError) : Prop :=
  match err with
  | DestUnreachable c | TimeExceeded c => byte_ok c
  | PacketTooBig mtu => 0 <= mtu < 2 ^ 32
  | ParameterProblem c ptr => byte_ok c /\ 0 <= ptr < 2 ^ 32
  end.

Definition icmp_proto (a : IpAddr) : Z := match a with V4 _ => ICMP | V6 _ => ICMPV6 end.
Definition max_error (a : IpAddr) : Z := match a with V4 _ => MAX_V4_ERROR | V6 _ => MAX_V6_ERROR end.

(** Type, code and the four bytes after the checksum of each error (RFC 792
    with RFC 1191; RFC 4443). *)
Definition fields (a : IpAddr) (err : IcmpError) : Z * Z * list Z :=
  match a, err with
  | V4 _, DestUnreachable c => (3, c, [0; 0; 0; 0])
  | V4 _, PacketTooBig mtu => (3, 4, [0; 0] ++ be16 (Z.min mtu 65535))
  | V4 _, TimeExceeded c => (11, c, [0; 0; 0; 0])
  | V4 _, ParameterProblem c ptr => (12, c, [Z.min ptr 255; 0; 0; 0])
  | V6 _, DestUnreachable c => (1, c, [0; 0; 0; 0])
  | V6 _, PacketTooBig mtu => (2, 0, be_bytes 4 mtu)
  | V6 _, TimeExceeded c => (3, c, [0; 0; 0; 0])
  | V6 _, ParameterProblem c ptr => (4, c, be_bytes 4 ptr)
  end.

Lemma fields_v4 x err : fields (V4 x) err = v4_fields err.
Proof. by destruct err. Qed.

Lemma fields_v6 x err : fields (V6 x) err = v6_fields err.
Proof. by destruct err. Qed.

Lemma fields_ok a err : err_ok err ->
  let '(t, code, rest) := fields a err in
  byte_ok t /\ byte_ok code /\ bytes_ok rest /\ zlen rest = 4 /\ 1 <= t <= 12 /\
  match a with V4 _ => t = 3 \/ t = 11 \/ t = 12 | V6 _ => True end.
Proof.
  intros He. destruct a, err as [c|c|mtu|c ptr]; cbn [err_ok fields] in *.
  all: split_and!; try (unfold byte_ok in *; lia); try (autorewrite with zlen; done); try bok; unfold byte_ok in *; lia.
Qed.

(** How much of the packet is quoted. *)
Lemma quoted_spec orig room : 0 <= room -> quoted orig room `prefix_of` orig /\ zlen (quoted orig room) <= room.
Proof.
  intros Hr. unfold quoted. split; [|pose proof (zlen_nonneg orig); rewrite zlen_ztake; lia].
  match goal with |- ztake ?n _ `prefix_of` _ => exists (zdrop n orig) end. symmetry. apply ztake_zdrop.
Qed.

Definition quote_room (a : IpAddr) : Z := match a with V4 _ => 548 | V6 _ => 1192 end.

(** An error message: an ICMP message of its type and code quoting the
    packet, from [from] to [dst]. *)
Definition error_about (orig : list Z) (from dst : IpAddr) (err : IcmpError) (reply : list Z) : Prop :=
  let '(t, code, rest) := fields from err in
  (exists c, parses_to reply from dst (icmp_proto from) ERROR_TTL ([t; code] ++ be16 c ++ rest ++ quoted orig (quote_room from))) /\
  verify_transport_checksum reply = Some true /\ zlen reply <= max_error from.

Lemma zlen_build_ipv4 s d proto ttl payload : zlen (build_ipv4 s d proto ttl payload) = 20 + zlen payload.
Proof. unfold build_ipv4. rewrite zlen_app, zlen_splice by (rewrite ?zlen_be16; done). done. Qed.

Lemma zlen_build_ipv6 s d nh hl payload : zlen (build_ipv6 s d nh hl payload) = 40 + zlen payload.
Proof. unfold build_ipv6. autorewrite with zlen. cbn [octets]. autorewrite with zlen. lia. Qed.

Lemma error_built orig from err reply :
  bytes_ok orig -> addr_ok from -> err_ok err -> error orig from err = Some reply ->
  exists dst, src_addr orig = Some dst /\ max_bits dst = max_bits from /\ error_about orig from dst err reply.
Proof.
  intros Hb Hf He E. unfold error in E. destruct (may_reply_with orig (Some err)); [|done]. cbn [negb] in E.
  destruct (src_addr orig) as [dst|] eqn:Es; [|done]. cbn [mbind option_bind] in E. exists dst. split; [done|].
  destruct (src_addr_ok orig dst Hb Es) as [Hd Hv]. pose proof (fields_ok from err He) as F. unfold error_about.
  assert (forall r, bytes_ok (quoted orig r)) as Hq by (intros; unfold quoted; bok).
  destruct from as [f|f], dst as [d|d]; try done; rewrite Hv in E; cbn [Z.eqb Pos.eqb] in E; (split; [done|]); rewrite ?fields_v4, ?fields_v6 in *.
  - destruct (v4_fields err) as [[t code] rest]. destruct F as (F1 & F2 & F3 & F4 & _). injection E as <-.
    change (sat_sub MAX_V4_ERROR (20 + 8)) with 548. pose proof (ipv4_header_len_le orig). rewrite (Z.max_l 548) by lia. cbn [quote_room].
    destruct (quoted_spec orig 548 ltac:(lia)) as [Q1 Q2]. pose proof (zlen_nonneg (quoted orig 548)).
    destruct (build_icmpv4_verifies f d ERROR_TTL t code rest (quoted orig 548)) as (P & V & c & Em); [done..|lia|].
    split_and!; [exists c; rewrite <- Em; exact P|exact V|]. rewrite zlen_build_ipv4, Em. autorewrite with zlen. cbn [max_error]. change MAX_V4_ERROR with 576. lia.
  - destruct (v6_fields err) as [[t code] rest]. destruct F as (F1 & F2 & F3 & F4 & _). injection E as <-.
    change (sat_sub MAX_V6_ERROR (40 + 8 + 40)) with 1192. cbn [quote_room].
    destruct (quoted_spec orig 1192 ltac:(lia)) as [Q1 Q2]. pose proof (zlen_nonneg (quoted orig 1192)).
    destruct (build_icmpv6_verifies f d ERROR_TTL t code rest (quoted orig 1192)) as (P & V & c & Em); [done..|lia|].
    split_and!; [exists c; rewrite <- Em; exact P|exact V|]. rewrite zlen_build_ipv6, Em. autorewrite with zlen. cbn [max_error]. change MAX_V6_ERROR with 1280. lia.
Qed.

(** C39: the error built about a packet, when one is allowed, is a valid,
    verifying ICMP message of the family's type and code for that error, sent
    from the given address to the packet's source, carrying the MTU or the
    pointer, and quoting the beginning of the packet within the size the
    family allows; it is refused only when the rules forbid it or the address
    is of the other family. *)
Theorem icmp_error_correct (orig : list Z) (from : IpAddr) (err : IcmpError) :
  bytes_ok orig -> addr_ok from -> err_ok err ->
  match error orig from err with
  | Some reply =>
      may_reply_with orig (Some err) = true /\ quoted orig (quote_room from) `prefix_of` orig /\
      exists dst, src_addr orig = Some dst /\ max_bits dst = max_bits from /\ error_about orig from dst err reply
  | None => may_reply_with orig (Some err) = false \/ (exists dst, src_addr orig = Some dst /\ max_bits dst <> max_bits from)
  end.
Proof.
  intros Hb Hf He. destruct (error orig from err) as [reply|] eqn:E.
  - split_and!; [unfold error in E; by destruct (may_reply_with _ _)|apply quoted_spec; by destruct from|by apply error_built].
  - unfold error in E. destruct (may_reply_with orig (Some err)) eqn:Em; [|by left]. right. cbn [negb] in E.
    destruct (src_addr orig) as [dst|] eqn:Es.
    + cbn [mbind option_bind] in E. destruct (src_addr_ok orig dst Hb Es) as [_ Hv]. exists dst. split; [done|].
      destruct from, dst; try done; rewrite Hv in E; cbn [Z.eqb Pos.eqb] in E; [destruct (v4_fields err) as [[? ?] ?]|destruct (v6_fields err) as [[? ?] ?]]; done.
    + unfold may_reply_with in Em. rewrite Es in Em. destruct (pkt_is_valid orig), (is_later_fragment orig), (is_multicast orig || is_broadcast orig), (multicast_exempt orig err); done.
Qed.

(** An error is never answered with an error: whatever error a node sends
    about a packet, no node, with any address, sends an error of any kind
    about that message, so that errors cannot chase each other. *)
Theorem no_error_about_error (orig : list Z) (from : IpAddr) (err : IcmpError) (reply : list Z) :
  bytes_ok orig -> addr_ok from -> err_ok err -> error orig from err = Some reply ->
  may_reply reply = false /\ forall from' err', error reply from' err' = None.
Proof.
  intros Hb Hf He E. assert (forall e, may_reply_with reply e = false) as K.
  { intros e. destruct (error_built orig from err reply Hb Hf He E) as (dst & _ & _ & A). unfold error_about in A.
    pose proof (fields_ok from err He) as F. destruct (fields from err) as [[t code] rest]. destruct F as (_ & _ & _ & F4 & F5 & F6).
    destruct A as [[c P] _]. unfold may_reply_with. rewrite (pt_valid _ _ _ _ _ _ P), (pt_src _ _ _ _ _ _ P), (pt_proto _ _ _ _ _ _ P), (pt_payload _ _ _ _ _ _ P).
    assert ((4 <=? zlen ([t; code] ++ be16 c ++ rest ++ quoted orig (quote_room from))) = true) as ->.
    { autorewrite with zlen. pose proof (zlen_nonneg (quoted orig (quote_room from))). lia. }
    assert (message_type ([t; code] ++ be16 c ++ rest ++ quoted orig (quote_room from)) = t) as Et.
    { unfold message_type. case_if; [|done]. autorewrite with zlen in *. pose proof (zlen_nonneg (quoted orig (quote_room from))). lia. }
    assert ((if icmp_proto from =? ICMP then is_icmpv4_error ([t; code] ++ be16 c ++ rest ++ quoted orig (quote_room from))
      else is_icmpv6_error ([t; code] ++ be16 c ++ rest ++ quoted orig (quote_room from))) = true) as ->.
    { unfold is_icmpv4_error, is_icmpv6_error. rewrite Et. destruct from; cbn [icmp_proto Z.eqb Pos.eqb]; [destruct F6 as [-> |[-> | ->]]; done|]. apply Z.ltb_lt. lia. }
    assert (((icmp_proto from =? ICMP) || (icmp_proto from =? ICMPV6)) = true) as -> by (by destruct from). cbn [negb].
    repeat (case_match; try done). }
  split; [apply K|]. intros from' err'. unfold error. by rewrite K.
Qed.

(** A UDP datagram from 10.0.0.1 whose TTL ran out. *)
Definition expired_udp : list Z := build_ipv4 167772161 167772162 UDP 1 (build_udp (V4 167772161) (V4 167772162) 5000 53 [104; 105]).
Definition router_addr : IpAddr := V4 167772414.

Lemma expired_udp_ok : bytes_ok expired_udp /\ addr_ok router_addr /\ err_ok (TimeExceeded 0).
Proof. split_and!; [|done|done].
  let b := eval vm_compute in expired_udp in change (bytes_ok b). repeat constructor; done. Qed.

Lemma icmp_error_correct_witness :
  match error expired_udp router_addr (TimeExceeded 0) with
  | Some reply =>
      may_reply_with expired_udp (Some (TimeExceeded 0)) = true /\ quoted expired_udp (quote_room router_addr) `prefix_of` expired_udp /\
      exists dst, src_addr expired_udp = Some dst /\ max_bits dst = max_bits router_addr /\ error_about expired_udp router_addr dst (TimeExceeded 0) reply
  | None => False
  end.
Proof.
  pose proof (icmp_error_correct expired_udp router_addr (TimeExceeded 0) (proj1 expired_udp_ok) (proj1 (proj2 expired_udp_ok)) (proj2 (proj2 expired_udp_ok))) as H.
  destruct (error expired_udp router_addr (TimeExceeded 0)) as [reply|] eqn:E; [exact H|]. vm_compute in E. discriminate E.
Defined.

Lemma no_error_about_error_witness :
  exists reply, time_exceeded expired_udp router_addr = Some reply /\ may_reply reply = false.
Proof.
  eexists. split; [vm_compute; reflexivity|].
  refine (proj1 (no_error_about_error expired_udp router_addr (TimeExceeded 0) _ (proj1 expired_udp_ok) (proj1 (proj2 expired_udp_ok)) (proj2 (proj2 expired_udp_ok)) _)).
  vm_compute. reflexivity.
Defined.
