(* ===== verification/HubStats.v ===== *)
(** * Counters of the hubs ([src/src/stats.rs])

    What [L2Hub] and [L3Hub] count about the frames and packets they carry. *)

From S2P Require Import Prelude.

Record HubStats := mkStats { received : Z; forwarded : Z; flooded : Z; dropped : Z }.

(** [bump]: saturating at the top of a [u64]. *)
Definition bump (c by_ : Z) : Z := Z.min (c + by_) (2 ^ 64 - 1).

Definition record_received (s : HubStats) : HubStats := mkStats (bump (received s) 1) (forwarded s) (flooded s) (dropped s).
Definition record_forwarded (s : HubStats) (n : Z) : HubStats := mkStats (received s) (bump (forwarded s) n) (flooded s) (dropped s).
Definition record_flooded (s : HubStats) : HubStats := mkStats (received s) (forwarded s) (bump (flooded s) 1) (dropped s).
Definition record_dropped (s : HubStats) : HubStats := mkStats (received s) (forwarded s) (flooded s) (bump (dropped s) 1).
