(* ===== verification/Depth.v ===== *)
(** * The depth of a thread's forwarding ([src/src/l2hub.rs], [DepthGuard])

    Forwarding is a chain of calls, hub into device into hub.  A counter of
    the thread is raised on the way in and lowered on the way out; a hop past
    the limit is refused. *)

From S2P Require Import Prelude.

Definition DEFAULT_MAX_FORWARD_DEPTH : Z := 16.

(** [DepthGuard::enter]: the counter once inside, or [None] when [max] is
    reached. *)
Definition enter (max depth : Z) : option Z := if depth >=? max then None else Some (depth + 1).

(** [Drop for DepthGuard]. *)
Definition leave (depth : Z) : Z := sat_sub depth 1.

(** [DepthGuard::enter_shared], against the process's limit. *)
Definition enter_shared (shared depth : Z) : option Z := enter shared depth.

(** ** The guard is balanced and bounded *)

Lemma enter_none max depth : enter max depth = None <-> max <= depth.
Proof. unfold enter. destruct (depth >=? max) eqn:E; split; (done || lia). Qed.

Lemma enter_some max depth d : enter max depth = Some d -> d = depth + 1 /\ d <= max.
Proof. unfold enter. destruct (depth >=? max) eqn:E; [done|]. intros [= <-]. lia. Qed.

Lemma leave_enter max depth d : 0 <= depth -> enter max depth = Some d -> leave d = depth.
Proof. intros H0 [-> _]%enter_some. unfold leave, sat_sub. lia. Qed.
