(* ===== verification/L3Hub.v ===== *)
(** * The IP routing hub ([src/src/l3hub.rs])

    Ports, longest-prefix route selection, reverse-path check, flooding,
    hop-limit decrement and Time Exceeded. *)

From S2P Require Import Prelude Ip Packet Build Icmp HubStats Depth.

(** ** State *)

(** A port: the device attached (its identity and the address it answers
    with), its id and whether its sources are checked. *)
Record Port := mkPort { dev : Z; dev_addr : IpPrefix; port_id : Z; strict_rpf : bool }.

Record Hub := mkHub {
  ports : list Port;
  default_route : option Z;
  stats : HubStats;
  icmp_source : option Z * option Z }.

Definition Hub_new : Hub := mkHub [] None (mkStats 0 0 0 0) (None, None).

(** A packet handed to a port's device. *)
Definition sending : Type := Z * list Z.

(** ** Attaching and configuring *)

Definition connect_arc (h : Hub) (d : Z) (a : IpPrefix) (next_id : Z) : Hub :=
  mkHub (ports h ++ [mkPort d a next_id false]) (default_route h) (stats h) (icmp_source h).

Fixpoint find_port (f : Port -> bool) (ps : list Port) : option Port :=
  match ps with
  | [] => None
  | p :: ps => if f p then Some p else find_port f ps
  end.

Definition set_default_route (h : Hub) (d : Z) : Hub :=
  match find_port (fun p => dev p =? d) (ports h) with
  | Some p => mkHub (ports h) (Some (port_id p)) (stats h) (icmp_source h)
  | None => h
  end.

(** The first port of that id gets the flag. *)
Fixpoint set_rpf (ps : list Port) (id : Z) (on : bool) : list Port :=
  match ps with
  | [] => []
  | p :: ps => if port_id p =? id then mkPort (dev p) (dev_addr p) (port_id p) on :: ps else p :: set_rpf ps id on
  end.

Definition set_strict_rpf (h : Hub) (id : Z) (on : bool) : Hub :=
  mkHub (set_rpf (ports h) id on) (default_route h) (stats h) (icmp_source h).

Definition set_icmp_source (h : Hub) (a : IpAddr) : Hub :=
  mkHub (ports h) (default_route h) (stats h)
    (match a with V4 x => (Some x, snd (icmp_source h)) | V6 x => (fst (icmp_source h), Some x) end).

Definition disconnect (h : Hub) (id : Z) : Hub :=
  mkHub (filter (fun p => (port_id p =? id) = false) (ports h))
    (if bool_decide (default_route h = Some id) then None else default_route h) (stats h) (icmp_source h).

(** ** Routing *)

Inductive Route := RPort (p : Port) | RDefault.

Definition covers (p : Port) (a : IpAddr) : bool := prefix_is_valid (dev_addr p) && contains (dev_addr p) a.

(** The loop of [select], with [best] and [sender_side]. *)
Fixpoint select_loop (ps : list Port) (source : Z) (dst : IpAddr) (best : option (Z * Port)) (side : bool) : Route :=
  match ps with
  | [] =>
      match best with
      | Some (_, p) => if side then RDefault else RPort p
      | None => RDefault
      end
  | p :: ps =>
      if negb (covers p dst) then select_loop ps source dst best side
      else if IpAddr_eqb (addr (dev_addr p)) dst then RPort p
      else
        let b' := bits (dev_addr p) in
        match best with
        | Some (b, q) =>
            if b >? b' then select_loop ps source dst best side
            else if b =? b' then select_loop ps source dst best (side || (port_id p =? source))
            else select_loop ps source dst (Some (b', p)) (false || (port_id p =? source))
        | None => select_loop ps source dst (Some (b', p)) (false || (port_id p =? source))
        end
  end.

Definition select (ps : list Port) (source : Z) (dst : IpAddr) : Route := select_loop ps source dst None false.

(** [std::net]: 169.254.0.0/16 and fe80::/10. *)
Definition is_link_local (a : IpAddr) : bool :=
  match a with V4 x => x / 2 ^ 16 =? 43518 | V6 x => x / 2 ^ 118 =? 1018 end.

Fixpoint rpf_loop (ps : list Port) (from : Z) (src : IpAddr) (dr : option Z) (best : option Z) (from_best : bool) : bool :=
  match ps with
  | [] => match best with Some _ => from_best | None => bool_decide (dr = Some from) end
  | p :: ps =>
      if negb (covers p src) then rpf_loop ps from src dr best from_best
      else if IpAddr_eqb (addr (dev_addr p)) src then port_id p =? from
      else
        let b' := bits (dev_addr p) in
        match best with
        | Some b =>
            if b >? b' then rpf_loop ps from src dr best from_best
            else if b =? b' then rpf_loop ps from src dr best (from_best || (port_id p =? from))
            else rpf_loop ps from src dr (Some b') (false || (port_id p =? from))
        | None => rpf_loop ps from src dr (Some b') (false || (port_id p =? from))
        end
  end.

Definition reverse_path_ok (h : Hub) (ps : list Port) (from : Z) (src : IpAddr) : bool :=
  if is_unspecified src || is_link_local src then true else rpf_loop ps from src (default_route h) None false.

(** [time_exceeded]: [allow] is the rate limiter's answer. *)
Definition hub_time_exceeded (h : Hub) (allow : bool) (orig : list Z) (ps : list Port) (source : Z) : list sending :=
  match (if version orig =? 4 then V4 <$> fst (icmp_source h) else V6 <$> snd (icmp_source h)) with
  | None => []
  | Some from =>
      match time_exceeded orig from with
      | None => []
      | Some reply =>
          if negb allow then []
          else match find_port (fun p => port_id p =? source) ps with Some p => [(port_id p, reply)] | None => [] end
      end
  end.

Definition with_stats (h : Hub) (s : HubStats) : Hub := mkHub (ports h) (default_route h) s (icmp_source h).
Definition drop_ (h : Hub) : Hub := with_stats h (record_dropped (stats h)).

(** Every port but the source. *)
Definition flood (ps : list Port) (source : Z) (pkt : list Z) : list sending :=
  (fun p => (port_id p, pkt)) <$> filter (fun p => (port_id p =? source) = false) ps.

(** [route], with the thread's forwarding [depth] deep and [shared] the
    process's limit on it. *)
Definition route (h : Hub) (depth shared : Z) (allow : bool) (pkt : list Z) (source : Z) : Hub * list sending :=
  let h := with_stats h (record_received (stats h)) in
  match enter_shared shared depth with
  | None => (drop_ h, [])
  | Some _ =>
      if negb (pkt_is_valid pkt) then (drop_ h, [])
      else
        match dst_addr pkt with
        | None => (drop_ h, [])
        | Some dst =>
            let ps := ports h in
            match find_port (fun p => port_id p =? source) ps with
            | None => (drop_ h, [])
            | Some src_port =>
                if strict_rpf src_port &&
                   negb (match src_addr pkt with Some a => reverse_path_ok h ps source a | None => false end) then (drop_ h, [])
                else if is_broadcast pkt || is_multicast pkt then
                  let sent := flood ps source pkt in
                  if zlen sent =? 0 then (drop_ h, [])
                  else (with_stats h (record_flooded (stats h)), sent)
                else
                  let out :=
                    match select ps source dst with
                    | RPort p => Some p
                    | RDefault => d ← default_route h; find_port (fun p => port_id p =? d) ps
                    end in
                  match out with
                  | Some out =>
                      if port_id out =? source then (drop_ h, [])
                      else
                        match decrement_hop_limit pkt with
                        | None => (drop_ h, hub_time_exceeded h allow pkt ps source)
                        | Some fwd => (with_stats h (record_forwarded (stats h) 1), [(port_id out, fwd)])
                        end
                  | None => (drop_ h, [])
                  end
            end
        end
  end.

(** ** The routing rules *)

(** The prefix of a port with an address leads to [a]: their leading bits
    agree. *)
Definition leads (p : Port) (a : IpAddr) : bool :=
  prefix_is_valid (dev_addr p) &&
  match addr (dev_addr p), a with
  | V4 n, V4 x => top_bits 32 (bits (dev_addr p)) n =? top_bits 32 (bits (dev_addr p)) x
  | V6 n, V6 x => top_bits 128 (bits (dev_addr p)) n =? top_bits 128 (bits (dev_addr p)) x
  | _, _ => false
  end.

Definition owns (a : IpAddr) (p : Port) : bool := leads p a && IpAddr_eqb (addr (dev_addr p)) a.

(** The length of the longest prefix leading to [a], or [-1]. *)
Definition longest (a : IpAddr) (ps : list Port) : Z :=
  foldr (fun p acc => if leads p a then Z.max (bits (dev_addr p)) acc else acc) (-1) ps.

(** A port with a prefix of that length leading to [a]. *)
Definition at_length (a : IpAddr) (b : Z) (p : Port) : bool := leads p a && (bits (dev_addr p) =? b).

Definition is_port (id : Z) (p : Port) : bool := port_id p =? id.

(** The rules in the hub's documentation: the owner of the address; else,
    unless the sender is among the ports of the longest prefix, the first of
    those; else the default route. *)
Definition ruled (ps : list Port) (source : Z) (dst : IpAddr) : Route :=
  match find_port (owns dst) ps with
  | Some p => RPort p
  | None =>
      if existsb (fun p => at_length dst (longest dst ps) p && is_port source p) ps then RDefault
      else match find_port (at_length dst (longest dst ps)) ps with Some p => RPort p | None => RDefault end
  end.

(** Which ports a source address may come from: its owner; else every port
    that shares the longest prefix; else the default route. *)
Definition belongs (ps : list Port) (dr : option Z) (from : Z) (src : IpAddr) : bool :=
  match find_port (owns src) ps with
  | Some p => is_port from p
  | None =>
      if longest src ps =? -1 then bool_decide (dr = Some from)
      else existsb (fun p => at_length src (longest src ps) p && is_port from p) ps
  end.

Definition ports_ok (ps : list Port) : Prop := Forall (fun p => prefix_ok (dev_addr p)) ps.

Lemma covers_leads p a : prefix_ok (dev_addr p) -> addr_ok a -> covers p a = leads p a.
Proof. intros Hp Ha. unfold covers, leads. by rewrite contains_spec_gen. Qed.

Lemma longest_ge a ps : -1 <= longest a ps.
Proof. induction ps as [|p ps IH]; [done|]. cbn [longest foldr]. fold (longest a ps). case_match; lia. Qed.

Lemma longest_cons a p ps : longest a (p :: ps) = if leads p a then Z.max (bits (dev_addr p)) (longest a ps) else longest a ps.
Proof. done. Qed.

(** No prefix longer than the longest. *)
Lemma above_longest a b ps : ports_ok ps -> longest a ps < b -> existsb (at_length a b) ps = false /\ find_port (at_length a b) ps = None.
Proof.
  induction 1 as [|p ps Hp _ IH]; [done|]. rewrite longest_cons. intros Hb. cbn [existsb find_port]. unfold at_length at 1 3.
  destruct (leads p a); cbn [andb orb]; [|by apply IH]. replace (bits (dev_addr p) =? b) with false by lia. apply IH. lia.
Qed.

Lemma existsb_andb {A} (f g : A -> bool) l : existsb f l = false -> existsb (fun x => f x && g x) l = false.
Proof. induction l as [|x l IH]; [done|]. cbn. intros [-> H]%orb_false_iff. by apply IH. Qed.

Section Loops.
Context (source : Z) (a : IpAddr) (Ha : addr_ok a).

Lemma select_owner ps best side p : ports_ok ps -> find_port (owns a) ps = Some p -> select_loop ps source a best side = RPort p.
Proof using Ha.
  intros Hok. revert best side. induction Hok as [|q ps Hq _ IH]; [done|]. intros best side. cbn [find_port select_loop]. unfold owns at 1.
  rewrite covers_leads by done. destruct (leads q a); cbn [andb negb]; [|by apply IH].
  destruct (IpAddr_eqb _ a); [congruence|]. intros E. repeat case_match; by apply IH.
Qed.

Lemma select_no_owner ps best side : ports_ok ps -> find_port (owns a) ps = None ->
  match best with Some (b, _) => 0 <= b | None => side = false end ->
  let lb := match best with Some (b, _) => b | None => -1 end in
  let m := longest a ps in
  select_loop ps source a best side =
    if lb <? m then
      if existsb (fun p => at_length a m p && is_port source p) ps then RDefault
      else match find_port (at_length a m) ps with Some p => RPort p | None => RDefault end
    else match best with
         | Some (b, q) => if side || existsb (fun p => at_length a b p && is_port source p) ps then RDefault else RPort q
         | None => RDefault
         end.
Proof using Ha.
  intros Hok. revert best side. induction Hok as [|q ps Hq Hps IH]; intros best side Hno Hb lb m.
  { unfold m, lb. cbn. destruct best as [[b p]|]; [|done]. replace (b <? -1) with false by lia. by rewrite orb_false_r. }
  cbn [find_port select_loop] in *. rewrite covers_leads by done. unfold owns at 1 in Hno. unfold m. rewrite longest_cons.
  cbn [existsb find_port].
  assert (forall b, at_length a b q = leads q a && (bits (dev_addr q) =? b)) as Eat by done.
  destruct (leads q a) eqn:El; cbn [andb orb negb] in *; [|destruct best as [[b p]|]; rewrite !Eat; cbn [andb orb]; [apply (IH (Some (b, p)))|apply (IH None)]; done].
  destruct (IpAddr_eqb _ a); [done|]. pose proof (longest_ge a ps) as Hl. destruct Hq as [_ Hbits].
  set (b' := bits (dev_addr q)) in *. set (m0 := longest a ps) in *.
  assert (forall b, m0 < b -> existsb (fun p => at_length a b p && is_port source p) ps = false /\ find_port (at_length a b) ps = None) as Habove.
  { intros b Hlt. destruct (above_longest a b ps Hps Hlt) as [E1 E2]. split; [by apply existsb_andb|done]. }
  assert (select_loop ps source a (Some (b', q)) (is_port source q) =
    if (b' =? Z.max b' m0) && is_port source q || existsb (fun p => at_length a (Z.max b' m0) p && is_port source p) ps then RDefault
    else match (if b' =? Z.max b' m0 then Some q else find_port (at_length a (Z.max b' m0)) ps) with Some p => RPort p | None => RDefault end) as Hnew.
  { rewrite (IH (Some (b', q)) _ Hno (proj1 Hbits)). cbn [orb]. destruct (b' <? m0) eqn:E; bool2prop.
    - rewrite Z.max_r by lia. by replace (b' =? m0) with false by lia.
    - rewrite Z.max_l, Z.eqb_refl by lia. cbn [andb]. by destruct (is_port source q || _). }
  destruct best as [[b p]|]; rewrite !Eat; unfold lb; clear lb; [|change (port_id q =? source) with (is_port source q); rewrite Hnew; by replace (-1 <? Z.max b' m0) with true by lia].
  destruct (b >? b') eqn:E1; bool2prop; [|destruct (b =? b') eqn:E2; bool2prop].
  - rewrite (IH (Some (b, p)) side Hno Hb). fold m0. rewrite (Z.max_comm b'). destruct (b <? m0) eqn:E; bool2prop.
    + rewrite Z.max_l by lia. replace (b <? m0) with true by lia. by replace (b' =? m0) with false by lia.
    + replace (b <? Z.max m0 b') with false by lia. by replace (b' =? b) with false by lia.
  - subst b. rewrite (IH (Some (b', p)) _ Hno Hb). fold m0. rewrite Z.eqb_refl. cbn [andb]. destruct (b' <? m0) eqn:E; bool2prop.
    + rewrite Z.max_r by lia. replace (b' <? m0) with true by lia. by replace (b' =? m0) with false by lia.
    + rewrite Z.max_l by lia. rewrite Z.ltb_irrefl. by rewrite orb_assoc.
  - change (port_id q =? source) with (is_port source q). rewrite Hnew. by replace (b <? Z.max b' m0) with true by lia.
Qed.

Lemma rpf_owner ps dr best fb p : ports_ok ps -> find_port (owns a) ps = Some p -> rpf_loop ps source a dr best fb = is_port source p.
Proof using Ha.
  intros Hok. revert best fb. induction Hok as [|q ps Hq _ IH]; [done|]. intros best fb. cbn [find_port rpf_loop]. unfold owns at 1.
  rewrite covers_leads by done. destruct (leads q a); cbn [andb negb]; [|by apply IH].
  destruct (IpAddr_eqb _ a); [by intros [= ->]|]. intros E. repeat case_match; by apply IH.
Qed.

Lemma rpf_no_owner ps dr best fb : ports_ok ps -> find_port (owns a) ps = None ->
  match best with Some b => 0 <= b | None => True end ->
  rpf_loop ps source a dr best fb =
    if default (-1) best <? longest a ps then existsb (fun p => at_length a (longest a ps) p && is_port source p) ps
    else match best with
         | Some b => fb || existsb (fun p => at_length a b p && is_port source p) ps
         | None => bool_decide (dr = Some source)
         end.
Proof using Ha.
  intros Hok. revert best fb. induction Hok as [|q ps Hq Hps IH]; intros best fb Hno Hb.
  { destruct best as [b|]; [|done]. cbn. replace (b <? -1) with false by lia. by rewrite orb_false_r. }
  cbn [find_port rpf_loop] in *. rewrite covers_leads by done. unfold owns at 1 in Hno. rewrite longest_cons. cbn [existsb].
  assert (forall b, at_length a b q = leads q a && (bits (dev_addr q) =? b)) as Eat by done.
  destruct (leads q a) eqn:El; cbn [andb orb negb] in *; [|destruct best as [b|]; rewrite !Eat; cbn [andb orb]; [apply (IH (Some b))|apply (IH None)]; done].
  destruct (IpAddr_eqb _ a); [done|]. pose proof (longest_ge a ps) as Hl. destruct Hq as [_ Hbits].
  set (b' := bits (dev_addr q)) in *. set (m0 := longest a ps) in *. change (port_id q =? source) with (is_port source q).
  assert (rpf_loop ps source a dr (Some b') (is_port source q) =
    (b' =? Z.max b' m0) && is_port source q || existsb (fun p => at_length a (Z.max b' m0) p && is_port source p) ps) as Hnew.
  { rewrite (IH (Some b') _ Hno (proj1 Hbits)). cbn [default from_option Datatypes.id]. destruct (b' <? m0) eqn:E; bool2prop.
    - rewrite Z.max_r by lia. by replace (b' =? m0) with false by lia.
    - by rewrite Z.max_l, Z.eqb_refl by lia. }
  destruct best as [b|]; rewrite !Eat; cbn [default from_option Datatypes.id]; [|rewrite Hnew; by replace (-1 <? Z.max b' m0) with true by lia].
  destruct (b >? b') eqn:E1; bool2prop; [|destruct (b =? b') eqn:E2; bool2prop].
  - rewrite (IH (Some b) fb Hno Hb). fold m0. rewrite (Z.max_comm b'). cbn [default from_option Datatypes.id]. destruct (b <? m0) eqn:E; bool2prop.
    + rewrite Z.max_l by lia. replace (b <? m0) with true by lia. by replace (b' =? m0) with false by lia.
    + replace (b <? Z.max m0 b') with false by lia. by replace (b' =? b) with false by lia.
  - subst b. rewrite (IH (Some b') _ Hno Hb). fold m0. cbn [default from_option Datatypes.id]. rewrite Z.eqb_refl. cbn [andb]. destruct (b' <? m0) eqn:E; bool2prop.
    + rewrite Z.max_r by lia. replace (b' <? m0) with true by lia. by replace (b' =? m0) with false by lia.
    + rewrite Z.max_l by lia. rewrite Z.ltb_irrefl. by rewrite orb_assoc.
  - rewrite Hnew. by replace (b <? Z.max b' m0) with true by lia.
Qed.
End Loops.

Lemma no_length a ps : ports_ok ps -> existsb (at_length a (-1)) ps = false /\ find_port (at_length a (-1)) ps = None.
Proof.
  induction 1 as [|p ps [_ Hp] _ IH]; [done|]. destruct IH as [I1 I2]. cbn [existsb find_port]. unfold at_length at 1 3.
  replace (bits (dev_addr p) =? -1) with false by lia. by rewrite andb_false_r.
Qed.

Lemma select_ruled ps source a : ports_ok ps -> addr_ok a -> select ps source a = ruled ps source a.
Proof.
  intros Hok Ha. unfold select, ruled. destruct (find_port (owns a) ps) as [p|] eqn:E; [by apply select_owner|].
  rewrite select_no_owner by done. pose proof (longest_ge a ps). cbv zeta. destruct (-1 <? longest a ps) eqn:El; [done|].
  bool2prop. replace (longest a ps) with (-1) by lia. destruct (no_length a ps Hok) as [K1 K2]. by rewrite existsb_andb, K2.
Qed.

Lemma reverse_path_belongs h ps source a : ports_ok ps -> addr_ok a ->
  reverse_path_ok h ps source a = is_unspecified a || is_link_local a || belongs ps (default_route h) source a.
Proof.
  intros Hok Ha. unfold reverse_path_ok, belongs. destruct (is_unspecified a || is_link_local a); [done|]. cbn [orb].
  destruct (find_port (owns a) ps) as [p|] eqn:E; [by apply rpf_owner|].
  rewrite rpf_no_owner by done. pose proof (longest_ge a ps). cbn [default from_option Datatypes.id].
  destruct (-1 <? longest a ps) eqn:El; bool2prop; [by replace (longest a ps =? -1) with false by lia|].
  by replace (longest a ps) with (-1) by lia.
Qed.

(** C22: the one-pass route selection, with its running best and its
    early return, follows the documented rules: the owner of the address, else
    the first port of the longest prefix whose leading bits agree, unless the
    sender is on such a prefix, else the default route.  The reverse-path
    check accepts a source from a port when it is link-scoped; else, if a
    port owns the address, from that port only; else from every port of the
    longest prefix that contains it, however many share it and whichever was
    attached first; else from the default route. *)
Theorem select_is_longest_prefix (h : Hub) (ps : list Port) (source : Z) (a : IpAddr) :
  ports_ok ps -> addr_ok a ->
  select ps source a = ruled ps source a /\
  reverse_path_ok h ps source a = is_unspecified a || is_link_local a || belongs ps (default_route h) source a.
Proof. intros Hok Ha. split; [by apply select_ruled|by apply reverse_path_belongs]. Qed.

Definition demo_ports : list Port :=
  [mkPort 1 (mkPrefix (V4 167772161) 8) 1 false; mkPort 2 (mkPrefix (V4 167837953) 16) 2 false; mkPort 3 (mkPrefix (V4 3232235777) 24) 3 true].
Definition demo_hub : Hub := mkHub demo_ports (Some 1) (mkStats 0 0 0 0) (Some 3232236030, None).

Lemma demo_ports_ok : ports_ok demo_ports.
Proof. repeat constructor; done. Qed.

Lemma select_is_longest_prefix_witness :
  select demo_ports 3 (V4 167838210) = ruled demo_ports 3 (V4 167838210) /\
  ruled demo_ports 3 (V4 167838210) = RPort (mkPort 2 (mkPrefix (V4 167837953) 16) 2 false).
Proof.
  split; [|vm_compute; reflexivity]. refine (proj1 (select_is_longest_prefix demo_hub demo_ports 3 (V4 167838210) demo_ports_ok _)). done.
Defined.

(** ** Routing one packet *)

Lemma find_port_spec f ps p : find_port f ps = Some p -> p ∈ ps /\ f p = true.
Proof. induction ps as [|q ps IH]; [done|]. cbn [find_port]. case_match eqn:E; [intros [= ->]; split; [left|done]|]. intros H. destruct (IH H). split; [by right|done]. Qed.

(** The port the rules, then the default route, give a destination. *)
Definition next_hop (h : Hub) (source : Z) (dst : IpAddr) : option Port :=
  match ruled (ports h) source dst with
  | RPort p => Some p
  | RDefault => d ← default_route h; find_port (is_port d) (ports h)
  end.

Lemma dst_addr_ok p a : bytes_ok p -> dst_addr p = Some a -> addr_ok a.
Proof.
  intros Hb. unfold dst_addr, ipv4_dst_addr, ipv6_dst_addr. repeat case_match; try done; intros [= <-]; bool2prop.
  - pose proof (of_be_bytes_bound (slice p 16 20) ltac:(bok)) as B. rewrite zlen_slice in B. cbn [addr_ok].
    replace (Z.min _ _) with 4 in B by lia. exact B.
  - pose proof (of_be_bytes_bound (slice p 24 40) ltac:(bok)) as B. rewrite zlen_slice in B. cbn [addr_ok].
    replace (Z.min _ _) with 16 in B by lia. exact B.
Qed.

Lemma next_hop_port h source dst out : next_hop h source dst = Some out -> out ∈ ports h.
Proof.
  unfold next_hop, ruled. intros E. assert (forall f p, find_port f (ports h) = Some p -> p ∈ ports h) as F by (intros f p Ep; by apply find_port_spec in Ep as [? _]).
  destruct (find_port (owns dst) (ports h)) eqn:E1; [by simplify_eq; eapply F|].
  destruct (existsb _ _); [|destruct (find_port (at_length _ _) _) eqn:E2; [by simplify_eq; eapply F|]].
  all: destruct (default_route h); [cbn in E; by eapply F|done].
Qed.

Definition sources_ok (h : Hub) : Prop :=
  match fst (icmp_source h) with Some x => addr_ok (V4 x) | None => True end /\
  match snd (icmp_source h) with Some x => addr_ok (V6 x) | None => True end.

(** The outcome of routing [pkt] in from [source]. *)
Inductive routed (h : Hub) (pkt : list Z) (source : Z) : HubStats -> list sending -> Prop :=
| Dropped : routed h pkt source (record_dropped (record_received (stats h))) []
| Expired reply from dst :
    hop_limit pkt <= 1 -> src_addr pkt = Some dst -> error_about pkt from dst (TimeExceeded 0) reply ->
    routed h pkt source (record_dropped (record_received (stats h))) [(source, reply)]
| Flooded :
    (is_broadcast pkt || is_multicast pkt) = true ->
    routed h pkt source (record_flooded (record_received (stats h))) (flood (ports h) source pkt)
| Forwarded dst out fwd :
    dst_addr pkt = Some dst -> next_hop h source dst = Some out -> out ∈ ports h -> port_id out <> source ->
    hop_limit fwd = hop_limit pkt - 1 -> 1 <= hop_limit fwd -> zlen fwd = zlen pkt ->
    (forall i, 0 <= i -> i <> 7 -> i <> 8 -> i <> 10 -> i <> 11 -> fwd.[i] = pkt.[i]) ->
    (verify_ipv4_checksum pkt = true -> verify_ipv4_checksum fwd = true) ->
    routed h pkt source (record_forwarded (record_received (stats h)) 1) [(port_id out, fwd)].

Lemma hub_time_exceeded_spec h allow pkt ps source :
  bytes_ok pkt -> sources_ok h ->
  hub_time_exceeded h allow pkt ps source = [] \/
  exists reply from dst, hub_time_exceeded h allow pkt ps source = [(source, reply)] /\ src_addr pkt = Some dst /\ error_about pkt from dst (TimeExceeded 0) reply.
Proof.
  intros Hb [H4 H6]. unfold hub_time_exceeded.
  destruct (if version pkt =? 4 then V4 <$> fst (icmp_source h) else V6 <$> snd (icmp_source h)) as [from|] eqn:Ef; [|by left].
  assert (addr_ok from) as Hf.
  { destruct (version pkt =? 4); [destruct (fst (icmp_source h))|destruct (snd (icmp_source h))]; try done; injection Ef as <-; done. }
  destruct (time_exceeded pkt from) as [reply|] eqn:Et; [|by left]. destruct allow; [|by left]. cbn [negb].
  destruct (find_port _ ps) as [p|] eqn:Ep; [|by left]. right. apply find_port_spec in Ep as [_ Ep]. bool2prop. subst source.
  assert (error pkt from (TimeExceeded 0) = Some reply) as Ee.
  { unfold time_exceeded in Et. change icmpv4.CODE_TTL_EXCEEDED with 0 in Et. change icmpv6.CODE_HOP_LIMIT_EXCEEDED with 0 in Et. by repeat case_match. }
  destruct (error_built pkt from (TimeExceeded 0) reply Hb Hf ltac:(done) Ee) as (dst & Es & _ & A). by exists reply, from, dst.
Qed.

(** C20: routing a packet changes nothing of the hub but its counters, which
    count every packet once, and does one of four things: drop it; drop it
    expired, with at most one Time Exceeded, to the port it came from; flood a
    broadcast or multicast unchanged to every port but its source; or send it
    to the one port the routing rules give, never the source, with the hop
    limit one lower, the header checksum still right and every other byte as
    it was. With the reverse-path check on, a source the rules do not give to
    the port is always dropped. *)
Theorem route_correct (h : Hub) (depth max : Z) (allow : bool) (pkt : list Z) (source : Z) :
  bytes_ok pkt -> ports_ok (ports h) -> sources_ok h ->
  let '(h', sends) := route h depth max allow pkt source in
  ports h' = ports h /\ default_route h' = default_route h /\ icmp_source h' = icmp_source h /\
  routed h pkt source (stats h') sends /\
  (forall p a, find_port (is_port source) (ports h) = Some p -> strict_rpf p = true -> src_addr pkt = Some a ->
     (is_unspecified a || is_link_local a || belongs (ports h) (default_route h) source a) = false -> sends = []).
Proof.
  intros Hb Hps Hsrc. unfold route. set (h1 := with_stats h (record_received (stats h))).
  assert (routed h pkt source (stats (drop_ h1)) []) as HD by constructor.
  destruct (enter_shared max depth); [|done]. destruct (pkt_is_valid pkt) eqn:Ev; [|done]. cbn [negb].
  destruct (dst_addr pkt) as [dst|] eqn:Ed; [|done]. change (ports h1) with (ports h).
  change (fun p => port_id p =? source) with (is_port source).
  destruct (find_port (is_port source) (ports h)) as [sp|] eqn:Esp; [|done].
  assert (forall a, src_addr pkt = Some a -> reverse_path_ok h1 (ports h) source a = is_unspecified a || is_link_local a || belongs (ports h) (default_route h) source a) as Hrp.
  { intros a Ea. destruct (src_addr_ok pkt a Hb Ea) as [Ha _]. exact (reverse_path_belongs h1 (ports h) source a Hps Ha). }
  destruct (strict_rpf sp && negb _) eqn:Erpf; [done|].
  assert (forall s l, ports s = ports h -> default_route s = default_route h -> icmp_source s = icmp_source h -> routed h pkt source (stats s) l ->
    ports s = ports h /\ default_route s = default_route h /\ icmp_source s = icmp_source h /\ routed h pkt source (stats s) l /\
    (forall p a, Some sp = Some p -> strict_rpf p = true -> src_addr pkt = Some a ->
       (is_unspecified a || is_link_local a || belongs (ports h) (default_route h) source a) = false -> l = [])) as Hwrap.
  { intros s l H1 H2 H3 H4. split_and!; [done..|]. intros p a [= <-] Hstrict Ha Hno. rewrite Hstrict, Ha, (Hrp a Ha), Hno in Erpf. done. }
  destruct (is_broadcast pkt || is_multicast pkt) eqn:Ebm.
  { destruct (zlen (flood (ports h) source pkt) =? 0); apply Hwrap; try done. by apply Flooded. }
  rewrite (select_ruled _ _ _ Hps (dst_addr_ok pkt dst Hb Ed)). change (default_route h1) with (default_route h).
  change (match ruled (ports h) source dst with RPort p => Some p | RDefault => d ← default_route h; find_port (fun p => port_id p =? d) (ports h) end)
    with (next_hop h source dst).
  destruct (next_hop h source dst) as [out|] eqn:Eout; [|by apply Hwrap].
  destruct (port_id out =? source) eqn:Eid; bool2prop; [by apply Hwrap|].
  destruct (decrement_hop_limit pkt) as [fwd|] eqn:Edec.
  - destruct (decrement_hop_limit_facts pkt fwd Hb Ev Edec) as (F1 & F2 & F3 & _ & F5 & F6). apply Hwrap; try done.
    eapply Forwarded; try done. by eapply next_hop_port.
  - destruct (hub_time_exceeded_spec h1 allow pkt (ports h) source Hb Hsrc) as [->|(reply & from & d & -> & E1 & E2)]; apply Hwrap; try done.
    apply (Expired _ _ _ reply from d); [|done|done]. unfold decrement_hop_limit in Edec. case_match; bool2prop; [lia|done].
Qed.

Definition demo_packet : list Z := build_ipv4 3232235786 167838210 UDP 64 (build_udp (V4 3232235786) (V4 167838210) 5000 53 [104; 105]).

Lemma demo_packet_ok : bytes_ok demo_packet.
Proof. let b := eval vm_compute in demo_packet in change (bytes_ok b). repeat constructor; done. Qed.

Lemma route_correct_witness :
  routed demo_hub demo_packet 3 (stats (route demo_hub 0 16 true demo_packet 3).1) (route demo_hub 0 16 true demo_packet 3).2 /\
  (fst <$> (route demo_hub 0 16 true demo_packet 3).2) = [2].
Proof.
  split; [|vm_compute; reflexivity].
  pose proof (route_correct demo_hub 0 16 true demo_packet 3 demo_packet_ok demo_ports_ok ltac:(done)) as H.
  destruct (route demo_hub 0 16 true demo_packet 3) as [h' sends]. exact (proj1 (proj2 (proj2 (proj2 H)))).
Defined.
