(* ===== verification/L2Hub.v ===== *)
(** * The learning Ethernet switch ([src/src/l2hub.rs])

    VLAN sets and port modes, the egress forms of a frame, the learning
    table with its limits, learning, lookup, flooding and forwarding, and
    the configuration of ports.  Locks are sequential steps; a clock reading
    is an argument of the operation that reads it.  A frame handed to a
    device is a pair of the port's id and the bytes. *)

From S2P Require Import Prelude Bitmap Frame HubStats Depth.

Definition MAC_AGING : Z := 300 * 10 ^ 9.
Definition MAC_TABLE_MAX_SIZE : Z := 8192.
Definition DEFAULT_PORT_MAC_LIMIT : Z := 1024.

(** ** VLAN sets *)

Inductive VlanSet := All | Bits (b : list Z).

Definition vs_all : VlanSet := All.
Definition vs_none : VlanSet := Bits (replicate 64 0).

Definition bits_mut (s : VlanSet) : list Z :=
  match s with All => replicate 64 U64_MAX | Bits b => b end.

Definition vs_insert (s : VlanSet) (vlan : Z) : VlanSet :=
  if vlan >? 4095 then s else Bits (set_bit (bits_mut s) (vlan / 64) (vlan mod 64)).

Definition vs_remove (s : VlanSet) (vlan : Z) : VlanSet :=
  if vlan >? 4095 then s else Bits (clear_bit (bits_mut s) (vlan / 64) (vlan mod 64)).

Definition from_ids (ids : list Z) : VlanSet := foldl vs_insert vs_none ids.

Definition vs_contains (s : VlanSet) (vlan : Z) : bool :=
  if vlan >? 4095 then false
  else match s with All => true | Bits b => test_bit b (vlan / 64) (vlan mod 64) end.

(** ** Port modes *)

Inductive PortMode :=
| Access (vlan : Z)
| Trunk (allowed : VlanSet) (native : option Z).

Definition transparent : PortMode := Trunk vs_all (Some 0).

Inductive TagAction := Untagged | Tagged (vlan : Z).

Definition ingress_vlan (m : PortMode) (tagged : option Z) : option Z :=
  let tagged := t ← tagged; if negb (t =? 0) then Some t else None in
  match m, tagged with
  | Access vlan, None => Some vlan
  | Access _, Some _ => None
  | Trunk allowed _, Some t => if vs_contains allowed t then Some t else None
  | Trunk allowed native, None => n ← native; if vs_contains allowed n then Some n else None
  end.

Definition egress (m : PortMode) (vlan : Z) : option TagAction :=
  match m with
  | Access v => if v =? vlan then Some Untagged else None
  | Trunk allowed native =>
      if negb (vs_contains allowed vlan) then None
      else if bool_decide (native = Some vlan) then Some Untagged
      else Some (Tagged vlan)
  end.

(** ** The forms of one frame on the way out, each built at most once *)

Record Egress := mkEgress { original : list Z; pcp : Z; untagged : option (list Z); tagged : option (Z * list Z) }.

Definition Egress_new (f : list Z) : Egress := mkEgress f (vlan_pcp f) None None.

Definition apply (e : Egress) (a : TagAction) : Egress * option (list Z) :=
  match a with
  | Untagged =>
      if negb (has_vlan (original e)) then (e, Some (original e))
      else
        let buf := match untagged e with Some b => b | None => pop_vlan (original e) end in
        (mkEgress (original e) (pcp e) (Some buf) (tagged e), if negb (has_vlan buf) then Some buf else None)
  | Tagged vlan =>
      if has_vlan (original e) && (vlan_id (original e) =? vlan) then (e, Some (original e))
      else
        match tagged e with
        | Some (v, buf) =>
            if v =? vlan then (e, Some buf)
            else
              let base := if has_vlan (original e) then pop_vlan (original e) else original e in
              if has_vlan base then (e, None)
              else let out := push_vlan base vlan (pcp e) in
                   (mkEgress (original e) (pcp e) (untagged e) (Some (vlan, out)), Some out)
        | None =>
            let base := if has_vlan (original e) then pop_vlan (original e) else original e in
            if has_vlan base then (e, None)
            else let out := push_vlan base vlan (pcp e) in
                 (mkEgress (original e) (pcp e) (untagged e) (Some (vlan, out)), Some out)
        end
  end.

(** ** Ports *)

Record Port := mkPort { dev : Z; id : Z; mac_limit : option Z; mode : PortMode; secure : bool }.

Record PortTable := mkTable { plist : list Port; by_id : gmap Z Port }.

Definition from_list (l : list Port) : PortTable :=
  mkTable l (foldl (fun m p => <[id p := p]> m) ∅ l).

Definition pt_get (t : PortTable) (i : Z) : option Port := by_id t !! i.

(** ** The learning table *)

(** VLAN and address. *)
Definition MacKey : Type := Z * list Z.

Record MacEntry := mkEntry { port_id : Z; expires : Z }.

Record MacTable := mkMacs {
  entries : gmap MacKey MacEntry;
  per_port : gmap Z Z;
  prune_after : option Z }.

Definition MacTable_default : MacTable := mkMacs ∅ ∅ None.

Definition decrement (counts : gmap Z Z) (p : Z) : gmap Z Z :=
  match counts !! p with
  | Some n => let n := sat_sub n 1 in if n =? 0 then delete p counts else <[p := n]> counts
  | None => counts
  end.

(** [*counts.entry(p).or_insert(0) += 1] *)
Definition increment (counts : gmap Z Z) (p : Z) : gmap Z Z :=
  <[p := default 0 (counts !! p) + 1]> counts.

Definition mt_insert (t : MacTable) (key : MacKey) (e : MacEntry) : MacTable :=
  let counts := match entries t !! key with Some old => decrement (per_port t) (port_id old) | None => per_port t end in
  mkMacs (<[key := e]> (entries t)) (increment counts (port_id e)) (prune_after t).

Definition mt_remove (t : MacTable) (key : MacKey) : MacTable :=
  match entries t !! key with
  | Some old => mkMacs (delete key (entries t)) (decrement (per_port t) (port_id old)) (prune_after t)
  | None => t
  end.

Definition purge_port (t : MacTable) (p : Z) : MacTable :=
  mkMacs (filter (fun '(_, e) => port_id e <> p) (entries t)) (delete p (per_port t)) (prune_after t).

Definition port_count (t : MacTable) (p : Z) : Z := default 0 (per_port t !! p).

(** [values().map(|e| e.expires).min()] *)
Fixpoint min_of (l : list Z) : option Z :=
  match l with
  | [] => None
  | x :: l => Some (match min_of l with Some y => Z.min x y | None => x end)
  end.

Definition values (m : gmap MacKey MacEntry) : list MacEntry := snd <$> map_to_list m.

Definition prune_expired (t : MacTable) (now : Z) : MacTable :=
  if match prune_after t with Some x => now <? x | None => false end then t
  else
    let es := filter (fun '(_, e) => now < expires e) (entries t) in
    mkMacs es (foldl (fun c e => increment c (port_id e)) ∅ (values es)) (min_of (expires <$> values es)).

(** ** The hub *)

Record L2Hub := mkHub {
  ports : PortTable;
  mac_table : MacTable;
  stats : HubStats;
  loop_drops : Z;
  max_depth : Z }.

Definition L2Hub_new : L2Hub :=
  mkHub (from_list []) MacTable_default (mkStats 0 0 0 0) 0 DEFAULT_MAX_FORWARD_DEPTH.

Definition with_ports (h : L2Hub) (t : PortTable) : L2Hub := mkHub t (mac_table h) (stats h) (loop_drops h) (max_depth h).
Definition with_macs (h : L2Hub) (t : MacTable) : L2Hub := mkHub (ports h) t (stats h) (loop_drops h) (max_depth h).
Definition with_stats (h : L2Hub) (s : HubStats) : L2Hub := mkHub (ports h) (mac_table h) s (loop_drops h) (max_depth h).

(** The hub's limit, and the process's shared one raised to it. *)
Definition set_max_forward_depth (h : L2Hub) (shared depth : Z) : L2Hub * Z :=
  let depth := Z.max depth 1 in
  (mkHub (ports h) (mac_table h) (stats h) (loop_drops h) depth, Z.max shared depth).

(** Only the first port of that id. *)
Fixpoint edit_port (l : list Port) (i : Z) (edit : Port -> Port) : list Port :=
  match l with
  | [] => []
  | p :: l => if negb (id p =? i) then p :: edit_port l i edit else edit p :: l
  end.

Definition reconfigure (h : L2Hub) (i : Z) (edit : Port -> Port) : L2Hub :=
  with_ports h (from_list (edit_port (plist (ports h)) i edit)).

Definition set_port_mac_limit (h : L2Hub) (i : Z) (limit : option Z) : L2Hub :=
  reconfigure h i (fun p => mkPort (dev p) (id p) limit (mode p) (secure p)).

Definition set_port_secure (h : L2Hub) (i : Z) (on : bool) : L2Hub :=
  reconfigure h i (fun p => mkPort (dev p) (id p) (mac_limit p) (mode p) on).

Definition set_port_mode (h : L2Hub) (i : Z) (m : PortMode) : L2Hub :=
  let h := reconfigure h i (fun p => mkPort (dev p) (id p) (mac_limit p) m (secure p)) in
  with_macs h (purge_port (mac_table h) i).

Definition port_mode (h : L2Hub) (i : Z) : option PortMode := mode <$> pt_get (ports h) i.

Definition mac_table_len (h : L2Hub) : Z := Z.of_nat (size (entries (mac_table h))).

(** [new_id] is what the process's port counter gives. *)
Definition connect_arc (h : L2Hub) (d new_id : Z) : L2Hub :=
  with_ports h (from_list (plist (ports h) ++ [mkPort d new_id (Some DEFAULT_PORT_MAC_LIMIT) transparent false])).

Definition disconnect (h : L2Hub) (i : Z) : L2Hub :=
  let h := with_ports h (from_list (filter (fun p => id p <> i) (plist (ports h)))) in
  with_macs h (purge_port (mac_table h) i).

(** ** Forwarding *)

(** Held by another, secure, port. *)
Definition held (ts : PortTable) (source : Port) (now : Z) (e : MacEntry) : bool :=
  negb (port_id e =? id source) && (expires e >? now)
  && match pt_get ts (port_id e) with Some p => secure p | None => false end.

Definition full (t : MacTable) (known : option Z) (source : Port) : bool :=
  (bool_decide (known = None) && (Z.of_nat (size (entries t)) >=? MAC_TABLE_MAX_SIZE))
  || match mac_limit source with Some l => port_count t (id source) >=? l | None => false end.

Definition learn (t : MacTable) (ts : PortTable) (now : Z) (key : MacKey) (source : Port) : MacTable * bool :=
  let fresh := match entries t !! key with
               | Some e => (port_id e =? id source) && (sat_sub (expires e) now >? MAC_AGING / 2)
               | None => false end in
  let taken := match entries t !! key with Some e => held ts source now e | None => false end in
  if fresh then (t, true)
  else if taken then (t, false)
  else
    let record t := (mt_insert t key (mkEntry (id source) (now + MAC_AGING)), true) in
    let known := port_id <$> entries t !! key in
    if negb (bool_decide (known = Some (id source))) then
      if full t known source then
        let t := prune_expired t now in
        if full t known source then (mt_remove t key, negb (secure source)) else record t
      else record t
    else record t.

Inductive Dest := DPort (p : Port) | Ingress | Unknown.

Definition lookup (t : MacTable) (ts : PortTable) (now : Z) (key : MacKey) (source_id : Z) : MacTable * Dest :=
  match entries t !! key with
  | Some e =>
      if expires e <=? now then (mt_remove t key, Unknown)
      else if port_id e =? source_id then (t, Ingress)
      else match pt_get ts (port_id e) with
           | Some p => (t, DPort p)
           | None => (mt_remove t key, Unknown)
           end
  | None => (t, Unknown)
  end.

(** The loop of [flood]. *)
Fixpoint flood_loop (l : list Port) (e : Egress) (vlan source_id : Z) : list (Z * list Z) :=
  match l with
  | [] => []
  | p :: l =>
      if id p =? source_id then flood_loop l e vlan source_id
      else
        match egress (mode p) vlan with
        | None => flood_loop l e vlan source_id
        | Some a =>
            match apply e a with
            | (e, Some out) => (id p, out) :: flood_loop l e vlan source_id
            | (e, None) => flood_loop l e vlan source_id
            end
        end
  end.

Definition flood (h : L2Hub) (e : Egress) (vlan source_id : Z) : L2Hub * list (Z * list Z) :=
  let sent := flood_loop (plist (ports h)) e vlan source_id in
  if zlen sent =? 0 then (with_stats h (record_dropped (stats h)), sent)
  else (with_stats h (record_flooded (stats h)), sent).

Definition drop_frame (h : L2Hub) : L2Hub * list (Z * list Z) := (with_stats h (record_dropped (stats h)), []).

(** [forward], nested [depth] deep in the thread's forwarding; the clock
    reads [now] in [learn] and [now'] in [lookup]. *)
Definition forward (h : L2Hub) (depth now now' : Z) (f : list Z) (source_id : Z) : L2Hub * list (Z * list Z) :=
  let h := with_stats h (record_received (stats h)) in
  match enter (max_depth h) depth with
  | None => drop_frame (mkHub (ports h) (mac_table h) (stats h) (u64 (loop_drops h + 1)) (max_depth h))
  | Some _ =>
      if zlen f <? 14 then drop_frame h
      else
        match pt_get (ports h) source_id with
        | None => drop_frame h
        | Some source =>
            match ingress_vlan (mode source) (if has_vlan f then Some (vlan_id f) else None) with
            | None => drop_frame h
            | Some vlan =>
                let '(t, ok) :=
                  if Z.land f.[6] 1 =? 0 then learn (mac_table h) (ports h) now (vlan, slice f 6 12) source
                  else (mac_table h, true) in
                let h := with_macs h t in
                if negb ok then drop_frame h
                else
                  let e := Egress_new f in
                  if negb (Z.land f.[0] 1 =? 0) then flood h e vlan source_id
                  else
                    let '(t, dest) := lookup (mac_table h) (ports h) now' (vlan, slice f 0 6) source_id in
                    let h := with_macs h t in
                    match dest with
                    | DPort dst =>
                        match egress (mode dst) vlan with
                        | Some a =>
                            match snd (apply e a) with
                            | Some out => (with_stats h (record_forwarded (stats h) 1), [(id dst, out)])
                            | None => drop_frame h
                            end
                        | None => drop_frame h
                        end
                    | Ingress => drop_frame h
                    | Unknown => flood h e vlan source_id
                    end
            end
        end
  end.

(** ** The egress forms, without the cache *)

(** What leaves for one action, built from the frame. *)
Definition shape (f : list Z) (a : TagAction) : option (list Z) := snd (apply (Egress_new f) a).

Definition base_of (f : list Z) : list Z := if has_vlan f then pop_vlan f else f.

(** A cache holds only forms of its own frame. *)
Record egress_of (f : list Z) (e : Egress) : Prop := {
  eo_frame : original e = f;
  eo_pcp : pcp e = vlan_pcp f;
  eo_untagged : forall b, untagged e = Some b -> b = pop_vlan f;
  eo_tagged : forall v b, tagged e = Some (v, b) -> has_vlan (base_of f) = false /\ b = push_vlan (base_of f) v (vlan_pcp f) }.

Lemma egress_of_new f : egress_of f (Egress_new f).
Proof. split; done. Qed.

Lemma apply_shape f e a :
  egress_of f e -> (apply e a).2 = shape f a /\ egress_of f (apply e a).1.
Proof.
  intros [E1 E2 E3 E4]. unfold shape, Egress_new, apply. cbn [original pcp untagged tagged]. rewrite E1, E2. fold (base_of f).
  destruct a as [|v].
  - destruct (has_vlan f) eqn:Hv; cbn [negb snd fst]; [|done].
    destruct (untagged e) as [b|] eqn:Eu; [rewrite (E3 b eq_refl)|]; split; try done; split; cbn; try done; by intros b' [= <-].
  - destruct (has_vlan f && _); cbn [snd fst]; [done|].
    assert (forall t, egress_of f (mkEgress f (vlan_pcp f) (untagged e) (Some (v, t))) <->
                      has_vlan (base_of f) = false /\ t = push_vlan (base_of f) v (vlan_pcp f)) as Hm.
    { intros t. split; [intros H; by apply (eo_tagged f _ H)|]. intros Ht. split; cbn; try done. by intros ? ? [= <- <-]. }
    destruct (tagged e) as [[w b]|] eqn:Et.
    + destruct (E4 w b eq_refl) as [Hb ->]. rewrite Hb. destruct (w =? v) eqn:Ew; bool2prop; cbn [snd fst].
      * subst w. split; [done|]. split; auto. by rewrite Et.
      * split; [done|]. by apply Hm.
    + destruct (has_vlan (base_of f)) eqn:Hb; cbn [snd fst]; split; try done; [|by apply Hm].
      split; auto. by rewrite Et.
Qed.

(** What a port is offered of a frame on a VLAN. *)
Definition offer (vlan : Z) (f : list Z) (p : Port) : option (Z * list Z) :=
  a ← egress (mode p) vlan; out ← shape f a; Some (id p, out).

Definition others (l : list Port) (s : Z) : list Port := filter (fun p => id p <> s) l.

Lemma flood_loop_eq f l e vlan s :
  egress_of f e -> flood_loop l e vlan s = omap (offer vlan f) (others l s).
Proof.
  unfold others. revert e. induction l as [|p l IH]; intros e He; [done|]. cbn [flood_loop].
  destruct (id p =? s) eqn:Es; bool2prop.
  - rewrite filter_cons_False by (intros H; by apply H). by apply IH.
  - rewrite filter_cons_True by done. cbn [omap list_omap]. unfold offer at 1.
    destruct (egress (mode p) vlan) as [a|]; cbn [mbind option_bind]; [|by apply IH].
    destruct (apply_shape f e a He) as [Hs He']. destruct (apply e a) as [e' [out|]] eqn:Ea; cbn in Hs, He'; rewrite <- Hs; cbn [mbind option_bind].
    + f_equal. by apply IH.
    + by apply IH.
Qed.

(** ** What leaves a port belongs to the VLAN it left on *)

Definition tag_of (f : list Z) : option Z := if has_vlan f then Some (vlan_id f) else None.

Lemma vlan_id_bound f : 0 <= vlan_id f < 4096.
Proof.
  unfold vlan_id. destruct (has_vlan f); cbn [negb]; [|lia].
  change 0xFFF with (Z.ones 12). rewrite Z.land_ones by lia. apply Z.mod_pos_bound. lia.
Qed.

Lemma vlan_pcp_bound f : bytes_ok f -> 0 <= vlan_pcp f < 8.
Proof.
  intros H. unfold vlan_pcp. destruct (has_vlan f); cbn [negb]; [|lia].
  pose proof (byte_at_ok f 14 H) as Hb. unfold byte_ok in Hb. rewrite Z.shiftr_div_pow2 by lia.
  Z.to_euclidean_division_equations; lia.
Qed.

Lemma vs_contains_bound s v : vs_contains s v = true -> v <= 4095.
Proof. unfold vs_contains. destruct (v >? 4095) eqn:E; [done|lia]. Qed.

(** Removing a tag keeps the addresses and leaves a frame. *)
Lemma pop_vlan_facts f :
  14 <= zlen f -> 14 <= zlen (pop_vlan f) /\ dst_mac (pop_vlan f) = dst_mac f /\ src_mac (pop_vlan f) = src_mac f.
Proof.
  intros Hl. unfold pop_vlan. destruct (has_vlan f) eqn:Hv; cbn [negb]; [|done].
  unfold has_vlan in Hv. bool2prop.
  assert (zlen (slice f 0 12) = 12) as H12 by (rewrite zlen_slice; lia).
  assert (14 <= zlen (slice f 0 12 ++ zdrop 16 f)) as Hz by (rewrite zlen_app, H12, zlen_zdrop; lia).
  split; [done|]. unfold dst_mac, src_mac. replace (zlen (_ ++ _) <? 14) with false by lia. replace (zlen f <? 14) with false by lia.
  rewrite !slice_app_l, !slice_from_0, !slice_ztake by lia. by rewrite ztake_ztake by lia.
Qed.

Lemma base_of_pop f : base_of f = pop_vlan f.
Proof. unfold base_of, pop_vlan. by destruct (has_vlan f). Qed.

Lemma pop_vlan_untagged f : has_vlan f = false -> pop_vlan f = f.
Proof. unfold pop_vlan. by intros ->. Qed.

(** Two frames with the same addresses and content, whatever their tags;
    a tag that is there carries the first one's priority. *)
Definition same_content (f out : list Z) : Prop :=
  dst_mac out = dst_mac f /\ src_mac out = src_mac f /\ pop_vlan out = pop_vlan f /\
  (has_vlan out = true -> vlan_pcp out = vlan_pcp f).

Lemma shape_content f a out :
  bytes_ok f -> 14 <= zlen f -> shape f a = Some out ->
  same_content f out /\
  match a with
  | Untagged => has_vlan out = false
  | Tagged v => has_vlan out = true /\ vlan_id out = Z.land v 0xFFF \/ out = f /\ has_vlan f = true /\ vlan_id f = v
  end.
Proof.
  intros Hb Hl. destruct (pop_vlan_facts f Hl) as (Hl' & Hd & Hs).
  unfold shape, Egress_new, apply. cbn [original pcp untagged tagged]. fold (base_of f). rewrite base_of_pop. destruct a as [|v].
  - destruct (has_vlan f) eqn:Hv; cbn [negb snd]; [|by intros [= <-]].
    destruct (has_vlan (pop_vlan f)) eqn:Hp; cbn [negb]; [done|]. intros [= <-].
    split; [|done]. unfold same_content. rewrite Hp. by rewrite (pop_vlan_untagged (pop_vlan f)).
  - destruct (has_vlan f && _) eqn:E; cbn [snd].
    { intros [= <-]. bool2prop. split; [done|]. by right. }
    destruct (has_vlan (pop_vlan f)) eqn:Hp; cbn [snd]; [done|]. intros [= <-].
    destruct (push_vlan_facts (pop_vlan f) v (vlan_pcp f)) as (H1 & H2 & H3 & H4 & H5 & _ & H7); [|done..|].
    { unfold pop_vlan. destruct (has_vlan f); cbn [negb]; [|done]. bok. }
    split; [|by left]. unfold same_content. rewrite H4, H5, H7, H3.
    split_and!; try done. intros _. change 7 with (Z.ones 3). pose proof (vlan_pcp_bound f Hb).
    rewrite Z.land_ones, Z.mod_small by lia. done.
Qed.

(** The port a frame leaves by carries its VLAN, and a port set up the same
    way at the other end takes the frame as one of that VLAN; only VLAN 0,
    which a tag cannot name, leaves a trunk of another native VLAN as a
    priority-tagged frame. *)
Lemma offer_isolated vlan f p d out :
  bytes_ok f -> 14 <= zlen f -> 0 <= vlan -> offer vlan f p = Some (d, out) ->
  d = id p /\ same_content f out /\
  (ingress_vlan (mode p) (tag_of out) = Some vlan \/ vlan = 0 /\ tag_of out = Some 0).
Proof.
  intros Hb Hl Hv. unfold offer. destruct (egress (mode p) vlan) as [a|] eqn:Ee; cbn [mbind option_bind]; [|done].
  destruct (shape f a) as [o|] eqn:Es; cbn [mbind option_bind]; [|done]. intros [= <- <-].
  destruct (shape_content f a o Hb Hl Es) as [Hc Ha]. split; [done|]. split; [done|].
  unfold egress in Ee. unfold tag_of. destruct (mode p) as [w|allowed native].
  - destruct (w =? vlan) eqn:Ew; [|done]. injection Ee as <-. bool2prop. subst w. rewrite Ha. by left.
  - destruct (vs_contains allowed vlan) eqn:Ev; cbn [negb] in Ee; [|done]. pose proof (vs_contains_bound _ _ Ev).
    case_bool_decide as En; injection Ee as <-.
    + subst native. rewrite Ha. cbn. rewrite Ev. by left.
    + assert (has_vlan o = true /\ vlan_id o = vlan) as [Ho Hid].
      { destruct Ha as [[? Hid]|(-> & ? & ?)]; [|done]. split; [done|]. rewrite Hid. change 0xFFF with (Z.ones 12).
        rewrite Z.land_ones, Z.mod_small by lia. done. }
      rewrite Ho, Hid. destruct (decide (vlan = 0)) as [->|Hn]; [by right|left].
      cbn. rewrite (proj2 (Z.eqb_neq vlan 0)) by done. cbn. by rewrite Ev.
Qed.

(** ** The learning table counts its entries exactly *)

Definition on_port (p : Z) : MacKey * MacEntry -> Prop := fun '(_, e) => port_id e = p.

#[global] Instance on_port_dec p x : Decision (on_port p x).
Proof. destruct x. unfold on_port. apply _. Defined.

Definition count (p : Z) (m : gmap MacKey MacEntry) : Z := Z.of_nat (size (filter (on_port p) m)).

Definition one (b : bool) : Z := if b then 1 else 0.

Lemma count_nonneg p m : 0 <= count p m.
Proof. unfold count. lia. Qed.

Lemma count_delete p k m :
  count p (delete k m) = count p m - match m !! k with Some e => one (port_id e =? p) | None => 0 end.
Proof.
  unfold count. rewrite map_filter_delete, map_size_delete.
  destruct (m !! k) as [e|] eqn:E.
  - destruct (port_id e =? p) eqn:Ep; bool2prop.
    + assert (filter (on_port p) m !! k = Some e) as Hf by (apply map_lookup_filter_Some; done). rewrite Hf.
      assert (size (filter (on_port p) m) <> 0%nat) by (intros H0; apply map_size_empty_inv in H0; by rewrite H0 in Hf). cbn [one]. lia.
    + rewrite (proj2 (map_lookup_filter_None (on_port p) m k)); [cbn [one Datatypes.id]; lia|]. right. intros e' He'. rewrite E in He'. by injection He' as <-.
  - rewrite (proj2 (map_lookup_filter_None (on_port p) m k)); [cbn [Datatypes.id]; lia|]. by left.
Qed.

Lemma count_insert p k e m :
  count p (<[k := e]> m) = count p m - match m !! k with Some o => one (port_id o =? p) | None => 0 end + one (port_id e =? p).
Proof.
  rewrite <- count_delete, <- insert_delete_eq. set (d := delete k m). assert (d !! k = None) as Hd by apply lookup_delete_eq.
  unfold count. destruct (port_id e =? p) eqn:Ep; bool2prop; cbn [one].
  - rewrite map_filter_insert_True by done. rewrite map_size_insert_None; [lia|]. apply map_lookup_filter_None. by left.
  - rewrite map_filter_insert_False by done. unfold d. rewrite delete_delete_eq. lia.
Qed.

Lemma count_filter_le p (P : MacKey * MacEntry -> Prop) `{forall x, Decision (P x)} m : count p (filter P m) <= count p m.
Proof.
  unfold count. apply Nat2Z.inj_le, map_subseteq_size. apply map_subseteq_spec. intros k e.
  rewrite !map_lookup_filter_Some. tauto.
Qed.

Lemma macs_count_zero p m : count p m = 0 <-> forall k e, m !! k = Some e -> port_id e <> p.
Proof.
  unfold count. split.
  - intros H k e He Hp. assert (filter (on_port p) m !! k = Some e) as Hf by (by apply map_lookup_filter_Some).
    assert (size (filter (on_port p) m) = 0%nat) as H0 by lia. apply map_size_empty_inv in H0. by rewrite H0 in Hf.
  - intros H. replace (filter (on_port p) m) with (∅ : gmap MacKey MacEntry); [done|]. symmetry. apply map_empty. intros k.
    apply map_lookup_filter_None. right. intros e He Hp. by apply (H k e).
Qed.

(** A counter map that holds a count for every port that has one. *)
Definition exact (c : gmap Z Z) (n : Z -> Z) : Prop :=
  forall p, c !! p = if n p =? 0 then None else Some (n p).

Lemma exact_increment c n n' p :
  exact c n -> n' p = n p + 1 -> (forall q, q <> p -> n' q = n q) -> 0 <= n p -> exact (increment c p) n'.
Proof.
  intros H Hp Ho H0 q. unfold increment. destruct (decide (q = p)) as [->|Hq].
  - rewrite lookup_insert_eq, Hp, H. destruct (n p =? 0) eqn:E; bool2prop; cbn [default from_option]; case_if; bool2prop; (lia || (f_equal; lia)).
  - rewrite lookup_insert_ne by done. by rewrite H, Ho.
Qed.

Lemma exact_decrement c n n' p :
  exact c n -> n' p = n p - 1 -> (forall q, q <> p -> n' q = n q) -> 1 <= n p -> exact (decrement c p) n'.
Proof.
  intros H Hp Ho H0 q. unfold decrement. rewrite H. replace (n p =? 0) with false by lia. unfold sat_sub.
  replace (Z.max 0 (n p - 1)) with (n' p) by lia. destruct (n' p =? 0) eqn:E; (destruct (decide (q = p)) as [->|Hq];
    [rewrite ?lookup_delete_eq, ?lookup_insert_eq, E|rewrite ?lookup_delete_ne, ?lookup_insert_ne, H, Ho by done]; done).
Qed.

Definition counts_exact (t : MacTable) : Prop := exact (per_port t) (fun p => count p (entries t)).

Lemma port_count_eq t p : counts_exact t -> port_count t p = count p (entries t).
Proof. intros H. unfold port_count. rewrite H. destruct (_ =? 0) eqn:E; bool2prop; cbn; lia. Qed.

Lemma entry_counted t k e : entries t !! k = Some e -> 1 <= count (port_id e) (entries t).
Proof.
  intros He. pose proof (count_nonneg (port_id e) (entries t)).
  assert (count (port_id e) (entries t) <> 0) as Hz by (rewrite macs_count_zero; intros Hc; by apply (Hc k e)). lia.
Qed.

Lemma remove_exact t key : counts_exact t -> counts_exact (mt_remove t key).
Proof.
  intros H. unfold mt_remove. destruct (entries t !! key) as [o|] eqn:E; [|done]. unfold counts_exact. cbn [entries per_port].
  eapply exact_decrement; [exact H| | |by eapply entry_counted].
  - rewrite count_delete, E, Z.eqb_refl. done.
  - intros q Hq. rewrite count_delete, E. rewrite (proj2 (Z.eqb_neq (port_id o) q)) by done. cbn [one]. lia.
Qed.

Lemma insert_exact t key e : counts_exact t -> counts_exact (mt_insert t key e).
Proof.
  intros H. unfold mt_insert, counts_exact. cbn [entries per_port].
  apply exact_increment with (n := fun p => count p (delete key (entries t))).
  - pose proof (remove_exact t key H) as Hr. unfold mt_remove in Hr. destruct (entries t !! key) as [o|] eqn:E; [done|].
    intros p. by rewrite delete_id by done.
  - rewrite count_insert, count_delete, Z.eqb_refl. done.
  - intros q Hq. rewrite count_insert, count_delete, (proj2 (Z.eqb_neq (port_id e) q)) by done. cbn [one]. lia.
  - apply count_nonneg.
Qed.

Lemma count_filter_ne p q m : count q (filter (fun '(_, e) => port_id e <> p) m) = if q =? p then 0 else count q m.
Proof.
  destruct (q =? p) eqn:E; bool2prop.
  - subst q. apply macs_count_zero. intros k e He. apply map_lookup_filter_Some in He as [_ He]. done.
  - unfold count. do 2 f_equal. apply map_eq. intros k. apply option_eq. intros e. rewrite !map_lookup_filter_Some. unfold on_port. naive_solver.
Qed.

Lemma purge_exact t p : counts_exact t -> counts_exact (purge_port t p).
Proof.
  intros H q. unfold purge_port. cbn [entries per_port]. rewrite count_filter_ne. destruct (q =? p) eqn:E; bool2prop.
  - subst. by rewrite lookup_delete_eq.
  - rewrite lookup_delete_ne by done. apply H.
Qed.

(** ** Expiry *)

Definition live (now : Z) (m : gmap MacKey MacEntry) : gmap MacKey MacEntry := filter (fun '(_, e) => now < expires e) m.

Lemma live_lookup now m k e : live now m !! k = Some e <-> m !! k = Some e /\ now < expires e.
Proof. apply map_lookup_filter_Some. Qed.

Lemma live_size now m : (size (live now m) <= size m)%nat.
Proof. apply map_subseteq_size, map_filter_subseteq. Qed.

Lemma live_insert_size now k e m :
  is_Some (m !! k) -> (size (<[k := e]> (live now m)) <= size m)%nat.
Proof.
  intros Ho. rewrite <- (map_size_insert_Some k e m Ho). apply map_subseteq_size, insert_mono, map_filter_subseteq.
Qed.

(** The entries of a list on one port. *)
Fixpoint tally (p : Z) (l : list MacEntry) : Z :=
  match l with [] => 0 | e :: l => one (port_id e =? p) + tally p l end.

Lemma tally_perm p l k : l ≡ₚ k -> tally p l = tally p k.
Proof. induction 1; cbn [tally]; lia. Qed.

Lemma count_tally p m : count p m = tally p (values m).
Proof.
  unfold values. induction m as [|k e m Hk IH] using map_ind; [done|].
  rewrite count_insert, Hk, (tally_perm p _ (snd <$> ((k, e) :: map_to_list m))).
  - cbn [fmap list_fmap snd tally]. rewrite IH. lia.
  - by rewrite map_to_list_insert.
Qed.

Lemma tally_nonneg p l : 0 <= tally p l.
Proof. induction l as [|e l IH]; cbn [tally]; [lia|]. unfold one. destruct (_ =? _); lia. Qed.

Lemma recount_exact l c n :
  exact c n -> (forall p, 0 <= n p) -> exact (foldl (fun c e => increment c (port_id e)) c l) (fun p => n p + tally p l).
Proof.
  revert c n. induction l as [|e l IH]; intros c n H Hn; cbn [foldl tally].
  - intros p. rewrite Z.add_0_r. apply H.
  - intros p. rewrite (IH _ (fun p => n p + one (port_id e =? p))).
    + by rewrite Z.add_assoc.
    + eapply exact_increment; [exact H|by rewrite Z.eqb_refl| |done]. intros q Hq. rewrite (proj2 (Z.eqb_neq _ q)) by done. cbn [one]. lia.
    + intros q. specialize (Hn q). unfold one. destruct (_ =? _); lia.
Qed.

Lemma min_of_spec l :
  match min_of l with Some x => x ∈ l /\ forall y, y ∈ l -> x <= y | None => l = [] end.
Proof.
  induction l as [|x l IH]; cbn [min_of]; [done|]. destruct (min_of l) as [y|].
  - destruct IH as [Hy Hm]. split.
    + destruct (Z.min_dec x y) as [->| ->]; [by left|by right].
    + intros z Hz. apply elem_of_cons in Hz as [->|Hz]; [lia|]. specialize (Hm z Hz). lia.
  - subst l. split; [by left|]. intros z Hz. apply elem_of_cons in Hz as [->|Hz]; [lia|]. by apply elem_of_nil in Hz.
Qed.

(** What the table promises at a time [clock]. *)
Record table_inv (clock : Z) (t : MacTable) : Prop := {
  ti_exact : counts_exact t;
  ti_size : Z.of_nat (size (entries t)) <= MAC_TABLE_MAX_SIZE;
  ti_young : forall k e, entries t !! k = Some e -> expires e <= clock + MAC_AGING;
  ti_prune : forall x, prune_after t = Some x ->
    x <= clock + MAC_AGING /\ forall k e, entries t !! k = Some e -> x <= expires e }.

Lemma elem_of_values e m : e ∈ values m <-> exists k, m !! k = Some e.
Proof.
  unfold values. rewrite list_elem_of_fmap. split.
  - intros ([k e'] & -> & H). exists k. by apply elem_of_map_to_list.
  - intros [k H]. exists (k, e). split; [done|]. by apply elem_of_map_to_list.
Qed.

(** Pruning drops exactly what has expired, although it skips the sweep
    until the earliest expiry it saw. *)
Lemma prune_expired_spec clock t now :
  table_inv clock t -> clock <= now ->
  entries (prune_expired t now) = live now (entries t) /\ table_inv now (prune_expired t now).
Proof.
  intros [H1 H2 H3 H4] Hc. unfold prune_expired. destruct (match prune_after t with Some x => now <? x | None => false end) eqn:E.
  - destruct (prune_after t) as [x|] eqn:Ep; [|done]. destruct (H4 x eq_refl) as [Hx Hm]. bool2prop. split.
    + symmetry. apply map_filter_id. intros k e He. specialize (Hm k e He). lia.
    + split; [done|done| |]; [intros k e He; specialize (H3 k e He); lia|]. intros y Hy. rewrite Ep in Hy. injection Hy as <-. split; [lia|done].
  - change (filter _ (entries t)) with (live now (entries t)). split; [done|]. split; cbn [entries per_port prune_after].
    + intros p. cbn [per_port entries]. rewrite (recount_exact _ _ (fun _ => 0)); [|done..]. by rewrite count_tally.
    + pose proof (live_size now (entries t)). lia.
    + intros k e He. apply live_lookup in He as [He _]. specialize (H3 k e He). lia.
    + intros x Hx. pose proof (min_of_spec (expires <$> values (live now (entries t)))) as Hm. rewrite Hx in Hm. destruct Hm as [Hi Hm].
      apply list_elem_of_fmap in Hi as (e & -> & He). apply elem_of_values in He as [k He]. split.
      * apply live_lookup in He as [He _]. specialize (H3 k e He). lia.
      * intros k' e' He'. apply Hm, list_elem_of_fmap. exists e'. split; [done|]. apply elem_of_values. by exists k'.
Qed.

(** ** Learning *)

(** No place for a new address on a port: the table, or the port, is full
    of addresses that have not expired. *)
Definition no_room (now : Z) (t : MacTable) (known : option Z) (s : Port) : bool :=
  (bool_decide (known = None) && (Z.of_nat (size (live now (entries t))) >=? MAC_TABLE_MAX_SIZE))
  || match mac_limit s with Some l => count (id s) (live now (entries t)) >=? l | None => false end.

Definition known_on (t : MacTable) (key : MacKey) : option Z := port_id <$> entries t !! key.

Definition claimed (t : MacTable) (ts : PortTable) (now : Z) (key : MacKey) (s : Port) : bool :=
  match entries t !! key with Some e => held ts s now e | None => false end.

(** The port has learned fewer addresses than it may. *)
Definition within_limit (s : Port) (m : gmap MacKey MacEntry) : Prop :=
  match mac_limit s with Some l => count (id s) m < l | None => True end.

(** What learning an address comes to. *)
Inductive learnt (t : MacTable) (ts : PortTable) (now : Z) (key : MacKey) (s : Port) : MacTable -> bool -> Prop :=
| L_known e :
    entries t !! key = Some e -> port_id e = id s -> now + MAC_AGING / 2 < expires e -> learnt t ts now key s t true
| L_held : claimed t ts now key s = true -> learnt t ts now key s t false
| L_recorded t' m :
    claimed t ts now key s = false ->
    known_on t key = Some (id s) /\ m = entries t \/
    no_room now t (known_on t key) s = false /\ (m = entries t \/ m = live now (entries t)) /\ within_limit s m ->
    entries t' = <[key := mkEntry (id s) (now + MAC_AGING)]> m -> learnt t ts now key s t' true
| L_refused t' :
    claimed t ts now key s = false -> known_on t key <> Some (id s) -> no_room now t (known_on t key) s = true ->
    entries t' = delete key (live now (entries t)) -> learnt t ts now key s t' (negb (secure s)).

Lemma full_prune clock t now known s :
  table_inv clock t -> clock <= now -> full (prune_expired t now) known s = no_room now t known s.
Proof.
  intros Ht Hc. destruct (prune_expired_spec clock t now Ht Hc) as [E Hi]. unfold full, no_room.
  rewrite (port_count_eq _ _ (ti_exact _ _ Hi)), E. done.
Qed.

Lemma full_no_room clock t now known s :
  table_inv clock t -> full t known s = false -> no_room now t known s = false /\ within_limit s (entries t).
Proof.
  intros Ht H. unfold full in H. unfold no_room, within_limit. bool2prop. rewrite (port_count_eq _ _ (ti_exact _ _ Ht)) in H0.
  split; [|destruct (mac_limit s); [lia|done]]. apply orb_false_iff. split.
  - destruct (bool_decide _); [|done]. cbn [andb] in *. pose proof (live_size now (entries t)). lia.
  - destruct (mac_limit s); [|done]. pose proof (count_filter_le (id s) (fun '(_, e) => now < expires e) (entries t)).
    change (filter _ (entries t)) with (live now (entries t)) in *. lia.
Qed.

(** Inserting where the limits allow it keeps the table's promises. *)
Lemma record_inv clock t now key s :
  table_inv clock t -> clock <= now ->
  (is_Some (entries t !! key) \/ Z.of_nat (size (entries t)) < MAC_TABLE_MAX_SIZE) ->
  table_inv now (mt_insert t key (mkEntry (id s) (now + MAC_AGING))).
Proof.
  intros [H1 H2 H3 H4] Hc Hs. split; [by apply insert_exact|..]; unfold mt_insert; cbn [entries prune_after].
  - destruct (entries t !! key) as [o|] eqn:E.
    + rewrite map_size_insert_Some by done. done.
    + rewrite map_size_insert_None by done. destruct Hs as [[? ?]|?]; [done|lia].
  - intros k e He. apply lookup_insert_Some in He as [[_ <-]|[_ He]]; cbn [expires]; [lia|]. specialize (H3 k e He). lia.
  - intros x Hx. destruct (H4 x Hx) as [Hb Hm]. split; [lia|]. intros k e He.
    apply lookup_insert_Some in He as [[_ <-]|[_ He]]; cbn [expires]; [lia|]. by apply (Hm k).
Qed.

Lemma entries_remove t key : entries (mt_remove t key) = delete key (entries t).
Proof. unfold mt_remove. destruct (entries t !! key) eqn:E; [done|]. by rewrite delete_id. Qed.

Lemma mt_remove_inv clock t key : table_inv clock t -> table_inv clock (mt_remove t key).
Proof.
  intros [H1 H2 H3 H4]. assert (prune_after (mt_remove t key) = prune_after t) as Hp by (unfold mt_remove; by destruct (entries t !! key)).
  split; [by apply remove_exact|..]; rewrite ?Hp, ?entries_remove.
  - pose proof (map_subseteq_size _ _ (delete_subseteq (entries t) key)). lia.
  - intros k e He. apply lookup_delete_Some in He as [_ He]. by apply (H3 k).
  - intros x Hx. destruct (H4 x Hx) as [Hb Hm]. split; [done|]. intros k e He. apply lookup_delete_Some in He as [_ He]. by apply (Hm k).
Qed.

Lemma table_inv_mono clock clock' t : table_inv clock t -> clock <= clock' -> table_inv clock' t.
Proof.
  intros [H1 H2 H3 H4] Hc. split; [done|done|..].
  - intros k e He. specialize (H3 k e He). lia.
  - intros x Hx. destruct (H4 x Hx). split; [lia|done].
Qed.

Lemma learn_spec clock t ts now key s :
  table_inv clock t -> clock <= now ->
  learnt t ts now key s (learn t ts now key s).1 (learn t ts now key s).2 /\ table_inv now (learn t ts now key s).1.
Proof.
  intros Ht Hc. pose proof (table_inv_mono _ now _ Ht Hc) as Hn. unfold learn.
  change (port_id <$> entries t !! key) with (known_on t key).
  change (match entries t !! key with Some e => held ts s now e | None => false end) with (claimed t ts now key s).
  destruct (match entries t !! key with Some e => _ | None => false end) eqn:Ef.
  { destruct (entries t !! key) as [e|] eqn:E; [|done]. bool2prop. split; [|done]. eapply L_known; [done|done|]. assert (0 <= MAC_AGING / 2) by done. unfold sat_sub in *. lia. }
  destruct (claimed t ts now key s) eqn:Ec; [split; [by apply L_held|done]|].
  assert (known_on t key = None -> full t (known_on t key) s = false -> Z.of_nat (size (entries t)) < MAC_TABLE_MAX_SIZE) as Hroom.
  { intros Hk Hf. unfold full in Hf. bool2prop. rewrite bool_decide_true in H by done. cbn [andb] in H. lia. }
  assert (known_on t key = None \/ is_Some (entries t !! key)) as Hk by (unfold known_on; destruct (entries t !! key); [right|left]; done).
  case_bool_decide as Ek; cbn [negb].
  { split; [eapply L_recorded; [done|by left|done]|]. eapply record_inv; [done|done|]. destruct Hk as [Hk|Hk]; [congruence|by left]. }
  destruct (full t (known_on t key) s) eqn:Efull.
  - destruct (prune_expired_spec clock t now Ht Hc) as [Ep Hip]. rewrite (full_prune clock) by done.
    destruct (no_room now t (known_on t key) s) eqn:En; cbn [fst snd].
    + split; [|by apply mt_remove_inv]. apply L_refused; [done|done|done|]. by rewrite entries_remove, Ep.
    + assert (within_limit s (live now (entries t))) as Hw.
      { unfold no_room in En. unfold within_limit. bool2prop. destruct (mac_limit s); [lia|done]. }
      split; [eapply (L_recorded _ _ _ _ _ _ (live now (entries t))); [done|right; split_and!; [done|by right|done]|by rewrite <- Ep]|].
      eapply record_inv; [done|lia|]. rewrite Ep. destruct (decide (is_Some (live now (entries t) !! key))) as [Hl|Hl]; [by left|right].
      destruct Hk as [Hk|Hk].
      * unfold no_room in En. rewrite bool_decide_true in En by done. bool2prop. cbn [andb] in *. lia.
      * pose proof (live_insert_size now key (mkEntry 0 0) (entries t) Hk) as Hs.
        rewrite map_size_insert_None in Hs by (by apply eq_None_not_Some). pose proof (ti_size _ _ Ht). lia.
  - destruct (full_no_room clock t now _ s Ht Efull) as [Hr Hw].
    split; [eapply L_recorded; [done|right; split_and!; [done|by left|done]|done]|].
    eapply record_inv; [done|done|]. destruct Hk as [Hk|Hk]; [right; by apply Hroom|by left].
Qed.

(** ** Forwarding, step by step *)

(** The learning part of [forward]. *)
Definition after_learning (h : L2Hub) (now : Z) (vlan : Z) (f : list Z) (src : Port) : MacTable * bool :=
  if Z.land f.[6] 1 =? 0 then learn (mac_table h) (ports h) now (vlan, slice f 6 12) src else (mac_table h, true).

(** Where a unicast frame goes. *)
Definition sends_to (h : L2Hub) (vlan : Z) (f : list Z) (s : Z) (d : Dest) : list (Z * list Z) :=
  match d with
  | DPort q => option_list (offer vlan f q)
  | Ingress => []
  | Unknown => omap (offer vlan f) (others (plist (ports h)) s)
  end.

Lemma flood_eq h f vlan s :
  let '(h', sends) := flood h (Egress_new f) vlan s in
  sends = omap (offer vlan f) (others (plist (ports h)) s) /\ ports h' = ports h /\ mac_table h' = mac_table h /\
  max_depth h' = max_depth h.
Proof.
  unfold flood. rewrite (flood_loop_eq f) by apply egress_of_new. by destruct (_ =? 0).
Qed.

(** What becomes of a frame: refused at the door, refused by port security,
    flooded, or sent where its destination is known to be. *)
Inductive fate (h : L2Hub) (depth now now' : Z) (f : list Z) (s : Z) : MacTable -> list (Z * list Z) -> Prop :=
| F_refused :
    max_depth h <= depth \/ zlen f < 14 \/ pt_get (ports h) s = None \/
    (exists src, pt_get (ports h) s = Some src /\ ingress_vlan (mode src) (tag_of f) = None) ->
    fate h depth now now' f s (mac_table h) []
| F_insecure src vlan t :
    pt_get (ports h) s = Some src -> ingress_vlan (mode src) (tag_of f) = Some vlan -> 14 <= zlen f ->
    after_learning h now vlan f src = (t, false) -> fate h depth now now' f s t []
| F_group src vlan t :
    depth < max_depth h ->
    pt_get (ports h) s = Some src -> ingress_vlan (mode src) (tag_of f) = Some vlan -> 14 <= zlen f ->
    after_learning h now vlan f src = (t, true) -> Z.land f.[0] 1 <> 0 ->
    fate h depth now now' f s t (omap (offer vlan f) (others (plist (ports h)) s))
| F_unicast src vlan t t' d :
    depth < max_depth h ->
    pt_get (ports h) s = Some src -> ingress_vlan (mode src) (tag_of f) = Some vlan -> 14 <= zlen f ->
    after_learning h now vlan f src = (t, true) -> Z.land f.[0] 1 = 0 ->
    lookup t (ports h) now' (vlan, slice f 0 6) s = (t', d) ->
    fate h depth now now' f s t' (sends_to h vlan f s d).

Lemma forward_spec h depth now now' f s :
  let '(h', sends) := forward h depth now now' f s in
  ports h' = ports h /\ max_depth h' = max_depth h /\ fate h depth now now' f s (mac_table h') sends.
Proof.
  unfold forward, drop_frame. cbn [ports mac_table stats loop_drops max_depth with_stats].
  destruct (enter (max_depth h) depth) as [d0|] eqn:Ed; [apply enter_some in Ed as [Ed Ed']|apply enter_none in Ed; split_and!; [done..|]; refine (F_refused h depth now now' f s _); by left].
  destruct (zlen f <? 14) eqn:El; bool2prop; [split_and!; [done..|]; refine (F_refused h depth now now' f s _); right; by left|].
  destruct (pt_get (ports h) s) as [src|] eqn:Es; [|split_and!; [done..|]; refine (F_refused h depth now now' f s _); right; right; by left].
  change (if has_vlan f then Some (vlan_id f) else None) with (tag_of f).
  destruct (ingress_vlan (mode src) (tag_of f)) as [vlan|] eqn:Ev; [|split_and!; [done..|]; refine (F_refused h depth now now' f s _); right; right; right; by exists src].
  fold (after_learning h now vlan f src). destruct (after_learning h now vlan f src) as [t ok] eqn:Ea.
  destruct ok; cbn [negb with_macs with_stats ports mac_table max_depth]; [|split_and!; [done..|]; refine (F_insecure h depth now now' f s src vlan t _ _ _ _); done].
  destruct (Z.land f.[0] 1 =? 0) eqn:Eg; cbn [negb]; bool2prop.
  - destruct (lookup t (ports h) now' (vlan, slice f 0 6) s) as [t' d] eqn:El'.
    assert (max_depth h > depth) as Hd by lia.
    assert (forall sends, sends = sends_to h vlan f s d -> fate h depth now now' f s t' sends) as Hf.
    { intros ? ->. eapply F_unicast; try done. lia. }
    destruct d as [q| |].
    + destruct (egress (mode q) vlan) as [a|] eqn:Ee; [change (apply (Egress_new f) a).2 with (shape f a); destruct (shape f a) as [out|] eqn:Eo|];
        cbn; (split_and!; [done..|]); apply Hf; cbn [sends_to]; unfold offer; rewrite Ee; cbn; rewrite ?Eo; done.
    + split_and!; [done..|]. by apply Hf.
    + match goal with |- context [flood ?h _ _ _] => pose proof (flood_eq h f vlan s) as Hfl end.
      destruct (flood _ _ _ _) as [h' sends]. destruct Hfl as (-> & Hp & Hm & Hx). cbn in Hp, Hm, Hx. rewrite Hp, Hm, Hx.
      split_and!; [done..|by apply Hf].
  - match goal with |- context [flood ?h _ _ _] => pose proof (flood_eq h f vlan s) as Hfl end.
    destruct (flood _ _ _ _) as [h' sends]. destruct Hfl as (-> & Hp & Hm & Hx). cbn in Hp, Hm, Hx. rewrite Hp, Hm, Hx.
    split_and!; [done..|]. refine (F_group h depth now now' f s src vlan t _ _ _ _ _ _); try done. lia.
Qed.

(** ** Port tables *)

Lemma get_from_list l i p :
  NoDup (id <$> l) -> pt_get (from_list l) i = Some p <-> p ∈ l /\ id p = i.
Proof.
  unfold pt_get, from_list. cbn [by_id].
  assert (forall m : gmap Z Port, NoDup (id <$> l) -> foldl (fun m p => <[id p := p]> m) m l !! i = Some p <->
            p ∈ l /\ id p = i \/ m !! i = Some p /\ (forall q, q ∈ l -> id q <> i)) as H.
  { induction l as [|q l IH]; intros m Hn; cbn [foldl].
    - split; [intros ?; right; split; [done|]; intros q Hq; by apply elem_of_nil in Hq|]. intros [[Hp _]|[? _]]; [by apply elem_of_nil in Hp|done].
    - rewrite fmap_cons in Hn. apply list.NoDup_cons in Hn as [Hq Hn]. rewrite IH by done. split.
      + intros [[Hp <-]|[Hm Ho]]; [left; split; [by right|done]|].
        apply lookup_insert_Some in Hm as [[<- <-]|[Hne Hm]]; [left; split; [by left|done]|].
        right. split; [done|]. intros r Hr. apply elem_of_cons in Hr as [->|Hr]; [done|by apply Ho].
      + intros [[Hp Hi]|[Hm Ho]].
        * apply elem_of_cons in Hp as [->|Hp]; [|by left]. right. rewrite Hi, lookup_insert_eq. split; [done|].
          intros r Hr Hc. apply Hq. rewrite Hi, <- Hc. by apply list_elem_of_fmap_2.
        * right. rewrite lookup_insert_ne by (apply Ho; by left). split; [done|]. intros r Hr. apply Ho. by right. }
  intros Hn. rewrite H by done. split; [intros [?|[Hm _]]; [done|by rewrite lookup_empty in Hm]|by left].
Qed.

(** The table is the index of its list, ids are distinct, and modes name
    16-bit VLANs. *)
Definition u16_ok (v : Z) : Prop := 0 <= v < 65536.

Definition mode_ok (m : PortMode) : Prop :=
  match m with Access v => u16_ok v | Trunk _ native => match native with Some n => u16_ok n | None => True end end.

Record ports_wf (counter : Z) (ts : PortTable) : Prop := {
  pw_index : ts = from_list (plist ts);
  pw_ids : NoDup (id <$> plist ts);
  pw_drawn : Forall (fun p => 0 < id p <= counter) (plist ts);
  pw_modes : Forall (fun p => mode_ok (mode p)) (plist ts) }.

Lemma get_wf c ts i p : ports_wf c ts -> pt_get ts i = Some p <-> p ∈ plist ts /\ id p = i.
Proof. intros [H1 H2 _ _]. rewrite H1 at 1. by apply get_from_list. Qed.

Lemma edit_port_ids l i g : (forall p, id (g p) = id p) -> id <$> edit_port l i g = id <$> l.
Proof.
  intros Hg. induction l as [|p l IH]; cbn [edit_port]; [done|]. destruct (id p =? i); cbn [negb]; rewrite !fmap_cons; [by rewrite Hg|by rewrite IH].
Qed.

Lemma elem_of_edit_port l i g q :
  (forall p, id (g p) = id p) -> NoDup (id <$> l) ->
  q ∈ edit_port l i g <-> exists p, p ∈ l /\ q = (if id p =? i then g p else p).
Proof.
  intros Hg. induction l as [|p l IH]; intros Hn; cbn [edit_port].
  - split; [intros H; by apply elem_of_nil in H|]. intros (p & H & _). by apply elem_of_nil in H.
  - rewrite fmap_cons in Hn. apply list.NoDup_cons in Hn as [Hp Hn].
    destruct (id p =? i) eqn:E; cbn [negb]; bool2prop; rewrite elem_of_cons.
    + split.
      * intros [->|Hq]; [exists p; split; [by left|]; by rewrite (proj2 (Z.eqb_eq _ _) E)|].
        exists q. split; [by right|]. rewrite (proj2 (Z.eqb_neq (id q) i)); [done|]. intros Hc. apply Hp. rewrite E, <- Hc. by apply list_elem_of_fmap_2.
      * intros (r & Hr & ->). apply elem_of_cons in Hr as [->|Hr]; [left; by rewrite (proj2 (Z.eqb_eq _ _) E)|].
        right. rewrite (proj2 (Z.eqb_neq (id r) i)); [done|]. intros Hc. apply Hp. rewrite E, <- Hc. by apply list_elem_of_fmap_2.
    + rewrite IH by done. split.
      * intros [->|(r & Hr & ->)]; [exists p; split; [by left|]; by rewrite (proj2 (Z.eqb_neq _ _) E)|]. exists r. split; [by right|done].
      * intros (r & Hr & ->). apply elem_of_cons in Hr as [->|Hr]; [left; by rewrite (proj2 (Z.eqb_neq _ _) E)|]. right. by exists r.
Qed.

Lemma reconfigure_wf c h i g :
  ports_wf c (ports h) -> (forall p, id (g p) = id p) -> (forall p, mode_ok (mode p) -> mode_ok (mode (g p))) ->
  ports_wf c (ports (reconfigure h i g)) /\
  (forall j p, pt_get (ports h) j = Some p -> pt_get (ports (reconfigure h i g)) j = Some (if j =? i then g p else p)).
Proof.
  intros Hw Hg Hm. pose proof (edit_port_ids (plist (ports h)) i g Hg) as Hids. destruct Hw as [H1 H2 H3 H4].
  assert (ports_wf c (from_list (edit_port (plist (ports h)) i g))) as Hw'.
  { split; cbn [plist from_list]; [done|by rewrite Hids|..]; apply list.Forall_forall; intros q Hq; apply elem_of_edit_port in Hq as (p & Hp & ->); try done.
    - rewrite list.Forall_forall in H3. specialize (H3 p Hp). destruct (id p =? i); [by rewrite Hg|done].
    - rewrite list.Forall_forall in H4. specialize (H4 p Hp). destruct (id p =? i); [by apply Hm|done]. }
  unfold reconfigure. cbn [ports with_ports]. split; [done|]. intros j p Hp.
  apply (get_wf c) in Hp as [Hp <-]; [|by split]. apply (get_wf c); [done|]. split; [|destruct (id p =? i); [apply Hg|done]].
  cbn [plist from_list]. apply elem_of_edit_port; [done|done|]. by exists p.
Qed.

(** ** The switch over its life *)

(** [next_port_id]: the counter after, and the id drawn. *)
Definition next_port_id (counter : Z) : Z * Z := (u64 (counter + 1), counter + 1).

(** What can happen to a switch.  [Elsewhere] is other switches drawing
    ids; [Receive] is a frame [f] on port [s], the clock reading [t] while
    learning and [t'] while looking up. *)
Inductive event :=
| Connect (d : Z)
| Elsewhere (counter : Z)
| Disconnect (i : Z)
| SetMode (i : Z) (m : PortMode)
| SetLimit (i : Z) (l : option Z)
| SetSecure (i : Z) (on : bool)
| SetDepth (d : Z)
| Receive (depth t t' : Z) (f : list Z) (s : Z).

(** [heard] is every frame received so far: when, where and what. *)
Record world := mkWorld { hub : L2Hub; counter : Z; shared : Z; clock : Z; heard : list (Z * Z * list Z) }.

Definition with_hub (w : world) (h : L2Hub) : world := mkWorld h (counter w) (shared w) (clock w) (heard w).

Definition allowed (w : world) (e : event) : Prop :=
  match e with
  | Connect _ => counter w < 2 ^ 64 - 1
  | Elsewhere c => counter w <= c < 2 ^ 64
  | SetMode _ m => mode_ok m
  | Receive _ t t' f _ => clock w <= t <= t' /\ bytes_ok f
  | _ => True
  end.

Definition step (w : world) (e : event) : world * list (Z * list Z) :=
  let h := hub w in
  match e with
  | Connect d => let '(c, i) := next_port_id (counter w) in (mkWorld (connect_arc h d i) c (shared w) (clock w) (heard w), [])
  | Elsewhere c => (mkWorld h c (shared w) (clock w) (heard w), [])
  | Disconnect i => (with_hub w (disconnect h i), [])
  | SetMode i m => (with_hub w (set_port_mode h i m), [])
  | SetLimit i l => (with_hub w (set_port_mac_limit h i l), [])
  | SetSecure i on => (with_hub w (set_port_secure h i on), [])
  | SetDepth d => let '(h, s) := set_max_forward_depth h (shared w) d in (mkWorld h (counter w) s (clock w) (heard w), [])
  | Receive depth t t' f s =>
      let '(h, sends) := forward h depth t t' f s in
      (mkWorld h (counter w) (shared w) t' ((t, s, f) :: heard w), sends)
  end.

Inductive reached : world -> Prop :=
| R_new c s t : 0 <= c < 2 ^ 64 -> reached (mkWorld L2Hub_new c s t [])
| R_step w e : reached w -> allowed w e -> reached (step w e).1.

(** An address is learned from a frame heard on the port it points at, on
    the VLAN the port gives such a frame. *)
Definition evidence (hd : list (Z * Z * list Z)) (ts : PortTable) (k : MacKey) (e : MacEntry) : Prop :=
  exists p f, pt_get ts (port_id e) = Some p /\ (expires e - MAC_AGING, port_id e, f) ∈ hd /\
    ingress_vlan (mode p) (tag_of f) = Some (fst k) /\ src_mac f = Some (snd k) /\ Z.land f.[6] 1 = 0.

Record world_inv (w : world) : Prop := {
  wi_ports : ports_wf (counter w) (ports (hub w));
  wi_counter : 0 <= counter w < 2 ^ 64;
  wi_table : table_inv (clock w) (mac_table (hub w));
  wi_evidence : forall k e, entries (mac_table (hub w)) !! k = Some e -> evidence (heard w) (ports (hub w)) k e }.

Lemma lookup_spec now t ts key s t' d :
  table_inv now t -> lookup t ts now key s = (t', d) ->
  table_inv now t' /\ (entries t' = entries t \/ entries t' = delete key (entries t)) /\
  (forall e, entries t !! key = Some e -> now < expires e -> is_Some (pt_get ts (port_id e)) ->
     t' = t /\ d = if port_id e =? s then Ingress else match pt_get ts (port_id e) with Some p => DPort p | None => Unknown end) /\
  ((forall e, entries t !! key = Some e -> expires e <= now) -> d = Unknown).
Proof.
  intros Ht. unfold lookup. destruct (entries t !! key) as [e|] eqn:E.
  2:{ intros [= <- <-]. split_and!; try done. by left. }
  destruct (expires e <=? now) eqn:Ee; bool2prop.
  { intros [= <- <-]. split_and!; [by apply mt_remove_inv|right; apply entries_remove| |done]. intros ? [= <-] ?. lia. }
  destruct (port_id e =? s) eqn:Es.
  { intros [= <- <-]. split_and!; [done|by left| |]; [intros ? [= <-]; by rewrite Es|]. intros H. specialize (H e eq_refl). lia. }
  destruct (pt_get ts (port_id e)) as [p|] eqn:Ep; intros [= <- <-].
  - split_and!; [done|by left| |]; [intros ? [= <-]; by rewrite Es, Ep|]. intros H. specialize (H e eq_refl). lia.
  - split_and!; [by apply mt_remove_inv|right; apply entries_remove| |done]. intros ? [= <-] ? H. rewrite Ep in H. by destruct H.
Qed.

Lemma learnt_entries t ts now key s t' ok k e :
  learnt t ts now key s t' ok -> entries t' !! k = Some e ->
  entries t !! k = Some e \/ k = key /\ e = mkEntry (id s) (now + MAC_AGING).
Proof.
  intros H He. destruct H as [?|?|t' m _ Hm Ht|t' _ _ _ Ht]; try by left.
  - rewrite Ht in He. apply lookup_insert_Some in He as [[<- <-]|[_ He]]; [by right|left].
    destruct Hm as [[_ ->]|(_ & [->| ->] & _)]; [done|done|]. by apply live_lookup in He as [? _].
  - rewrite Ht in He. left. apply lookup_delete_Some in He as [_ He]. by apply live_lookup in He as [? _].
Qed.

Lemma after_learning_spec clock h now vlan f src t ok :
  table_inv clock (mac_table h) -> clock <= now -> after_learning h now vlan f src = (t, ok) ->
  table_inv now t /\
  (Z.land f.[6] 1 = 0 -> learnt (mac_table h) (ports h) now (vlan, slice f 6 12) src t ok) /\
  (Z.land f.[6] 1 <> 0 -> t = mac_table h /\ ok = true).
Proof.
  intros Ht Hc. unfold after_learning. destruct (Z.land f.[6] 1 =? 0) eqn:E; bool2prop.
  - intros El. destruct (learn_spec clock (mac_table h) (ports h) now (vlan, slice f 6 12) src Ht Hc) as [H1 H2].
    rewrite El in H1, H2. by split_and!.
  - intros [= <- <-]. split_and!; [by eapply table_inv_mono|done|done].
Qed.

Lemma src_mac_slice f : 14 <= zlen f -> src_mac f = Some (slice f 6 12).
Proof. intros H. unfold src_mac. by case_if; bool2prop; [lia|]. Qed.

(** A frame leaves the table in order, and what it adds is the address it
    came from. *)
Lemma fate_table clock h depth now now' f s t sends :
  table_inv clock (mac_table h) -> clock <= now <= now' -> fate h depth now now' f s t sends ->
  table_inv now' t /\
  forall k e, entries t !! k = Some e ->
    entries (mac_table h) !! k = Some e \/
    exists src, pt_get (ports h) s = Some src /\ e = mkEntry (id src) (now + MAC_AGING) /\
      ingress_vlan (mode src) (tag_of f) = Some (fst k) /\ src_mac f = Some (snd k) /\ Z.land f.[6] 1 = 0.
Proof.
  intros Ht Hc Hf.
  assert (forall src vlan t1 ok k e, pt_get (ports h) s = Some src -> ingress_vlan (mode src) (tag_of f) = Some vlan -> 14 <= zlen f ->
            after_learning h now vlan f src = (t1, ok) -> entries t1 !! k = Some e ->
            entries (mac_table h) !! k = Some e \/ exists src, pt_get (ports h) s = Some src /\ e = mkEntry (id src) (now + MAC_AGING) /\
              ingress_vlan (mode src) (tag_of f) = Some (fst k) /\ src_mac f = Some (snd k) /\ Z.land f.[6] 1 = 0) as Hl.
  { intros src vlan t1 ok k e Hs Hv Hz Ha He. destruct (after_learning_spec clock h now vlan f src t1 ok Ht ltac:(lia) Ha) as (_ & H1 & H2).
    destruct (decide (Z.land f.[6] 1 = 0)) as [Hu|Hu]; [|destruct (H2 Hu) as [-> _]; by left].
    destruct (learnt_entries _ _ _ _ _ _ _ _ _ (H1 Hu) He) as [?|[-> ->]]; [by left|right]. exists src. by rewrite src_mac_slice. }
  destruct Hf as [|src vlan t Hs Hv Hz Ha|src vlan t Hd Hs Hv Hz Ha Hg|src vlan t t' d Hd Hs Hv Hz Ha Hg Hlk].
  - split; [eapply table_inv_mono; [done|lia]|by left].
  - destruct (after_learning_spec clock h now vlan f src t _ Ht ltac:(lia) Ha) as [Hi _]. split; [eapply table_inv_mono; [done|lia]|by eauto].
  - destruct (after_learning_spec clock h now vlan f src t _ Ht ltac:(lia) Ha) as [Hi _]. split; [eapply table_inv_mono; [done|lia]|by eauto].
  - destruct (after_learning_spec clock h now vlan f src t _ Ht ltac:(lia) Ha) as [Hi _].
    destruct (lookup_spec now' t (ports h) _ s t' d (table_inv_mono _ now' _ Hi ltac:(lia)) Hlk) as (Hi' & He & _). split; [done|].
    intros k e Hk. eapply Hl; [done..|]. destruct He as [He|He]; rewrite He in Hk; [done|]. by apply lookup_delete_Some in Hk as [_ ?].
Qed.

Lemma purge_inv clock t p : table_inv clock t -> table_inv clock (purge_port t p).
Proof.
  intros [H1 H2 H3 H4]. assert (forall k e, entries (purge_port t p) !! k = Some e -> entries t !! k = Some e) as Hs.
  { intros k e He. by apply map_lookup_filter_Some in He as [? _]. }
  split; [by apply purge_exact|..].
  - assert (size (entries (purge_port t p)) <= size (entries t))%nat by (apply map_subseteq_size, map_filter_subseteq). lia.
  - intros k e He. by apply (H3 k), Hs.
  - intros x Hx. destruct (H4 x Hx) as [Hb Hm]. split; [done|]. intros k e He. by apply (Hm k), Hs.
Qed.

Lemma purge_lookup t p k e : entries (purge_port t p) !! k = Some e -> entries t !! k = Some e /\ port_id e <> p.
Proof. intros He. by apply map_lookup_filter_Some in He. Qed.

Lemma connect_wf c h d :
  ports_wf c (ports h) -> 0 <= c ->
  ports_wf (c + 1) (ports (connect_arc h d (c + 1))) /\
  (forall i p, pt_get (ports h) i = Some p -> pt_get (ports (connect_arc h d (c + 1))) i = Some p).
Proof.
  intros Hw H0. pose proof Hw as [H1 H2 H3 H4]. assert (ports_wf (c + 1) (ports (connect_arc h d (c + 1)))) as Hw'.
  { unfold connect_arc. split; cbn [ports with_ports plist from_list]; [done|..].
    - rewrite fmap_app. apply list.NoDup_app. split_and!; [done| |apply list.NoDup_singleton].
      intros x Hx Hc. apply list_elem_of_fmap in Hx as (p & -> & Hp). apply list_elem_of_singleton in Hc.
      rewrite list.Forall_forall in H3. specialize (H3 p Hp). cbn in Hc. lia.
    - apply Forall_app. split; [eapply list.Forall_impl; [exact H3|]; cbn; lia|]. repeat constructor; cbn; lia.
    - apply Forall_app. split; [done|]. constructor; [cbn; unfold u16_ok; lia|constructor]. }
  split; [done|]. intros i p Hp. apply (get_wf c) in Hp as [Hp <-]; [|done]. apply (get_wf (c + 1)); [done|].
  split; [|done]. cbn [connect_arc ports with_ports plist from_list]. apply elem_of_app. by left.
Qed.

Lemma disconnect_wf c h i :
  ports_wf c (ports h) ->
  ports_wf c (ports (disconnect h i)) /\
  (forall j p, j <> i -> pt_get (ports h) j = Some p -> pt_get (ports (disconnect h i)) j = Some p).
Proof.
  intros Hw. pose proof Hw as [H1 H2 H3 H4]. assert (ports_wf c (ports (disconnect h i))) as Hw'.
  { unfold disconnect. split; cbn [ports with_macs with_ports plist from_list]; [done|..].
    - eapply sublist_NoDup; [exact H2|]. apply fmap_sublist, sublist_filter.
    - apply list.Forall_forall; intros p Hp; apply list_elem_of_filter in Hp as [_ Hp]; revert p Hp; by apply list.Forall_forall.
    - apply list.Forall_forall; intros p Hp; apply list_elem_of_filter in Hp as [_ Hp]; revert p Hp; by apply list.Forall_forall. }
  split; [done|]. intros j p Hj Hp. apply (get_wf c) in Hp as [Hp Hid]; [|done]. apply (get_wf c); [done|].
  split; [|done]. cbn [disconnect ports with_macs with_ports plist from_list]. apply list_elem_of_filter. by rewrite Hid.
Qed.

Lemma evidence_mono hd hd' ts ts' k e :
  (forall x, x ∈ hd -> x ∈ hd') ->
  (forall p, pt_get ts (port_id e) = Some p -> exists p', pt_get ts' (port_id e) = Some p' /\ mode p' = mode p) ->
  evidence hd ts k e -> evidence hd' ts' k e.
Proof.
  intros Hh Ht (p & f & H1 & H2 & H3 & H4). destruct (Ht p H1) as (p' & H1' & Hm). exists p', f.
  split_and!; [done|by apply Hh|by rewrite Hm|by destruct H4|by destruct H4].
Qed.

Lemma reconfigure_inv w i g :
  world_inv w -> (forall p, id (g p) = id p) -> (forall p, mode (g p) = mode p) ->
  world_inv (with_hub w (reconfigure (hub w) i g)).
Proof.
  intros [H1 H2 H3 H4] Hi Hm. destruct (reconfigure_wf _ _ i g H1 Hi ltac:(intros p; by rewrite Hm)) as [Hw Hg].
  split; cbn [with_hub hub counter clock heard reconfigure with_ports mac_table]; try done.
  intros k e He. eapply evidence_mono; [done| |by apply H4]. intros p Hp. eexists. split; [by apply Hg|]. destruct (_ =? i); [apply Hm|done].
Qed.

Lemma forward_inv w depth t t' f s :
  world_inv w -> clock w <= t <= t' -> world_inv (step w (Receive depth t t' f s)).1.
Proof.
  intros [H1 H2 H3 H4] Hc. cbn [step]. pose proof (forward_spec (hub w) depth t t' f s) as Hf.
  destruct (forward _ _ _ _ _ _) as [h' sends]. destruct Hf as (Hp & _ & Hf). cbn [fst].
  destruct (fate_table (clock w) _ _ _ _ _ _ _ _ H3 Hc Hf) as [Hi He]. split; cbn [hub counter clock heard]; rewrite ?Hp; try done.
  intros k e Hk. destruct (He k e Hk) as [Hk'|(src & Hs & -> & Hv & Hm & Hu)].
  - eapply evidence_mono; [|by eauto|by apply H4]. intros x Hx. by right.
  - pose proof Hs as Hs'. apply (get_wf (counter w)) in Hs as [_ Hs]; [|done]. exists src, f. cbn [port_id expires]. rewrite Hs.
    split_and!; try done. replace (t + MAC_AGING - MAC_AGING) with t by lia. by left.
Qed.

Lemma switch_reached_inv w : reached w -> world_inv w.
Proof.
  induction 1 as [c s t Hc|w e _ IH Ha].
  { split; cbn [hub counter clock heard L2Hub_new ports mac_table]; [by split; [|apply NoDup_nil_2|..]|done| |]; [|intros k e He; cbn in He; by rewrite lookup_empty in He].
    split; cbn [MacTable_default entries per_port prune_after]; try done; intros k e He; by rewrite lookup_empty in He. }
  pose proof IH as [H1 H2 H3 H4]. destruct e as [d|c|i|i m|i l|i on|d|depth t t' f s]; cbn [allowed] in Ha.
  - cbn [step next_port_id]. unfold u64. rewrite Z.mod_small by lia. destruct (connect_wf (counter w) (hub w) d H1 ltac:(lia)) as [Hw Hg].
    split; cbn [fst hub counter clock heard]; [done|lia|done|]. intros k e He. eapply evidence_mono; [done| |by apply H4]. eauto.
  - split; cbn [step fst hub counter clock heard]; [|lia|done|done]. destruct H1 as [? ? Hd ?]. split; try done. eapply list.Forall_impl; [exact Hd|]. cbn. lia.
  - destruct (disconnect_wf (counter w) (hub w) i H1) as [Hw Hg]. split; cbn [step fst with_hub hub counter clock heard]; [done|done|by apply purge_inv|].
    intros k e He. apply purge_lookup in He as [He Hn]. eapply evidence_mono; [done| |by apply H4]. eauto.
  - destruct (reconfigure_wf (counter w) (hub w) i (fun p => mkPort (dev p) (id p) (mac_limit p) m (secure p)) H1) as [Hw Hg]; [done|done|].
    split; cbn [step fst with_hub hub counter clock heard]; [done|done|by apply purge_inv|].
    intros k e He. apply purge_lookup in He as [He Hn]. eapply evidence_mono; [done| |by apply H4].
    intros p Hp. exists p. split; [|done]. apply Hg in Hp. by rewrite (proj2 (Z.eqb_neq _ i)) in Hp.
  - by apply reconfigure_inv.
  - by apply reconfigure_inv.
  - split; done.
  - apply forward_inv; [done|]. by destruct Ha.
Qed.

(** ** Theorems *)

Lemma ingress_bound c ts s src f vlan :
  ports_wf c ts -> pt_get ts s = Some src -> ingress_vlan (mode src) (tag_of f) = Some vlan -> 0 <= vlan.
Proof.
  intros Hw Hs. pose proof Hw as [_ _ _ Hm]. apply (get_wf c) in Hs as [Hs _]; [|done]. rewrite list.Forall_forall in Hm. specialize (Hm src Hs).
  unfold ingress_vlan. pose proof (vlan_id_bound f). destruct (tag_of f ≫= _) as [t|] eqn:Et.
  - unfold tag_of in Et. destruct (has_vlan f); [|done]. cbn in Et. destruct (negb _); [|done]. injection Et as <-.
    destruct (mode src); [done|]. destruct (vs_contains _ _); [|done]. intros [= <-]. lia.
  - destruct (mode src) as [v|a [n|]]; cbn in *; unfold u16_ok in *; [intros [= <-]; lia| |done].
    destruct (vs_contains a n); [|done]. intros [= <-]. lia.
Qed.

(** The places a frame goes are ports of the switch other than its own. *)
Lemma elem_of_flood c h vlan f s d out :
  ports_wf c (ports h) -> (d, out) ∈ omap (offer vlan f) (others (plist (ports h)) s) ->
  exists q, pt_get (ports h) d = Some q /\ d <> s /\ offer vlan f q = Some (d, out).
Proof.
  intros Hw Hi. apply list_elem_of_omap in Hi as (q & Hq & Ho). apply list_elem_of_filter in Hq as [Hs Hq].
  assert (d = id q) as ->. { unfold offer in Ho. destruct (egress _ _); [|done]. cbn in Ho. destruct (shape _ _); [|done]. by injection Ho. }
  exists q. split_and!; [by apply (get_wf c)|done|done].
Qed.

Lemma fate_sends c h depth now now' f s t sends d out :
  ports_wf c (ports h) -> fate h depth now now' f s t sends -> (d, out) ∈ sends ->
  exists src vlan q, pt_get (ports h) s = Some src /\ ingress_vlan (mode src) (tag_of f) = Some vlan /\ 14 <= zlen f /\
    pt_get (ports h) d = Some q /\ d <> s /\ offer vlan f q = Some (d, out).
Proof.
  intros Hw Hf Hi. destruct Hf as [|src vlan t Hs Hv Hz Ha|src vlan t Hd Hs Hv Hz Ha Hg|src vlan t t' dst Hd Hs Hv Hz Ha Hg Hlk];
    try by apply elem_of_nil in Hi.
  { exists src, vlan. destruct (elem_of_flood c h vlan f s d out Hw Hi) as (q & H1 & H2 & H3). by exists q. }
  exists src, vlan. destruct dst as [q| |]; cbn [sends_to] in Hi; [|by apply elem_of_nil in Hi|].
  - exists q. destruct (offer vlan f q) as [x|] eqn:Eo; cbn [option_list] in Hi; [|by apply elem_of_nil in Hi]. apply list_elem_of_singleton in Hi as <-.
    unfold lookup in Hlk. destruct (entries t !! _) as [e|]; [|done]. destruct (expires e <=? now'); [done|].
    destruct (port_id e =? s) eqn:Es; [done|]. destruct (pt_get (ports h) (port_id e)) as [q'|] eqn:Eq; [|done]. injection Hlk as _ ->. bool2prop.
    assert (d = id q) as ->. { unfold offer in Eo. destruct (egress _ _); [|done]. cbn in Eo. destruct (shape _ _); [|done]. by injection Eo. }
    pose proof Eq as Hq. apply (get_wf c) in Hq as [_ Hid]; [|done]. rewrite Hid. by split_and!.
  - destruct (elem_of_flood c h vlan f s d out Hw Hi) as (q & H1 & H2 & H3). by exists q.
Qed.

(** C7: in whatever state connections, configuration and traffic have brought the
    switch to, a frame it sends for one received on port [s] leaves on another
    port, carries the same addresses and payload, and a port configured like
    the one it leaves by would put it in the VLAN [vlan] it came in on.  The
    exception is VLAN 0: its frames can leave as priority-tagged ones. *)
Theorem vlan_isolation (w : world) (depth t t' : Z) (f : list Z) (s d : Z) (out : list Z) :
  reached w -> allowed w (Receive depth t t' f s) -> (d, out) ∈ (step w (Receive depth t t' f s)).2 ->
  exists src q vlan, pt_get (ports (hub w)) s = Some src /\ ingress_vlan (mode src) (tag_of f) = Some vlan /\
    pt_get (ports (hub w)) d = Some q /\ d <> s /\ same_content f out /\
    (ingress_vlan (mode q) (tag_of out) = Some vlan \/ vlan = 0 /\ tag_of out = Some 0).
Proof.
  intros Hr [_ Hb] Hi. destruct (switch_reached_inv w Hr) as [Hw _ _ _]. cbn [step] in Hi.
  pose proof (forward_spec (hub w) depth t t' f s) as Hf. destruct (forward _ _ _ _ _ _) as [h' sends]. destruct Hf as (_ & _ & Hf).
  destruct (fate_sends _ _ _ _ _ _ _ _ _ _ _ Hw Hf Hi) as (src & vlan & q & Hs & Hv & Hz & Hq & Hd & Ho).
  destruct (offer_isolated vlan f q d out Hb Hz (ingress_bound _ _ _ _ _ _ Hw Hs Hv) Ho) as (_ & Hc & Hi').
  by exists src, q, vlan.
Qed.

(** The addresses a port has learned stay within its limit. *)
Lemma fate_limit clock c h depth now now' f s t sends p port l :
  table_inv clock (mac_table h) -> clock <= now <= now' -> ports_wf c (ports h) -> fate h depth now now' f s t sends ->
  pt_get (ports h) p = Some port -> mac_limit port = Some l ->
  count p (entries t) <= Z.max l (count p (entries (mac_table h))).
Proof.
  intros Ht Hc Hw Hf Hp Hl.
  assert (forall m : gmap MacKey MacEntry, forall k, count p (delete k m) <= count p m) as Hdel.
  { intros m k. rewrite count_delete. destruct (m !! k); [unfold one; destruct (_ =? _)|]; lia. }
  assert (forall now m, count p (live now m) <= count p m) as Hlive by (intros; apply count_filter_le).
  assert (forall src vlan t1 ok, pt_get (ports h) s = Some src -> after_learning h now vlan f src = (t1, ok) ->
            count p (entries t1) <= Z.max l (count p (entries (mac_table h)))) as Hla.
  { intros src vlan t1 ok Hs Ha. destruct (after_learning_spec clock h now vlan f src t1 ok Ht ltac:(lia) Ha) as (_ & H1 & H2).
    destruct (decide (Z.land f.[6] 1 = 0)) as [Hu|Hu]; [|destruct (H2 Hu) as [-> _]; lia].
    destruct (H1 Hu) as [|? |t1 m _ Hm ->|t1 _ _ _ ->]; [lia|lia| |etrans; [apply Hdel|]; etrans; [apply Hlive|lia]].
    rewrite count_insert. cbn [port_id]. destruct (id src =? p) eqn:Es; bool2prop; cbn [one].
    - apply (get_wf c) in Hs as Hs'; [|done]. destruct Hs' as [_ Hid]. assert (src = port) as -> by congruence.
      destruct Hm as [[Hk ->]|(_ & _ & Hm)].
      + unfold known_on in Hk. destruct (entries (mac_table h) !! _) as [o|]; [|done]. injection Hk as Hk. rewrite Hk, (proj2 (Z.eqb_eq _ _) Es). cbn [one]. lia.
      + unfold within_limit in Hm. rewrite Hl, Es in Hm. destruct (m !! _); [unfold one; destruct (_ =? _)|]; lia.
    - assert (count p m <= count p (entries (mac_table h))) by (destruct Hm as [[_ ->]|(_ & [->| ->] & _)]; [lia|lia|apply Hlive]).
      destruct (m !! _); [unfold one; destruct (_ =? _)|]; lia. }
  destruct Hf as [|src vlan t Hs Hv Hz Ha|src vlan t Hd Hs Hv Hz Ha Hg|src vlan t t' dst Hd Hs Hv Hz Ha Hg Hlk]; [lia|by eauto|by eauto|].
  assert (entries t' = entries t \/ exists k, entries t' = delete k (entries t)) as He.
  { unfold lookup in Hlk. destruct (entries t !! _) as [e|] eqn:E; [|injection Hlk as <- _; by left].
    destruct (expires e <=? now'); [injection Hlk as <- _; right; eexists; apply entries_remove|].
    destruct (port_id e =? s); [injection Hlk as <- _; by left|].
    destruct (pt_get (ports h) (port_id e)); injection Hlk as <- _; [by left|right; eexists; apply entries_remove]. }
  destruct He as [->|[k ->]]; [by eauto|]. etrans; [apply Hdel|]. by eauto.
Qed.

(** Where a lookup at [now] sends a frame is where a frame from that address
    was heard less than the aging time before; it finds nothing only when
    nothing it holds is as recent. *)
Definition found_recent (w : world) (now : Z) (k : MacKey) (s : Z) (d : Dest) : Prop :=
  match d with
  | Unknown => forall e, entries (mac_table (hub w)) !! k = Some e -> expires e <= now
  | _ => exists u p f, now - MAC_AGING < u <= clock w /\ (u, id p, f) ∈ heard w /\ pt_get (ports (hub w)) (id p) = Some p /\
      ingress_vlan (mode p) (tag_of f) = Some (fst k) /\ src_mac f = Some (snd k) /\ d = if id p =? s then Ingress else DPort p
  end.

Lemma lookup_recent w now k s : world_inv w -> found_recent w now k s (lookup (mac_table (hub w)) (ports (hub w)) now k s).2.
Proof.
  intros [Hw _ Ht He]. unfold lookup. destruct (entries (mac_table (hub w)) !! k) as [e|] eqn:E; [|cbn; congruence].
  destruct (expires e <=? now) eqn:Ee; bool2prop; [cbn; intros e' E'; by simplify_eq|].
  destruct (He k e E) as (p & f & Hp & Hh & Hv & Hm & _). pose proof (ti_young _ _ Ht k e E) as Hy. pose proof Hp as Hid. apply (get_wf (counter w)) in Hid as [_ Hid]; [|done].
  assert (found_recent w now k s (if id p =? s then Ingress else DPort p)) as K.
  { unfold found_recent. destruct (id p =? s) eqn:Ei; exists (expires e - MAC_AGING), p, f; rewrite Ei, Hid; (split_and!; [lia|lia|done|done|done|done|done]). }
  rewrite Hid in K. destruct (port_id e =? s); [exact K|]. by rewrite Hp.
Qed.

(** C31: the learning table of a switch is well formed in every reachable state.
    The per-port counts are exact and the size is bounded.  An entry was
    learned from a frame with that source address, on that VLAN, heard on the
    port it names at the time its expiry dates from.  An entry past the aging
    time may still be there, but is not used: a lookup leads to a port only on
    the evidence of a frame heard there less than the aging time before, and to
    none only when no entry is that recent.  Pruning leaves exactly the entries that have
    not expired although it skips the work until the recorded time; and no
    frame takes a port over its limit. *)
Theorem learning_table_exact (w : world) :
  reached w ->
  let t := mac_table (hub w) in
  (forall p, port_count t p = count p (entries t)) /\
  Z.of_nat (size (entries t)) <= MAC_TABLE_MAX_SIZE /\
  (forall k e, entries t !! k = Some e -> expires e <= clock w + MAC_AGING /\ evidence (heard w) (ports (hub w)) k e) /\
  (forall now k s, found_recent w now k s (lookup t (ports (hub w)) now k s).2) /\
  (forall now, clock w <= now -> entries (prune_expired t now) = live now (entries t)) /\
  (forall depth a b f s p port l, allowed w (Receive depth a b f s) ->
     pt_get (ports (hub w)) p = Some port -> mac_limit port = Some l ->
     count p (entries (mac_table (hub (step w (Receive depth a b f s)).1))) <= Z.max l (count p (entries t))).
Proof.
  intros Hr t. pose proof (switch_reached_inv w Hr) as Hi. pose proof Hi as [Hw Hc Ht He]. split_and!.
  - intros p. apply port_count_eq, (ti_exact _ _ Ht).
  - apply (ti_size _ _ Ht).
  - intros k e Hk. split; [by apply (ti_young _ _ Ht k)|by apply He].
  - intros now k s. by apply lookup_recent.
  - intros now Hn. by apply (prune_expired_spec (clock w)).
  - intros depth a b f s p port l [Hab _] Hp Hl. cbn [step].
    pose proof (forward_spec (hub w) depth a b f s) as Hf. destruct (forward _ _ _ _ _ _) as [h' sends]. destruct Hf as (_ & _ & Hf).
    by eapply fate_limit.
Qed.

(** An address held by a secure port stays there through learning, and one
    that claims it from elsewhere is turned away. *)
Lemma learnt_keeps t ts now key s t' ok k e p :
  learnt t ts now key s t' ok -> entries t !! k = Some e -> pt_get ts (port_id e) = Some p -> secure p = true ->
  now < expires e -> expires e <= now + MAC_AGING ->
  (exists e', entries t' !! k = Some e' /\ port_id e' = port_id e /\ expires e <= expires e') /\
  (k = key -> id s <> port_id e -> ok = false).
Proof.
  intros H He Hp Hs Hn Hy.
  assert (k = key -> id s <> port_id e -> claimed t ts now key s = true) as Hcl.
  { intros -> Hi. unfold claimed. rewrite He. unfold held. rewrite (proj2 (Z.eqb_neq (port_id e) (id s))) by done. rewrite Hp, Hs.
    cbn [negb andb]. rewrite andb_true_r. lia. }
  assert (live now (entries t) !! k = Some e) as Hl by (by apply live_lookup).
  destruct H as [e0 H1 H2 H3|H1|t' m H1 Hm Ht|t' H1 Hk Hm Ht].
  - split; [by exists e|]. intros -> Hi. congruence.
  - split; [by exists e|done].
  - split.
    + rewrite Ht. destruct (decide (k = key)) as [->|Hne].
      * rewrite lookup_insert_eq. eexists. split; [done|]. cbn [port_id expires]. split; [|done].
        destruct (decide (id s = port_id e)) as [|Hi]; [done|]. rewrite Hcl in H1 by done. done.
      * rewrite lookup_insert_ne by done. exists e. split; [|done]. by destruct Hm as [[_ ->]|(_ & [->| ->] & _)].
    + intros -> Hi. rewrite Hcl in H1 by done. done.
  - destruct (decide (k = key)) as [->|Hne].
    + exfalso. unfold known_on in Hk. rewrite He in Hk. cbn in Hk. rewrite Hcl in H1; [done|done|congruence].
    + split; [|done]. rewrite Ht, lookup_delete_ne by done. by exists e.
Qed.

(** Looking an address up keeps every entry that has not expired. *)
Lemma lookup_keeps t ts now key s t' d k e :
  lookup t ts now key s = (t', d) -> entries t !! k = Some e -> is_Some (pt_get ts (port_id e)) -> now < expires e ->
  entries t' !! k = Some e.
Proof.
  intros Hlk He Hp Hn. unfold lookup in Hlk. destruct (entries t !! key) as [e0|] eqn:E0; [|by injection Hlk as <- _].
  assert (key <> k -> entries (mt_remove t key) !! k = Some e) as Hr by (intros ?; by rewrite entries_remove, lookup_delete_ne).
  destruct (expires e0 <=? now) eqn:Ee; bool2prop.
  { injection Hlk as <- _. apply Hr. intros ->. rewrite He in E0. injection E0 as <-. lia. }
  destruct (port_id e0 =? s); [by injection Hlk as <- _|].
  destruct (pt_get ts (port_id e0)) eqn:Ep; injection Hlk as <- _; [done|]. apply Hr. intros ->. rewrite He in E0. injection E0 as <-.
  rewrite Ep in Hp. by destruct Hp.
Qed.

(** C32: an address known on a secure port stays on it while the entry lives,
    whatever is received elsewhere, and a frame from another port that claims
    the address is not sent anywhere. *)
Theorem port_security (w : world) (depth t t' : Z) (f : list Z) (s : Z) (k : MacKey) (e : MacEntry) (p : Port) :
  reached w -> allowed w (Receive depth t t' f s) ->
  entries (mac_table (hub w)) !! k = Some e -> t' < expires e ->
  pt_get (ports (hub w)) (port_id e) = Some p -> secure p = true ->
  let '(w', sends) := step w (Receive depth t t' f s) in
  (exists e', entries (mac_table (hub w')) !! k = Some e' /\ port_id e' = port_id e /\ expires e <= expires e') /\
  (forall src, pt_get (ports (hub w)) s = Some src -> s <> port_id e -> ingress_vlan (mode src) (tag_of f) = Some (fst k) ->
     src_mac f = Some (snd k) -> Z.land f.[6] 1 = 0 -> sends = []).
Proof.
  intros Hr [Hc Hb] He Hx Hp Hs. destruct (switch_reached_inv w Hr) as [Hw _ Ht _]. cbn [step].
  pose proof (forward_spec (hub w) depth t t' f s) as Hf. destruct (forward _ _ _ _ _ _) as [h' sends]. destruct Hf as (_ & _ & Hf).
  cbn [hub]. pose proof (ti_young _ _ Ht k e He) as Hy.
  assert (forall src vlan t1 ok, pt_get (ports (hub w)) s = Some src -> after_learning (hub w) t vlan f src = (t1, ok) ->
    (exists e', entries t1 !! k = Some e' /\ port_id e' = port_id e /\ expires e <= expires e') /\
    (s <> port_id e -> k = (vlan, slice f 6 12) -> Z.land f.[6] 1 = 0 -> ok = false)) as Hla.
  { intros src vlan t1 ok Hsrc Ha. destruct (after_learning_spec (clock w) (hub w) t vlan f src t1 ok Ht ltac:(lia) Ha) as (_ & H1 & H2).
    apply (get_wf (counter w)) in Hsrc as [_ Hid]; [|done].
    destruct (decide (Z.land f.[6] 1 = 0)) as [Hu|Hu]; [|destruct (H2 Hu) as [-> _]; split; [by exists e|done]].
    destruct (learnt_keeps _ _ _ _ _ _ _ k e p (H1 Hu) He Hp Hs ltac:(lia) ltac:(lia)) as [H3 H4]. split; [done|].
    intros Hne Hk _. by apply H4; [|rewrite Hid]. }
  assert (forall src vlan t1 sends, pt_get (ports (hub w)) s = Some src -> ingress_vlan (mode src) (tag_of f) = Some vlan -> 14 <= zlen f ->
    after_learning (hub w) t vlan f src = (t1, true) ->
    forall src, pt_get (ports (hub w)) s = Some src -> s <> port_id e -> ingress_vlan (mode src) (tag_of f) = Some (fst k) ->
     src_mac f = Some (snd k) -> Z.land f.[6] 1 = 0 -> sends = @nil (Z * list Z)) as Hno.
  { intros src vlan t1 sds Hsrc Hv Hz Ha src' Hsrc' Hne Hv' Hm Hu. exfalso. destruct (Hla src vlan t1 true Hsrc Ha) as [_ H]. 
    rewrite src_mac_slice in Hm by done. rewrite Hsrc in Hsrc'. injection Hsrc' as <-. rewrite Hv in Hv'.
    destruct k as [kv km]; cbn [fst snd] in *. injection Hv' as <-. injection Hm as <-. by specialize (H Hne eq_refl Hu). }
  destruct Hf as [|src vlan t1 Hsr Hv Hz Ha|src vlan t1 Hd Hsr Hv Hz Ha Hg|src vlan t1 t2 dst Hd Hsr Hv Hz Ha Hg Hlk].
  - split; [by exists e|done].
  - split; [by eapply Hla|done].
  - split; [by eapply Hla|by eapply Hno].
  - split; [|by eapply Hno]. destruct (Hla _ _ _ _ Hsr Ha) as [(e' & H1 & H2 & H3) _]. exists e'. split; [|done].
    eapply lookup_keeps; [exact Hlk|done|rewrite H2; by eexists|lia].
Qed.

(** ** Where a frame goes *)

(** The port an address is known to be on. *)
Definition located (w : world) (now : Z) (k : MacKey) : option Z :=
  match entries (mac_table (hub w)) !! k with
  | Some e => if now <? expires e then Some (port_id e) else None
  | None => None
  end.

(** Port security turns a frame away: its address is another secure port's,
    or its own port is secure and cannot learn it. *)
Definition turned_away (w : world) (now vlan : Z) (f : list Z) (src : Port) : bool :=
  (Z.land f.[6] 1 =? 0) &&
  (let t := mac_table (hub w) in let k := (vlan, slice f 6 12) in
   claimed t (ports (hub w)) now k src
   || (secure src && negb (bool_decide (known_on t k = Some (id src))) && no_room now t (known_on t k) src)).

(** The frames the switch is to send. *)
Definition due (w : world) (now now' vlan : Z) (f : list Z) (src : Port) : list (Z * list Z) :=
  let everyone := omap (offer vlan f) (others (plist (ports (hub w))) (id src)) in
  if turned_away w now vlan f src then []
  else if negb (Z.land f.[0] 1 =? 0) then everyone
  else
    match located w now' (vlan, slice f 0 6) with
    | None => everyone
    | Some i => if i =? id src then []
                else match pt_get (ports (hub w)) i with Some q => option_list (offer vlan f q) | None => [] end
    end.

(** Learning one address does not touch another that is still live. *)
Lemma learnt_other t ts now key s t' ok k e :
  learnt t ts now key s t' ok -> k <> key -> now < expires e ->
  entries t' !! k = Some e <-> entries t !! k = Some e.
Proof.
  intros H Hk Hn. destruct H as [?|?|t' m _ Hm Ht|t' _ _ _ Ht]; try done; rewrite Ht.
  - rewrite lookup_insert_ne by done. destruct Hm as [[_ ->]|(_ & [->| ->] & _)]; [done|done|]. rewrite live_lookup. tauto.
  - rewrite lookup_delete_ne by done. rewrite live_lookup. tauto.
Qed.

Lemma learnt_verdict t ts now key s t' ok :
  learnt t ts now key s t' ok ->
  ok = negb (claimed t ts now key s || (secure s && negb (bool_decide (known_on t key = Some (id s))) && no_room now t (known_on t key) s)) /\
  (ok = true -> known_on t key = Some (id s) \/ no_room now t (known_on t key) s = false ->
   exists e, entries t' !! key = Some e /\ port_id e = id s /\ now + MAC_AGING / 2 < expires e).
Proof.
  assert (MAC_AGING / 2 < MAC_AGING) as Hlt by done.
  intros [e H1 H2 H3|H1|t1 m H1 Hm Ht|t1 H1 Hk Hm Ht].
  - split; [|intros _ _; by exists e]. unfold known_on, claimed, held. rewrite H1. cbn [fmap option_fmap option_map].
    rewrite H2, Z.eqb_refl, bool_decide_true by done. by rewrite andb_false_r.
  - by rewrite H1.
  - rewrite H1. split; [destruct Hm as [[Hk _]|[Hn _]]; [rewrite bool_decide_true by done; by rewrite andb_false_r|by rewrite Hn, andb_false_r]|].
    intros _ _. rewrite Ht, lookup_insert_eq. eexists. split; [done|]. cbn [port_id expires]. split; [done|lia].
  - rewrite H1, Hm, bool_decide_false by done. cbn [negb orb]. rewrite !andb_true_r. split; [done|]. intros _ [Hk'|Hk']; [done|congruence].
Qed.

(** C8: a valid frame from a port that carries its VLAN goes exactly where it is
    due: nowhere if port security turns it away or its destination is on the
    port it came from, to the port its destination is known on if that port
    carries the VLAN, else to every other port that does; and its source
    address is known on the port afterwards unless the limits forbid it. *)
Theorem switch_forwards (w : world) (depth t t' : Z) (f : list Z) (s vlan : Z) (src : Port) :
  reached w -> allowed w (Receive depth t t' f s) ->
  depth < max_depth (hub w) -> 14 <= zlen f -> dst_mac f <> src_mac f ->
  pt_get (ports (hub w)) s = Some src -> ingress_vlan (mode src) (tag_of f) = Some vlan ->
  let '(w', sends) := step w (Receive depth t t' f s) in
  sends = due w t t' vlan f src /\
  (Z.land f.[6] 1 = 0 -> turned_away w t vlan f src = false ->
   let k := (vlan, slice f 6 12) in
   known_on (mac_table (hub w)) k = Some s \/ no_room t (mac_table (hub w)) (known_on (mac_table (hub w)) k) src = false ->
   exists e, entries (mac_table (hub w')) !! k = Some e /\ port_id e = s /\ t + MAC_AGING / 2 < expires e).
Proof.
  intros Hr [Hc Hb] Hd Hz Hmac Hs Hv. destruct (switch_reached_inv w Hr) as [Hw _ Ht Hev]. cbn [step].
  assert (id src = s) as Hid by (by apply (get_wf (counter w)) in Hs as [_ ?]).
  pose proof (forward_spec (hub w) depth t t' f s) as Hf. destruct (forward _ _ _ _ _ _) as [h' sends]. destruct Hf as (_ & _ & Hf). cbn [hub].
  assert ((vlan, slice f 0 6) <> (vlan, slice f 6 12)) as Hne.
  { intros [= E]. apply Hmac. unfold dst_mac, src_mac. by rewrite E. }
  assert (forall t1 ok, after_learning (hub w) t vlan f src = (t1, ok) ->
     ok = negb (turned_away w t vlan f src) /\ table_inv t t1 /\
     (forall k e, k <> (vlan, slice f 6 12) -> t < expires e -> entries t1 !! k = Some e <-> entries (mac_table (hub w)) !! k = Some e) /\
     (ok = true -> Z.land f.[6] 1 = 0 -> let k := (vlan, slice f 6 12) in
      known_on (mac_table (hub w)) k = Some s \/ no_room t (mac_table (hub w)) (known_on (mac_table (hub w)) k) src = false ->
      exists e, entries t1 !! k = Some e /\ port_id e = s /\ t + MAC_AGING / 2 < expires e)) as Hla.
  { intros t1 ok Ha. destruct (after_learning_spec (clock w) (hub w) t vlan f src t1 ok Ht ltac:(lia) Ha) as (Hi & H1 & H2). unfold turned_away.
    destruct (Z.land f.[6] 1 =? 0) eqn:Eu; bool2prop; cbn [andb]; [|destruct (H2 Eu) as [-> ->]; by split_and!].
    destruct (learnt_verdict _ _ _ _ _ _ _ (H1 Eu)) as [Hok Hk]. rewrite Hid in *. split_and!; [done|done|by intros; eapply learnt_other; eauto|].
    intros Ho _. by apply Hk. }
  destruct Hf as [H|src' vlan' t1 Hsr Hv' _ Ha|src' vlan' t1 _ Hsr Hv' _ Ha Hg|src' vlan' t1 t2 dst _ Hsr Hv' _ Ha Hg Hlk].
  { exfalso. destruct H as [?|[?|[?|(x & Hx & ?)]]]; [lia|lia|congruence|]. rewrite Hs in Hx. injection Hx as <-. congruence. }
  all: rewrite Hs in Hsr; injection Hsr as <-; rewrite Hv in Hv'; injection Hv' as <-.
  all: destruct (Hla _ _ Ha) as (Hok & Hi & Hoth & Hlearn); unfold due; rewrite Hid; destruct (turned_away w t vlan f src); try done.
  - split; [by rewrite (proj2 (Z.eqb_neq _ _) Hg)|]. auto.
  - rewrite (proj2 (Z.eqb_eq _ _) Hg). cbn [negb].
    destruct (lookup_spec t' t1 (ports (hub w)) _ s t2 dst (table_inv_mono _ t' _ Hi ltac:(lia)) Hlk) as (_ & Hent & Hhit & Hmiss).
    split.
    + unfold located. destruct (entries (mac_table (hub w)) !! ((vlan, slice f 0 6) : MacKey)) as [e|] eqn:Ee.
      * destruct (t' <? expires e) eqn:Ex; bool2prop.
        -- destruct (Hev _ _ Ee) as (q & _ & Hq & _). destruct (Hhit e) as [_ ->]; [by apply Hoth; [done|lia|]|done|by eexists|].
           rewrite Hq. by destruct (port_id e =? s).
        -- rewrite Hmiss; [done|]. intros e' He'. destruct (decide (t < expires e')) as [Hlt|]; [|lia]. apply Hoth in He'; [|done..].
           assert (Some e = Some e') as [= <-] by (rewrite <- Ee; exact He'). lia.
      * rewrite Hmiss; [done|]. intros e' He'. destruct (decide (t < expires e')) as [Hlt|]; [|lia]. apply Hoth in He'; [|done..].
        assert (None = Some e') by (rewrite <- Ee; exact He'). done.
    + intros Hu _ Hk. destruct (Hlearn eq_refl Hu Hk) as (e & He & Hp & Hx). exists e. split; [|done].
      destruct Hent as [->| ->]; [done|]. by rewrite lookup_delete_ne.
Qed.

(** ** A small network: an access port of VLAN 10 that is secure, a trunk
    whose native VLAN is 20, an access port of VLAN 20 *)

Fixpoint run (w : world) (es : list event) : world :=
  match es with [] => w | e :: es => run (step w e).1 es end.

Fixpoint all_allowed (w : world) (es : list event) : Prop :=
  match es with [] => True | e :: es => allowed w e /\ all_allowed (step w e).1 es end.

Lemma reached_run w es : reached w -> all_allowed w es -> reached (run w es).
Proof.
  revert w. induction es as [|e es IH]; intros w Hw; [done|]. intros [Ha Hs]. apply IH; [by constructor|done].
Qed.

Definition demo_frame : list Z := [255;255;255;255;255;255; 2;0;0;0;0;1; 8;6; 1;2;3].

Definition demo_reply : list Z := [2;0;0;0;0;1; 2;0;0;0;0;9; 129;0; 0;10; 8;6; 4;5;6].

Definition demo_events : list event :=
  [Connect 100; Connect 101; Connect 102; SetMode 1 (Access 10); SetMode 2 (Trunk vs_all (Some 20)); SetMode 3 (Access 20);
   SetSecure 1 true; Receive 0 5 6 demo_frame 1].

Definition demo : world := run (mkWorld L2Hub_new 0 16 0 []) demo_events.

Lemma switch_demo_reached : reached demo.
Proof.
  apply reached_run; [constructor; lia|]. cbn [all_allowed demo_events]. repeat (split; [vm_compute; (done || (split; done))|]).
  split; [|done]. split; [vm_compute; split; discriminate|]. repeat constructor; lia.
Qed.

Lemma demo_allowed f s : bytes_ok f -> allowed demo (Receive 0 7 8 f s).
Proof. intros H. split; [vm_compute; split; discriminate|done]. Qed.

Lemma vlan_isolation_witness :
  ingress_vlan (Trunk vs_all (Some 20)) (tag_of (push_vlan demo_frame 10 0)) = Some 10.
Proof.
  destruct (vlan_isolation demo 0 7 8 demo_frame 1 2 (push_vlan demo_frame 10 0)) as (src & q & vlan & H1 & H2 & H3 & _ & _ & H4).
  - exact switch_demo_reached.
  - apply demo_allowed. repeat constructor; lia.
  - vm_compute. left.
  - vm_compute in H1. injection H1 as <-. vm_compute in H2. injection H2 as <-. vm_compute in H3. injection H3 as <-.
    destruct H4 as [H4|[H4 _]]; [exact H4|discriminate].
Defined.

Lemma learning_table_exact_witness :
  port_count (mac_table (hub demo)) 1 = count 1 (entries (mac_table (hub demo))) /\ port_count (mac_table (hub demo)) 1 = 1 /\
  (lookup (mac_table (hub demo)) (ports (hub demo)) (5 + MAC_AGING - 1) (10, [2;0;0;0;0;1]) 2).2 = DPort (mkPort 100 1 (Some 1024) (Access 10) true) /\
  (lookup (mac_table (hub demo)) (ports (hub demo)) (5 + MAC_AGING) (10, [2;0;0;0;0;1]) 2).2 = Unknown /\
  found_recent demo (5 + MAC_AGING - 1) (10, [2;0;0;0;0;1]) 2 (lookup (mac_table (hub demo)) (ports (hub demo)) (5 + MAC_AGING - 1) (10, [2;0;0;0;0;1]) 2).2.
Proof.
  destruct (learning_table_exact demo switch_demo_reached) as (H & _ & _ & R & _).
  split; [exact (H 1)|]. split; [vm_compute; reflexivity|]. split; [vm_compute; reflexivity|]. split; [vm_compute; reflexivity|]. apply R.
Defined.

Lemma port_security_witness :
  (step demo (Receive 0 7 8 (ztake 6 demo_frame ++ [2;0;0;0;0;1] ++ [129;0;0;10;8;6]) 2)).2 = [].
Proof.
  set (f := ztake 6 demo_frame ++ [2;0;0;0;0;1] ++ [129;0;0;10;8;6]).
  pose proof (port_security demo 0 7 8 f 2 (10, [2;0;0;0;0;1]) (mkEntry 1 (5 + MAC_AGING)) (mkPort 100 1 (Some 1024) (Access 10) true)) as H.
  destruct (step demo (Receive 0 7 8 f 2)) as [w' sends].
  destruct H as [_ H].
  - exact switch_demo_reached.
  - apply demo_allowed. repeat constructor; done.
  - vm_compute. reflexivity.
  - vm_compute. reflexivity.
  - vm_compute. reflexivity.
  - reflexivity.
  - apply (H (mkPort 101 2 (Some 1024) (Trunk vs_all (Some 20)) false)); [vm_compute; reflexivity|discriminate|vm_compute; reflexivity..].
Defined.

Lemma switch_forwards_witness : (step demo (Receive 0 7 8 demo_reply 2)).2 = [(1, pop_vlan demo_reply)].
Proof.
  pose proof (switch_forwards demo 0 7 8 demo_reply 2 10 (mkPort 101 2 (Some 1024) (Trunk vs_all (Some 20)) false)) as H.
  destruct (step demo (Receive 0 7 8 demo_reply 2)) as [w' sends].
  destruct H as [H _].
  - exact switch_demo_reached.
  - apply demo_allowed. repeat constructor; done.
  - vm_compute. reflexivity.
  - vm_compute. discriminate.
  - vm_compute. discriminate.
  - vm_compute. reflexivity.
  - vm_compute. reflexivity.
  - rewrite H. vm_compute. reflexivity.
Defined.
