(* ===== verification/Topology.v ===== *)
(** * Hubs wired to hubs ([src/src/l2hub.rs], [src/src/l3hub.rs], [src/src/connect.rs])

    A thread that hands a packet to a hub runs a chain of calls: the hub sends
    to devices, a device hands what it is sent to its handler, and the handler
    is another hub, or the other end of a point-to-point link.  A loop in the
    topology is recursion.  The chain is modelled with the thread's depth
    counter as it is, raised and lowered by [DepthGuard], and with the stack
    of the thread: so many nested calls, and no more, fit on it.  A hub's
    counters, which the code raises after a send, are raised before it here,
    and no limit is changed while a call runs. *)

From S2P Require Import Prelude Ip Build HubStats Depth L3Hub L2Hub.

(** ** State *)

(** The hubs of a process, and [SHARED_MAX_FORWARD_DEPTH]. *)
Record Net := mkNet { routers : gmap Z L3Hub.Hub; switches : gmap Z L2Hub.L2Hub; shared : Z }.

Definition with_router (n : Net) (h : Z) (x : L3Hub.Hub) : Net := mkNet (<[h := x]> (routers n)) (switches n) (shared n).
Definition with_switch (n : Net) (h : Z) (x : L2Hub.L2Hub) : Net := mkNet (routers n) (<[h := x]> (switches n)) (shared n).

(** The handlers a device may have: the one [L3Hub::connect_arc] installs,
    the one [L2Hub::connect_arc] installs, and the one [connect_l2] and
    [connect_l3] install to reach the device at the other end. *)
Inductive Call :=
| ToRouter (h port : Z) (pkt : list Z)
| ToSwitch (h port : Z) (f : list Z)
| ToPeer (device : Z) (p : list Z).

Section Chain.
(** [dev] is the state of everything that is not a hub. [send] is what a
    device does when it is sent something: it changes, and calls handlers, in
    order.  The clock readings of a switch and the answer of a router's rate
    limiter are there too. *)
Context {dev : Type} (send : dev -> Z -> list Z -> dev * list Call) (times : dev -> Z * Z) (allow : dev -> bool).

Definition world : Type := Net * dev.

(** The limit a handler checks the depth against; [None] when its hub is
    gone. *)
Definition limit (n : Net) (c : Call) : option Z :=
  match c with
  | ToRouter h _ _ => (fun _ => shared n) <$> routers n !! h
  | ToSwitch h _ _ => L2Hub.max_depth <$> switches n !! h
  | ToPeer _ _ => Some (shared n)
  end.

(** The device on a port. *)
Definition router_dev (x : L3Hub.Hub) (p : Z) : option Z := L3Hub.dev <$> L3Hub.find_port (fun q => L3Hub.port_id q =? p) (L3Hub.ports x).
Definition switch_dev (x : L2Hub.L2Hub) (p : Z) : option Z := L2Hub.dev <$> L2Hub.pt_get (L2Hub.ports x) p.

Definition addressed (dev_of : Z -> option Z) (l : list (Z * list Z)) : list (Z * list Z) :=
  omap (fun '(p, b) => (fun d => (d, b)) <$> dev_of p) l.

(** What a handler does with the thread [depth] deep: the hub afterwards, and
    what it sends to which devices.  A router's and a switch's own check of
    the depth is in [route] and [forward]. *)
Definition handle (w : world) (depth : Z) (c : Call) : world * list (Z * list Z) :=
  let '(n, x) := w in
  match c with
  | ToRouter h port pkt =>
      match routers n !! h with
      | None => (w, [])
      | Some r => let '(r', sends) := L3Hub.route r depth (shared n) (allow x) pkt port in ((with_router n h r', x), addressed (router_dev r) sends)
      end
  | ToSwitch h port f =>
      match switches n !! h with
      | None => (w, [])
      | Some s => let '(s', sends) := L2Hub.forward s depth (times x).1 (times x).2 f port in ((with_switch n h s', x), addressed (switch_dev s) sends)
      end
  | ToPeer d p => (w, match enter_shared (shared n) depth with Some _ => [(d, p)] | None => [] end)
  end.

(** One after the other, the depth handed on as each left it. *)
Fixpoint each {A} (f : world -> Z -> A -> option (world * Z)) (w : world) (depth : Z) (l : list A) : option (world * Z) :=
  match l with
  | [] => Some (w, depth)
  | a :: l => '(w, depth) ← f w depth a; each f w depth l
  end.

(** A handler called with room for [stack] nested calls on the stack; [None]
    is a stack overflow. *)
Fixpoint call (stack : nat) (w : world) (depth : Z) (c : Call) : option (world * Z) :=
  match stack with
  | O => None
  | S stack =>
      let '(w', sends) := handle w depth c in
      match limit w.1 c ≫= (fun max => enter max depth) with
      | None => Some (w', depth)
      | Some inside =>
          '(w, depth) ← each (fun w depth '(d, b) => let '(x, calls) := send w.2 d b in each (call stack) (w.1, x) depth calls) w' inside sends;
          Some (w, leave depth)
      end
  end.

(** ** Histories *)

(** Hubs made and configured, and packets handed in by a thread in no
    forwarding.  A switch is configured in any way that leaves its limit;
    [set_max_forward_depth] sets it. *)
Inductive net_step : world -> world -> Prop :=
| new_router n x h : net_step (n, x) (with_router n h L3Hub.Hub_new, x)
| new_switch n x h : net_step (n, x) (with_switch n h L2Hub.L2Hub_new, x)
| set_router n x h r : net_step (n, x) (with_router n h r, x)
| set_switch n x h s s' : switches n !! h = Some s -> L2Hub.max_depth s' = L2Hub.max_depth s -> net_step (n, x) (with_switch n h s', x)
| set_depth n x h s d : switches n !! h = Some s ->
    let '(s', m) := L2Hub.set_max_forward_depth s (shared n) d in
    net_step (n, x) (mkNet (routers n) (<[h := s']> (switches n)) m, x)
| devices_change n x x' : net_step (n, x) (n, x')
| incoming w stack c w' depth : call stack w 0 c = Some (w', depth) -> net_step w w'.

Definition net_start (w : world) : Prop := exists x, w = (mkNet ∅ ∅ DEFAULT_MAX_FORWARD_DEPTH, x).
Definition net_reached (w : world) : Prop := exists w0, net_start w0 /\ rtc net_step w0 w.

(** No switch has a limit above the shared one. *)
Definition net_ok (n : Net) : Prop :=
  DEFAULT_MAX_FORWARD_DEPTH <= shared n /\ map_Forall (fun _ s => L2Hub.max_depth s <= shared n) (switches n).

Lemma limit_shared n c max : net_ok n -> limit n c = Some max -> max <= shared n.
Proof.
  intros [_ H]. destruct c as [h p b|h p b|d b]; cbn; [destruct (routers n !! h)|destruct (switches n !! h) as [s|] eqn:E|]; cbn; intros [= <-]; try lia.
  exact (H h s E).
Qed.

(** A handler leaves every limit as it was. *)
Definition same_limits (n n' : Net) : Prop := shared n' = shared n /\ forall h, L2Hub.max_depth <$> switches n' !! h = L2Hub.max_depth <$> switches n !! h.

#[export] Instance same_limits_preorder : PreOrder same_limits.
Proof.
  split; [done|]. intros a b c [A1 A2] [B1 B2]. split; [congruence|]. intros h. by rewrite B2.
Qed.

Lemma same_limits_ok n n' : same_limits n n' -> net_ok n -> net_ok n'.
Proof.
  intros [E H] [L F]. split; [lia|]. intros h s Hs. specialize (H h). rewrite Hs in H. destruct (switches n !! h) as [s0|] eqn:E0; [|done].
  injection H as H. rewrite H, E. exact (F h s0 E0).
Qed.

Lemma handle_limits w depth c : same_limits w.1 (handle w depth c).1.1.
Proof.
  destruct w as [n x], c as [h p b|h p b|d b]; cbn; [destruct (routers n !! h)| |done].
  - by destruct (L3Hub.route _ _ _ _ _ _).
  - done.
  - destruct (switches n !! h) as [s|] eqn:E; [|done]. pose proof (L2Hub.forward_spec s depth (times x).1 (times x).2 b p) as F.
    destruct (L2Hub.forward _ _ _ _ _ _) as [s' sends]. destruct F as (_ & F & _). split; [done|]. intros i. cbn.
    destruct (decide (h = i)) as [->|Hne]; [rewrite lookup_insert_eq, E; cbn; by rewrite F|by rewrite lookup_insert_ne].
Qed.

(** ** Bounded nesting *)

(** What holds of a call with room for [stack] more: it returns, with the
    depth it came with, whatever room there is beyond. *)
Definition returns (stack : nat) (depth : Z) {A} (f : nat -> world -> Z -> A -> option (world * Z)) : Prop :=
  forall w a, net_ok w.1 -> shared w.1 - depth < Z.of_nat stack ->
  exists w', same_limits w.1 w'.1 /\ forall stack', (stack <= stack')%nat -> f stack' w depth a = Some (w', depth).

Lemma returns_each {A} stack depth (f : nat -> world -> Z -> A -> option (world * Z)) :
  returns stack depth f -> returns stack depth (fun s w d (l : list A) => each (f s) w d l).
Proof.
  intros Hf w l. revert w. induction l as [|a l IH]; intros w Ok Hs; [by exists w|].
  destruct (Hf w a Ok Hs) as (w1 & L1 & F1). destruct (IH w1) as (w2 & L2 & F2); [by eapply same_limits_ok|destruct L1; lia|].
  exists w2. split; [by etrans|]. intros s Hle. cbn. rewrite (F1 s Hle). cbn. by apply F2.
Qed.

Lemma call_returns stack : forall depth, 0 <= depth -> (0 < stack)%nat -> returns stack depth call.
Proof.
  induction stack as [|stack IH]; intros depth H0 Hpos w c Ok Hs; [lia|].
  pose proof (handle_limits w depth c) as L. destruct (handle w depth c) as [w1 sends] eqn:Eh. cbn [fst] in L.
  destruct (limit w.1 c ≫= (fun max => enter max depth)) as [inside|] eqn:Ee.
  2:{ exists w1. split; [done|]. intros [|s'] Hle; [lia|]. cbn. by rewrite Eh, Ee. }
  destruct (limit w.1 c) as [max|] eqn:El; [|done]. cbn in Ee. pose proof (enter_some _ _ _ Ee) as [-> Hm]. pose proof (limit_shared _ _ _ Ok El) as Hmax.
  assert (returns stack (depth + 1) (fun s w d '(dv, b) => let '(x, calls) := send w.2 dv b in each (call s) (w.1, x) d calls)) as Hone.
  { intros v [dv b] Okv Hsv. destruct (send v.2 dv b) as [x calls]. exact (returns_each stack (depth + 1) call (IH (depth + 1) ltac:(lia) ltac:(lia)) (v.1, x) calls Okv Hsv). }
  destruct (returns_each stack (depth + 1) _ Hone w1 sends) as (w2 & L2 & F2); [by eapply same_limits_ok|destruct L; lia|].
  exists w2. split; [by etrans|]. intros [|s'] Hle; [lia|]. cbn [call]. rewrite Eh, El. cbn [mbind option_bind]. rewrite Ee, F2 by lia. cbn.
  by rewrite (leave_enter max depth) by done.
Qed.

Lemma each_limits {A} (f : world -> Z -> A -> option (world * Z)) :
  (forall w d a w' d', f w d a = Some (w', d') -> same_limits w.1 w'.1) ->
  forall l w d w' d', each f w d l = Some (w', d') -> same_limits w.1 w'.1.
Proof.
  intros Hf l. induction l as [|a l IH]; intros w d w' d'; cbn; [by intros [= <- <-]|].
  destruct (f w d a) as [[w1 d1]|] eqn:E; [|done]. cbn. intros H. etrans; [by eapply Hf|by eapply IH].
Qed.

Lemma call_limits stack : forall w d c w' d', call stack w d c = Some (w', d') -> same_limits w.1 w'.1.
Proof.
  induction stack as [|stack IH]; intros w d c w' d'; [done|]. cbn [call]. pose proof (handle_limits w d c) as L.
  destruct (handle w d c) as [w1 sends]. cbn [fst] in L. destruct (limit w.1 c ≫= _) as [inside|]; [|by intros [= <- <-]].
  destruct (each _ w1 inside sends) as [[w2 d2]|] eqn:E; [|done]. cbn. intros [= <- <-]. etrans; [exact L|]. eapply each_limits; [|exact E].
  intros v dd [dv b] v' dd' Hv. destruct (send v.2 dv b) as [x calls]. exact (each_limits _ IH calls (v.1, x) dd v' dd' Hv).
Qed.

Lemma net_step_ok w w' : net_step w w' -> net_ok w.1 -> net_ok w'.1.
Proof.
  assert (forall n h s, net_ok n -> L2Hub.max_depth s <= shared n -> net_ok (with_switch n h s)) as Hins.
  { intros n h s [L F] Hs. split; [done|]. cbn. by apply map_Forall_insert_2. }
  intros St Ok. destruct St as [n x h|n x h|n x h r|n x h s s' E Em|n x h s d E|n x x'|w stack c w' depth E]; cbn in *; try done.
  - apply Hins; [done|]. apply Ok.
  - apply Hins; [done|]. rewrite Em. exact (proj2 Ok h s E).
  - destruct Ok as [L F]. split; cbn; [lia|]. apply map_Forall_insert_2; [cbn; lia|]. intros i y Hy. specialize (F i y Hy). cbn in F. lia.
  - eapply same_limits_ok; [|exact Ok]. by eapply call_limits.
Qed.

Lemma net_reached_ok w : net_reached w -> net_ok w.1.
Proof.
  intros (w0 & (x & ->) & H). assert (net_ok (mkNet ∅ ∅ DEFAULT_MAX_FORWARD_DEPTH, x).1) as Ok by (split; [done|apply map_Forall_empty]).
  revert Ok. induction H as [|a b c Hs _ IH]; [done|]. intros Ok. by eapply IH, net_step_ok.
Qed.

(** C21: Forwarding ends, whatever the hubs, the links and the devices, loops
    and floods included: a packet handed to any handler by a thread [depth]
    hops deep needs no more stack than the hops left under the deepest limit
    any switch has been given (16 to begin with), comes back with the
    thread's depth as it was, and does the same whatever stack there is
    beyond that. *)
Theorem forwarding_bounded (w : world) (depth : Z) (c : Call) (stack : nat) :
  net_reached w -> 0 <= depth -> (0 < stack)%nat -> shared w.1 - depth < Z.of_nat stack ->
  exists w', same_limits w.1 w'.1 /\ forall stack', (stack <= stack')%nat -> call stack' w depth c = Some (w', depth).
Proof. intros R H0 Hp Hs. apply (call_returns stack depth H0 Hp w c); [by apply net_reached_ok|done]. Qed.
End Chain.

(** ** Two routers in a loop, flooding *)

Definition loop_router : L3Hub.Hub :=
  L3Hub.mkHub [L3Hub.mkPort 1 (mkPrefix (V4 0) 0) 1 false; L3Hub.mkPort 2 (mkPrefix (V4 0) 0) 2 false] None (mkStats 0 0 0 0) (None, None).

(** Device 1 of a router leads to port 2 of the other one, device 2 to port
    1.  Each hop is counted. *)
Definition loop_send (x : Z) (d : Z) (b : list Z) : Z * list Call := (x + 1, [ToRouter (1 - x mod 2) (3 - d) b]).

Definition loop_net : Net := mkNet {[0 := loop_router; 1 := loop_router]} ∅ 16.

(** A broadcast. *)
Definition shout : list Z := build_ipv4 167772161 4294967295 17 64 [].

Lemma loop_reached : net_reached loop_send (fun _ => (0, 0)) (fun _ => true) (loop_net, 0).
Proof.
  exists (mkNet ∅ ∅ 16, 0). split; [by exists 0|].
  eapply rtc_l; [apply (set_router _ _ _ _ _ 1 loop_router)|]. eapply rtc_l; [apply (set_router _ _ _ _ _ 0 loop_router)|]. apply rtc_refl.
Qed.

Lemma forwarding_bounded_witness :
  (exists n, call loop_send (fun _ => (0, 0)) (fun _ => true) 17 (loop_net, 0) 0 (ToRouter 0 1 shout) = Some (n, 16, 0)) /\
  call loop_send (fun _ => (0, 0)) (fun _ => true) 16 (loop_net, 0) 0 (ToRouter 0 1 shout) = None.
Proof.
  split; [|vm_compute; reflexivity].
  assert (16 - 0 < Z.of_nat 17) as Hs by (vm_compute; reflexivity).
  destruct (forwarding_bounded loop_send (fun _ => (0, 0)) (fun _ => true) (loop_net, 0) 0 (ToRouter 0 1 shout) 17 loop_reached ltac:(lia) ltac:(lia) Hs) as ([n x] & _ & F).
  specialize (F 17%nat (Nat.le_refl _)).
  assert (option_map (fun '(_, x, d) => (x, d)) (call loop_send (fun _ => (0, 0)) (fun _ => true) 17 (loop_net, 0) 0 (ToRouter 0 1 shout)) = Some (16, 0)) as V by (vm_compute; reflexivity).
  rewrite F in V. injection V as ->. exists n. exact F.
Defined.
