(* ===== verification/NatRewrite.v ===== *)
(** * What the NAT does to a packet ([src/src/nat/nat.rs])

    The header checks, the incremental checksum patches, the rewriting of an
    endpoint (address and port, or address and echo identifier) on the way
    out and on the way in, of the later fragments of a datagram and of the
    packet an ICMP error quotes, the NAT's own echo replies, and the
    correction of TCP sequence numbers after an application-level gateway
    resized a payload.  Indices are those the callers have checked
    ([ipv4_datagram], the length tests before each call). *)

From S2P Require Import Prelude Ip Checksum Packet.

Definition PROTO_ICMP : Z := 1.
Definition PROTO_TCP : Z := 6.
Definition PROTO_UDP : Z := 17.

(** [u16::from_be_bytes([p[i], p[i + 1]])] *)
Definition w16 (p : list Z) (i : Z) : Z := of_be16 p.[i] p.[i + 1].

(** ** Reading a datagram *)

Definition ipv4_datagram (pkt : list Z) : option (list Z * Z) :=
  if (zlen pkt <? 20) || negb (Z.shiftr pkt.[0] 4 =? 4) then None
  else
    let ihl := Z.land pkt.[0] 0x0F * 4 in
    let total := w16 pkt 2 in
    if (ihl <? 20) || (total <? ihl) || (zlen pkt <? total) then None
    else Some (ztake total pkt, ihl).

Definition frag_info (pkt : list Z) : bool * Z :=
  let v := w16 pkt 6 in
  (negb (Z.land v 0x2000 =? 0), Z.land v 0x1FFF * 8).

Definition out_frag_key (ns : Z) (pkt : list Z) : Z * Z * Z * Z * Z :=
  (ns, of_be_bytes (slice pkt 12 16), of_be_bytes (slice pkt 16 20), w16 pkt 4, pkt.[9]).

Definition frag_key (pkt : list Z) : Z * Z * Z := (of_be_bytes (slice pkt 12 16), w16 pkt 4, pkt.[9]).

Definition l4_header_in (pkt : list Z) (ihl proto : Z) : bool :=
  if negb (proto =? PROTO_TCP) then ihl + 8 <=? zlen pkt
  else match get pkt (ihl + 12) with
       | None => false
       | Some b => let doff := Z.shiftr b 4 * 4 in (20 <=? doff) && (ihl + doff <=? zlen pkt)
       end.

Definition tcp_payload_len (pkt : list Z) (ihl : Z) : option Z :=
  b ← get pkt (ihl + 12);
  let doff := Z.shiftr b 4 * 4 in
  if doff <? 20 then None
  else if zlen pkt <? ihl + doff then None else Some (zlen pkt - (ihl + doff)).

Definition tcp_flags (pkt : list Z) (ihl proto : Z) : option Z :=
  if proto =? PROTO_TCP then get pkt (ihl + 13) else None.

(** A directed broadcast address; prefixes of 0, 31 and 32 bits have none. *)
Definition is_directed_broadcast (prefix : IpPrefix) (ip : Z) : bool :=
  match addr prefix with
  | V4 a =>
      if (1 <=? bits prefix) && (bits prefix <=? 30) then
        ip =? Z.lor a (Z.shiftr (2 ^ 32 - 1) (bits prefix))
      else false
  | V6 _ => false
  end.

(** [octets()[0]] *)
Definition first_octet (ip : Z) : Z := (octets (V4 ip)).[0].

(** 127/8, 169.254/16 and 224/4, as [std::net] has them. *)
Definition v4_is_loopback (ip : Z) : bool := first_octet ip =? 127.
Definition v4_is_link_local (ip : Z) : bool := (first_octet ip =? 169) && ((octets (V4 ip)).[1] =? 254).
Definition v4_is_multicast (ip : Z) : bool := (224 <=? first_octet ip) && (first_octet ip <=? 239).

Definition forwardable_v4 (ip : Z) (outside : IpPrefix) : bool :=
  let first := first_octet ip in
  negb (v4_is_loopback ip || (first =? 0) || (224 <=? first) || v4_is_link_local ip
        || is_directed_broadcast outside ip).

(** ** Checksum patches *)

Definition checksum_adjust (old_csum old_val new_val : Z) : Z :=
  not16 (fold (not16 old_csum + not16 old_val + new_val)).

Definition update_ip_checksum (pkt old_ip new_ip : list Z) : list Z :=
  let csum := w16 pkt 10 in
  let csum := checksum_adjust csum (w16 old_ip 0) (w16 new_ip 0) in
  let csum := checksum_adjust csum (w16 old_ip 2) (w16 new_ip 2) in
  splice pkt 10 (be16 csum).

Definition update_l4_checksum (pkt : list Z) (csum_off : Z) (old_ip new_ip : list Z) (old_port new_port : Z) : list Z :=
  let csum := w16 pkt csum_off in
  let csum := checksum_adjust csum (w16 old_ip 0) (w16 new_ip 0) in
  let csum := checksum_adjust csum (w16 old_ip 2) (w16 new_ip 2) in
  let csum := checksum_adjust csum old_port new_port in
  splice pkt csum_off (be16 csum).

Definition update_icmp_checksum (pkt : list Z) (ihl old_id new_id : Z) : list Z :=
  let csum_off := ihl + 2 in
  splice pkt csum_off (be16 (checksum_adjust (w16 pkt csum_off) old_id new_id)).

Definition udp_nonzero_checksum (pkt : list Z) (csum_off : Z) : list Z :=
  if bool_decide (slice pkt csum_off (csum_off + 2) = [0; 0]) then splice pkt csum_off [0xFF; 0xFF] else pkt.

Definition spend_hop (pkt : list Z) : list Z :=
  let old := w16 pkt 8 in
  let pkt := set_byte pkt 8 (sat_sub pkt.[8] 1) in
  splice pkt 10 (be16 (checksum_adjust (w16 pkt 10) old (w16 pkt 8))).

(** ** Rewriting an endpoint *)

(** The transport checksum of a rewritten TCP or UDP datagram: what follows
    the header rewrite in [outbound_tcpudp] and [inbound_tcpudp]. *)
Definition patch_l4 (out : list Z) (ihl proto : Z) (old_ip new_ip : list Z) (old_port new_port : Z) : list Z :=
  if (proto =? PROTO_TCP) && (ihl + 18 <=? zlen out) then
    update_l4_checksum out (ihl + 16) old_ip new_ip old_port new_port
  else if (proto =? PROTO_UDP) && (ihl + 8 <=? zlen out) then
    let csum_off := ihl + 6 in
    if negb (w16 out csum_off =? 0) then
      udp_nonzero_checksum (update_l4_checksum out csum_off old_ip new_ip old_port new_port) csum_off
    else out
  else out.

(** The source endpoint, on the way out. *)
Definition rewrite_src (pkt : list Z) (ihl proto : Z) (new_src_ip : list Z) (outside_port : Z) : list Z :=
  let old_src_ip := slice pkt 12 16 in
  let out := splice pkt 12 new_src_ip in
  let old_port := w16 out ihl in
  let out := splice out ihl (be16 outside_port) in
  let out := update_ip_checksum out old_src_ip new_src_ip in
  patch_l4 out ihl proto old_src_ip new_src_ip old_port outside_port.

(** The destination endpoint, on the way in, a hop spent. *)
Definition rewrite_dst (pkt : list Z) (ihl proto : Z) (new_dst_ip : list Z) (port : Z) : list Z :=
  let out := spend_hop pkt in
  let old_dst_ip := slice out 16 20 in
  let out := splice out 16 new_dst_ip in
  let old_port := w16 out (ihl + 2) in
  let out := splice out (ihl + 2) (be16 port) in
  let out := update_ip_checksum out old_dst_ip new_dst_ip in
  patch_l4 out ihl proto old_dst_ip new_dst_ip old_port port.

(** An echo request on the way out ([outbound_icmp]). *)
Definition rewrite_echo_out (pkt : list Z) (ihl : Z) (new_src_ip : list Z) (outside_port : Z) : list Z :=
  let old_src_ip := slice pkt 12 16 in
  let out := splice pkt 12 new_src_ip in
  let old_id := w16 out (ihl + 4) in
  let out := splice out (ihl + 4) (be16 outside_port) in
  let out := update_ip_checksum out old_src_ip new_src_ip in
  let out := update_icmp_checksum out ihl old_id outside_port in
  spend_hop out.

(** An echo reply on the way in ([inbound_icmp]). *)
Definition rewrite_echo_in (pkt : list Z) (ihl : Z) (new_dst_ip : list Z) (id : Z) : list Z :=
  let out := spend_hop pkt in
  let old_dst_ip := slice out 16 20 in
  let out := splice out 16 new_dst_ip in
  let old_id := w16 out (ihl + 4) in
  let out := splice out (ihl + 4) (be16 id) in
  let out := update_ip_checksum out old_dst_ip new_dst_ip in
  update_icmp_checksum out ihl old_id id.

(** Later fragments, which only have the address: [outbound_later_fragment]
    before it is sent or turned round, and [inbound_later_fragment]. *)
Definition rewrite_later_out (pkt outside_ip : list Z) : list Z :=
  let old := slice pkt 12 16 in
  update_ip_checksum (splice pkt 12 outside_ip) old outside_ip.

Definition rewrite_later_in (pkt inside_ip : list Z) : list Z :=
  let old := slice pkt 16 20 in
  spend_hop (update_ip_checksum (splice pkt 16 inside_ip) old inside_ip).

(** The packet an ICMP error quotes: the outer header is [outer_ihl] long,
    the quoted one [emb_ihl]. *)
Definition emb_header (pkt : list Z) (outer_ihl : Z) : option (Z * Z) :=
  let emb_off := outer_ihl + 8 in
  if zlen pkt <? emb_off + 20 then None
  else if negb (checksum (zdrop outer_ihl pkt) =? 0) then None
  else
    let emb_ihl := Z.land pkt.[emb_off] 0x0F * 4 in
    if (emb_ihl <? 20) || (zlen pkt <? emb_off + emb_ihl + 8) then None
    else Some (emb_off, emb_ihl).

(** The quoted transport checksum, where the quoted bytes reach it. *)
Definition patch_emb_l4 (out : list Z) (l4_off emb_proto : Z) (old_ip new_ip : list Z) (old_port new_port : Z) : list Z :=
  let csum_off := l4_off + (if emb_proto =? PROTO_TCP then 16 else 6) in
  let present := csum_off + 2 <=? zlen out in
  let unused := (emb_proto =? PROTO_UDP) && present && bool_decide (slice out csum_off (csum_off + 2) = [0; 0]) in
  if present && negb unused then
    let out := update_l4_checksum out csum_off old_ip new_ip old_port new_port in
    if emb_proto =? PROTO_UDP then udp_nonzero_checksum out csum_off else out
  else out.

(** The ICMP checksum of the outer message, from scratch. *)
Definition refresh_icmp (out : list Z) (outer_ihl : Z) : list Z :=
  let out := splice out (outer_ihl + 2) [0; 0] in
  splice out (outer_ihl + 2) (be16 (checksum (zdrop outer_ihl out))).

(** An error going out: its source and the quoted destination become the
    public endpoint ([outbound_icmp_error]). *)
Definition rewrite_error_out (pkt : list Z) (outer_ihl emb_ihl emb_proto : Z) (public old_dst : list Z) (inside_port outside_port : Z) : list Z :=
  let emb_off := outer_ihl + 8 in
  let old_outer_src := slice pkt 12 16 in
  let out := update_ip_checksum (splice pkt 12 public) old_outer_src public in
  let emb := zdrop emb_off out in
  let out := ztake emb_off out ++ update_ip_checksum (splice emb 16 public) old_dst public in
  let l4_off := emb_off + emb_ihl in
  let out := splice out (l4_off + 2) (be16 outside_port) in
  let out := patch_emb_l4 out l4_off emb_proto old_dst public inside_port outside_port in
  refresh_icmp out outer_ihl.

(** An error coming in: its destination and the quoted source become the
    inside endpoint ([inbound_icmp_error]). *)
Definition rewrite_error_in (pkt : list Z) (outer_ihl emb_ihl emb_proto : Z) (inside_ip : list Z) (emb_port new_port : Z) : list Z :=
  let emb_off := outer_ihl + 8 in
  let out := spend_hop pkt in
  let old_outer_dst := slice out 16 20 in
  let out := update_ip_checksum (splice out 16 inside_ip) old_outer_dst inside_ip in
  let old_src := slice out (emb_off + 12) (emb_off + 16) in
  let emb := zdrop emb_off out in
  let out := ztake emb_off out ++ update_ip_checksum (splice emb 12 inside_ip) old_src inside_ip in
  let l4_off := emb_off + emb_ihl in
  let out :=
    if (emb_proto =? PROTO_TCP) || (emb_proto =? PROTO_UDP) then
      patch_emb_l4 (splice out l4_off (be16 new_port)) l4_off emb_proto old_src inside_ip emb_port new_port
    else
      update_icmp_checksum (splice out (l4_off + 4) (be16 new_port)) l4_off emb_port new_port in
  refresh_icmp out outer_ihl.

Definition echo_reply (pkt : list Z) (ihl : Z) : option (list Z) :=
  let icmp := zdrop ihl pkt in
  if negb (checksum icmp =? 0) then None
  else
    let r := [0x45; pkt.[1]] ++ be16 (u16 (20 + zlen icmp)) ++ [0; 0; 0; 0; 64; PROTO_ICMP; 0; 0]
             ++ slice pkt 16 20 ++ slice pkt 12 16 in
    let r := splice r 10 (be16 (checksum r)) in
    let at_ := zlen r in
    let r := r ++ icmp in
    let r := set_byte r at_ 0 in
    let r := splice r (at_ + 2) [0; 0] in
    Some (splice r (at_ + 2) (be16 (checksum (zdrop at_ r)))).

(** ** Sequence numbers of a resized TCP stream *)

Record SeqAdj := mkSeqAdj { pos : Z; before : Z; after : Z }.

Definition SeqAdj_default : SeqAdj := mkSeqAdj 0 0 0.

(** [wrapping_add] of two [i32]. *)
Definition i32_add (a b : Z) : Z := i32 (u32 (a + b)).

Definition adj_seq_after (a b : Z) : bool := 0 <? i32 (u32 (a - b)).

Definition record (s : SeqAdj) (seq delta : Z) : SeqAdj :=
  if (before s =? after s) || adj_seq_after seq (pos s) then mkSeqAdj seq (after s) (i32_add (after s) delta) else s.

Definition adj_seq (s : SeqAdj) (seq : Z) : Z :=
  u32 (seq + u32 (if adj_seq_after seq (pos s) then after s else before s)).

Definition adj_ack (s : SeqAdj) (ack : Z) : Z :=
  u32 (ack - u32 (if adj_seq_after (u32 (ack - u32 (before s))) (pos s) then after s else before s)).

(** [off & !1] *)
Definition even_down (x : Z) : Z := x - Z.land x 1.

Definition patch_tcp (pkt : list Z) (ihl off : Z) (new : list Z) : list Z :=
  let start := even_down off in
  let fin := even_down (off + zlen new + 1) in
  let old := slice pkt start fin in
  let pkt := splice pkt off new in
  let csum := incremental_update (w16 pkt (ihl + 16)) old (slice pkt start fin) in
  splice pkt (ihl + 16) (be16 csum).

Definition read32 (pkt : list Z) (a : Z) : Z := of_be_bytes (slice pkt a (a + 4)).

(** The edges of a SACK option. *)
Fixpoint adjust_edges (fuel : nat) (pkt : list Z) (ihl edge fin : Z) (other : SeqAdj) : list Z :=
  match fuel with
  | O => pkt
  | S fuel =>
      if edge + 4 <=? fin then
        adjust_edges fuel (patch_tcp pkt ihl edge (be32 (adj_ack other (read32 pkt edge)))) ihl (edge + 4) fin other
      else pkt
  end.

(** The walk over the TCP options, each at least one byte long. *)
Fixpoint adjust_options (fuel : nat) (pkt : list Z) (ihl i fin : Z) (other : SeqAdj) : list Z :=
  match fuel with
  | O => pkt
  | S fuel =>
      if i <? fin then
        let kind := pkt.[i] in
        if kind =? 0 then pkt
        else if kind =? 1 then adjust_options fuel pkt ihl (i + 1) fin other
        else
          match get pkt (i + 1) with
          | None => pkt
          | Some len =>
              if (len <? 2) || (fin <? i + len) then pkt
              else
                let pkt := if kind =? 5 then adjust_edges (Z.to_nat len) pkt ihl (i + 2) (i + len) other else pkt in
                adjust_options fuel pkt ihl (i + len) fin other
          end
      else pkt
  end.

Definition adjust_tcp_seq (pkt : list Z) (ihl : Z) (this other : SeqAdj) : list Z :=
  let pkt := patch_tcp pkt ihl (ihl + 4) (be32 (adj_seq this (read32 pkt (ihl + 4)))) in
  let pkt := if negb (Z.land pkt.[ihl + 13] 0x10 =? 0)
             then patch_tcp pkt ihl (ihl + 8) (be32 (adj_ack other (read32 pkt (ihl + 8)))) else pkt in
  let fin := ihl + Z.shiftr pkt.[ihl + 12] 4 * 4 in
  adjust_options (Z.to_nat (fin - (ihl + 20))) pkt ihl (ihl + 20) fin other.

(** ** Sums *)

Lemma w16_bound p i : bytes_ok p -> 0 <= w16 p i <= 65535.
Proof. intros H. pose proof (of_be16_bound p.[i] p.[i + 1] ltac:(bok) ltac:(bok)). unfold w16. lia. Qed.

Lemma word_sum_slice2 p i : bytes_ok p -> 0 <= i -> i + 2 <= zlen p -> word_sum (slice p i (i + 2)) = w16 p i.
Proof.
  intros Hb Hi Hl. rewrite slice_two by lia. rewrite word_sum_cons by bok. unfold w16, of_be16. change (word_sum []) with 0. lia.
Qed.

Lemma word_sum_be16' x : 0 <= x <= 65535 -> word_sum (be16 x) = x.
Proof. intros. rewrite <- (app_nil_r (be16 x)), word_sum_be16 by lia. change (word_sum []) with 0. lia. Qed.

(** Four bytes as two words. *)
Lemma word_sum_ip l : bytes_ok l -> zlen l = 4 -> word_sum l = w16 l 0 + w16 l 2.
Proof.
  intros Hb Hl. rewrite <- (slice_full l) at 1. rewrite <- (slice_cat l 0 2) by lia.
  rewrite word_sum_app by (rewrite zlen_slice, Hl; done).
  pose proof (word_sum_slice2 l 0 Hb ltac:(lia) ltac:(lia)) as E1. pose proof (word_sum_slice2 l 2 Hb ltac:(lia) ltac:(lia)) as E2.
  change (0 + 2) with 2 in E1. change (2 + 2) with 4 in E2. rewrite E1, Hl, E2. done.
Qed.

Lemma adjust_mod c o n :
  0 <= c <= 65535 -> 0 <= o <= 65535 -> 0 <= n <= 65535 ->
  0 <= checksum_adjust c o n <= 65535 /\ (checksum_adjust c o n + n) mod 65535 = (c + o) mod 65535.
Proof.
  intros Hc Ho Hn.
  assert (checksum_adjust c o n = incremental_update c (be16 o) (be16 n)) as E.
  { unfold checksum_adjust, incremental_update. rewrite word_sum_be16' by done.
    rewrite ones_complement_words_spec by (apply bytes_ok_be16; lia). rewrite word_sum_be16', zlen_be16 by done. unfold not16. f_equal; f_equal; lia. }
  rewrite E. pose proof (incremental_update_mod c (be16 o) (be16 n) (bytes_ok_be16 o ltac:(lia)) (bytes_ok_be16 n ltac:(lia)) Hc) as H.
  rewrite !word_sum_be16' in H by done. exact H.
Qed.

(** Congruence modulo 65535, what one's-complement sums preserve. *)
Definition same_sum (a b : Z) : Prop := exists k, a = b + k * 65535.

Lemma same_sum_mod a b : a mod 65535 = b mod 65535 <-> same_sum a b.
Proof.
  split.
  - intros H. exists (a / 65535 - b / 65535). pose proof (Z.div_mod a 65535 ltac:(lia)). pose proof (Z.div_mod b 65535 ltac:(lia)). lia.
  - intros [k ->]. by rewrite Z.mod_add.
Qed.

Lemma adjust_sum c o n :
  0 <= c <= 65535 -> 0 <= o <= 65535 -> 0 <= n <= 65535 ->
  0 <= checksum_adjust c o n <= 65535 /\ same_sum (checksum_adjust c o n + n) (c + o).
Proof. intros Hc Ho Hn. destruct (adjust_mod c o n Hc Ho Hn) as [H1 H2]. split; [done|]. by apply same_sum_mod. Qed.

(** The checksum patched for an address, and for an address and a port. *)
Lemma adjust_ip_sum c old new :
  0 <= c <= 65535 -> bytes_ok old -> bytes_ok new -> zlen old = 4 -> zlen new = 4 ->
  let c' := checksum_adjust (checksum_adjust c (w16 old 0) (w16 new 0)) (w16 old 2) (w16 new 2) in
  0 <= c' <= 65535 /\ same_sum (c' + word_sum new) (c + word_sum old).
Proof.
  intros Hc Ho Hn Hlo Hln. pose proof (w16_bound old 0 Ho). pose proof (w16_bound old 2 Ho). pose proof (w16_bound new 0 Hn). pose proof (w16_bound new 2 Hn).
  destruct (adjust_sum c (w16 old 0) (w16 new 0) Hc ltac:(lia) ltac:(lia)) as [G1 [k1 E1]].
  destruct (adjust_sum _ (w16 old 2) (w16 new 2) G1 ltac:(lia) ltac:(lia)) as [G2 [k2 E2]]. cbv zeta. split; [done|].
  rewrite (word_sum_ip old), (word_sum_ip new) by done. exists (k1 + k2). lia.
Qed.

(** Rewriting inside a region, and outside it. *)
Lemma word_sum_slice_splice p a b c x :
  0 <= a <= c -> c + zlen x <= b -> b <= zlen p -> Z.even (c - a) = true -> Z.even (zlen x) = true ->
  word_sum (slice (splice p c x) a b) = word_sum (slice p a b) - word_sum (slice p c (c + zlen x)) + word_sum x.
Proof.
  intros. pose proof (zlen_nonneg x). replace c with (a + (c - a)) at 1 by lia. rewrite slice_splice_inside by lia.
  rewrite word_sum_splice by (rewrite ?zlen_slice; done || lia). do 3 f_equal. rewrite slice_slice by lia. f_equal; lia.
Qed.

Lemma slice_splice_other (p : list Z) a b c x :
  0 <= a -> b <= zlen p -> 0 <= c -> c + zlen x <= zlen p -> (b <= c \/ c + zlen x <= a) -> slice (splice p c x) a b = slice p a b.
Proof.
  intros. pose proof (zlen_nonneg x). destruct (decide (a <= b)); [|rewrite !slice_nil by lia; done].
  destruct H3; [apply slice_splice_before|apply slice_splice_after]; lia.
Qed.

Lemma w16_splice_other p c x i :
  0 <= i -> i + 2 <= zlen p -> 0 <= c -> c + zlen x <= zlen p -> (i + 2 <= c \/ c + zlen x <= i) -> w16 (splice p c x) i = w16 p i.
Proof. intros. unfold w16. rewrite !byte_at_splice_out by lia. done. Qed.

Lemma w16_splice_be16 p c x : 0 <= c -> c + 2 <= zlen p -> w16 (splice p c (be16 x)) c = x.
Proof.
  intros. unfold w16. rewrite !byte_at_splice_in by (rewrite ?zlen_be16; lia). replace (c - c) with 0 by lia. replace (c + 1 - c) with 1 by lia.
  change ((be16 x).[0]) with (x / 256). change ((be16 x).[1]) with (x mod 256). apply of_be16_be16.
Qed.

(** ** Datagrams *)

(** A whole IPv4 packet with a header of [ihl] bytes and nothing after it. *)
Record datagram (p : list Z) (ihl : Z) : Prop := {
  dg_ok : bytes_ok p;
  dg_version : Z.shiftr p.[0] 4 = 4;
  dg_ihl : Z.land p.[0] 0x0F * 4 = ihl;
  dg_header : 20 <= ihl <= zlen p;
  dg_total : w16 p 2 = zlen p }.

Lemma ipv4_datagram_spec pkt p ihl :
  bytes_ok pkt -> ipv4_datagram pkt = Some (p, ihl) -> datagram p ihl /\ p = ztake (w16 pkt 2) pkt.
Proof.
  intros Hb. unfold ipv4_datagram. destruct (_ || _) eqn:E; [done|]. bool2prop.
  destruct (_ || _) eqn:E2; [done|]. bool2prop. intros [= <- <-].
  assert (zlen (ztake (w16 pkt 2) pkt) = w16 pkt 2) as Hl by (rewrite zlen_ztake; lia).
  split; [|done]. assert (forall i, 0 <= i < 20 -> (ztake (w16 pkt 2) pkt).[i] = pkt.[i]) as Hi by (intros i Hi; apply byte_at_ztake; lia).
  split; [bok|by rewrite Hi by lia|by rewrite Hi by lia|lia|]. rewrite Hl. unfold w16 at 1. rewrite !Hi by lia. done.
Qed.

Lemma datagram_parse p ihl : datagram p ihl -> ipv4_datagram p = Some (p, ihl).
Proof.
  intros [H1 H2 H3 H4 H5]. unfold ipv4_datagram. rewrite H2, H3, H5. replace (zlen p <? 20) with false by lia. cbn [orb Z.eqb Pos.eqb negb].
  replace (ihl <? 20) with false by lia. replace (zlen p <? ihl) with false by lia. rewrite Z.ltb_irrefl. cbn [orb]. by rewrite ztake_all by lia.
Qed.

Lemma datagram_same p q ihl :
  datagram p ihl -> bytes_ok q -> zlen q = zlen p -> q.[0] = p.[0] -> q.[2] = p.[2] -> q.[3] = p.[3] -> datagram q ihl.
Proof.
  intros [H1 H2 H3 H4 H5] Hb Hl E0 E2 E3. unfold w16 in *. change (2 + 1) with 3 in *.
  split; rewrite ?E0, ?Hl; try done. unfold w16. change (2 + 1) with 3. by rewrite E2, E3, H5.
Qed.

Section Datagram.
Context (p : list Z) (ihl : Z).
Hypothesis Hd : datagram p ihl.

Lemma dg_len : 20 <= zlen p <= 65535.
Proof. pose proof (dg_header p ihl Hd). pose proof (dg_total p ihl Hd). pose proof (w16_bound p 2 (dg_ok p ihl Hd)). lia. Qed.

Lemma dg_version_4 : version p = 4.
Proof. pose proof dg_len. unfold version. case_if; [lia|]. apply (dg_version p ihl Hd). Qed.

Lemma dg_header_len : ipv4_header_len p = ihl.
Proof. pose proof dg_len. unfold ipv4_header_len. case_if; [lia|]. apply (dg_ihl p ihl Hd). Qed.

Lemma dg_ihl_even : Z.even ihl = true.
Proof. rewrite <- (dg_ihl p ihl Hd). rewrite Z.even_mul. apply orb_true_r. Qed.

Lemma dg_first : p.[0] <> 0.
Proof. apply version_nonzero. left. apply dg_version_4. Qed.

Lemma dg_header_sum_pos : 0 < word_sum (ztake ihl p).
Proof.
  pose proof (dg_header p ihl Hd). pose proof (dg_ok p ihl Hd) as Hb. apply word_sum_pos; [bok|]. rewrite byte_at_ztake by lia. apply dg_first.
Qed.

(** The header verifies when its sum is all ones. *)
Lemma dg_verify_header : verify_ipv4_checksum p = (fold (word_sum (ztake ihl p)) =? 65535).
Proof.
  pose proof (dg_header p ihl Hd). unfold verify_ipv4_checksum. rewrite dg_version_4, dg_header_len. cbn [Z.eqb Pos.eqb].
  replace (ihl <? 20) with false by lia. replace (zlen p <? ihl) with false by lia. cbn [orb]. unfold checksum, not16.
  destruct (fold _ =? 65535) eqn:E; bool2prop; lia.
Qed.

Definition addr_at (a : Z) : IpAddr := V4 (of_be_bytes (slice p a (a + 4))).

Lemma octets_addr_at a : 0 <= a -> a + 4 <= 20 -> octets (addr_at a) = slice p a (a + 4).
Proof.
  intros. pose proof dg_len. unfold addr_at. cbn [octets]. rewrite <- (be_bytes_of_be_bytes (slice p a (a + 4))) at 2 by (pose proof (dg_ok p ihl Hd); bok).
  assert (length (slice p a (a + 4)) = 4%nat) as ->; [|done]. pose proof (zlen_slice p a (a + 4)) as Hz. unfold zlen at 1 in Hz. lia.
Qed.

Lemma dg_src : src_addr p = Some (addr_at 12).
Proof. pose proof dg_len. unfold src_addr, ipv4_src_addr. rewrite dg_version_4. cbn [Z.eqb Pos.eqb]. case_if; [lia|]. done. Qed.

Lemma dg_dst : dst_addr p = Some (addr_at 16).
Proof. pose proof dg_len. unfold dst_addr, ipv4_dst_addr. rewrite dg_version_4. cbn [Z.eqb Pos.eqb]. case_if; [lia|]. done. Qed.

Lemma dg_protocol : transport_protocol p = p.[9].
Proof. pose proof dg_len. unfold transport_protocol, ipv4_protocol. rewrite dg_version_4. cbn [Z.eqb Pos.eqb]. case_if; [lia|]. done. Qed.

Lemma dg_payload : transport_payload p = slice p ihl (zlen p).
Proof.
  pose proof dg_len. pose proof (dg_header p ihl Hd). unfold transport_payload, payload_range. rewrite dg_version_4, dg_header_len. cbn [Z.eqb Pos.eqb].
  assert (ipv4_total_len p = zlen p) as -> by (unfold ipv4_total_len; case_if; [lia|]; apply (dg_total p ihl Hd)).
  replace (ihl <? 20) with false by lia. replace (zlen p <? ihl) with false by lia. rewrite Z.ltb_irrefl. done.
Qed.

Lemma dg_verify_transport :
  verify_transport_checksum p =
  if ipv4_is_fragment p then None else verify_payload p.[9] 4 (addr_at 12) (addr_at 16) (slice p ihl (zlen p)).
Proof.
  unfold verify_transport_checksum, pseudo_header_dst, is_fragment. rewrite dg_src, dg_dst, dg_protocol, dg_payload, dg_version_4. done.
Qed.

(** Pseudo-header and PDU, summed. *)
Definition l4_sum (n : Z) (pdu : list Z) : Z :=
  word_sum (slice p 12 16) + word_sum (slice p 16 20) + p.[9] + Z.min n 65535 + word_sum pdu.

Lemma dg_raw_sum pdu :
  bytes_ok pdu -> raw_transport_sum p.[9] (addr_at 12) (addr_at 16) pdu = fold (l4_sum (zlen pdu) pdu).
Proof.
  intros Hp. pose proof dg_len. pose proof (dg_ok p ihl Hd) as Hb. pose proof (zlen_nonneg pdu).
  rewrite (raw_transport_sum_spec _ _ _ _ (slice p 12 16 ++ slice p 16 20 ++ [0; p.[9]] ++ be16 (Z.min (zlen pdu) 65535))); [|bok|done|].
  - f_equal. unfold l4_sum. rewrite !word_sum_app by (rewrite ?zlen_slice; replace (Z.min _ _) with 4 by lia; done).
    rewrite (word_sum_app [0; p.[9]]) by done. rewrite word_sum_be16' by lia. rewrite word_sum_cons by bok. change (word_sum []) with 0. lia.
  - pose proof (octets_addr_at 12 ltac:(lia) ltac:(lia)) as E1. pose proof (octets_addr_at 16 ltac:(lia) ltac:(lia)) as E2.
    change (12 + 4) with 16 in E1. change (16 + 4) with 20 in E2. rewrite <- E1, <- E2. done.
Qed.
End Datagram.

(** ** One endpoint rewritten *)

Definition csum_field (proto : Z) : Z := if proto =? PROTO_TCP then 16 else 6.

Lemma splice_be16_same p i : bytes_ok p -> 0 <= i -> i + 2 <= zlen p -> splice p i (be16 (w16 p i)) = p.
Proof.
  intros Hb Hi Hl. unfold w16. rewrite be16_of_be16 by bok. rewrite <- slice_two by lia. by rewrite splice_slice_same by lia.
Qed.

Lemma be16_zero x : 0 <= x <= 65535 -> be16 x = [0; 0] <-> x = 0.
Proof.
  intros Hx. split; [|by intros ->]. intros E. unfold be16 in E. injection E as E1 E2.
  pose proof (of_be16_be16 x) as E3. rewrite E1, E2 in E3. unfold of_be16 in E3. lia.
Qed.

(** What [patch_l4] writes: nothing if the field is not there, the field
    itself if UDP leaves it unused, and otherwise a sum that makes up for the
    address and port that changed, never the zero that means none. *)
Lemma patch_l4_spec q ihl proto old new op np :
  bytes_ok q -> bytes_ok old -> bytes_ok new -> zlen old = 4 -> zlen new = 4 -> 0 <= op <= 65535 -> 0 <= np <= 65535 ->
  0 <= ihl -> proto = PROTO_TCP \/ proto = PROTO_UDP ->
  let out := patch_l4 q ihl proto old new op np in
  let f := ihl + csum_field proto in
  if f + 2 <=? zlen q then
    exists c, 0 <= c <= 65535 /\ out = splice q f (be16 c) /\
      (if (proto =? PROTO_UDP) && (w16 q f =? 0) then c = 0
       else same_sum (c + word_sum new + np) (w16 q f + word_sum old + op) /\ (proto = PROTO_UDP -> c <> 0))
  else out = q.
Proof.
  intros Hq Ho Hn Hlo Hln Hop Hnp Hi Hproto out f. unfold out, patch_l4, csum_field in *.
  assert (forall i, 0 <= i -> i + 2 <= zlen q -> exists c, 0 <= c <= 65535 /\
    update_l4_checksum q i old new op np = splice q i (be16 c) /\ same_sum (c + word_sum new + np) (w16 q i + word_sum old + op)) as Hu.
  { intros i Hi0 Hl. unfold update_l4_checksum. pose proof (w16_bound q i Hq) as Hw.
    destruct (adjust_ip_sum (w16 q i) old new Hw Ho Hn Hlo Hln) as [H1 [k1 E1]].
    set (c2 := checksum_adjust (checksum_adjust (w16 q i) (w16 old 0) (w16 new 0)) (w16 old 2) (w16 new 2)) in *.
    destruct (adjust_sum c2 op np H1 Hop Hnp) as [H2 [k2 E2]].
    eexists. split; [exact H2|]. split; [done|]. exists (k1 + k2). lia. }
  destruct Hproto as [-> | ->].
  - change (PROTO_TCP =? PROTO_TCP) with true. change (PROTO_TCP =? PROTO_UDP) with false. cbn [andb].
    assert (f = ihl + 16) as Ef by reflexivity. clearbody f. rewrite <- Ef. replace (ihl + 18) with (f + 2) by lia.
    destruct (f + 2 <=? zlen q) eqn:E; [|done]. bool2prop. destruct (Hu f ltac:(lia) ltac:(lia)) as (c & Hc & Eq & Hs).
    exists c. done.
  - change (PROTO_UDP =? PROTO_TCP) with false. change (PROTO_UDP =? PROTO_UDP) with true. cbn [andb].
    assert (f = ihl + 6) as Ef by reflexivity. clearbody f. rewrite <- Ef. replace (ihl + 8) with (f + 2) by lia.
    destruct (f + 2 <=? zlen q) eqn:E; [|done]. bool2prop. destruct (Hu f ltac:(lia) ltac:(lia)) as (c & Hc & Eq & Hs).
    destruct (w16 q f =? 0) eqn:Ew; bool2prop; cbn [negb].
    + exists 0. split; [lia|]. split; [|done]. rewrite <- Ew. rewrite splice_be16_same by (done || lia). done.
    + rewrite Eq. unfold udp_nonzero_checksum.
      replace (slice (splice q f (be16 c)) f (f + 2)) with (be16 c) by (symmetry; apply (slice_splice_in q f (be16 c)); rewrite ?zlen_be16; lia).
      destruct (bool_decide (be16 c = [0; 0])) eqn:Eb; [apply bool_decide_eq_true in Eb|apply bool_decide_eq_false in Eb]; rewrite be16_zero in Eb by done.
      * exists 65535. split; [lia|]. split; [rewrite splice_splice by (rewrite ?zlen_be16; done || lia); done|].
        subst c. destruct Hs as [k Hs]. split; [exists (k + 1); lia|lia].
      * exists c. split; [done|]. split; [done|]. split; [exact Hs|]. intros _. exact Eb.
Qed.

(** The common form of [rewrite_src] and [rewrite_dst]: the address at
    [ia], the port at [ihl + pa]. *)
Definition rewrite_at (p : list Z) (ihl proto ia pa : Z) (new : list Z) (port : Z) : list Z :=
  let old := slice p ia (ia + 4) in
  let q := splice p ia new in
  let old_port := w16 q (ihl + pa) in
  let q := splice q (ihl + pa) (be16 port) in
  let q := update_ip_checksum q old new in
  patch_l4 q ihl proto old new old_port port.

Lemma rewrite_src_at p ihl proto new port : rewrite_src p ihl proto new port = rewrite_at p ihl proto 12 0 new port.
Proof. unfold rewrite_src, rewrite_at. by rewrite Z.add_0_r. Qed.

Lemma rewrite_dst_at p ihl proto new port : rewrite_dst p ihl proto new port = rewrite_at (spend_hop p) ihl proto 16 2 new port.
Proof. done. Qed.

Section Rewritten.
Context (p : list Z) (ihl ia pa : Z) (new : list Z) (port : Z).
Hypothesis Hd : datagram p ihl.
Hypothesis Hia : ia = 12 \/ ia = 16.
Hypothesis Hpa : pa = 0 \/ pa = 2 \/ pa = 4.
Hypothesis Hl4 : ihl + pa + 2 <= zlen p.
Hypothesis Hnew : bytes_ok new.
Hypothesis Hln : zlen new = 4.
Hypothesis Hport : 0 <= port <= 65535.

Let old := slice p ia (ia + 4).
Let q2 := splice (splice p ia new) (ihl + pa) (be16 port).
Let q3 := update_ip_checksum q2 old new.

(** The header rewritten, its checksum patched, the port stored. *)
Lemma rewritten_header :
  zlen q3 = zlen p /\ bytes_ok q3 /\ w16 (splice p ia new) (ihl + pa) = w16 p (ihl + pa) /\
  (forall i, 0 <= i -> ~ (10 <= i < 12) -> ~ (ia <= i < ia + 4) -> ~ (ihl + pa <= i < ihl + pa + 2) -> q3.[i] = p.[i]) /\
  slice q3 ia (ia + 4) = new /\ w16 q3 (ihl + pa) = port /\
  same_sum (word_sum (ztake ihl q3)) (word_sum (ztake ihl p)) /\
  (forall b, ihl + pa + 2 <= b -> b <= zlen p -> word_sum (slice q3 ihl b) = word_sum (slice p ihl b) - w16 p (ihl + pa) + port).
Proof.
  pose proof (dg_len p ihl Hd) as HL. pose proof (dg_header p ihl Hd) as HH. pose proof (dg_ok p ihl Hd) as Hb.
  pose proof (dg_ihl_even p ihl Hd) as He. assert (0 <= ia /\ ia + 4 <= 20 /\ 12 <= ia) as (Hia0 & Hia1 & Hia2) by lia.
  assert (zlen (splice p ia new) = zlen p) as L1 by (apply zlen_splice; lia).
  assert (zlen q2 = zlen p) as L2 by (unfold q2; rewrite zlen_splice; rewrite ?zlen_be16; lia).
  assert (bytes_ok old /\ zlen old = 4) as [Hold Hlo] by (unfold old; split; [bok|rewrite zlen_slice; lia]).
  assert (bytes_ok q2) as B2 by (unfold q2; apply bytes_ok_splice; [bok|apply bytes_ok_be16; lia]).
  destruct (adjust_ip_sum (w16 q2 10) old new (w16_bound q2 10 B2) Hold Hnew Hlo Hln) as [Hc [k Hk]].
  unfold q3, update_ip_checksum. set (c := checksum_adjust (checksum_adjust (w16 q2 10) _ _) _ _) in *.
  assert (zlen (splice q2 10 (be16 c)) = zlen p) as L3 by (rewrite zlen_splice; rewrite ?zlen_be16; lia).
  assert (w16 q2 10 = w16 p 10) as E10.
  { unfold q2. rewrite !w16_splice_other by (rewrite ?zlen_be16, ?L1; lia). done. }
  assert (Z.even pa = true) as Hpe by (destruct Hpa as [->|[->| ->]]; done).
  split_and!.
  - done.
  - apply bytes_ok_splice; [done|apply bytes_ok_be16; lia].
  - rewrite w16_splice_other by lia. done.
  - intros i Hi N1 N2 N3. rewrite byte_at_splice_out by (rewrite ?zlen_be16; lia). unfold q2.
    rewrite !byte_at_splice_out by (rewrite ?zlen_be16, ?L1; lia). done.
  - rewrite slice_splice_other by (rewrite ?zlen_be16; lia). unfold q2. rewrite slice_splice_other by (rewrite ?zlen_be16, ?L1; lia).
    replace (ia + 4) with (ia + zlen new) by lia. apply slice_splice_in; lia.
  - rewrite w16_splice_other by (rewrite ?zlen_be16; lia). unfold q2. apply w16_splice_be16; lia.
  - rewrite <- !slice_from_0. rewrite (word_sum_slice_splice q2) by (rewrite ?zlen_be16; done || lia). rewrite zlen_be16, word_sum_slice2, word_sum_be16' by (done || lia).
    unfold q2 at 1. rewrite slice_splice_other by (rewrite ?zlen_be16, ?L1; lia).
    rewrite word_sum_slice_splice by (rewrite ?Hln, ?Z.sub_0_r; (by destruct Hia as [->| ->]) || done || lia). rewrite Hln. fold old.
    exists k. lia.
  - intros b Hb1 Hb2. rewrite slice_splice_other by (rewrite ?zlen_be16; lia). unfold q2.
    rewrite word_sum_slice_splice; [|lia|rewrite zlen_be16; lia|lia|by replace (ihl + pa - ihl) with pa by lia|done].
    rewrite zlen_be16, word_sum_slice2, word_sum_be16' by (bok || lia). rewrite w16_splice_other by lia. rewrite slice_splice_other by lia. done.
Qed.
End Rewritten.

Lemma verdict_congr a b : 0 < a -> 0 < b -> same_sum a b -> (fold a =? 65535) = (fold b =? 65535).
Proof. intros Ha Hb Hs. f_equal. apply fold_congr; [lia..|]. by apply same_sum_mod. Qed.

Lemma fragment_bytes p q ihl :
  datagram p ihl -> zlen q = zlen p -> q.[6] = p.[6] -> q.[7] = p.[7] -> ipv4_is_fragment q = ipv4_is_fragment p.
Proof.
  intros Hd Hl E6 E7. unfold ipv4_is_fragment, ipv4_more_fragments, ipv4_fragment_offset. by rewrite Hl, E6, E7.
Qed.

Section Endpoint.
Context (p : list Z) (ihl ia pa : Z) (new : list Z) (port : Z).
Hypothesis Hd : datagram p ihl.
Hypothesis Hia : ia = 12 \/ ia = 16.
Hypothesis Hpa : pa = 0 \/ pa = 2.
Hypothesis Hproto : p.[9] = PROTO_TCP \/ p.[9] = PROTO_UDP.
Hypothesis Hl4 : ihl + 4 <= zlen p.
Hypothesis Hnew : bytes_ok new.
Hypothesis Hln : zlen new = 4.
Hypothesis Hport : 0 <= port <= 65535.

Let out := rewrite_at p ihl p.[9] ia pa new port.
Let f := ihl + csum_field p.[9].

(** The bytes of the result, and its checksum field. *)
Lemma endpoint_bytes :
  datagram out ihl /\ zlen out = zlen p /\
  (forall i, 0 <= i -> ~ (10 <= i < 12) -> ~ (ia <= i < ia + 4) -> ~ (ihl + pa <= i < ihl + pa + 2) ->
     ~ (f <= i < f + 2) -> out.[i] = p.[i]) /\
  slice out ia (ia + 4) = new /\ w16 out (ihl + pa) = port /\
  same_sum (word_sum (ztake ihl out)) (word_sum (ztake ihl p)) /\
  (f + 2 <= zlen p ->
   (p.[9] = PROTO_UDP -> w16 out f = 0 <-> w16 p f = 0) /\
   (~ (p.[9] = PROTO_UDP /\ w16 p f = 0) -> forall b, f + 2 <= b -> b <= zlen p ->
      same_sum (word_sum (slice out ihl b) + word_sum new) (word_sum (slice p ihl b) + word_sum (slice p ia (ia + 4))))).
Proof.
  pose proof (dg_len p ihl Hd) as HL. pose proof (dg_header p ihl Hd) as HH. pose proof (dg_ok p ihl Hd) as Hb.
  destruct (rewritten_header p ihl ia pa new port Hd Hia ltac:(lia) ltac:(lia) Hnew Hln Hport) as (L3 & B3 & Eop & Hby & Hadr & Hprt & Hhs & Hpdu).
  set (old := slice p ia (ia + 4)) in *. assert (bytes_ok old /\ zlen old = 4) as [Hold Hlo] by (unfold old; split; [bok|rewrite zlen_slice; lia]).
  unfold out, rewrite_at. fold old. set (q3 := update_ip_checksum _ old new) in *. rewrite Eop.
  assert (f = ihl + 16 \/ f = ihl + 6) as Hf by (unfold f, csum_field; destruct (_ =? _); lia).
  assert (f + 2 <= zlen p -> w16 q3 f = w16 p f) as Efw by (intros; unfold w16; rewrite !Hby by lia; done).
  pose proof (patch_l4_spec q3 ihl p.[9] old new (w16 p (ihl + pa)) port B3 Hold Hnew Hlo Hln (w16_bound p _ Hb) Hport ltac:(lia) Hproto) as Hpatch.
  cbv zeta in Hpatch. fold f in Hpatch. rewrite L3 in Hpatch. set (o := patch_l4 _ _ _ _ _ _ _) in *.
  assert (exists c, 0 <= c <= 65535 /\ (o = q3 \/ f + 2 <= zlen p /\ o = splice q3 f (be16 c))) as (c0 & Hc0 & Ho).
  { destruct (f + 2 <=? zlen p) eqn:E; bool2prop; [|exists 0; split; [lia|by left]]. destruct Hpatch as (c & Hc & -> & _). exists c. split; [done|]. by right. }
  assert (zlen o = zlen p /\ bytes_ok o /\ (forall i, 0 <= i -> ~ (f <= i < f + 2) -> o.[i] = q3.[i])) as (L4 & B4 & Hby4).
  { destruct Ho as [->|[Hfl ->]]; [done|]. split_and!; [rewrite zlen_splice; rewrite ?zlen_be16; lia|apply bytes_ok_splice; [done|apply bytes_ok_be16; lia]|].
    intros i Hi Hn. rewrite byte_at_splice_out by (rewrite ?zlen_be16; lia). done. }
  assert (forall i, 0 <= i -> ~ (10 <= i < 12) -> ~ (ia <= i < ia + 4) -> ~ (ihl + pa <= i < ihl + pa + 2) -> ~ (f <= i < f + 2) -> o.[i] = p.[i]) as Hall.
  { intros i Hi N1 N2 N3 N4. rewrite Hby4, Hby by lia. done. }
  split_and!; try done.
  - eapply datagram_same; [exact Hd|done|done|..]; apply Hall; lia.
  - rewrite <- Hadr. destruct Ho as [->|[Hfl ->]]; [done|]. apply slice_splice_other; rewrite ?zlen_be16; lia.
  - unfold w16. rewrite !Hby4 by lia. exact Hprt.
  - destruct Ho as [->|[Hfl ->]]; [done|]. rewrite ztake_splice_before by (rewrite ?zlen_be16; lia). done.
  - intros Hfl. destruct (f + 2 <=? zlen p) eqn:E; bool2prop; [|lia]. destruct Hpatch as (c & Hc & Eo & Hcs). rewrite Eo, (Efw Hfl) in *.
    rewrite w16_splice_be16 by lia. split.
    + intros Eu. rewrite Eu in Hcs. cbn [andb Z.eqb PROTO_UDP Pos.eqb] in Hcs. destruct (w16 p f =? 0) eqn:Ew; bool2prop; [done|].
      destruct Hcs as [_ Hcs]. specialize (Hcs eq_refl). done.
    + intros Hnz b Hb1 Hb2.
      assert ((p.[9] =? PROTO_UDP) && (w16 p f =? 0) = false) as Eif by (destruct (p.[9] =? PROTO_UDP) eqn:?, (w16 p f =? 0) eqn:?; bool2prop; naive_solver).
      rewrite Eif in Hcs. destruct Hcs as [[k Hk] _].
      rewrite word_sum_slice_splice; [|lia|rewrite zlen_be16; lia|lia| |done].
      2:{ destruct Hf; [replace (f - ihl) with 16 by lia|replace (f - ihl) with 6 by lia]; done. }
      rewrite zlen_be16, word_sum_slice2, word_sum_be16' by (done || lia). rewrite (Efw Hfl), Hpdu by lia. exists k. lia.
Qed.
End Endpoint.

(** Headers that sum alike verify alike. *)
Lemma header_verdict p q ihl :
  datagram p ihl -> datagram q ihl -> same_sum (word_sum (ztake ihl q)) (word_sum (ztake ihl p)) ->
  verify_ipv4_checksum q = verify_ipv4_checksum p.
Proof.
  intros Hp Hq Hs. rewrite !(dg_verify_header _ ihl) by done. apply verdict_congr; [by apply dg_header_sum_pos..|done].
Qed.

Lemma slice_bytes_eq p q a b :
  zlen q = zlen p -> 0 <= a -> b <= zlen p -> (forall i, a <= i < b -> q.[i] = p.[i]) -> slice q a b = slice p a b.
Proof.
  intros Hl Ha Hb H. apply bytes_ext; [by rewrite !zlen_slice, Hl|]. intros i Hi. rewrite zlen_slice in Hi.
  rewrite !byte_at_slice by lia. apply H. lia.
Qed.

Lemma l4_sum_pos p ihl n pdu : datagram p ihl -> 0 < p.[9] -> 0 <= n -> bytes_ok pdu -> 0 < l4_sum p n pdu.
Proof.
  intros Hd H9 Hn Hp. unfold l4_sum. pose proof (dg_ok p ihl Hd). pose proof (word_sum_nonneg (slice p 12 16) ltac:(bok)).
  pose proof (word_sum_nonneg (slice p 16 20) ltac:(bok)). pose proof (word_sum_nonneg pdu Hp). lia.
Qed.

(** Rewriting one endpoint of a TCP or UDP datagram leaves both checksums
    as valid, or as corrupt, as they were. *)
Lemma endpoint_verdicts p ihl ia pa new port :
  datagram p ihl -> ia = 12 \/ ia = 16 -> pa = 0 \/ pa = 2 -> p.[9] = PROTO_TCP \/ p.[9] = PROTO_UDP ->
  ihl + 4 <= zlen p -> bytes_ok new -> zlen new = 4 -> 0 <= port <= 65535 ->
  let out := rewrite_at p ihl p.[9] ia pa new port in
  verify_ipv4_checksum out = verify_ipv4_checksum p /\ verify_transport_checksum out = verify_transport_checksum p.
Proof.
  intros Hd Hia Hpa Hproto Hl4 Hnew Hln Hport out.
  destruct (endpoint_bytes p ihl ia pa new port Hd Hia Hpa Hproto Hl4 Hnew Hln Hport) as (Hdo & Hlo & Hby & Hadr & Hprt & Hhs & Hfld).
  fold out in Hdo, Hlo, Hby, Hadr, Hprt, Hhs, Hfld. split; [by apply (header_verdict p out ihl)|].
  pose proof (dg_len p ihl Hd) as HL. pose proof (dg_header p ihl Hd) as HH. pose proof (dg_ok p ihl Hd) as Hb. pose proof (dg_ok out ihl Hdo) as Hbo.
  set (f := ihl + csum_field p.[9]) in *.
  assert (f = ihl + 16 /\ p.[9] = PROTO_TCP \/ f = ihl + 6 /\ p.[9] = PROTO_UDP) as Hf.
  { unfold f, csum_field. destruct Hproto as [-> | ->]; [left|right]; done. }
  rewrite (dg_verify_transport out ihl), (dg_verify_transport p ihl) by done. rewrite (fragment_bytes p out ihl) by (done || apply Hby; lia).
  destruct (ipv4_is_fragment p); [done|]. rewrite Hlo. assert (out.[9] = p.[9]) as E9 by (apply Hby; lia). rewrite E9.
  assert (forall b, f + 2 <= b -> b <= zlen p -> ~ (p.[9] = PROTO_UDP /\ w16 p f = 0) ->
    (raw_transport_sum p.[9] (addr_at out 12) (addr_at out 16) (slice out ihl b) =? 65535)
    = (raw_transport_sum p.[9] (addr_at p 12) (addr_at p 16) (slice p ihl b) =? 65535)) as Hraw.
  { intros b Hb1 Hb2 Hnz. rewrite <- E9 at 1. rewrite (dg_raw_sum out ihl), (dg_raw_sum p ihl) by (done || bok).
    assert (0 < p.[9]) by (destruct Hproto as [-> | ->]; done).
    apply verdict_congr; [apply (l4_sum_pos out ihl); [done|lia|apply zlen_nonneg|bok]|apply (l4_sum_pos p ihl); [done|lia|apply zlen_nonneg|bok]|].
    destruct (Hfld ltac:(lia)) as [_ Hs]. destruct (Hs Hnz b Hb1 Hb2) as [k Hk]. unfold l4_sum. rewrite E9, !zlen_slice, Hlo.
    destruct Hia as [-> | ->].
    - change (12 + 4) with 16 in *. rewrite Hadr, (slice_bytes_eq p out 16 20) by (try done; try lia; intros i Hi; apply Hby; lia). exists k. lia.
    - change (16 + 4) with 20 in *. rewrite Hadr, (slice_bytes_eq p out 12 16) by (try done; try lia; intros i Hi; apply Hby; lia). exists k. lia. }
  assert (zlen (slice out ihl (zlen p)) = zlen p - ihl /\ zlen (slice p ihl (zlen p)) = zlen p - ihl) as [Ez1 Ez2] by (rewrite !zlen_slice; lia).
  unfold verify_payload. rewrite Ez1, Ez2. destruct Hf as [[Hf Ep]|[Hf Ep]].
  - rewrite Ep. cbn [Z.eqb Pos.eqb andb PROTO_TCP TCP]. case_if; [|done]. bool2prop.
    f_equal. rewrite <- Ep. apply Hraw; [lia|lia|]. rewrite Ep. by intros [? _].
  - rewrite Ep. cbn [Z.eqb Pos.eqb andb PROTO_UDP UDP TCP]. destruct (8 <=? zlen p - ihl) eqn:E8; [|done]. bool2prop. cbn [andb].
    destruct (Hfld ltac:(lia)) as [Hz _]. specialize (Hz Ep).
    assert (forall q, datagram q ihl -> zlen q = zlen p -> slice (slice q ihl (zlen p)) 6 8 = be16 (w16 q f)) as Hs68.
    { intros q Hq Hlq. rewrite slice_slice by lia. rewrite Hf. replace (ihl + 8) with (ihl + 6 + 2) by lia. rewrite slice_two by lia.
      pose proof (dg_ok q ihl Hq). unfold w16. rewrite be16_of_be16 by bok. done. }
    rewrite (Hs68 out), (Hs68 p) by done. rewrite (bool_decide_ext (be16 (w16 out f) = [0; 0]) (be16 (w16 p f) = [0; 0])).
    2:{ rewrite !be16_zero by (by apply w16_bound). exact Hz. }
    case_bool_decide as Eb; [done|]. rewrite be16_zero in Eb by (by apply w16_bound). cbn [andb].
    assert (udp_len (slice out ihl (zlen p)) = udp_len (slice p ihl (zlen p))) as Hul.
    { unfold udp_len. rewrite Ez1, Ez2. rewrite !get_byte by lia. rewrite !byte_at_slice by lia. rewrite !Hby by lia. done. }
    rewrite Hul. destruct (udp_len (slice p ihl (zlen p))) as [len|] eqn:El; [|done].
    assert (8 <= len <= zlen p - ihl) as Hlen.
    { unfold udp_len in El. rewrite Ez2 in El. rewrite !get_byte in El by lia. cbn [mbind option_bind] in El.
      destruct (_ && _) eqn:E in El; [|done]. injection El as <-. bool2prop. lia. }
    assert (forall q : list Z, zlen q = zlen p -> ztake len (slice q ihl (zlen p)) = slice q ihl (ihl + len)) as Hzt.
    { intros q Hq. rewrite <- slice_from_0, slice_slice by lia. by rewrite Z.add_0_r. }
    rewrite !Hzt by done. f_equal. rewrite <- Ep. apply Hraw; [lia|lia|]. rewrite Ep. by intros [_ ?].
Qed.

(** ** A hop spent *)

Lemma spend_hop_facts p ihl :
  datagram p ihl ->
  let out := spend_hop p in
  datagram out ihl /\ zlen out = zlen p /\ out.[8] = sat_sub p.[8] 1 /\
  (forall i, 0 <= i -> i <> 8 -> ~ (10 <= i < 12) -> out.[i] = p.[i]) /\
  verify_ipv4_checksum out = verify_ipv4_checksum p /\ verify_transport_checksum out = verify_transport_checksum p.
Proof.
  intros Hd out. pose proof (dg_len p ihl Hd) as HL. pose proof (dg_header p ihl Hd) as HH. pose proof (dg_ok p ihl Hd) as Hb.
  set (v := sat_sub p.[8] 1). assert (byte_ok v) as Hv by (pose proof (byte_at_ok p 8 Hb) as H8; unfold byte_ok, v, sat_sub in *; lia).
  set (x := [v; p.[9]]). assert (bytes_ok x /\ zlen x = 2) as [Hx Hlx] by (split; [unfold x; bok|done]).
  assert (set_byte p 8 v = splice p 8 x) as Es by (apply set_byte_splice2; lia).
  set (q := splice p 8 x) in *. assert (zlen q = zlen p) as Lq by (apply zlen_splice; lia). assert (bytes_ok q) as Bq by (unfold q; bok).
  assert (w16 q 8 = v * 256 + p.[9]) as E8.
  { unfold w16, q. rewrite !byte_at_splice_in by (rewrite ?Hlx; lia). done. }
  assert (w16 q 10 = w16 p 10) as E10 by (apply w16_splice_other; lia).
  destruct (adjust_sum (w16 q 10) (w16 p 8) (w16 q 8) (w16_bound _ _ Bq) (w16_bound _ _ Hb) (w16_bound _ _ Bq)) as [Hc [k Hk]].
  unfold out, spend_hop. fold v. rewrite Es. set (c := checksum_adjust _ _ _) in *.
  assert (zlen (splice q 10 (be16 c)) = zlen p) as Lo by (rewrite zlen_splice; rewrite ?zlen_be16; lia).
  assert (bytes_ok (splice q 10 (be16 c))) as Bo by (apply bytes_ok_splice; [done|apply bytes_ok_be16; lia]).
  assert (forall i, 0 <= i -> i <> 8 -> ~ (10 <= i < 12) -> (splice q 10 (be16 c)).[i] = p.[i]) as Hby.
  { intros i Hi N1 N2. rewrite byte_at_splice_out by (rewrite ?zlen_be16; lia). unfold q.
    destruct (decide (i = 9)) as [->|]; [rewrite byte_at_splice_in by lia; done|]. rewrite byte_at_splice_out by lia. done. }
  assert (datagram (splice q 10 (be16 c)) ihl) as Hdo by (eapply datagram_same; [exact Hd|done|done|apply Hby; lia..]).
  split_and!; try done.
  - rewrite byte_at_splice_out by (rewrite ?zlen_be16; lia). unfold q. rewrite byte_at_splice_in by lia. done.
  - apply (header_verdict p _ ihl); [done|done|]. rewrite <- !slice_from_0.
    rewrite word_sum_slice_splice by (rewrite ?zlen_be16; done || lia). rewrite zlen_be16, word_sum_slice2, word_sum_be16' by (done || lia).
    unfold q at 1. rewrite word_sum_slice_splice by (rewrite ?Hlx; done || lia). rewrite Hlx, word_sum_slice2 by (done || lia).
    unfold x at 1. rewrite word_sum_cons by bok. change (word_sum []) with 0. exists k. lia.
  - rewrite (dg_verify_transport _ ihl Hdo), (dg_verify_transport p ihl Hd). rewrite (fragment_bytes p _ ihl) by (done || apply Hby; lia).
    rewrite Lo, (Hby 9) by lia. unfold addr_at. change (12 + 4) with 16. change (16 + 4) with 20.
    rewrite (slice_bytes_eq p (splice q 10 (be16 c)) 12 16), (slice_bytes_eq p (splice q 10 (be16 c)) 16 20), (slice_bytes_eq p (splice q 10 (be16 c)) ihl (zlen p))
      by (try done; try lia; intros i Hi; apply Hby; lia). done.
Qed.

(** ** Echo messages *)

(** The common form of [rewrite_echo_out] and [rewrite_echo_in]. *)
Definition rewrite_echo_at (p : list Z) (ihl ia : Z) (new : list Z) (id : Z) : list Z :=
  let old := slice p ia (ia + 4) in
  let q := splice p ia new in
  let old_id := w16 q (ihl + 4) in
  let q := update_ip_checksum (splice q (ihl + 4) (be16 id)) old new in
  update_icmp_checksum q ihl old_id id.

Lemma echo_facts p ihl ia new id :
  datagram p ihl -> ia = 12 \/ ia = 16 -> p.[9] = PROTO_ICMP -> ihl + 8 <= zlen p ->
  bytes_ok new -> zlen new = 4 -> 0 <= id <= 65535 -> p.[ihl] <> 0 \/ 0 < id /\ 0 < w16 p (ihl + 4) ->
  let out := rewrite_echo_at p ihl ia new id in
  datagram out ihl /\ zlen out = zlen p /\
  (forall i, 0 <= i -> ~ (10 <= i < 12) -> ~ (ia <= i < ia + 4) -> ~ (ihl + 2 <= i < ihl + 6) -> out.[i] = p.[i]) /\
  slice out ia (ia + 4) = new /\ w16 out (ihl + 4) = id /\
  verify_ipv4_checksum out = verify_ipv4_checksum p /\ verify_transport_checksum out = verify_transport_checksum p.
Proof.
  intros Hd Hia Hproto Hl4 Hnew Hln Hid Hpos out.
  pose proof (dg_len p ihl Hd) as HL. pose proof (dg_header p ihl Hd) as HH. pose proof (dg_ok p ihl Hd) as Hb. pose proof (dg_ihl_even p ihl Hd) as He.
  destruct (rewritten_header p ihl ia 4 new id Hd Hia ltac:(lia) ltac:(lia) Hnew Hln Hid) as (L3 & B3 & Eop & Hby & Hadr & Hprt & Hhs & Hpdu).
  unfold out, rewrite_echo_at, update_icmp_checksum. rewrite Eop. set (q3 := update_ip_checksum _ _ new) in *.
  destruct (adjust_sum (w16 q3 (ihl + 2)) (w16 p (ihl + 4)) id (w16_bound _ _ B3) (w16_bound _ _ Hb) Hid) as [Hc [k Hk]].
  set (c := checksum_adjust _ _ _) in *. set (o := splice q3 (ihl + 2) (be16 c)).
  assert (w16 q3 (ihl + 2) = w16 p (ihl + 2)) as E2 by (unfold w16; rewrite !Hby by lia; done).
  assert (zlen o = zlen p) as Lo by (unfold o; rewrite zlen_splice; rewrite ?zlen_be16; lia).
  assert (bytes_ok o) as Bo by (unfold o; apply bytes_ok_splice; [done|apply bytes_ok_be16; lia]).
  assert (forall i, 0 <= i -> ~ (10 <= i < 12) -> ~ (ia <= i < ia + 4) -> ~ (ihl + 2 <= i < ihl + 6) -> o.[i] = p.[i]) as Hall.
  { intros i Hi N1 N2 N3. unfold o. rewrite byte_at_splice_out by (rewrite ?zlen_be16; lia). apply Hby; lia. }
  assert (datagram o ihl) as Hdo by (eapply datagram_same; [exact Hd|done|done|apply Hall; lia..]).
  assert (w16 o (ihl + 4) = id) as Eid by (unfold o; rewrite w16_splice_other by (rewrite ?zlen_be16; lia); exact Hprt).
  split_and!; try done.
  - unfold o. rewrite slice_splice_other by (rewrite ?zlen_be16; lia). done.
  - apply (header_verdict p _ ihl); [done|done|]. unfold o. rewrite ztake_splice_before by (rewrite ?zlen_be16; lia). done.
  - rewrite (dg_verify_transport _ ihl Hdo), (dg_verify_transport p ihl Hd). rewrite (fragment_bytes p _ ihl) by (done || apply Hall; lia).
    rewrite (Hall 9), Hproto, Lo by lia. destruct (ipv4_is_fragment p); [done|]. unfold verify_payload. rewrite !zlen_slice, Lo.
    cbn [Z.eqb Pos.eqb andb PROTO_ICMP TCP UDP ICMP ICMPV6]. case_if; [|done]. f_equal.
    assert (forall q, datagram q ihl -> zlen q = zlen p -> q.[ihl] <> 0 \/ 0 < w16 q (ihl + 4) -> 0 < word_sum (slice q ihl (zlen p))) as Hps.
    { intros q Hq Lq Hp. pose proof (dg_ok q ihl Hq) as Bq.
      rewrite <- (slice_cat q ihl (ihl + 4) (zlen p)), <- (slice_cat q (ihl + 4) (ihl + 4 + 2) (zlen p)) by lia.
      rewrite !word_sum_app by (rewrite zlen_slice; (replace (Z.min _ _) with 4 by lia) || (replace (Z.min _ _) with 2 by lia); done).
      rewrite (word_sum_slice2 q (ihl + 4)) by (done || lia). pose proof (w16_bound q (ihl + 4) Bq). pose proof (word_sum_nonneg (slice q (ihl + 4 + 2) (zlen p)) ltac:(bok)).
      pose proof (word_sum_nonneg (slice q ihl (ihl + 4)) ltac:(bok)).
      destruct Hp as [Hp|Hp]; [|lia]. assert (0 < word_sum (slice q ihl (ihl + 4))); [|lia].
      apply word_sum_pos; [bok|]. rewrite byte_at_slice by lia. by rewrite Z.add_0_r. }
    unfold checksum, not16. assert (fold (word_sum (slice o ihl (zlen p))) = fold (word_sum (slice p ihl (zlen p)))) as ->; [|done].
    assert (0 < word_sum (slice o ihl (zlen p)) /\ 0 < word_sum (slice p ihl (zlen p))) as [P1 P2].
    { split; apply Hps; try done; [|destruct Hpos; [by left|right; lia]].
      destruct Hpos as [Hp|Hp]; [left; rewrite Hall by lia; done|right; rewrite Eid; lia]. }
    apply fold_congr; [lia..|]. apply same_sum_mod. unfold o.
    rewrite word_sum_slice_splice; [|lia|rewrite zlen_be16; lia|lia|by replace (ihl + 2 - ihl) with 2 by lia|done].
    rewrite zlen_be16, word_sum_slice2, word_sum_be16' by (done || lia). rewrite Hpdu by lia. exists k. lia.
Qed.

(** ** Sequence numbers rewritten *)

Lemma even_down_spec x : 0 <= x -> x - 1 <= even_down x <= x /\ Z.even (even_down x) = true /\ 0 <= even_down x.
Proof.
  intros Hx. unfold even_down. change 1 with (Z.ones 1) at 2 3 4 5. rewrite Z.land_ones by lia. change (2 ^ 1) with 2. rewrite Zmod_odd.
  destruct (Z.odd x) eqn:E; rewrite ?Z.even_sub, <- ?Z.negb_odd, ?E; cbn; split_and!; try done; try lia.
  assert (x <> 0) by (intros ->; done). lia.
Qed.

(** A TCP segment rewritten outside its checksum field. *)
Lemma patch_tcp_facts p ihl off new :
  datagram p ihl -> p.[9] = PROTO_TCP -> ihl + 18 <= zlen p -> ihl + 4 <= off -> 0 < zlen new -> bytes_ok new ->
  let start := even_down off in let fin := even_down (off + zlen new + 1) in
  fin <= zlen p -> fin <= ihl + 16 \/ ihl + 18 <= start ->
  let out := patch_tcp p ihl off new in
  datagram out ihl /\ zlen out = zlen p /\
  (forall i, 0 <= i -> ~ (off <= i < off + zlen new) -> ~ (ihl + 16 <= i < ihl + 18) -> out.[i] = p.[i]) /\
  slice out off (off + zlen new) = new /\
  verify_ipv4_checksum out = verify_ipv4_checksum p /\ verify_transport_checksum out = verify_transport_checksum p.
Proof.
  intros Hd Hproto Hl Hoff Hln Hnew start fin Hfin Hfld out.
  pose proof (dg_len p ihl Hd) as HL. pose proof (dg_header p ihl Hd) as HH. pose proof (dg_ok p ihl Hd) as Hb. pose proof (dg_ihl_even p ihl Hd) as He.
  destruct (even_down_spec off ltac:(lia)) as (S1 & S2 & S3). destruct (even_down_spec (off + zlen new + 1) ltac:(lia)) as (F1 & F2 & F3). fold start in S1, S2, S3. fold fin in F1, F2, F3.
  assert (off + zlen new <= fin) as Hof.
  { destruct (decide (fin = off + zlen new)); [lia|]. destruct (decide (fin = off + zlen new + 1)); [lia|lia]. }
  assert (ihl + 4 <= start) as Hst.
  { destruct (decide (off = ihl + 4)) as [E|]; [|lia]. unfold start. rewrite E. unfold even_down. change 1 with (Z.ones 1). rewrite Z.land_ones by lia.
    change (2 ^ 1) with 2. rewrite Zmod_odd, <- Z.negb_even, Z.even_add, He. cbn. lia. }
  set (q := splice p off new). assert (zlen q = zlen p) as Lq by (apply zlen_splice; lia). assert (bytes_ok q) as Bq by (unfold q; bok).
  assert (q = splice p start (slice q start fin)) as Eq.
  { assert (zlen (slice q start fin) = fin - start) as Lz by (rewrite zlen_slice; lia). apply bytes_ext; [rewrite Lq, zlen_splice; lia|].
    intros i Hi. destruct (decide (start <= i < fin)).
    - rewrite byte_at_splice_in by lia. rewrite byte_at_slice by lia. f_equal. lia.
    - rewrite byte_at_splice_out by lia. unfold q. rewrite byte_at_splice_out by lia. done. }
  assert (w16 q (ihl + 16) = w16 p (ihl + 16)) as E16 by (apply w16_splice_other; lia).
  set (old := slice p start fin) in *. set (nw := slice q start fin) in *.
  assert (bytes_ok old /\ bytes_ok nw /\ zlen nw = fin - start) as (Hbo & Hbn & Lnw) by (unfold old, nw; split_and!; [bok|bok|rewrite zlen_slice; lia]).
  destruct (incremental_update_mod (w16 q (ihl + 16)) old nw Hbo Hbn (w16_bound _ _ Bq)) as [Hc Hm]. apply same_sum_mod in Hm as [k Hk].
  unfold out, patch_tcp. fold start fin q old nw. set (c := incremental_update _ _ _) in *. set (o := splice q (ihl + 16) (be16 c)).
  assert (zlen o = zlen p) as Lo by (unfold o; rewrite zlen_splice; rewrite ?zlen_be16; lia).
  assert (bytes_ok o) as Bo by (unfold o; apply bytes_ok_splice; [done|apply bytes_ok_be16; lia]).
  assert (forall i, 0 <= i -> ~ (off <= i < off + zlen new) -> ~ (ihl + 16 <= i < ihl + 18) -> o.[i] = p.[i]) as Hby.
  { intros i Hi N1 N2. unfold o. rewrite byte_at_splice_out by (rewrite ?zlen_be16; lia). unfold q. rewrite byte_at_splice_out by lia. done. }
  assert (datagram o ihl) as Hdo by (eapply datagram_same; [exact Hd|done|done|apply Hby; lia..]).
  assert (forall a b, 0 <= a -> b <= ihl -> slice o a b = slice p a b) as Hhdr by (intros a b ??; apply slice_bytes_eq; try done; try lia; intros i Hi; apply Hby; lia).
  split_and!; try done.
  - unfold o. rewrite slice_splice_other by (rewrite ?zlen_be16; lia). unfold q. apply slice_splice_in; lia.
  - apply (header_verdict p _ ihl); [done|done|]. rewrite <- !slice_from_0, Hhdr by lia. exists 0. lia.
  - rewrite (dg_verify_transport _ ihl Hdo), (dg_verify_transport p ihl Hd). rewrite (fragment_bytes p _ ihl) by (done || apply Hby; lia).
    assert (o.[9] = p.[9]) as E9 by (apply Hby; lia). destruct (ipv4_is_fragment p); [done|]. unfold verify_payload. rewrite E9, Hproto, !zlen_slice, Lo.
    cbn [Z.eqb Pos.eqb andb PROTO_TCP TCP]. case_if; [|done]. f_equal.
    replace (raw_transport_sum PROTO_TCP (addr_at o 12)) with (raw_transport_sum o.[9] (addr_at o 12)) by (by rewrite E9, Hproto).
    replace (raw_transport_sum PROTO_TCP (addr_at p 12)) with (raw_transport_sum p.[9] (addr_at p 12)) by (by rewrite Hproto).
    rewrite (dg_raw_sum o ihl), (dg_raw_sum p ihl) by (done || bok).
    assert (0 < p.[9]) by (rewrite Hproto; done).
    apply verdict_congr; [apply (l4_sum_pos o ihl); [done|lia|apply zlen_nonneg|bok]|apply (l4_sum_pos p ihl); [done|lia|apply zlen_nonneg|bok]|].
    unfold l4_sum. rewrite E9, !zlen_slice, Lo, !Hhdr by lia. unfold o.
    rewrite word_sum_slice_splice; [|lia|rewrite zlen_be16; lia|lia|by replace (ihl + 16 - ihl) with 16 by lia|done].
    rewrite zlen_be16, word_sum_slice2, word_sum_be16' by (done || lia). rewrite Eq at 1.
    rewrite word_sum_slice_splice; [|lia|lia|lia|by rewrite Z.even_sub, S2, He|by rewrite Lnw, Z.even_sub, F2, S2]. rewrite Lnw.
    replace (start + (fin - start)) with fin by lia. fold old. exists k. lia.
Qed.

(** A TCP datagram rewritten without touching its addresses, its header
    lengths or the validity of its checksums. *)
Record seq_rewritten (p out : list Z) (ihl : Z) : Prop := {
  sr_datagram : datagram out ihl;
  sr_len : zlen out = zlen p;
  sr_header : forall i, 0 <= i < ihl + 4 -> out.[i] = p.[i];
  sr_offset : out.[ihl + 12] = p.[ihl + 12];
  sr_ip : verify_ipv4_checksum out = verify_ipv4_checksum p;
  sr_l4 : verify_transport_checksum out = verify_transport_checksum p }.

Lemma seq_rewritten_refl p ihl : datagram p ihl -> seq_rewritten p p ihl.
Proof. intros. by split. Qed.

Lemma patch_seq p q ihl off x fin :
  seq_rewritten p q ihl -> p.[9] = PROTO_TCP -> Z.even fin = true -> fin <= zlen p -> ihl + 20 <= fin -> 0 <= x < 2 ^ 32 ->
  off = ihl + 4 \/ off = ihl + 8 \/ ihl + 20 <= off /\ off + 4 <= fin ->
  seq_rewritten p (patch_tcp q ihl off (be32 x)) ihl.
Proof.
  intros [H1 H2 H3 H4 H5 H6] Hproto Hfe Hf Hf20 Hx Hoff. pose proof (dg_header q ihl H1) as HH. pose proof (dg_ihl_even q ihl H1) as He.
  assert (even_down (off + 4 + 1) <= fin /\ (even_down (off + 4 + 1) <= ihl + 16 \/ ihl + 18 <= even_down off)) as [He1 He2].
  { destruct (even_down_spec (off + 4 + 1) ltac:(lia)) as (F1 & F2 & F3). destruct (even_down_spec off ltac:(lia)) as (S1 & S2 & S3). split; [|lia].
    destruct (decide (even_down (off + 4 + 1) = off + 4 + 1)) as [E|]; [|lia].
    destruct (decide (off + 4 = fin)) as [E2|]; [|lia]. rewrite E, E2, Z.even_add, Hfe in F2. done. }
  destruct (patch_tcp_facts q ihl off (be32 x)) as (D & L & B & _ & V1 & V2); rewrite ?zlen_be32, ?H2; try done; try lia.
  - rewrite H3 by lia. done.
  - apply bytes_ok_be32. lia.
  - split; [done|by rewrite L|..].
    + intros i Hi. rewrite B by (rewrite ?zlen_be32; lia). apply H3. lia.
    + rewrite B by (rewrite ?zlen_be32; lia). done.
    + by rewrite V1.
    + by rewrite V2.
Qed.

Lemma adjust_edges_keeps fuel p q ihl edge fin fin' other :
  seq_rewritten p q ihl -> p.[9] = PROTO_TCP -> Z.even fin' = true -> fin' <= zlen p -> ihl + 20 <= edge -> ihl + 20 <= fin' -> fin <= fin' ->
  seq_rewritten p (adjust_edges fuel q ihl edge fin other) ihl.
Proof.
  intros Hs Hp He Hl Hedge Hf Hle. revert q edge Hs Hedge. induction fuel as [|fuel IH]; intros q edge Hs Hedge; [done|]. cbn [adjust_edges].
  case_if; [|done]. bool2prop. apply IH; [|lia]. apply patch_seq with (fin := fin'); try done; [apply u32_bound|lia].
Qed.

Lemma adjust_options_keeps fuel p q ihl i fin other :
  seq_rewritten p q ihl -> p.[9] = PROTO_TCP -> Z.even fin = true -> fin <= zlen p -> ihl + 20 <= i -> ihl + 20 <= fin ->
  seq_rewritten p (adjust_options fuel q ihl i fin other) ihl.
Proof.
  intros Hs Hp He Hl Hi Hf. revert q i Hs Hi. induction fuel as [|fuel IH]; intros q i Hs Hi; [done|]. cbn [adjust_options].
  case_if; [|done]. destruct (q.[i] =? 0); [done|]. destruct (q.[i] =? 1); [apply IH; [done|lia]|].
  destruct (get q (i + 1)) as [len|]; [|done]. destruct (_ || _) eqn:E; [done|]. bool2prop. apply IH; [|lia].
  destruct (q.[i] =? 5); [|done]. apply adjust_edges_keeps with (fin' := fin); try done; lia.
Qed.

(** Correcting the sequence numbers of a whole TCP segment. *)
Lemma adjust_tcp_seq_keeps p ihl this other n :
  datagram p ihl -> p.[9] = PROTO_TCP -> tcp_payload_len p ihl = Some n -> seq_rewritten p (adjust_tcp_seq p ihl this other) ihl.
Proof.
  intros Hd Hp Hn. pose proof (dg_header p ihl Hd) as HH. pose proof (dg_ihl_even p ihl Hd) as He.
  unfold tcp_payload_len in Hn. destruct (get p (ihl + 12)) as [b|] eqn:Eg; [|done]. cbn [mbind option_bind] in Hn.
  assert (b = p.[ihl + 12]) as -> by (unfold byte_at; unfold get in Eg; destruct (0 <=? ihl + 12); [by rewrite Eg|done]).
  destruct (Z.shiftr p.[ihl + 12] 4 * 4 <? 20) eqn:E1; [done|]. destruct (zlen p <? ihl + Z.shiftr p.[ihl + 12] 4 * 4) eqn:E2; [done|]. bool2prop.
  set (fin := ihl + Z.shiftr p.[ihl + 12] 4 * 4) in *.
  assert (Z.even fin = true) as Hfe by (unfold fin; rewrite Z.even_add, He, Z.even_mul; cbn; by rewrite orb_true_r).
  unfold adjust_tcp_seq. set (q1 := patch_tcp p ihl (ihl + 4) _).
  assert (seq_rewritten p q1 ihl) as H1 by (apply patch_seq with (fin := fin); try done; [unfold fin; lia|apply u32_bound|by left]).
  set (q2 := if negb _ then _ else q1).
  assert (seq_rewritten p q2 ihl) as H2.
  { unfold q2. case_if; [|done]. apply patch_seq with (fin := fin); try done; [unfold fin; lia|apply u32_bound|right; by left]. }
  rewrite (sr_offset _ _ _ H2). fold fin. apply adjust_options_keeps; try done; unfold fin; lia.
Qed.

(** The walk needs no more steps than it is given. *)
Lemma adjust_options_fuel n m p ihl i fin other :
  fin - i <= Z.of_nat n -> (n <= m)%nat -> adjust_options m p ihl i fin other = adjust_options n p ihl i fin other.
Proof.
  revert m p i. induction n as [|n IH]; intros m p i Hi Hm.
  - destruct m; [done|]. cbn [adjust_options]. case_if; [lia|done].
  - destruct m as [|m]; [lia|]. cbn [adjust_options]. repeat (case_match; try done); bool2prop; apply IH; lia.
Qed.

(** ** An address alone, in a header anywhere in the packet *)

(** The address at [h + ia] of the header at [h], its checksum patched. *)
Definition rewrite_addr (p : list Z) (h ia : Z) (new : list Z) : list Z :=
  let q := splice p (h + ia) new in
  let c := checksum_adjust (checksum_adjust (w16 q (h + 10)) (w16 (slice p (h + ia) (h + ia + 4)) 0) (w16 new 0))
             (w16 (slice p (h + ia) (h + ia + 4)) 2) (w16 new 2) in
  splice q (h + 10) (be16 c).

Lemma rewrite_addr_outer p ia new :
  update_ip_checksum (splice p ia new) (slice p ia (ia + 4)) new = rewrite_addr p 0 ia new.
Proof. done. Qed.

Lemma splice_in_tail (p : list Z) h a x :
  0 <= h -> 0 <= a -> h + a + zlen x <= zlen p -> ztake h p ++ splice (zdrop h p) a x = splice p (h + a) x.
Proof.
  intros Hh Ha Hl. pose proof (zlen_nonneg x). unfold splice. rewrite zdrop_zdrop by lia. rewrite app_assoc. f_equal; [|f_equal; f_equal; lia].
  rewrite <- (slice_from_0 p h), <- (slice_from_0 (zdrop h p)), <- slice_from_0. rewrite <- (slice_to_end p h), slice_slice by lia.
  rewrite <- (slice_cat p 0 h (h + a)) by lia. by rewrite Z.add_0_r.
Qed.

Lemma rewrite_addr_emb p h ia new :
  bytes_ok p -> 0 <= h -> ia = 12 \/ ia = 16 -> h + 20 <= zlen p -> zlen new = 4 ->
  ztake h p ++ update_ip_checksum (splice (zdrop h p) ia new) (slice p (h + ia) (h + ia + 4)) new = rewrite_addr p h ia new.
Proof.
  intros Hb Hh Hia Hl Hln. unfold update_ip_checksum, rewrite_addr.
  assert (zlen (zdrop h p) = zlen p - h) as Lz by (rewrite zlen_zdrop; lia).
  assert (splice p (h + ia) new = ztake h p ++ splice (zdrop h p) ia new) as E by (rewrite splice_in_tail by lia; done).
  assert (w16 (splice (zdrop h p) ia new) 10 = w16 (splice p (h + ia) new) (h + 10)) as E10.
  { rewrite !w16_splice_other by lia. unfold w16. rewrite !byte_at_zdrop by lia. f_equal; f_equal; lia. }
  rewrite E10. set (c := checksum_adjust _ _ _). rewrite E.
  assert (zlen (splice (zdrop h p) ia new) = zlen p - h) as Ls by (rewrite zlen_splice; lia).
  assert (zlen (ztake h p) = h) as Lt by (rewrite zlen_ztake; lia).
  pose proof (splice_in_tail (ztake h p ++ splice (zdrop h p) ia new) h 10 (be16 c) Hh ltac:(lia)) as Hst.
  rewrite zlen_app, Lt, Ls, zlen_be16 in Hst. rewrite <- Hst by lia.
  rewrite ztake_app_le, zdrop_app_ge by lia. rewrite Lt, Z.sub_diag, (zdrop_nonpos 0) by lia. rewrite (ztake_all h (ztake h p)) by lia. done.
Qed.

Lemma rewrite_addr_facts p h ia new n :
  bytes_ok p -> 0 <= h -> ia = 12 \/ ia = 16 -> 20 <= n -> h + n <= zlen p -> bytes_ok new -> zlen new = 4 ->
  let out := rewrite_addr p h ia new in
  zlen out = zlen p /\ bytes_ok out /\ slice out (h + ia) (h + ia + 4) = new /\
  (forall i, 0 <= i -> ~ (h + 10 <= i < h + 12) -> ~ (h + ia <= i < h + ia + 4) -> out.[i] = p.[i]) /\
  same_sum (word_sum (slice out h (h + n))) (word_sum (slice p h (h + n))).
Proof.
  intros Hb Hh Hia Hn Hl Hnew Hln out. set (old := slice p (h + ia) (h + ia + 4)).
  assert (bytes_ok old /\ zlen old = 4) as [Hold Hlo] by (unfold old; split; [bok|rewrite zlen_slice; lia]).
  set (q := splice p (h + ia) new). assert (zlen q = zlen p) as Lq by (apply zlen_splice; lia). assert (bytes_ok q) as Bq by (unfold q; bok).
  destruct (adjust_ip_sum (w16 q (h + 10)) old new (w16_bound _ _ Bq) Hold Hnew Hlo Hln) as [Hc [k Hk]].
  unfold out, rewrite_addr. fold old q. set (c := checksum_adjust (checksum_adjust _ _ _) _ _) in *.
  assert (w16 q (h + 10) = w16 p (h + 10)) as E10 by (apply w16_splice_other; lia).
  split_and!.
  - rewrite zlen_splice; rewrite ?zlen_be16; lia.
  - apply bytes_ok_splice; [done|apply bytes_ok_be16; lia].
  - rewrite slice_splice_other by (rewrite ?zlen_be16; lia). unfold q. replace (h + ia + 4) with (h + ia + zlen new) by lia. apply slice_splice_in; lia.
  - intros i Hi N1 N2. rewrite byte_at_splice_out by (rewrite ?zlen_be16; lia). unfold q. rewrite byte_at_splice_out by lia. done.
  - rewrite word_sum_slice_splice; [|lia|rewrite zlen_be16; lia|lia|by replace (h + 10 - h) with 10 by lia|done].
    rewrite zlen_be16, word_sum_slice2, word_sum_be16' by (done || lia). unfold q at 1.
    rewrite word_sum_slice_splice; [|lia|lia|lia|by replace (h + ia - h) with ia by lia; destruct Hia as [-> | ->]|by rewrite Hln]. rewrite Hln. fold old. exists k. lia.
Qed.

(** The outer ICMP checksum, from scratch. *)
Lemma refresh_icmp_facts p ihl :
  bytes_ok p -> 0 <= ihl -> ihl + 4 <= zlen p -> Z.even ihl = true ->
  let out := refresh_icmp p ihl in
  zlen out = zlen p /\ bytes_ok out /\ checksum (slice out ihl (zlen out)) = 0 /\
  (forall i, 0 <= i -> ~ (ihl + 2 <= i < ihl + 4) -> out.[i] = p.[i]).
Proof.
  intros Hb Hi Hl He out. unfold out, refresh_icmp. set (q := splice p (ihl + 2) [0; 0]).
  assert (zlen q = zlen p) as Lq by (apply zlen_splice; [lia|change (zlen [0; 0]) with 2; lia]).
  assert (bytes_ok q) as Bq by (unfold q; apply bytes_ok_splice; [done|repeat constructor; lia]).
  pose proof (checksum_bound (zdrop ihl q) ltac:(bok)) as Hc. set (c := checksum (zdrop ihl q)) in *.
  assert (zlen (splice q (ihl + 2) (be16 c)) = zlen p) as Lo by (rewrite zlen_splice; rewrite ?zlen_be16; lia).
  split_and!.
  - done.
  - apply bytes_ok_splice; [done|apply bytes_ok_be16; lia].
  - rewrite Lo, slice_splice_inside by (rewrite ?zlen_be16; lia).
    assert (c = checksum (splice (slice p ihl (zlen p)) 2 [0; 0])) as ->.
    { unfold c, q. rewrite <- slice_to_end. rewrite zlen_splice by (change (zlen [0; 0]) with 2; lia).
      rewrite slice_splice_inside by (change (zlen [0; 0]) with 2; lia). done. }
    unfold q. rewrite slice_splice_inside by (change (zlen [0; 0]) with 2; lia).
    assert (zlen (slice p ihl (zlen p)) = zlen p - ihl) as Lz by (rewrite zlen_slice; lia).
    rewrite splice_splice by (change (zlen [0; 0]) with 2; rewrite ?zlen_be16; lia).
    apply splice_checksum_verifies; [bok|lia|lia|done].
  - intros i Hi0 Hn. rewrite byte_at_splice_out by (rewrite ?zlen_be16; lia). unfold q.
    rewrite byte_at_splice_out by (change (zlen [0; 0]) with 2; lia). done.
Qed.

(** ** Errors and the packet they quote *)

(** What both directions do before the outer checksum: the outer address
    [ia], the quoted address [ie], then bytes past the quoted header. *)
Lemma error_facts p ihl eihl ia ie ip q :
  datagram p ihl -> p.[9] = PROTO_ICMP -> ia = 12 \/ ia = 16 -> ie = 12 \/ ie = 16 ->
  20 <= eihl -> ihl + 8 + eihl <= zlen p -> bytes_ok ip -> zlen ip = 4 ->
  let eo := ihl + 8 in
  bytes_ok q -> zlen q = zlen p ->
  (forall i, 0 <= i < eo + eihl -> q.[i] = (rewrite_addr (rewrite_addr p 0 ia ip) eo ie ip).[i]) ->
  let out := refresh_icmp q ihl in
  datagram out ihl /\ zlen out = zlen p /\
  slice out ia (ia + 4) = ip /\ slice out (eo + ie) (eo + ie + 4) = ip /\
  (forall i, 0 <= i < eo + eihl -> ~ (10 <= i < 12) -> ~ (ia <= i < ia + 4) -> ~ (ihl + 2 <= i < ihl + 4) ->
     ~ (eo + 10 <= i < eo + 12) -> ~ (eo + ie <= i < eo + ie + 4) -> out.[i] = p.[i]) /\
  (forall i, eo + eihl <= i -> out.[i] = q.[i]) /\
  verify_ipv4_checksum out = verify_ipv4_checksum p /\ checksum (slice out ihl (zlen out)) = 0 /\
  same_sum (word_sum (slice out eo (eo + eihl))) (word_sum (slice p eo (eo + eihl))).
Proof.
  intros Hd Hproto Hia Hie He20 Hlen Hip Hlip eo Bq Lq Hq out.
  pose proof (dg_len p ihl Hd) as HL. pose proof (dg_header p ihl Hd) as HH. pose proof (dg_ok p ihl Hd) as Hb. pose proof (dg_ihl_even p ihl Hd) as He.
  destruct (rewrite_addr_facts p 0 ia ip ihl Hb ltac:(lia) Hia ltac:(lia) ltac:(lia) Hip Hlip) as (L1 & B1 & A1 & K1 & S1).
  set (q1 := rewrite_addr p 0 ia ip) in *.
  destruct (rewrite_addr_facts q1 eo ie ip eihl B1 ltac:(lia) Hie ltac:(lia) ltac:(lia) Hip Hlip) as (L2 & B2 & A2 & K2 & S2).
  set (q2 := rewrite_addr q1 eo ie ip) in *.
  destruct (refresh_icmp_facts q ihl Bq ltac:(lia) ltac:(lia) He) as (L3 & B3 & C3 & K3). fold out in L3, B3, C3, K3.
  assert (forall a b, 0 <= a -> b <= eo + eihl -> b <= ihl + 2 \/ ihl + 4 <= a -> slice out a b = slice q2 a b) as Hs2.
  { intros a b Ha Hab Hout. apply slice_bytes_eq; [lia..|]. intros i Hi. rewrite K3, Hq by lia. done. }
  assert (forall a b, 0 <= a -> b <= eo -> slice q2 a b = slice q1 a b) as Hs1.
  { intros a b Ha Hab. apply slice_bytes_eq; [lia..|]. intros i Hi. apply K2; lia. }
  assert (forall i, 0 <= i < eo + eihl -> ~ (10 <= i < 12) -> ~ (ia <= i < ia + 4) -> ~ (ihl + 2 <= i < ihl + 4) ->
     ~ (eo + 10 <= i < eo + 12) -> ~ (eo + ie <= i < eo + ie + 4) -> out.[i] = p.[i]) as Hall.
  { intros i Hi N1 N2 N3 N4 N5. rewrite K3, Hq, K2, K1 by lia. done. }
  assert (datagram out ihl) as Hdo by (eapply datagram_same; [exact Hd|first [done|lia]|first [done|lia]|apply Hall; lia..]).
  split_and!; try done.
  - lia.
  - rewrite Hs2, Hs1 by lia. exact A1.
  - rewrite Hs2 by lia. exact A2.
  - intros i Hi. apply K3; lia.
  - apply (header_verdict p out ihl); [done..|]. rewrite <- !slice_from_0, Hs2, Hs1 by lia. exact S1.
  - rewrite Hs2 by lia. rewrite (slice_bytes_eq p q1 eo (eo + eihl)) in S2; [exact S2|lia..|]. intros i Hi. apply K1; lia.
Qed.

(** The quoted transport header: only the port, or identifier, and the
    checksum change. *)
Lemma patch_emb_l4_facts q l4 proto old new op np :
  bytes_ok q -> 0 <= l4 -> l4 + 8 <= zlen q -> bytes_ok old -> zlen old = 4 -> bytes_ok new -> zlen new = 4 ->
  0 <= op <= 65535 -> 0 <= np <= 65535 ->
  let out := patch_emb_l4 q l4 proto old new op np in
  bytes_ok out /\ zlen out = zlen q /\ (forall i, 0 <= i -> i < l4 + 6 -> out.[i] = q.[i]).
Proof.
  intros Hb Hl Hlen Ho Hlo Hn Hln Hop Hnp out. unfold out, patch_emb_l4.
  set (c := l4 + _). assert (c = l4 + 16 \/ c = l4 + 6) as Hc by (unfold c; destruct (_ =? _); lia).
  destruct (_ && _) eqn:E; [|done]. apply andb_prop in E as [E _]. bool2prop.
  assert (forall v, 0 <= v <= 65535 -> bytes_ok (splice q c (be16 v)) /\ zlen (splice q c (be16 v)) = zlen q /\
    (forall i, 0 <= i -> i < l4 + 6 -> (splice q c (be16 v)).[i] = q.[i])) as Hsp.
  { intros v Hv. split_and!; [apply bytes_ok_splice; [done|apply bytes_ok_be16; lia]|rewrite zlen_splice; rewrite ?zlen_be16; lia|].
    intros i Hi0 Hi. rewrite byte_at_splice_out by (rewrite ?zlen_be16; lia). done. }
  unfold update_l4_checksum. set (v := checksum_adjust (checksum_adjust (checksum_adjust _ _ _) _ _) _ _).
  assert (0 <= v <= 65535) as Hv.
  { apply adjust_sum; [|done|done]. apply adjust_ip_sum; try done. by apply w16_bound. }
  case_if; [|by apply Hsp]. unfold udp_nonzero_checksum. case_bool_decide; [|by apply Hsp].
  rewrite splice_splice by (rewrite ?zlen_be16; done || lia). apply (Hsp 65535). lia.
Qed.

(** ** What a rewritten packet promises *)

(** [out] is [p] with the address at [ia] and the port, or identifier, at
    [fld] replaced, [hops] taken from the TTL and the transport checksum at
    [csum] patched: nothing else changes, and both checksums are as valid as
    they were. *)
Record rewritten (p out : list Z) (ihl hops ia : Z) (new : list Z) (fld port csum : Z) : Prop := {
  rw_datagram : datagram out ihl;
  rw_len : zlen out = zlen p;
  rw_addr : slice out ia (ia + 4) = new;
  rw_port : w16 out fld = port;
  rw_ttl : out.[8] = sat_sub p.[8] hops;
  rw_rest : forall i, 0 <= i -> i <> 8 -> ~ (10 <= i < 12) -> ~ (ia <= i < ia + 4) -> ~ (fld <= i < fld + 2) ->
    ~ (csum <= i < csum + 2) -> out.[i] = p.[i];
  rw_ip : verify_ipv4_checksum out = verify_ipv4_checksum p;
  rw_l4 : verify_transport_checksum out = verify_transport_checksum p }.

Lemma sat_sub_0 x : 0 <= x -> sat_sub x 0 = x.
Proof. unfold sat_sub. lia. Qed.

Lemma endpoint_rewritten p ihl ia pa new port :
  datagram p ihl -> ia = 12 \/ ia = 16 -> pa = 0 \/ pa = 2 -> p.[9] = PROTO_TCP \/ p.[9] = PROTO_UDP ->
  ihl + 4 <= zlen p -> bytes_ok new -> zlen new = 4 -> 0 <= port <= 65535 ->
  rewritten p (rewrite_at p ihl p.[9] ia pa new port) ihl 0 ia new (ihl + pa) port (ihl + csum_field p.[9]).
Proof.
  intros Hd Hia Hpa Hproto Hl4 Hnew Hln Hport. pose proof (dg_header p ihl Hd). pose proof (byte_at_ok p 8 (dg_ok p ihl Hd)) as H8.
  assert (csum_field p.[9] = 16 \/ csum_field p.[9] = 6) by (unfold csum_field; destruct (_ =? _); lia).
  destruct (endpoint_bytes p ihl ia pa new port Hd Hia Hpa Hproto Hl4 Hnew Hln Hport) as (Hdo & Hlo & Hby & Hadr & Hprt & _).
  destruct (endpoint_verdicts p ihl ia pa new port Hd Hia Hpa Hproto Hl4 Hnew Hln Hport) as [V1 V2].
  split; try done.
  - rewrite Hby by lia. rewrite sat_sub_0; [done|]. unfold byte_ok in H8. lia.
  - intros. by apply Hby.
Qed.

Lemma echo_rewritten p ihl ia new id :
  datagram p ihl -> ia = 12 \/ ia = 16 -> p.[9] = PROTO_ICMP -> ihl + 8 <= zlen p ->
  bytes_ok new -> zlen new = 4 -> 0 <= id <= 65535 -> p.[ihl] <> 0 \/ 0 < id /\ 0 < w16 p (ihl + 4) ->
  rewritten p (rewrite_echo_at p ihl ia new id) ihl 0 ia new (ihl + 4) id (ihl + 2).
Proof.
  intros Hd Hia Hproto Hl4 Hnew Hln Hid Hpos. pose proof (dg_header p ihl Hd). pose proof (byte_at_ok p 8 (dg_ok p ihl Hd)) as H8.
  destruct (echo_facts p ihl ia new id Hd Hia Hproto Hl4 Hnew Hln Hid Hpos) as (Hdo & Hlo & Hby & Hadr & Hprt & V1 & V2).
  split; try done.
  - rewrite Hby by lia. rewrite sat_sub_0; [done|]. unfold byte_ok in H8. lia.
  - intros. apply Hby; lia.
Qed.

(** A hop spent after, or before, the rewrite. *)
Lemma rewritten_then_hop p q ihl ia new fld port csum :
  rewritten p q ihl 0 ia new fld port csum -> ia = 12 \/ ia = 16 -> 20 <= fld -> 0 <= p.[8] ->
  rewritten p (spend_hop q) ihl 1 ia new fld port csum.
Proof.
  intros [R1 R2 R3 R4 R5 R6 R7 R8] Hia Hfld H8. rewrite sat_sub_0 in R5 by done. pose proof (dg_header q ihl R1).
  destruct (spend_hop_facts q ihl R1) as (D & L & T & B & V1 & V2). split; try done; try congruence.
  - rewrite <- R3. apply slice_bytes_eq; [done|lia..|]. intros i Hi. apply B; lia.
  - rewrite <- R4. unfold w16. rewrite !B by lia. done.
  - intros. rewrite B, R6 by lia. done.
Qed.

Lemma hop_then_rewritten p q ihl ia new fld port csum :
  datagram p ihl -> rewritten (spend_hop p) q ihl 0 ia new fld port csum -> rewritten p q ihl 1 ia new fld port csum.
Proof.
  intros Hd [R1 R2 R3 R4 R5 R6 R7 R8]. destruct (spend_hop_facts p ihl Hd) as (D & L & T & B & V1 & V2).
  pose proof (byte_at_ok (spend_hop p) 8 (dg_ok _ ihl D)) as H8. unfold byte_ok in H8.
  rewrite sat_sub_0 in R5 by lia. split; try done; try congruence. intros. rewrite R6, B by lia. done.
Qed.

Lemma l4_header_ports p ihl : datagram p ihl -> l4_header_in p ihl p.[9] = true -> ihl + 4 <= zlen p.
Proof.
  intros Hd H. unfold l4_header_in in H. destruct (negb _); [bool2prop; lia|]. destruct (get p (ihl + 12)); [|done]. bool2prop. lia.
Qed.

(** An error forwarded: the outer address at [ia] and the quoted one at [ie]
    are the public, or inside, endpoint, with its port at [fld]; the outer
    message verifies and the quoted header is as valid as it was. *)
Record error_rewritten (p out : list Z) (ihl eihl ia ie : Z) (ip : list Z) (fld port : Z) : Prop := {
  er_datagram : datagram out ihl;
  er_len : zlen out = zlen p;
  er_outer : slice out ia (ia + 4) = ip;
  er_quoted : slice out (ihl + 8 + ie) (ihl + 8 + ie + 4) = ip;
  er_port : w16 out fld = port;
  er_ip : verify_ipv4_checksum out = verify_ipv4_checksum p;
  er_l4 : ipv4_is_fragment p = false -> verify_transport_checksum out = Some true;
  er_quoted_sum : (checksum (slice out (ihl + 8) (ihl + 8 + eihl)) =? 0) = (checksum (slice p (ihl + 8) (ihl + 8 + eihl)) =? 0) }.

Lemma checksum_verdict a b :
  bytes_ok a -> bytes_ok b -> a.[0] <> 0 -> b.[0] <> 0 -> same_sum (word_sum a) (word_sum b) -> (checksum a =? 0) = (checksum b =? 0).
Proof.
  intros Ha Hb H1 H2 Hs. pose proof (word_sum_pos a Ha H1). pose proof (word_sum_pos b Hb H2).
  unfold checksum. rewrite (fold_congr (word_sum a) (word_sum b)); [done|lia|lia|lia|by apply same_sum_mod].
Qed.

Lemma error_rewritten_intro p q ihl eo eihl ia ie ip fld port :
  datagram p ihl -> p.[9] = PROTO_ICMP -> ia = 12 \/ ia = 16 -> ie = 12 \/ ie = 16 -> emb_header p ihl = Some (eo, eihl) ->
  bytes_ok ip -> zlen ip = 4 -> bytes_ok q -> zlen q = zlen p ->
  (forall i, 0 <= i < eo + eihl -> q.[i] = (rewrite_addr (rewrite_addr p 0 ia ip) eo ie ip).[i]) ->
  eo + eihl <= fld -> w16 q fld = port ->
  error_rewritten p (refresh_icmp q ihl) ihl eihl ia ie ip fld port.
Proof.
  intros Hd Hproto Hia Hie Hemb Hip Hlip Bq Lq Hq Hfld Hw. unfold emb_header in Hemb.
  destruct (zlen p <? _) eqn:E1; [done|]. destruct (negb _); [done|]. destruct (_ || _) eqn:E2 in Hemb; [done|]. injection Hemb as <- <-. bool2prop.
  assert (p.[ihl + 8] <> 0) as Hne by (intros E; rewrite E in *; change (Z.land 0 15) with 0 in *; lia).
  set (eihl := Z.land p.[ihl + 8] 15 * 4) in *. pose proof (dg_header p ihl Hd) as HH. pose proof (dg_ok p ihl Hd) as Hb.
  destruct (error_facts p ihl eihl ia ie ip q Hd Hproto Hia Hie ltac:(lia) ltac:(lia) Hip Hlip Bq Lq Hq) as (F1 & F2 & F3 & F4 & F5 & F6 & F7 & F8 & F9).
  set (out := refresh_icmp q ihl) in *. split; try done.
  - unfold w16. rewrite !F6 by lia. exact Hw.
  - intros Hf. rewrite (dg_verify_transport out ihl F1), (fragment_bytes p out ihl), Hf, F5, Hproto by (done || lia || (apply F5; lia)).
    unfold verify_payload. rewrite zlen_slice. cbn [Z.eqb Pos.eqb andb PROTO_ICMP TCP UDP ICMP ICMPV6]. rewrite F8.
    case_if; [done|bool2prop; lia].
  - apply checksum_verdict; [pose proof (dg_ok out ihl F1); bok|bok|..|done].
    + rewrite byte_at_slice, F5, Z.add_0_r by lia. done.
    + rewrite byte_at_slice, Z.add_0_r by lia. done.
Qed.

Lemma emb_header_hop p ihl : datagram p ihl -> emb_header (spend_hop p) ihl = emb_header p ihl.
Proof.
  intros Hd. destruct (spend_hop_facts p ihl Hd) as (D & L & _ & B & _). pose proof (dg_header p ihl Hd).
  unfold emb_header. rewrite L, (B (ihl + 8)) by lia. rewrite <- !slice_to_end, L.
  rewrite (slice_bytes_eq p (spend_hop p)); [done|done|lia|lia|]. intros i Hi. apply B; lia.
Qed.

Section Errors.
Context (p : list Z) (ihl eo eihl : Z) (ip : list Z) (old_port port : Z).
Hypothesis Hd : datagram p ihl.
Hypothesis Hproto : p.[9] = PROTO_ICMP.
Hypothesis Hemb : emb_header p ihl = Some (eo, eihl).
Hypothesis Hip : bytes_ok ip.
Hypothesis Hlip : zlen ip = 4.
Hypothesis Hold : 0 <= old_port <= 65535.
Hypothesis Hport : 0 <= port <= 65535.

Lemma emb_bounds : eo = ihl + 8 /\ 20 <= eihl /\ eo + eihl + 8 <= zlen p.
Proof.
  unfold emb_header in Hemb. destruct (zlen p <? _) eqn:E1; [done|]. destruct (negb _); [done|].
  destruct (_ || _) eqn:E2 in Hemb; [done|]. injection Hemb as <- <-. bool2prop. lia.
Qed.

(** The two addresses rewritten. *)
Lemma error_addrs ia ie :
  ia = 12 \/ ia = 16 -> ie = 12 \/ ie = 16 ->
  let q1 := rewrite_addr p 0 ia ip in
  let q2 := rewrite_addr q1 eo ie ip in
  bytes_ok q2 /\ zlen q2 = zlen p /\
  slice q1 (eo + ie) (eo + ie + 4) = slice p (eo + ie) (eo + ie + 4) /\
  ztake eo q1 ++ update_ip_checksum (splice (zdrop eo q1) ie ip) (slice p (eo + ie) (eo + ie + 4)) ip = q2.
Proof.
  intros Hia Hie q1 q2. destruct emb_bounds as (-> & H20 & Hl). pose proof (dg_header p ihl Hd). pose proof (dg_ok p ihl Hd) as Hb.
  destruct (rewrite_addr_facts p 0 ia ip ihl Hb ltac:(lia) Hia ltac:(lia) ltac:(lia) Hip Hlip) as (L1 & B1 & _ & K1 & _). fold q1 in L1, B1, K1.
  destruct (rewrite_addr_facts q1 (ihl + 8) ie ip eihl B1 ltac:(lia) Hie ltac:(lia) ltac:(lia) Hip Hlip) as (L2 & B2 & _).
  assert (slice q1 (ihl + 8 + ie) (ihl + 8 + ie + 4) = slice p (ihl + 8 + ie) (ihl + 8 + ie + 4)) as E.
  { apply slice_bytes_eq; [lia..|]. intros i Hi. apply K1; lia. }
  split_and!; [done|unfold q2; lia|done|]. rewrite <- E. apply rewrite_addr_emb; try done; lia.
Qed.

(** A quoted port stored and its checksum patched, past the quoted header. *)
Lemma error_l4 q fld proto old :
  bytes_ok q -> zlen q = zlen p -> bytes_ok old -> zlen old = 4 -> fld = eo + eihl \/ fld = eo + eihl + 2 ->
  let o := patch_emb_l4 (splice q fld (be16 port)) (eo + eihl) proto old ip old_port port in
  bytes_ok o /\ zlen o = zlen p /\ (forall i, 0 <= i < eo + eihl -> o.[i] = q.[i]) /\ w16 o fld = port.
Proof.
  intros Bq Lq Bo Lo Hf o. destruct emb_bounds as (He & H20 & Hl). pose proof (dg_header p ihl Hd).
  assert (zlen (splice q fld (be16 port)) = zlen p) as Ls by (rewrite zlen_splice; rewrite ?zlen_be16; lia).
  destruct (patch_emb_l4_facts (splice q fld (be16 port)) (eo + eihl) proto old ip old_port port) as (B & L & K);
    [apply bytes_ok_splice; [done|apply bytes_ok_be16; lia]|lia|lia|done..|]. fold o in B, L, K.
  split_and!; [done|lia| |].
  - intros i Hi. rewrite K, byte_at_splice_out by (rewrite ?zlen_be16; lia). done.
  - unfold w16. rewrite !K by lia. apply w16_splice_be16; lia.
Qed.

Lemma error_out_rewritten proto :
  error_rewritten p (rewrite_error_out p ihl eihl proto ip (slice p (eo + 16) (eo + 20)) old_port port) ihl eihl 12 16 ip (eo + eihl + 2) port.
Proof.
  destruct (error_addrs 12 16 ltac:(lia) ltac:(lia)) as (B2 & L2 & E1 & E2). destruct emb_bounds as (He & H20 & Hl).
  pose proof (dg_header p ihl Hd). pose proof (dg_ok p ihl Hd) as Hb.
  unfold rewrite_error_out. rewrite <- He. change (update_ip_checksum (splice p 12 ip) (slice p 12 16) ip) with (rewrite_addr p 0 12 ip).
  replace (eo + 20) with (eo + 16 + 4) by lia. rewrite E2. set (q2 := rewrite_addr (rewrite_addr p 0 12 ip) eo 16 ip) in *.
  destruct (error_l4 q2 (eo + eihl + 2) proto (slice p (eo + 16) (eo + 16 + 4)) B2 L2 ltac:(bok) ltac:(rewrite zlen_slice; lia) ltac:(lia)) as (B & L & K & W).
  eapply error_rewritten_intro; try done; lia.
Qed.
End Errors.

Lemma error_in_rewritten p ihl eo eihl ip proto old_port port :
  datagram p ihl -> p.[9] = PROTO_ICMP -> emb_header p ihl = Some (eo, eihl) -> bytes_ok ip -> zlen ip = 4 ->
  0 <= old_port <= 65535 -> 0 <= port <= 65535 ->
  error_rewritten p (rewrite_error_in p ihl eihl proto ip old_port port) ihl eihl 16 12 ip
    (eo + eihl + (if (proto =? PROTO_TCP) || (proto =? PROTO_UDP) then 0 else 4)) port.
Proof.
  intros Hd0 Hp0 Hemb0 Hip Hlip Hold Hport. destruct (spend_hop_facts p ihl Hd0) as (Hd & L0 & _ & K0 & V0 & _).
  pose proof (dg_header p ihl Hd0) as HH. pose proof (emb_header_hop p ihl Hd0) as Hemb. rewrite Hemb0 in Hemb.
  set (p1 := spend_hop p) in *. assert (p1.[9] = PROTO_ICMP) as Hproto by (rewrite K0 by lia; done).
  destruct (error_addrs p1 ihl eo eihl ip Hd Hemb Hip Hlip 16 12 ltac:(lia) ltac:(lia)) as (B2 & L2 & E1 & E2).
  destruct (emb_bounds p1 ihl eo eihl Hemb) as (He & H20 & Hl). pose proof (dg_ok p1 ihl Hd) as Hb.
  assert (error_rewritten p1 (rewrite_error_in p ihl eihl proto ip old_port port) ihl eihl 16 12 ip
    (eo + eihl + (if (proto =? PROTO_TCP) || (proto =? PROTO_UDP) then 0 else 4)) port) as [R1 R2 R3 R4 R5 R6 R7 R8].
  { unfold rewrite_error_in. fold p1. rewrite <- He. change (update_ip_checksum (splice p1 16 ip) (slice p1 16 20) ip) with (rewrite_addr p1 0 16 ip).
    replace (eo + 16) with (eo + 12 + 4) by lia. rewrite E1, E2. set (q2 := rewrite_addr (rewrite_addr p1 0 16 ip) eo 12 ip) in *.
    destruct (_ || _) eqn:Ep.
    - destruct (error_l4 p1 ihl eo eihl ip old_port port Hd Hemb Hip Hlip Hold Hport q2 (eo + eihl) proto (slice p1 (eo + 12) (eo + 12 + 4)) B2 L2
        ltac:(bok) ltac:(rewrite zlen_slice; lia) ltac:(lia)) as (B & L & K & W).
      rewrite Z.add_0_r. eapply error_rewritten_intro; try done; lia.
    - unfold update_icmp_checksum. set (s := splice q2 (eo + eihl + 4) (be16 port)).
      assert (zlen s = zlen p1) as Ls by (unfold s; rewrite zlen_splice; rewrite ?zlen_be16; lia).
      assert (bytes_ok s) as Bs by (unfold s; apply bytes_ok_splice; [done|apply bytes_ok_be16; lia]).
      set (c := checksum_adjust _ _ _). assert (0 <= c <= 65535) as Hc by (apply adjust_sum; [by apply w16_bound|lia..]).
      eapply error_rewritten_intro; try done; try lia.
      + apply bytes_ok_splice; [done|apply bytes_ok_be16; lia].
      + rewrite zlen_splice; rewrite ?zlen_be16; lia.
      + intros i Hi. rewrite byte_at_splice_out by (rewrite ?zlen_be16; lia). unfold s. rewrite byte_at_splice_out by (rewrite ?zlen_be16; lia). done.
      + rewrite w16_splice_other by (rewrite ?zlen_be16; lia). apply w16_splice_be16; lia. }
  split; try done; try congruence.
  - intros Hf. apply R7. rewrite <- Hf. apply (fragment_bytes p p1 ihl); [done|done|apply K0; lia..].
  - rewrite R8. do 2 f_equal. apply slice_bytes_eq; [done|lia..|]. intros i Hi. apply K0; lia.
Qed.

(** ** Sequence numbers there and back *)

(** A stream resized at [pos]: what the sender numbered [seq] and the other
    side acknowledges in shifted numbers comes back as [seq].  [len] is the
    length of the resized segment, so bytes after it start at [pos + len]. *)
Lemma adj_round_trip s len d :
  0 <= pos s < 2 ^ 32 -> d <= 0 \/ len <= d -> 0 < len -> 0 < len + (after s - before s) -> - 2 ^ 31 <= d < 2 ^ 31 ->
  d + (after s - before s) < 2 ^ 31 ->
  let seq := u32 (pos s + d) in
  adj_seq s seq = u32 (seq + (if 0 <? d then after s else before s)) /\ adj_ack s (adj_seq s seq) = seq.
Proof.
  intros Hp Hd Hl Hs Hd31 Hds seq.
  assert (adj_seq_after seq (pos s) = (0 <? d)) as E.
  { unfold adj_seq_after, seq. rewrite u32_sub_l. replace (pos s + d - pos s) with d by lia. by rewrite i32_u32. }
  assert (adj_seq s seq = u32 (seq + (if 0 <? d then after s else before s))) as Es by (unfold adj_seq; by rewrite E, u32_add_r).
  split; [done|]. rewrite Es. unfold adj_ack. rewrite !u32_sub_l, !u32_sub_r.
  set (off := if 0 <? d then after s else before s).
  assert (adj_seq_after (u32 (seq + off - before s)) (pos s) = (0 <? d)) as ->.
  { unfold adj_seq_after, seq. rewrite !u32_sub_l. replace (u32 (pos s + d) + off - before s - pos s) with (u32 (pos s + d) + (off - before s - pos s)) by lia.
    rewrite u32_add_l. replace (pos s + d + (off - before s - pos s)) with (d + (off - before s)) by lia. unfold off. destruct (Z.ltb_spec 0 d).
    - rewrite i32_u32 by lia. apply Z.ltb_lt. lia.
    - rewrite i32_u32 by lia. apply Z.ltb_ge. lia. }
  fold off. replace (seq + off - off) with seq by lia. unfold seq. unfold u32 at 1. apply Z.mod_small, u32_bound.
Qed.

Lemma record_resize_facts s seq delta :
  before s = after s -> after s + delta = i32_add (after s) delta ->
  let s' := record s seq delta in
  pos s' = seq /\ before s' = after s /\ after s' = after s + delta /\ record s' seq delta = s' \/ delta = 0.
Proof.
  intros Hb Hd s'. destruct (decide (delta = 0)); [by right|]. left. unfold s', record. rewrite Hb, Z.eqb_refl. cbn [orb pos before after].
  split_and!; [done..|done|]. rewrite <- Hd. destruct (Z.eqb_spec (after s) (after s + delta)); [lia|]. cbn [orb].
  unfold adj_seq_after. rewrite Z.sub_diag. done.
Qed.

(** ** The corrected numbers in the packet *)

Lemma patch_tcp_bytes q ihl off new i :
  0 <= ihl -> ihl + 18 <= zlen q -> 0 <= off -> off + zlen new <= zlen q -> 0 <= i -> ~ (off <= i < off + zlen new) -> ~ (ihl + 16 <= i < ihl + 18) ->
  zlen (patch_tcp q ihl off new) = zlen q /\ (patch_tcp q ihl off new).[i] = q.[i].
Proof.
  intros Hi Hl Ho Hol Hi0 N1 N2. pose proof (zlen_nonneg new). unfold patch_tcp.
  assert (zlen (splice q off new) = zlen q) as E by (apply zlen_splice; lia).
  split; [rewrite zlen_splice; rewrite ?zlen_be16; lia|]. rewrite !byte_at_splice_out by (rewrite ?zlen_be16; lia). done.
Qed.

Lemma adjust_edges_bytes fuel q ihl edge fin other i :
  0 <= ihl -> ihl + 20 <= edge -> fin <= zlen q -> ihl + 20 <= zlen q -> 0 <= i < ihl + 16 ->
  zlen (adjust_edges fuel q ihl edge fin other) = zlen q /\ (adjust_edges fuel q ihl edge fin other).[i] = q.[i].
Proof.
  intros Hl. revert q edge. induction fuel as [|fuel IH]; intros q edge He Hf Hq Hi; [done|]. cbn [adjust_edges]. case_if; [|done]. bool2prop.
  destruct (patch_tcp_bytes q ihl edge (be32 (adj_ack other (read32 q edge))) i) as [L B]; rewrite ?zlen_be32; try lia.
  destruct (IH (patch_tcp q ihl edge (be32 (adj_ack other (read32 q edge)))) (edge + 4)) as [-> ->]; try lia; done.
Qed.

Lemma adjust_options_bytes fuel q ihl a fin other i :
  0 <= ihl -> ihl + 20 <= a -> fin <= zlen q -> ihl + 20 <= zlen q -> 0 <= i < ihl + 16 ->
  (adjust_options fuel q ihl a fin other).[i] = q.[i].
Proof.
  intros Hl. revert q a. induction fuel as [|fuel IH]; intros q a Ha Hf Hq Hi; [done|]. cbn [adjust_options]. case_if; [|done].
  destruct (q.[a] =? 0); [done|]. destruct (q.[a] =? 1); [apply IH; lia|]. destruct (get q (a + 1)) as [len|]; [|done].
  destruct (_ || _) eqn:E; [done|]. bool2prop. destruct (q.[a] =? 5); [|apply IH; lia].
  destruct (adjust_edges_bytes (Z.to_nat len) q ihl (a + 2) (a + len) other i) as [L B]; try lia. rewrite IH; [done|lia..].
Qed.

Lemma of_be_bytes_be32 x : 0 <= x < 2 ^ 32 -> of_be_bytes (be32 x) = x.
Proof.
  intros Hx. replace (be32 x) with (be_bytes 4 x); [by apply of_be_bytes_be_bytes|]. unfold be32. cbn [be_bytes Z.of_nat Pos.of_succ_nat Pos.succ].
  change (256 ^ 3) with (2 ^ 24). change (256 ^ 2) with (2 ^ 16). change (256 ^ 1) with 256. change (256 ^ 0) with 1. rewrite Z.div_1_r.
  rewrite (Z.mod_small (x / 2 ^ 24)); [done|]. split; [apply Z.div_pos; lia|apply Z.div_lt_upper_bound; lia].
Qed.

Lemma read32_patch q ihl off x :
  0 <= x < 2 ^ 32 -> 0 <= ihl -> off + 4 <= ihl + 16 \/ ihl + 18 <= off -> 0 <= off -> off + 4 <= zlen q -> ihl + 18 <= zlen q ->
  read32 (patch_tcp q ihl off (be32 x)) off = x.
Proof.
  intros Hx Hi Ho Hoff Hl Hl2. unfold read32, patch_tcp.
  assert (zlen (splice q off (be32 x)) = zlen q) as E by (apply zlen_splice; rewrite ?zlen_be32; lia).
  rewrite slice_splice_other by (rewrite ?zlen_be16; lia).
  replace (off + 4) with (off + zlen (be32 x)) by (by rewrite zlen_be32). rewrite slice_splice_in by (rewrite ?zlen_be32; lia).
  by apply of_be_bytes_be32.
Qed.

Lemma read32_same p q a : zlen q = zlen p -> 0 <= a -> a + 4 <= zlen p -> (forall i, a <= i < a + 4 -> q.[i] = p.[i]) -> read32 q a = read32 p a.
Proof. intros. unfold read32. f_equal. by apply slice_bytes_eq. Qed.

Lemma read32_range p a : bytes_ok p -> 0 <= read32 p a < 2 ^ 32.
Proof.
  intros Hb. unfold read32. pose proof (of_be_bytes_bound (slice p a (a + 4)) ltac:(bok)) as [H1 H2]. split; [done|].
  eapply Z.lt_le_trans; [exact H2|]. change (2 ^ 32) with (256 ^ 4). apply Z.pow_le_mono_r; [lia|]. rewrite zlen_slice. lia.
Qed.

Lemma tcp_payload_bounds p ihl n : tcp_payload_len p ihl = Some n -> 20 <= Z.shiftr p.[ihl + 12] 4 * 4 /\ ihl + Z.shiftr p.[ihl + 12] 4 * 4 <= zlen p.
Proof.
  intros Hn. unfold tcp_payload_len in Hn. destruct (get p (ihl + 12)) as [b|] eqn:Eg; [|done]. cbn [mbind option_bind] in Hn.
  assert (b = p.[ihl + 12]) as -> by (unfold byte_at; unfold get in Eg; destruct (0 <=? ihl + 12); [by rewrite Eg|done]).
  destruct (Z.shiftr p.[ihl + 12] 4 * 4 <? 20) eqn:E1; [done|]. destruct (zlen p <? _) eqn:E2; [done|]. bool2prop. lia.
Qed.

Lemma adjusted_numbers p ihl this other n :
  datagram p ihl -> p.[9] = PROTO_TCP -> tcp_payload_len p ihl = Some n ->
  let out := adjust_tcp_seq p ihl this other in
  read32 out (ihl + 4) = adj_seq this (read32 p (ihl + 4)) /\
  read32 out (ihl + 8) = (if Z.land p.[ihl + 13] 0x10 =? 0 then read32 p (ihl + 8) else adj_ack other (read32 p (ihl + 8))).
Proof.
  intros Hd Hp Hn out. pose proof (adjust_tcp_seq_keeps p ihl this other n Hd Hp Hn) as Hk. fold out in Hk. pose proof (sr_len _ _ _ Hk) as Lo.
  destruct (tcp_payload_bounds p ihl n Hn) as [Hn1 Hn2]. pose proof (dg_header p ihl Hd) as HH.
  unfold out, adjust_tcp_seq in Lo |- *. set (q1 := patch_tcp p ihl (ihl + 4) _) in *.
  assert (forall i, 0 <= i -> ~ (ihl + 4 <= i < ihl + 8) -> ~ (ihl + 16 <= i < ihl + 18) -> zlen q1 = zlen p /\ q1.[i] = p.[i]) as K1.
  { intros i Hi N1 N2. apply patch_tcp_bytes; rewrite ?zlen_be32; lia. }
  assert (zlen q1 = zlen p) as L1 by (apply (K1 0); lia).
  rewrite (proj2 (K1 (ihl + 13) ltac:(lia) ltac:(lia) ltac:(lia))) in *.
  assert (read32 q1 (ihl + 8) = read32 p (ihl + 8)) as E8 by (apply read32_same; [done|lia..|]; intros i Hi; apply K1; lia).
  assert (read32 q1 (ihl + 4) = adj_seq this (read32 p (ihl + 4))) as E4 by (apply read32_patch; [apply u32_bound|lia..]).
  set (q2 := if negb _ then _ else q1) in *.
  assert (forall i, 0 <= i -> ~ (ihl + 8 <= i < ihl + 12) -> ~ (ihl + 16 <= i < ihl + 18) -> zlen q2 = zlen p /\ q2.[i] = q1.[i]) as K2.
  { intros i Hi N1 N2. unfold q2. destruct (negb _); [|done]. rewrite <- L1. apply patch_tcp_bytes; rewrite ?zlen_be32; lia. }
  assert (zlen q2 = zlen p) as L2 by (apply (K2 0); lia).
  assert (q2.[ihl + 12] = p.[ihl + 12]) as E12 by (rewrite (proj2 (K2 (ihl + 12) ltac:(lia) ltac:(lia) ltac:(lia))); apply K1; lia).
  rewrite E12 in *. set (o := adjust_options _ _ _ _ _ _) in *.
  assert (forall a, ihl <= a -> a + 4 <= ihl + 16 -> read32 o a = read32 q2 a) as Ho.
  { intros a Ha1 Ha2. apply read32_same; [lia..|]. intros i Hi. apply adjust_options_bytes; lia. }
  rewrite !Ho by lia. split.
  - rewrite <- E4. apply read32_same; [lia..|]. intros i Hi. apply K2; lia.
  - unfold q2. destruct (Z.land p.[ihl + 13] 16 =? 0); cbn [negb]; [done|]. rewrite <- E8. apply read32_patch; [apply u32_bound|lia..].
Qed.

(** ** The properties *)

(** C13: translating a datagram changes only what it is meant to.  On the way out
    the source address and port (or echo identifier), on the way in the
    destination's, and the TTL where a hop is spent; the IP and transport
    checksums come out exactly as valid, or as corrupt, as they went in, and
    every other byte is kept.  An echo reply's identifiers, before and after,
    are taken not to be zero. *)
Theorem nat_rewrite_exact pkt p ihl new port :
  bytes_ok pkt -> ipv4_datagram pkt = Some (p, ihl) -> bytes_ok new -> zlen new = 4 -> 0 <= port <= 65535 ->
  (p.[9] = PROTO_TCP \/ p.[9] = PROTO_UDP -> l4_header_in p ihl p.[9] = true ->
     rewritten p (rewrite_src p ihl p.[9] new port) ihl 0 12 new ihl port (ihl + csum_field p.[9]) /\
     rewritten p (spend_hop (rewrite_src p ihl p.[9] new port)) ihl 1 12 new ihl port (ihl + csum_field p.[9]) /\
     rewritten p (rewrite_dst p ihl p.[9] new port) ihl 1 16 new (ihl + 2) port (ihl + csum_field p.[9])) /\
  (p.[9] = PROTO_ICMP -> ihl + 8 <= zlen p ->
     (p.[ihl] = 8 -> rewritten p (rewrite_echo_out p ihl new port) ihl 1 12 new (ihl + 4) port (ihl + 2)) /\
     (p.[ihl] = 0 -> 0 < port -> 0 < w16 p (ihl + 4) ->
        rewritten p (rewrite_echo_in p ihl new port) ihl 1 16 new (ihl + 4) port (ihl + 2))).
Proof.
  intros Hb Hdg Hnew Hln Hport. destruct (ipv4_datagram_spec pkt p ihl Hb Hdg) as [Hd _].
  pose proof (dg_header p ihl Hd) as HH. pose proof (byte_at_ok p 8 (dg_ok p ihl Hd)) as H8. unfold byte_ok in H8.
  destruct (spend_hop_facts p ihl Hd) as (Hd1 & L1 & _ & K1 & _). split; [intros Hproto Hl4|intros Hproto Hl8; split].
  - pose proof (l4_header_ports p ihl Hd Hl4) as Hl. rewrite rewrite_src_at.
    pose proof (endpoint_rewritten p ihl 12 0 new port Hd ltac:(lia) ltac:(lia) Hproto Hl Hnew Hln Hport) as R. rewrite Z.add_0_r in R.
    split_and!; [done|apply rewritten_then_hop; try done; lia|].
    rewrite rewrite_dst_at. apply hop_then_rewritten; [done|]. rewrite <- (K1 9) in * by lia.
    apply endpoint_rewritten; try done; lia.
  - intros H0. apply rewritten_then_hop; [|lia..]. apply echo_rewritten; try done; lia.
  - intros H0 Hp0 Hid0. apply hop_then_rewritten; [done|]. apply echo_rewritten; try done; try lia.
    + rewrite K1 by lia. done.
    + right. unfold w16. rewrite !K1 by lia. done.
Qed.

(** C26: an ICMP error translated in either direction has a valid ICMP checksum,
    the public or inside address both outside and in the packet it quotes, the
    translated port in the quoted transport header, and a quoted IP header
    whose checksum is as valid as it was. *)
Theorem nat_error_rewrite pkt p ihl eo eihl proto ip old_port port :
  bytes_ok pkt -> ipv4_datagram pkt = Some (p, ihl) -> p.[9] = PROTO_ICMP -> emb_header p ihl = Some (eo, eihl) ->
  bytes_ok ip -> zlen ip = 4 -> 0 <= old_port <= 65535 -> 0 <= port <= 65535 ->
  error_rewritten p (rewrite_error_out p ihl eihl proto ip (slice p (eo + 16) (eo + 20)) old_port port)
    ihl eihl 12 16 ip (eo + eihl + 2) port /\
  error_rewritten p (rewrite_error_in p ihl eihl proto ip old_port port)
    ihl eihl 16 12 ip (eo + eihl + (if (proto =? PROTO_TCP) || (proto =? PROTO_UDP) then 0 else 4)) port.
Proof.
  intros Hb Hdg Hproto Hemb Hip Hlip Ho Hp. destruct (ipv4_datagram_spec pkt p ihl Hb Hdg) as [Hd _].
  split; [by apply error_out_rewritten|by apply error_in_rewritten].
Qed.

(** C25: when a gateway has resized the segment at [pos] (of [len] bytes), a
    segment numbered [d] past it leaves with its number shifted by the change
    before or after that point; an answer that acknowledges the shifted number
    comes back acknowledging the sender's own; and both segments keep their
    addresses, header lengths and the validity of their checksums. *)
Theorem nat_sequence_round_trip p ihl this other n r rihl m len d :
  datagram p ihl -> p.[9] = PROTO_TCP -> tcp_payload_len p ihl = Some n ->
  datagram r rihl -> r.[9] = PROTO_TCP -> tcp_payload_len r rihl = Some m ->
  0 <= pos this < 2 ^ 32 -> 0 < len -> 0 < len + (after this - before this) -> d <= 0 \/ len <= d ->
  - 2 ^ 31 <= d < 2 ^ 31 -> d + (after this - before this) < 2 ^ 31 ->
  read32 p (ihl + 4) = u32 (pos this + d) ->
  let out := adjust_tcp_seq p ihl this other in
  let back := adjust_tcp_seq r rihl other this in
  seq_rewritten p out ihl /\ seq_rewritten r back rihl /\
  read32 out (ihl + 4) = u32 (read32 p (ihl + 4) + (if 0 <? d then after this else before this)) /\
  (Z.land r.[rihl + 13] 0x10 <> 0 -> read32 r (rihl + 8) = read32 out (ihl + 4) -> read32 back (rihl + 8) = read32 p (ihl + 4)).
Proof.
  intros Hd Hp Hn Hr Hrp Hm Hpos Hlen Hl2 Hd1 Hd2 Hd3 Hseq out back.
  destruct (adj_round_trip this len d Hpos Hd1 Hlen Hl2 Hd2 Hd3) as [E1 E2]. rewrite <- Hseq in E1, E2.
  destruct (adjusted_numbers p ihl this other n Hd Hp Hn) as [N1 _]. fold out in N1.
  destruct (adjusted_numbers r rihl other this m Hr Hrp Hm) as [_ N2]. fold back in N2.
  split_and!; [by eapply adjust_tcp_seq_keeps|by eapply adjust_tcp_seq_keeps|by rewrite N1|].
  intros Hack Er. rewrite N2. destruct (Z.eqb_spec (Z.land r.[rihl + 13] 16) 0); [done|]. rewrite Er, N1. exact E2.
Qed.

(** ** Witnesses *)

(** An acknowledgement 192.168.1.10:5000 -> 198.51.100.7:80, its answer, and
    a port unreachable for the datagram 203.0.113.1:40000 -> 198.51.100.7:53. *)
Definition sample_segment : list Z :=
  [69; 0; 0; 40; 18; 52; 64; 0; 64; 6; 60; 175; 192; 168; 1; 10; 198; 51; 100; 7; 19; 136; 0; 80; 0; 0; 4; 76; 0; 0; 27; 88; 80; 16; 32; 0; 112; 107; 0; 0].
Definition sample_answer : list Z :=
  [69; 0; 0; 40; 18; 52; 64; 0; 64; 6; 60; 175; 198; 51; 100; 7; 192; 168; 1; 10; 0; 80; 19; 136; 0; 0; 27; 88; 0; 0; 4; 81; 80; 16; 32; 0; 112; 102; 0; 0].
Definition sample_error : list Z :=
  [69; 0; 0; 56; 18; 52; 64; 0; 64; 1; 194; 84; 198; 51; 100; 7; 203; 0; 113; 1; 3; 3; 99; 83; 0; 0; 0; 0; 69; 0; 0; 28; 18; 52; 64; 0; 64; 17; 194; 96; 203; 0; 113; 1; 198; 51; 100; 7; 156; 64; 0; 53; 0; 8; 253; 43].

Lemma nat_rewrite_exact_witness :
  rewritten sample_segment (rewrite_src sample_segment 20 6 [203; 0; 113; 1] 40000) 20 0 12 [203; 0; 113; 1] 20 40000 36 /\
  verify_transport_checksum (rewrite_src sample_segment 20 6 [203; 0; 113; 1] 40000) = Some true.
Proof.
  destruct (nat_rewrite_exact sample_segment sample_segment 20 [203; 0; 113; 1] 40000) as [H _];
    [apply bytes_ok_eval; vm_compute; reflexivity|vm_compute; reflexivity|apply bytes_ok_eval; vm_compute; reflexivity|vm_compute; reflexivity|lia|].
  destruct (H (or_introl eq_refl) eq_refl) as [R _]. split; [exact R|vm_compute; reflexivity].
Defined.

Lemma nat_error_rewrite_witness :
  error_rewritten sample_error (rewrite_error_in sample_error 20 20 17 [192; 168; 1; 10] 40000 5000) 20 20 16 12 [192; 168; 1; 10] 48 5000.
Proof.
  refine (proj2 (nat_error_rewrite sample_error sample_error 20 28 20 17 [192; 168; 1; 10] 40000 5000 _ _ _ _ _ _ _ _));
    [apply bytes_ok_eval; vm_compute; reflexivity|vm_compute; reflexivity..|apply bytes_ok_eval; vm_compute; reflexivity|vm_compute; reflexivity|lia|lia].
Defined.

(** A resize by 5 bytes of the 20 that started at 1000. *)
Lemma nat_sequence_round_trip_witness :
  read32 (adjust_tcp_seq sample_answer 20 SeqAdj_default (mkSeqAdj 1000 0 5)) 28 = 1100.
Proof.
  refine (proj2 (proj2 (proj2 (nat_sequence_round_trip sample_segment 20 (mkSeqAdj 1000 0 5) SeqAdj_default 0 sample_answer 20 0 20 100
    _ _ _ _ _ _ _ _ _ _ _ _ _))) _ _); try (vm_compute; reflexivity); try (cbn [pos before after]; lia); try (vm_compute; discriminate);
    (split; [apply bytes_ok_eval|..]; vm_compute; (reflexivity || (split; discriminate))).
Defined.
