(* ===== verification/NatTrack.v ===== *)
(** * What a mapping remembers of its remotes ([src/src/nat/track.rs])

    The quotas of inside hosts, namespaces and the NAT, the remotes a mapping
    exchanges traffic with, the TCP life cycle of each, and the idle timeouts
    that follow from it.  A time is a [Z] of nanoseconds; a socket address is
    its address and port.  A quota counts live records, so its [usize] count
    is a plain [Z]; the shared [Arc]s are the entries of the tables that hold
    them, which outlive every record that refers to them. *)

From S2P Require Import Prelude NatPorts NatRewrite.

Definition secs (n : Z) : Z := n * 10 ^ 9.

Definition TCP_ESTABLISHED_TIMEOUT : Z := secs (2 * 3600 + 4 * 60).
Definition TCP_TRANSITORY_TIMEOUT : Z := secs (4 * 60).
Definition UDP_TIMEOUT : Z := secs (5 * 60).
Definition ICMP_TIMEOUT : Z := secs 60.
Definition MAX_PEERS : Z := 1024.

(** ** Caps *)

Record NatLimits := mkLimits {
  max_mappings_per_host : Z; max_peers_per_host : Z; max_peers : Z; max_expectations_per_host : Z; host_prefix_v6 : Z;
  max_mappings_per_namespace : Z; max_peers_per_namespace : Z; max_expectations_per_namespace : Z; max_hosts_per_namespace : Z }.

Definition NatLimits_default : NatLimits := mkLimits 16384 65536 262144 128 64 16384 65536 256 256.

Record Quota := mkQuota { used : Z; qmax : Z }.

Definition Quota_new (max : Z) : Quota := mkQuota 0 max.
Definition set_max (q : Quota) (max : Z) : Quota := mkQuota (used q) max.

Definition take (q : Quota) : Quota * bool :=
  if negb (qmax q =? 0) && (used q >=? qmax q) then (q, false) else (mkQuota (used q + 1) (qmax q), true).

Definition force (q : Quota) : Quota := mkQuota (used q + 1) (qmax q).
Definition give (q : Quota) (n : Z) : Quota := mkQuota (used q - n) (qmax q).

Record NsQuota := mkNsQuota { ns_mappings : Quota; ns_peers : Quota; ns_hosts : Quota }.

Definition NsQuota_new (l : NatLimits) : NsQuota :=
  mkNsQuota (Quota_new (max_mappings_per_namespace l)) (Quota_new (max_peers_per_namespace l)) (Quota_new (max_hosts_per_namespace l)).

Definition ns_set_limits (q : NsQuota) (l : NatLimits) : NsQuota :=
  mkNsQuota (set_max (ns_mappings q) (max_mappings_per_namespace l)) (set_max (ns_peers q) (max_peers_per_namespace l))
    (set_max (ns_hosts q) (max_hosts_per_namespace l)).

(** [h_ns] is the namespace the host counts against, if it is capped. *)
Record HostQuota := mkHostQuota { h_mappings : Quota; h_peers : Quota; h_ns : option Z }.

Definition HostQuota_new (l : NatLimits) : HostQuota :=
  mkHostQuota (Quota_new (max_mappings_per_host l)) (Quota_new (max_peers_per_host l)) None.

Definition in_namespace (l : NatLimits) (ns : Z) : HostQuota :=
  mkHostQuota (Quota_new (max_mappings_per_host l)) (Quota_new (max_peers_per_host l)) (Some ns).

Definition host_set_limits (q : HostQuota) (l : NatLimits) : HostQuota :=
  mkHostQuota (set_max (h_mappings q) (max_mappings_per_host l)) (set_max (h_peers q) (max_peers_per_host l)) (h_ns q).

(** An inside host, by namespace and address. *)
Abbreviation Host := (Z * Z)%type.

(** The quotas of a NAT: the fields of [NatInner] that hold them. *)
Record Quotas := mkQuotas { hosts : gmap Host HostQuota; namespaces : gmap Z NsQuota; peer_quota : Quota; limits : NatLimits }.

Definition Quotas_new : Quotas := mkQuotas ∅ ∅ (Quota_new (max_peers NatLimits_default)) NatLimits_default.

(** One field of a host's, or a namespace's, entry changed. *)
Definition on_host (q : Quotas) (h : Host) (f : HostQuota -> HostQuota) : Quotas :=
  mkQuotas (alter f h (hosts q)) (namespaces q) (peer_quota q) (limits q).
Definition on_ns (q : Quotas) (ns : option Z) (f : NsQuota -> NsQuota) : Quotas :=
  match ns with
  | Some ns => mkQuotas (hosts q) (alter f ns (namespaces q)) (peer_quota q) (limits q)
  | None => q
  end.
Definition host_mappings (f : Quota -> Quota) (h : HostQuota) : HostQuota := mkHostQuota (f (h_mappings h)) (h_peers h) (h_ns h).
Definition host_peers (f : Quota -> Quota) (h : HostQuota) : HostQuota := mkHostQuota (h_mappings h) (f (h_peers h)) (h_ns h).
Definition space_mappings (f : Quota -> Quota) (n : NsQuota) : NsQuota := mkNsQuota (f (ns_mappings n)) (ns_peers n) (ns_hosts n).
Definition space_peers (f : Quota -> Quota) (n : NsQuota) : NsQuota := mkNsQuota (ns_mappings n) (f (ns_peers n)) (ns_hosts n).
Definition space_hosts (f : Quota -> Quota) (n : NsQuota) : NsQuota := mkNsQuota (ns_mappings n) (ns_peers n) (f (ns_hosts n)).
Definition on_global (q : Quotas) (f : Quota -> Quota) : Quotas := mkQuotas (hosts q) (namespaces q) (f (peer_quota q)) (limits q).

Definition ns_of (q : Quotas) (h : Host) : option Z := hq ← hosts q !! h; h_ns hq.

(** Whether the host's quota, and then its namespace's, admit one more; the
    first gives back what it took when the second refuses. *)
Definition admits (q : option Quota) : bool := match q with Some q => (take q).2 | None => true end.

Definition take_mapping (q : Quotas) (h : Host) (forced : bool) : Quotas * bool :=
  let ns := ns_of q h in
  if forced then (on_ns (on_host q h (host_mappings force)) ns (space_mappings force), true)
  else if negb (admits (h_mappings <$> hosts q !! h)) then (q, false)
  else
    let q := on_host q h (host_mappings (fun x => (take x).1)) in
    if negb (admits (n ← ns; ns_mappings <$> namespaces q !! n)) then (on_host q h (host_mappings (fun x => give x 1)), false)
    else (on_ns q ns (space_mappings (fun x => (take x).1)), true).

Definition give_mapping (q : Quotas) (h : Host) : Quotas :=
  on_ns (on_host q h (host_mappings (fun x => give x 1))) (ns_of q h) (space_mappings (fun x => give x 1)).

Definition take_peer (q : Quotas) (h : Host) : Quotas * bool :=
  let ns := ns_of q h in
  if negb (admits (h_peers <$> hosts q !! h)) then (q, false)
  else
    let q := on_host q h (host_peers (fun x => (take x).1)) in
    if negb (admits (n ← ns; ns_peers <$> namespaces q !! n)) then (on_host q h (host_peers (fun x => give x 1)), false)
    else (on_ns q ns (space_peers (fun x => (take x).1)), true).

Definition give_peers (q : Quotas) (h : Host) (n : Z) : Quotas :=
  on_ns (on_host q h (host_peers (fun x => give x n))) (ns_of q h) (space_peers (fun x => give x n)).

(** [PeerQuotas]: the host's and the NAT's. *)
Definition pq_take (q : Quotas) (h : Host) : Quotas * bool :=
  let '(q, ok) := take_peer q h in
  if negb ok then (q, false)
  else let '(g, ok) := take (peer_quota q) in
       if negb ok then (give_peers q h 1, false) else (on_global q (fun _ => g), true).

Definition pq_give (q : Quotas) (h : Host) (n : Z) : Quotas :=
  if n >? 0 then on_global (give_peers q h n) (fun g => give g n) else q.

(** ** Remotes *)

Definition TCP_FIN : Z := 1.
Definition TCP_SYN : Z := 2.
Definition TCP_RST : Z := 4.
Definition TCP_ACK : Z := 16.

Definition SEEN_OUT : Z := 1.
Definition SEEN_IN : Z := 2.
Definition FIN_OUT : Z := 4.
Definition FIN_IN : Z := 8.
Definition RESET : Z := 16.

Abbreviation SocketAddr := (Z * Z)%type.

(** [seqadj] is [outbound, inbound]. *)
Record Peer := mkPeer { last : Z; state : Z; seqadj : option (SeqAdj * SeqAdj) }.

(** [x & f != 0] *)
Definition has (x f : Z) : bool := negb (Z.land x f =? 0).

Definition closing (p : Peer) : bool :=
  has (state p) RESET || (Z.land (state p) (Z.lor FIN_OUT FIN_IN) =? Z.lor FIN_OUT FIN_IN).

Definition timeout (p : Peer) (proto : Z) : Z :=
  if proto =? PROTO_TCP then
    let both_ways := Z.land (state p) (Z.lor SEEN_OUT SEEN_IN) =? Z.lor SEEN_OUT SEEN_IN in
    if both_ways && negb (closing p) then TCP_ESTABLISHED_TIMEOUT else TCP_TRANSITORY_TIMEOUT
  else if proto =? PROTO_ICMP then ICMP_TIMEOUT
  else UDP_TIMEOUT.

(** The remotes of a mapping; what they count against is its host's. *)
Abbreviation Peers := (gmap SocketAddr Peer).

Definition npeers (ps : Peers) : Z := Z.of_nat (size ps).

(** A packet's effect on the record of its remote. *)
Definition note_peer (p : Peer) (outbound : bool) (tcp_flags : option Z) (now : Z) : Peer :=
  match tcp_flags with
  | None => mkPeer now (state p) (seqadj p)
  | Some flags =>
      let fresh := has flags TCP_SYN && negb (has flags TCP_ACK) && closing p in
      let st := if fresh then 0 else state p in
      let st := Z.lor st (if outbound then SEEN_OUT else SEEN_IN) in
      let st := if has flags TCP_FIN then Z.lor st (if outbound then FIN_OUT else FIN_IN) else st in
      let st := if has flags TCP_RST then Z.lor st RESET else st in
      mkPeer now st (if fresh then None else seqadj p)
  end.

Definition note (q : Quotas) (h : Host) (ps : Peers) (peer : SocketAddr) (outbound : bool) (tcp_flags : option Z) (now : Z) : Quotas * Peers :=
  let flags := default 0 tcp_flags in
  match ps !! peer with
  | Some p => (q, <[peer := note_peer p outbound tcp_flags now]> ps)
  | None =>
      if (negb outbound && has flags TCP_RST) || (npeers ps >=? MAX_PEERS) then (q, ps)
      else let '(q, ok) := pq_take q h in
           if negb ok then (q, ps)
           else (q, <[peer := note_peer (mkPeer now 0 None) outbound tcp_flags now]> ps)
  end.

Definition record_resize (ps : Peers) (peer : SocketAddr) (outbound : bool) (seq delta : Z) : Peers :=
  match ps !! peer with
  | Some p =>
      let '(o, i) := default (SeqAdj_default, SeqAdj_default) (seqadj p) in
      let adj := if outbound then (record o seq delta, i) else (o, record i seq delta) in
      <[peer := mkPeer (last p) (state p) (Some adj)]> ps
  | None => ps
  end.

Definition seq_adjust (ps : Peers) (peer : SocketAddr) (outbound : bool) : option (SeqAdj * SeqAdj) :=
  p ← ps !! peer; '(o, i) ← seqadj p; Some (if outbound then (o, i) else (i, o)).

Definition contains (ps : Peers) (peer : SocketAddr) : bool := bool_decide (is_Some (ps !! peer)).

(** The timeout of a mapping with no remotes left. *)
Definition base_timeout (proto : Z) : Z :=
  if proto =? PROTO_TCP then TCP_TRANSITORY_TIMEOUT
  else if proto =? PROTO_UDP then UDP_TIMEOUT
  else if proto =? PROTO_ICMP then ICMP_TIMEOUT else UDP_TIMEOUT.

Definition live_peers (proto now : Z) (ps : Peers) : Peers := filter (fun '(_, p) => sat_sub now (last p) <= timeout p proto) ps.

Definition peers_expire (q : Quotas) (h : Host) (ps : Peers) (proto last_active now : Z) : Quotas * Peers * bool :=
  let ps' := live_peers proto now ps in
  let q := pq_give q h (npeers ps - npeers ps') in
  (q, ps', bool_decide (ps' = ∅) && (sat_sub now last_active >? base_timeout proto)).

(** ** Exact counts *)

(** A set of hosts, and how much one host adds to it. *)
Definition hosts_of (h : Host) : Host -> bool := fun x => bool_decide (x = h).
Definition in_ns (ns : Z) : Host -> bool := fun x => fst x =? ns.
Definition anywhere : Host -> bool := fun _ => true.
Definition one_of (h : Host) (P : Host -> bool) : Z := if P h then 1 else 0.

Definition hosts_in (q : Quotas) (ns : Z) : Z := Z.of_nat (size (filter (fun '(h, _) => fst h = ns) (hosts q))).

(** The quotas count exactly [tm P] mappings and [tp P] remotes of the hosts
    in [P], and every host that has mappings has its entry. *)
Record quota_inv (tm tp : (Host -> bool) -> Z) (q : Quotas) : Prop := {
  qi_host : forall h x, hosts q !! h = Some x -> used (h_mappings x) = tm (hosts_of h) /\ used (h_peers x) = tp (hosts_of h) /\
    h_ns x = (if fst h =? 0 then None else Some (fst h)) /\ (fst h <> 0 -> is_Some (namespaces q !! fst h));
  qi_known : forall h, tm (hosts_of h) <> 0 -> is_Some (hosts q !! h);
  qi_ns : forall ns x, namespaces q !! ns = Some x -> ns <> 0 /\ used (ns_mappings x) = tm (in_ns ns) /\ used (ns_peers x) = tp (in_ns ns) /\
    used (ns_hosts x) = hosts_in q ns;
  qi_global : used (peer_quota q) = tp anywhere }.

Lemma quota_inv_ext tm tp tm' tp' q :
  (forall P, tm P = tm' P) -> (forall P, tp P = tp' P) -> quota_inv tm tp q -> quota_inv tm' tp' q.
Proof.
  intros Hm Hp [H1 H2 H3 H4]. split.
  - intros h x Hx. rewrite <- Hm, <- Hp. by apply H1.
  - intros h. rewrite <- Hm. apply H2.
  - intros ns x Hx. rewrite <- Hm, <- Hp. by apply H3.
  - by rewrite <- Hp.
Qed.

Lemma hosts_of_same h : hosts_of h h = true.
Proof. unfold hosts_of. by rewrite bool_decide_true. Qed.

Lemma one_of_host h h' : one_of h (hosts_of h') = if bool_decide (h = h') then 1 else 0.
Proof. done. Qed.

Lemma one_of_ns h ns : one_of h (in_ns ns) = if fst h =? ns then 1 else 0.
Proof. done. Qed.

Lemma ns_of_inv tm tp q h : quota_inv tm tp q -> is_Some (hosts q !! h) -> ns_of q h = (if fst h =? 0 then None else Some (fst h)).
Proof. intros I [x Hx]. unfold ns_of. rewrite Hx. cbn. apply (qi_host _ _ _ I h x Hx). Qed.

Lemma size_filter_fmap_hosts (f : HostQuota -> HostQuota) (h : Host) (m : gmap Host HostQuota) ns :
  size (filter (fun '(x, _) => fst x = ns) (alter f h m)) = size (filter (fun '(x, _) => fst x = ns) m).
Proof.
  rewrite <- !size_dom. f_equal. apply leibniz_equiv. intros x. rewrite !elem_of_dom. unfold is_Some.
  setoid_rewrite map_lookup_filter_Some. destruct (decide (x = h)) as [->|Hne].
  - rewrite lookup_alter_eq. destruct (m !! h); cbn; naive_solver.
  - rewrite lookup_alter_ne by done. done.
Qed.

(** Changing the counters of a known host and of its namespace by as much. *)
Section Shift.
Context (tm tp : (Host -> bool) -> Z) (q : Quotas) (h : Host) (dm dp : Z).
Context (fh : HostQuota -> HostQuota) (fn : NsQuota -> NsQuota) (fg : Quota -> Quota).
Hypothesis I : quota_inv tm tp q.
Hypothesis Hk : is_Some (hosts q !! h).
Hypothesis Hfh : forall x, hosts q !! h = Some x -> used (h_mappings (fh x)) = used (h_mappings x) + dm /\ used (h_peers (fh x)) = used (h_peers x) + dp /\ h_ns (fh x) = h_ns x.
Hypothesis Hfn : forall x, namespaces q !! fst h = Some x -> used (ns_mappings (fn x)) = used (ns_mappings x) + dm /\ used (ns_peers (fn x)) = used (ns_peers x) + dp /\
  used (ns_hosts (fn x)) = used (ns_hosts x).
Hypothesis Hfg : used (fg (peer_quota q)) = used (peer_quota q) + dp.

Lemma shift_inv :
  quota_inv (fun P => tm P + dm * one_of h P) (fun P => tp P + dp * one_of h P) (on_global (on_ns (on_host q h fh) (ns_of q h) fn) fg).
Proof.
  rewrite (ns_of_inv tm tp) by done. destruct Hk as [x0 Hx0]. destruct I as [H1 H2 H3 H4].
  assert (forall ns, hosts_in (on_host q h fh) ns = hosts_in q ns) as Hin by (intros ns; unfold hosts_in; cbn; by rewrite size_filter_fmap_hosts).
  split.
  - intros h' x Hx. assert (exists y, hosts q !! h' = Some y /\ x = (if bool_decide (h = h') then fh y else y)) as (y & Hy & ->).
    { destruct (fst h =? 0); cbn in Hx; (destruct (decide (h = h')) as [<-|Hne];
        [rewrite lookup_alter_eq in Hx; rewrite bool_decide_true by done; destruct (hosts q !! h) as [y|]; [|done]; injection Hx as <-; by exists y|
         rewrite lookup_alter_ne in Hx by done; rewrite bool_decide_false by done; by exists x]). }
    destruct (H1 h' y Hy) as (E1 & E2 & E3 & E4). rewrite !one_of_host.
    assert (fst h' <> 0 -> is_Some (namespaces (on_global (on_ns (on_host q h fh) (if fst h =? 0 then None else Some (fst h)) fn) fg) !! fst h')) as Hns.
    { intros Hz. specialize (E4 Hz) as [n Hn]. destruct (fst h =? 0); cbn; [by exists n|].
      destruct (decide (fst h = fst h')) as [->|]; [rewrite lookup_alter_eq, Hn; eauto|rewrite lookup_alter_ne, Hn by done; eauto]. }
    case_bool_decide as Eh; [subst h'; destruct (Hfh y Hy) as (F1 & F2 & F3)|]; split_and!; try done; lia || (rewrite F3; done).
  - intros h' Hne. destruct (decide (h' = h)) as [->|].
    + destruct (fst h =? 0); cbn; rewrite lookup_alter_eq, Hx0; eauto.
    + rewrite one_of_host, bool_decide_false in Hne by done. destruct (H2 h' ltac:(lia)) as [y Hy].
      destruct (fst h =? 0); cbn; rewrite lookup_alter_ne, Hy by done; eauto.
  - intros ns x Hx. rewrite !one_of_ns.
    assert (exists y, namespaces q !! ns = Some y /\ x = (if fst h =? ns then fn y else y)) as (y & Hy & ->).
    { destruct (fst h =? 0) eqn:Ez; bool2prop; cbn in Hx.
      - exists x. split; [done|]. destruct (H3 ns x Hx) as [Hnz _]. destruct (Z.eqb_spec (fst h) ns); [lia|done].
      - destruct (Z.eqb_spec (fst h) ns) as [<-|Hne].
        + rewrite lookup_alter_eq in Hx. destruct (namespaces q !! fst h) as [y|]; [|done]. injection Hx as <-. by exists y.
        + rewrite lookup_alter_ne in Hx by done. by exists x. }
    destruct (H3 ns y Hy) as (E0 & E1 & E2 & E3).
    assert (hosts_in (on_global (on_ns (on_host q h fh) (if fst h =? 0 then None else Some (fst h)) fn) fg) ns = hosts_in q ns) as ->
      by (rewrite <- (Hin ns); destruct (fst h =? 0); done).
    destruct (Z.eqb_spec (fst h) ns) as [<-|]; [destruct (Hfn y Hy) as (F1 & F2 & F3)|]; split_and!; try done; lia.
  - assert (peer_quota (on_global (on_ns (on_host q h fh) (if fst h =? 0 then None else Some (fst h)) fn) fg) = fg (peer_quota q)) as ->
      by (destruct (fst h =? 0); done).
    rewrite Hfg, H4. unfold one_of, anywhere. lia.
Qed.
End Shift.

Lemma on_global_id q : on_global q (fun x => x) = q.
Proof. by destruct q. Qed.

Lemma on_host_undo q h f g : (forall x, hosts q !! h = Some x -> g (f x) = x) -> on_host (on_host q h f) h g = q.
Proof.
  intros E. destruct q as [hs ns p l]. unfold on_host. cbn in *. f_equal. rewrite alter_alter_eq. by apply alter_id.
Qed.

Lemma take_used x : used (take x).1 = used x + (if (take x).2 then 1 else 0).
Proof. unfold take. case_if; cbn; lia. Qed.

Lemma take_ok x : (take x).2 = true -> used (take x).1 = used x + 1 /\ (qmax x <> 0 -> used x < qmax x).
Proof. unfold take. destruct (_ && _) eqn:E; [done|]. cbn. intros _. split; [done|]. intros. destruct (qmax x =? 0) eqn:?; cbn in E; lia. Qed.

(** The same hosts and limits; only counters differ. *)
Record same_hosts (q q' : Quotas) : Prop := { sh_hosts : forall h, is_Some (hosts q' !! h) <-> is_Some (hosts q !! h); sh_limits : limits q' = limits q }.

Lemma same_hosts_refl q : same_hosts q q.
Proof. done. Qed.

Lemma same_hosts_trans a b c : same_hosts a b -> same_hosts b c -> same_hosts a c.
Proof. intros [H1 H2] [H3 H4]. split; [|congruence]. intros h. by rewrite H3, H1. Qed.

Lemma on_all_same q h ns fh fn fg : same_hosts q (on_global (on_ns (on_host q h fh) ns fn) fg).
Proof.
  split; [|by destruct ns]. intros h'. destruct ns; cbn; (destruct (decide (h = h')) as [->|];
    [rewrite lookup_alter_eq; destruct (hosts q !! h'); cbn; split; intros [? ?]; eauto; done|by rewrite lookup_alter_ne]).
Qed.

Lemma give_take x : (take x).2 = true -> give (take x).1 1 = x.
Proof. destruct x as [u m]. unfold take. destruct (_ && _); [done|]. intros _. unfold give. cbn. f_equal. lia. Qed.

(** *** One more, one less *)

(** A counter of the hosts' entries and the same one of the namespaces'. *)
Section Counter.
Context (hf : (Quota -> Quota) -> HostQuota -> HostQuota) (hg : HostQuota -> Quota).
Context (nf : (Quota -> Quota) -> NsQuota -> NsQuota) (ng : NsQuota -> Quota) (dm dp : Z).
Hypothesis Hh : forall f x d, used (f (hg x)) = used (hg x) + d ->
  used (h_mappings (hf f x)) = used (h_mappings x) + dm * d /\ used (h_peers (hf f x)) = used (h_peers x) + dp * d /\ h_ns (hf f x) = h_ns x.
Hypothesis Hn : forall f x d, used (f (ng x)) = used (ng x) + d ->
  used (ns_mappings (nf f x)) = used (ns_mappings x) + dm * d /\ used (ns_peers (nf f x)) = used (ns_peers x) + dp * d /\
  used (ns_hosts (nf f x)) = used (ns_hosts x).
Hypothesis Hu : forall f g x, g (f (hg x)) = hg x -> hf g (hf f x) = x.

(** [take_mapping] and [take_peer] within the caps. *)
Definition take_both (q : Quotas) (h : Host) : Quotas * bool :=
  let ns := ns_of q h in
  if negb (admits (hg <$> hosts q !! h)) then (q, false)
  else
    let q := on_host q h (hf (fun x => (take x).1)) in
    if negb (admits (n ← ns; ng <$> namespaces q !! n)) then (on_host q h (hf (fun x => give x 1)), false)
    else (on_ns q ns (nf (fun x => (take x).1)), true).

Definition give_both (q : Quotas) (h : Host) (n : Z) : Quotas :=
  on_ns (on_host q h (hf (fun x => give x n))) (ns_of q h) (nf (fun x => give x n)).

Lemma give_both_inv tm tp q h n fg :
  quota_inv tm tp q -> is_Some (hosts q !! h) -> used (fg (peer_quota q)) = used (peer_quota q) - dp * n ->
  quota_inv (fun P => tm P - dm * n * one_of h P) (fun P => tp P - dp * n * one_of h P) (on_global (give_both q h n) fg).
Proof using Hh Hn.
  intros I Hk Hg. eapply quota_inv_ext; [| |apply (shift_inv tm tp q h (- (dm * n)) (- (dp * n)) _ _ _ I Hk)].
  - intros P. cbn beta. lia.
  - intros P. cbn beta. lia.
  - intros x _. destruct (Hh (fun x => give x n) x (- n)) as (E1 & E2 & E3); [cbn; lia|]. rewrite E1, E2. split_and!; [lia|lia|done].
  - intros x _. destruct (Hn (fun x => give x n) x (- n)) as (E1 & E2 & E3); [cbn; lia|]. rewrite E1, E2. split_and!; [lia|lia|done].
  - lia.
Qed.

Lemma take_both_inv tm tp q h fg :
  quota_inv tm tp q -> is_Some (hosts q !! h) ->
  let '(q', ok) := take_both q h in
  same_hosts q q' /\ peer_quota q' = peer_quota q /\
  (if ok then used (fg (peer_quota q)) = used (peer_quota q) + dp ->
     quota_inv (fun P => tm P + dm * one_of h P) (fun P => tp P + dp * one_of h P) (on_global q' fg) else q' = q) /\
  (ok = true -> forall x, hosts q !! h = Some x -> qmax (hg x) <> 0 -> used (hg x) < qmax (hg x)).
Proof using Hh Hn Hu.
  intros I [x Hx]. unfold take_both. rewrite Hx. cbn [fmap option_fmap option_map admits].
  destruct (take (hg x)).2 eqn:E1; cbn [negb]; [|by split_and!].
  destruct (take_ok _ E1) as [U1 M1]. rewrite (ns_of_inv tm tp) by eauto.
  assert (on_host (on_host q h (hf (fun x => (take x).1))) h (hf (fun x => give x 1)) = q) as Hundo.
  { apply on_host_undo. intros y Hy. assert (y = x) as -> by congruence. apply Hu. by apply give_take. }
  assert (forall y, Some x = Some y -> qmax (hg y) <> 0 -> used (hg y) < qmax (hg y)) as Hcap by (by intros y [= <-]).
  assert ((fst h <> 0 -> forall z, namespaces q !! fst h = Some z -> (take (ng z)).2 = true) ->
    used (fg (peer_quota q)) = used (peer_quota q) + dp ->
    quota_inv (fun P => tm P + dm * one_of h P) (fun P => tp P + dp * one_of h P)
      (on_global (on_ns (on_host q h (hf (fun x => (take x).1))) (if fst h =? 0 then None else Some (fst h)) (nf (fun x => (take x).1))) fg)) as Hok.
  { intros Hz Hfg. rewrite <- (ns_of_inv tm tp q h) by eauto. apply (shift_inv tm tp q h dm dp _ _ _ I).
    - eauto.
    - intros y Hy. assert (y = x) as -> by congruence. destruct (Hh (fun x => (take x).1) x 1) as (F1 & F2 & F3); [done|]. rewrite F1, F2. split_and!; [lia|lia|done].
    - intros z Hz'. destruct (qi_ns _ _ _ I _ _ Hz') as [Hnz _]. destruct (take_ok _ (Hz Hnz z Hz')) as [U2 _].
      destruct (Hn (fun x => (take x).1) z 1) as (F1 & F2 & F3); [done|]. rewrite F1, F2. split_and!; [lia|lia|done].
    - done. }
  assert (forall ns f, same_hosts q (on_ns (on_host q h (hf (fun x => (take x).1))) ns f)) as Hsame.
  { intros ns f. rewrite <- (on_global_id (on_ns _ _ _)). apply on_all_same. }
  destruct (fst h =? 0) eqn:Ez; bool2prop.
  - cbn [mbind option_bind admits negb]. split_and!; [apply (Hsame None (fun x => x))|done| |intros _; exact Hcap]. apply Hok. lia.
  - cbn [mbind option_bind]. change (namespaces (on_host q h (hf (fun x => (take x).1)))) with (namespaces q).
    destruct (qi_host _ _ _ I h x Hx) as (_ & _ & _ & Hns). destruct (Hns Ez) as [z Hz]. rewrite Hz. cbn [fmap option_fmap option_map admits].
    destruct (take (ng z)).2 eqn:E2; cbn [negb]; [|rewrite Hundo; by split_and!].
    split_and!; [apply (Hsame (Some (fst h)))|done| |intros _; exact Hcap]. apply Hok. intros _ z' Hz'. congruence.
Qed.
End Counter.

(** *** The operations *)

Lemma take_mapping_inv tm tp q h forced :
  quota_inv tm tp q -> is_Some (hosts q !! h) ->
  let '(q', ok) := take_mapping q h forced in
  same_hosts q q' /\ (if ok then quota_inv (fun P => tm P + one_of h P) tp q' else q' = q) /\ (forced = true -> ok = true) /\
  (ok = true -> forced = false -> forall x, hosts q !! h = Some x -> qmax (h_mappings x) <> 0 -> used (h_mappings x) < qmax (h_mappings x)).
Proof.
  intros I Hk. unfold take_mapping. destruct forced.
  - rewrite <- (on_global_id (on_ns _ _ _)). split_and!; [apply on_all_same| |done|done].
    eapply quota_inv_ext; [| |apply (shift_inv tm tp q h 1 0 _ _ _ I Hk)]; try (intros P; cbn beta; lia);
      try (intros x _; cbn; split_and!; [done|lia|done]). lia.
  - change (if negb (admits (h_mappings <$> hosts q !! h)) then _ else _) with (take_both host_mappings h_mappings space_mappings ns_mappings q h).
    pose proof (take_both_inv host_mappings h_mappings space_mappings ns_mappings 1 0) as K.
    specialize (K ltac:(intros f x d E; cbn; rewrite E; split_and!; [lia|lia|done]) ltac:(intros f x d E; cbn; rewrite E; split_and!; [lia|lia|done])
      ltac:(intros f g x E; unfold host_mappings; cbn; rewrite E; by destruct x) tm tp q h (fun x => x) I Hk).
    destruct (take_both _ _ _ _ q h) as [q' ok]. destruct K as (K1 & K2 & K3 & K4). split_and!; [done| |done|intros Ho _; exact (K4 Ho)].
    destruct ok; [|done]. rewrite on_global_id in K3. eapply quota_inv_ext; [| |apply K3; lia]; intros P; cbn beta; lia.
Qed.

Lemma give_mapping_inv tm tp q h :
  quota_inv tm tp q -> is_Some (hosts q !! h) -> quota_inv (fun P => tm P - one_of h P) tp (give_mapping q h) /\ same_hosts q (give_mapping q h).
Proof.
  intros I Hk. change (give_mapping q h) with (give_both host_mappings space_mappings q h 1).
  rewrite <- (on_global_id (give_both _ _ _ _ _)). split; [|apply on_all_same].
  eapply quota_inv_ext; [| |apply (give_both_inv host_mappings h_mappings space_mappings ns_mappings 1 0)]; try done; try (intros P; cbn beta; lia);
    try (intros f x d E; cbn; rewrite E; split_and!; [lia|lia|done]). lia.
Qed.

Lemma give_peers_inv tm tp q h n fg :
  quota_inv tm tp q -> is_Some (hosts q !! h) -> used (fg (peer_quota q)) = used (peer_quota q) - n ->
  quota_inv tm (fun P => tp P - n * one_of h P) (on_global (give_peers q h n) fg) /\ same_hosts q (on_global (give_peers q h n) fg).
Proof.
  intros I Hk Hg. change (give_peers q h n) with (give_both host_peers space_peers q h n). split; [|apply on_all_same].
  eapply quota_inv_ext; [| |apply (give_both_inv host_peers h_peers space_peers ns_peers 0 1)]; try done; try (intros P; cbn beta; lia);
    try (intros f x d E; cbn; rewrite E; split_and!; [lia|lia|done]). lia.
Qed.

Lemma pq_give_inv tm tp q h n :
  quota_inv tm tp q -> is_Some (hosts q !! h) -> 0 <= n ->
  quota_inv tm (fun P => tp P - n * one_of h P) (pq_give q h n) /\ same_hosts q (pq_give q h n).
Proof.
  intros I Hk Hn. unfold pq_give. case_if.
  - apply give_peers_inv; [done|done|]. cbn. lia.
  - assert (n = 0) as -> by lia. split; [|done]. eapply quota_inv_ext; [| |exact I]; intros P; cbn beta; lia.
Qed.

Lemma give_peers_global q h n f g :
  g (f (peer_quota q)) = peer_quota q -> on_global (give_peers (on_global q f) h n) g = give_peers q h n.
Proof.
  intros E. unfold give_peers, ns_of, on_global, on_host, on_ns. cbn. destruct (hosts q !! h ≫= h_ns); cbn; by rewrite E.
Qed.

Lemma pq_take_inv tm tp q h :
  quota_inv tm tp q -> is_Some (hosts q !! h) ->
  let '(q', ok) := pq_take q h in
  same_hosts q q' /\ quota_inv tm (fun P => tp P + if ok then one_of h P else 0) q'.
Proof.
  intros I Hk. unfold pq_take. change (take_peer q h) with (take_both host_peers h_peers space_peers ns_peers q h).
  pose proof (take_both_inv host_peers h_peers space_peers ns_peers 0 1) as K.
  specialize (K ltac:(intros f x d E; cbn; rewrite E; split_and!; [lia|lia|done]) ltac:(intros f x d E; cbn; rewrite E; split_and!; [lia|lia|done])
    ltac:(intros f g x E; unfold host_peers; cbn; rewrite E; by destruct x) tm tp q h force I Hk).
  destruct (take_both _ _ _ _ q h) as [q1 ok]. destruct K as (K1 & K2 & K3 & _).
  destruct ok; cbn [negb].
  2:{ subst q1. split; [done|]. eapply quota_inv_ext; [| |exact I]; intros P; cbn beta; lia. }
  specialize (K3 ltac:(cbn; lia)). assert (is_Some (hosts (on_global q1 force) !! h)) as Hk1 by (by apply (sh_hosts _ _ K1)).
  destruct (take (peer_quota q1)) as [g ok] eqn:Et. destruct ok; cbn [negb].
  - assert (g = force (peer_quota q1)) as -> by (unfold take in Et; destruct (_ && _); [done|]; injection Et as <-; done).
    split; [split; [apply (sh_hosts _ _ K1)|apply (sh_limits _ _ K1)]|]. change (on_global q1 (fun _ => force (peer_quota q1))) with (on_global q1 force).
    eapply quota_inv_ext; [| |exact K3]; intros P; cbn beta; lia.
  - destruct (give_peers_inv _ _ (on_global q1 force) h 1 (fun x => give x 1) K3 Hk1) as [G1 G2]; [cbn; lia|].
    rewrite give_peers_global in G1, G2.
    2,3: unfold give, force; cbn; rewrite Z.add_simpl_r; by destruct (peer_quota q1).
    split.
    + eapply same_hosts_trans; [exact K1|]. destruct G2 as [G2 G3]. split; [exact G2|exact G3].
    + eapply quota_inv_ext; [| |exact G1]; intros P; cbn beta; lia.
Qed.

Lemma npeers_nonneg ps : 0 <= npeers ps.
Proof. unfold npeers. lia. Qed.

(** A packet noted: at most its remote becomes tracked, and is counted. *)
Lemma note_inv tm tp q h ps peer outbound flags now :
  quota_inv tm tp q -> is_Some (hosts q !! h) ->
  let '(q', ps') := note q h ps peer outbound flags now in
  same_hosts q q' /\ quota_inv tm (fun P => tp P + (npeers ps' - npeers ps) * one_of h P) q' /\
  (forall x, x <> peer -> ps' !! x = ps !! x) /\ (is_Some (ps !! peer) -> is_Some (ps' !! peer)) /\
  npeers ps' <= Z.max MAX_PEERS (npeers ps).
Proof.
  intros I Hk. unfold note. destruct (ps !! peer) as [p|] eqn:Ep.
  - assert (npeers (<[peer := note_peer p outbound flags now]> ps) = npeers ps) as En by (unfold npeers; f_equal; apply map_size_insert_Some; eauto).
    rewrite En. split_and!; [done| | | |lia].
    + eapply quota_inv_ext; [| |exact I]; intros P; cbn beta; lia.
    + intros x Hx. by rewrite lookup_insert_ne.
    + intros _. rewrite lookup_insert_eq. eauto.
  - destruct (_ || _) eqn:E.
    { split_and!; [done| |done|done|lia]. eapply quota_inv_ext; [| |exact I]; intros P; cbn beta; lia. }
    pose proof (pq_take_inv tm tp q h I Hk) as K. destruct (pq_take q h) as [q' ok]. destruct K as [K1 K2]. destruct ok; cbn [negb].
    + assert (npeers (<[peer := note_peer (mkPeer now 0 None) outbound flags now]> ps) = npeers ps + 1) as En by (unfold npeers; rewrite map_size_insert_None by done; lia).
      rewrite En. apply orb_false_elim in E as [_ E]. split_and!; [done| | | |lia].
      * eapply quota_inv_ext; [| |exact K2]; intros P; cbn beta; lia.
      * intros x Hx. by rewrite lookup_insert_ne.
      * intros [? ?]. done.
    + split_and!; [done| |done|by intros [? ?]|lia]. eapply quota_inv_ext; [| |exact K2]; intros P; cbn beta; lia.
Qed.

Lemma live_peers_le proto now ps : npeers (live_peers proto now ps) <= npeers ps.
Proof. unfold npeers, live_peers. apply inj_le, map_subseteq_size, map_filter_subseteq. Qed.

Lemma peers_expire_inv tm tp q h ps proto la now :
  quota_inv tm tp q -> is_Some (hosts q !! h) ->
  let '(q', ps', idle) := peers_expire q h ps proto la now in
  same_hosts q q' /\ quota_inv tm (fun P => tp P - (npeers ps - npeers ps') * one_of h P) q' /\ ps' = live_peers proto now ps /\
  idle = bool_decide (ps' = ∅) && (sat_sub now la >? base_timeout proto).
Proof.
  intros I Hk. unfold peers_expire. pose proof (live_peers_le proto now ps).
  destruct (pq_give_inv tm tp q h (npeers ps - npeers (live_peers proto now ps)) I Hk ltac:(lia)) as [K1 K2]. done.
Qed.
