(* ===== verification/NatMap.v ===== *)
(** * The NAT's mappings ([src/src/nat/nat.rs])

    The state under the NAT's lock ([NatInner]): mappings of inside endpoints
    to outside ports with the side a forward displaced, the tables that hold
    ports, the quotas; and every operation on it: creation, displacement,
    expiry, port allocation, forwards, expectations, namespaces.  An operation
    takes a time for each reading of the clock it makes.  A dropped mapping
    gives back what it counted against ([drop_mapping]).  Walks over a hash
    table follow [map_to_list]; each step touches one entry and its own
    ports.  The helpers of the NAT are in none of this. *)

From S2P Require Import Prelude Bitmap Ports NatPorts NatRewrite NatTrack.

Definition NAT_PORT_MIN : Z := 10000.
Definition NAT_PORT_MAX : Z := 65535.
Definition MAX_EXPECTATIONS : Z := 1024.
Definition ALG_OPEN_WINDOW : Z := secs 120.
Definition RECLAIM_INTERVAL : Z := secs 1.

(** ** One mapping *)

Inductive Mapping := mkMapping {
  m_key : NatKey; outside_port : Z; last_active : Z; peers : Peers; open : bool; open_until : option Z; alias : option Mapping }.

Definition Mapping_new (k : NatKey) (port now : Z) : Mapping := mkMapping k port now ∅ false None None.

Definition host_of (k : NatKey) : Host := (nk_ns k, nk_ip k).

Definition with_port (m : Mapping) (p : Z) : Mapping := mkMapping (m_key m) p (last_active m) (peers m) (open m) (open_until m) (alias m).
Definition with_active (m : Mapping) (t : Z) : Mapping := mkMapping (m_key m) (outside_port m) t (peers m) (open m) (open_until m) (alias m).
Definition with_peers (m : Mapping) (ps : Peers) : Mapping := mkMapping (m_key m) (outside_port m) (last_active m) ps (open m) (open_until m) (alias m).
Definition with_open (m : Mapping) (b : bool) : Mapping := mkMapping (m_key m) (outside_port m) (last_active m) (peers m) b (open_until m) (alias m).
Definition with_until (m : Mapping) (t : option Z) : Mapping := mkMapping (m_key m) (outside_port m) (last_active m) (peers m) (open m) t (alias m).
Definition with_alias (m : Mapping) (a : option Mapping) : Mapping := mkMapping (m_key m) (outside_port m) (last_active m) (peers m) (open m) (open_until m) a.

(** [for_peer] and [for_port]: the side of the mapping, and the mapping with
    that side changed. *)
Definition on_alias (sel : Mapping -> bool) (m : Mapping) : option Mapping := a ← alias m; if sel a then Some a else None.

Definition side (sel : Mapping -> bool) (m : Mapping) : Mapping := default m (on_alias sel m).

Definition put_side (sel : Mapping -> bool) (m s : Mapping) : Mapping :=
  match on_alias sel m with Some _ => with_alias m (Some s) | None => s end.

Definition for_peer (peer : SocketAddr) : Mapping -> bool := fun a => contains (peers a) peer.
Definition for_port (port : Z) : Mapping -> bool := fun a => outside_port a =? port.

(** What drops with a mapping: its hold on its host, its remotes, and its
    displaced side. *)
Fixpoint drop_mapping (q : Quotas) (m : Mapping) : Quotas :=
  match m with
  | mkMapping k _ _ ps _ _ a =>
      let q := match a with Some a => drop_mapping q a | None => q end in
      give_mapping (pq_give q (host_of k) (npeers ps)) (host_of k)
  end.

Definition map_expire (q : Quotas) (m : Mapping) (proto now : Z) : Quotas * Mapping * option Z :=
  match alias m with
  | None => (q, m, None)
  | Some a =>
      let '(q, ps, idle) := peers_expire q (host_of (m_key a)) (peers a) proto (last_active a) now in
      let a := with_peers a ps in
      if idle then (drop_mapping q a, with_alias m None, Some (outside_port a)) else (q, with_alias m (Some a), None)
  end.

Definition map_idle (q : Quotas) (m : Mapping) (proto now : Z) : Quotas * Mapping * bool :=
  match alias m with
  | Some _ => (q, m, false)
  | None =>
      let '(q, ps, idle) := peers_expire q (host_of (m_key m)) (peers m) proto (last_active m) now in
      (q, with_peers m ps, idle)
  end.

Definition map_ports (m : Mapping) : list Z := outside_port m :: match alias m with Some a => [outside_port a] | None => [] end.

Definition is_open (m : Mapping) (now : Z) : bool := open m || match open_until m with Some t => now <=? t | None => false end.

Definition alg_open (m : Mapping) (created : bool) (now : Z) : Mapping :=
  if created then with_open m true
  else if negb (open m) then
    let until := now + ALG_OPEN_WINDOW in
    with_until m (Some (match open_until m with Some t => Z.max t until | None => until end))
  else m.

Definition note_inbound (q : Quotas) (m : Mapping) (peer : SocketAddr) (tcp_flags : option Z) (now : Z) : Quotas * Mapping * bool :=
  let '(q, m) :=
    if is_open m now || contains (peers m) peer then
      let '(q, ps) := note q (host_of (m_key m)) (peers m) peer false tcp_flags now in
      (q, with_peers (with_active m now) ps)
    else (q, m) in
  (q, m, contains (peers m) peer).

(** ** The state under the lock *)

Record NatInner := mkInner {
  mappings : gmap NatKey Mapping; tables : Tables; next_port : Z; next_reclaim : Z; forward_id : Z; quotas : Quotas }.

Definition NatInner_new (now : Z) : NatInner :=
  mkInner ∅ (Tables_new NAT_PORT_MIN NAT_PORT_MAX) NAT_PORT_MIN now 0 Quotas_new.

Definition with_mappings (n : NatInner) (m : gmap NatKey Mapping) : NatInner :=
  mkInner m (tables n) (next_port n) (next_reclaim n) (forward_id n) (quotas n).
Definition with_tables (n : NatInner) (t : Tables) : NatInner :=
  mkInner (mappings n) t (next_port n) (next_reclaim n) (forward_id n) (quotas n).
Definition with_next (n : NatInner) (p : Z) : NatInner :=
  mkInner (mappings n) (tables n) p (next_reclaim n) (forward_id n) (quotas n).
Definition with_quotas (n : NatInner) (q : Quotas) : NatInner :=
  mkInner (mappings n) (tables n) (next_port n) (next_reclaim n) (forward_id n) q.

Definition reverse (n : NatInner) : gmap NatRevKey NatKey := reverse_table (tables n).

Definition rev_of (k : NatKey) (port : Z) : NatRevKey := mkNatRevKey (nk_proto k) port.

Definition bind_port (n : NatInner) (k : NatKey) (port : Z) : NatInner := with_tables n (reverse_insert (tables n) (rev_of k port) k).
Definition free_port (n : NatInner) (rk : NatRevKey) : NatInner := with_tables n (reverse_remove (tables n) rk).

Definition set_limits (n : NatInner) (l : NatLimits) : NatInner :=
  let q := quotas n in
  with_quotas n (mkQuotas ((fun h => host_set_limits h l) <$> hosts q) ((fun x => ns_set_limits x l) <$> namespaces q)
    (set_max (peer_quota q) (max_peers l)) l).

(** *** Hosts *)

(** [Arc::strong_count(h) > 1]: a mapping of the host exists, in the table or
    ([pinned]) about to enter it. *)
Definition referred (ms : gmap NatKey Mapping) (pinned : option Host) (h : Host) : bool :=
  bool_decide (pinned = Some h) || existsb (fun k => bool_decide (host_of k = h)) (map_to_list ms).*1.

(** [hosts.retain]; a host that goes leaves its namespace's count. *)
Definition retain_hosts (q : Quotas) (keep : Host -> bool) : Quotas :=
  let gone := filter (fun '(h, _) => keep h = false) (hosts q) in
  let left_by ns := Z.of_nat (size (filter (fun '(_, x) => h_ns x = Some ns) gone)) in
  mkQuotas (filter (fun '(h, _) => keep h = true) (hosts q))
    (map_imap (fun ns x => Some (space_hosts (fun y => give y (left_by ns)) x)) (namespaces q)) (peer_quota q) (limits q).

(** [namespaces.retain]: those a host refers to. *)
Definition retain_namespaces (q : Quotas) : Quotas :=
  mkQuotas (hosts q)
    (filter (fun '(ns, _) => existsb (fun x => bool_decide (h_ns x = Some ns)) (map_to_list (hosts q)).*2 = true) (namespaces q))
    (peer_quota q) (limits q).

Definition add_host (q : Quotas) (h : Host) (x : HostQuota) : Quotas :=
  mkQuotas (<[h := x]> (hosts q)) (namespaces q) (peer_quota q) (limits q).

(** [namespaces.entry(ns).or_insert_with(..)] *)
Definition ns_entry (q : Quotas) (ns : Z) : Quotas :=
  match namespaces q !! ns with
  | Some _ => q
  | None => mkQuotas (hosts q) (<[ns := NsQuota_new (limits q)]> (namespaces q)) (peer_quota q) (limits q)
  end.

Definition host_locked (n : NatInner) (h : Host) (forced : bool) : NatInner * bool :=
  let q := quotas n in
  match hosts q !! h with
  | Some _ => (n, true)
  | None =>
      if fst h =? 0 then (with_quotas n (add_host q h (HostQuota_new (limits q))), true)
      else
        let ns := Some (fst h) in
        let q := ns_entry q (fst h) in
        let room q := admits (ns_hosts <$> namespaces q !! fst h) in
        let enter q := (with_quotas n (add_host (on_ns q ns (space_hosts (fun x => (take x).1))) h (in_namespace (limits q) (fst h))), true) in
        if forced then (with_quotas n (add_host (on_ns q ns (space_hosts force)) h (in_namespace (limits q) (fst h))), true)
        else if room q then enter q
        else
          let q := retain_hosts q (referred (mappings n) None) in
          if room q then enter q else (with_quotas n q, false)
  end.

Definition new_mapping (n : NatInner) (k : NatKey) (port now : Z) (forced : bool) : NatInner * option Mapping :=
  let '(n, ok) := host_locked n (host_of k) forced in
  if negb ok then (n, None)
  else let '(q, ok) := take_mapping (quotas n) (host_of k) forced in
       (with_quotas n q, if ok then Some (Mapping_new k port now) else None).

(** *** Removal and expiry *)

Definition drop (n : NatInner) (m : Mapping) : NatInner := with_quotas n (drop_mapping (quotas n) m).

Definition remove_mapping_at (n : NatInner) (rk : NatRevKey) : NatInner :=
  match reverse n !! rk with
  | None => n
  | Some k =>
      let n := free_port n rk in
      match mappings n !! k with
      | None => n
      | Some m =>
          if outside_port m =? rk_port rk then
            match alias m with
            | Some a => drop (with_mappings n (<[k := a]> (mappings n))) (with_alias m None)
            | None => drop (with_mappings n (delete k (mappings n))) m
            end
          else match alias m with
               | Some a => if outside_port a =? rk_port rk then drop (with_mappings n (<[k := with_alias m None]> (mappings n))) a else n
               | None => n
               end
      end
  end.

Definition unbind_port (n : NatInner) (k : NatKey) (port : Z) : NatInner :=
  if bool_decide (reverse n !! rev_of k port = Some k) then free_port n (rev_of k port) else n.

Definition unbind (n : NatInner) (k : NatKey) (m : Mapping) : NatInner := foldl (fun n p => unbind_port n k p) n (map_ports m).

Definition expire_mapping (n : NatInner) (k : NatKey) (now : Z) : NatInner :=
  match mappings n !! k with
  | None => n
  | Some m =>
      let '(q, m, freed) := map_expire (quotas n) m (nk_proto k) now in
      let n := with_quotas n q in
      let n := match freed with Some p => free_port n (rev_of k p) | None => n end in
      let '(q, m, idle) := map_idle (quotas n) m (nk_proto k) now in
      let n := with_quotas n q in
      if idle then drop (unbind (with_mappings n (delete k (mappings n))) k m) m
      else with_mappings n (<[k := m]> (mappings n))
  end.

Definition lapsed (e : option Z) (now : Z) : bool := match e with Some e => e <? now | None => false end.

Definition expire_port (n : NatInner) (rk : NatRevKey) (now : Z) : NatInner :=
  let n :=
    match by_port (tables n) !! rk with
    | Some f => if lapsed (pf_expires f) now then remove_mapping_at (with_tables n (forward_remove (tables n) rk).1) rk else n
    | None => n
    end in
  match reverse n !! rk with Some k => expire_mapping n k now | None => n end.

Definition drop_forward (n : NatInner) (rk : NatRevKey) : NatInner := remove_mapping_at (with_tables n (forward_remove (tables n) rk).1) rk.

Definition expire_locked (n : NatInner) (pinned : option Host) (now : Z) : NatInner :=
  let n := foldl (fun n k => expire_mapping n k now) n (map_to_list (mappings n)).*1 in
  let n := with_tables n (retain (tables n) (fun e => now <=? ex_expires e)) in
  let gone := filter (fun '(_, f) => lapsed (pf_expires f) now = true) (map_to_list (by_port (tables n))) in
  let n := foldl drop_forward n gone.*1 in
  with_quotas n (retain_namespaces (retain_hosts (quotas n) (referred (mappings n) pinned))).

(** *** Ports for new mappings *)

Definition scan_port (n : NatInner) (want : Z) : NatInner * option Z :=
  match choose (ports (tables n)) want (next_port n) with
  | None => (n, None)
  | Some p =>
      (if negb (p =? want) && (NAT_PORT_MIN <=? p) && (p <=? NAT_PORT_MAX)
       then with_next n (if p =? NAT_PORT_MAX then NAT_PORT_MIN else p + 1) else n, Some p)
  end.

Definition scan_pair (n : NatInner) : NatInner * option Z :=
  let u := ports (tables n) in
  if (pool_free u (Some false) =? 0) || (pool_free u (Some true) =? 0) then (n, None)
  else match find_pair u (NAT_PORT_MIN, NAT_PORT_MAX) (next_port n) with
       | None => (n, None)
       | Some p => (with_next n (if p + 2 <? 2 ^ 16 then p + 2 else NAT_PORT_MIN), Some p)
       end.

Definition reclaim (n : NatInner) (pinned : option Host) (now : Z) : NatInner * bool :=
  if now <? next_reclaim n then (n, false)
  else (expire_locked (mkInner (mappings n) (tables n) (next_port n) (now + RECLAIM_INTERVAL) (forward_id n) (quotas n)) pinned now, true).

(** [t] is when lapsed expectations are purged, [t'] when idle mappings are
    reclaimed. *)
Definition alloc (scan : NatInner -> NatInner * option Z) (n : NatInner) (pinned : option Host) (t t' : Z) : NatInner * option Z :=
  let n := with_tables n (purge_lapsed (tables n) t) in
  match scan n with
  | (n, Some p) => (n, Some p)
  | (n, None) => let '(n, ran) := reclaim n pinned t' in if ran then scan n else (n, None)
  end.

Definition alloc_port (n : NatInner) (pinned : option Host) (want t t' : Z) : NatInner * option Z := alloc (fun n => scan_port n want) n pinned t t'.
Definition alloc_pair (n : NatInner) (t t' : Z) : NatInner * option Z := alloc scan_pair n None t t'.

Definition forward_port_for (n : NatInner) (k : NatKey) (now : Z) : option Z :=
  '(rk, f) ← for_endpoint (tables n) k;
  if negb (lapsed (pf_expires f) now) && bool_decide (reverse n !! rk = None) then Some (rk_port rk) else None.

Definition enter (n : NatInner) (k : NatKey) (m : Mapping) : NatInner :=
  let n := bind_port n k (outside_port m) in with_mappings n (<[k := m]> (mappings n)).

(** The mapping of [k], which the boolean says is there; [now] is when it
    starts, [t] and [t'] as in [alloc]. *)
Definition get_or_create (n : NatInner) (k : NatKey) (now t t' : Z) : NatInner * bool :=
  match mappings n !! k with
  | Some m => (with_mappings n (<[k := with_active m now]> (mappings n)), true)
  | None =>
      match forward_port_for n k now with
      | Some port =>
          match new_mapping n k port now true with
          | (n, Some m) => (enter n k (with_open m true), true)
          | (n, None) => (n, false)
          end
      | None =>
          match new_mapping n k 0 now false with
          | (n, None) => (n, false)
          | (n, Some m) =>
              match alloc_port n (Some (host_of k)) (nk_port k) t t' with
              | (n, None) => (drop n m, false)
              | (n, Some port) => (enter n k (with_port m port), true)
              end
          end
      end
  end.

(** The mapping of [k] taken out of the table: the port it had displaced
    before goes, and it stays aside while it has sessions. *)
Definition displace (n : NatInner) (k : NatKey) (now : Z) : NatInner * option Mapping :=
  match mappings n !! k with
  | None => (n, None)
  | Some old =>
      let n := with_mappings n (delete k (mappings n)) in
      let n := match alias old with Some older => drop (unbind n k older) older | None => n end in
      let old := with_alias old None in
      let '(q, ps, _) := peers_expire (quotas n) (host_of (m_key old)) (peers old) (nk_proto k) (last_active old) now in
      let n := with_quotas n q in
      let old := with_peers old ps in
      if bool_decide (ps = ∅) then (drop (unbind n k old) old, None) else (n, Some old)
  end.

Definition install_mapping (n : NatInner) (k : NatKey) (rk : NatRevKey) (displacing : bool) (now : Z) : NatInner * bool :=
  if bool_decide (is_Some (mappings n !! k)) && negb displacing then (n, false)
  else
    match new_mapping n k (rk_port rk) now true with
    | (n, None) => (n, false)
    | (n, Some m) =>
        let m := with_open m true in
        let '(n, aside) := displace n k now in
        let n := with_mappings n (<[k := with_alias m aside]> (mappings n)) in
        (with_tables n (reverse_insert (tables n) rk k), true)
    end.

(** ** Expectations *)

Definition expectation_matches (e : Expectation) (now proto port remote_ip remote_port : Z) : bool :=
  (now <=? ex_expires e) && (ex_proto e =? proto) && (ex_outside_port e =? port)
  && ((ex_remote_ip e =? 0) || (ex_remote_ip e =? remote_ip)) && ((ex_remote_port e =? 0) || (ex_remote_port e =? remote_port)).

Definition same_expectation (o e : Expectation) : bool :=
  (ex_proto o =? ex_proto e) && (ex_outside_port o =? ex_outside_port e) && (ex_namespace o =? ex_namespace e)
  && (ex_inside_ip o =? ex_inside_ip e) && (ex_inside_port o =? ex_inside_port e)
  && (ex_remote_ip o =? ex_remote_ip e) && (ex_remote_port o =? ex_remote_port e).

Definition ex_host (e : Expectation) : Host := (ex_namespace e, ex_inside_ip e).

Definition position {A} (f : A -> bool) (l : list A) : option nat := fst <$> list_find (fun x => f x = true) l.

Definition count_if {A} (f : A -> bool) (l : list A) : Z := zlen (List.filter f l).

(** Whose expectation makes room: a host's, or any of the namespace's.  A
    limit is unsigned: [!= 0] is [0 <]. *)
Definition exp_full (n : NatInner) (h : Host) : option (option Host) :=
  let l := expectations (tables n) in
  let per_host := max_expectations_per_host (limits (quotas n)) in
  let per_ns := if fst h =? 0 then 0 else max_expectations_per_namespace (limits (quotas n)) in
  if (0 <? per_host) && (count_if (fun x => bool_decide (ex_host x = h)) l >=? per_host) then Some (Some h)
  else if (0 <? per_ns) && (count_if (fun x => ex_namespace x =? fst h) l >=? per_ns) then Some None
  else None.

(** [max_by_key] over the hosts in the order [visit] the counting table
    lists them: the last of those with the most. *)
Fixpoint busiest (l : list Expectation) (visit : list Host) : option Host :=
  match visit with
  | [] => None
  | h :: visit =>
      let cnt x := count_if (fun e => bool_decide (ex_host e = x)) l in
      match busiest l visit with
      | Some h' => if cnt h >? cnt h' then Some h else Some h'
      | None => Some h
      end
  end.

(** [min_by_key] over the positions that pass: the first of the earliest. *)
Fixpoint soonest (f : Expectation -> bool) (l : list Expectation) (i : nat) : option (nat * Z) :=
  match l with
  | [] => None
  | e :: l =>
      if f e then
        match soonest f l (S i) with
        | Some (j, x) => if ex_expires e <=? x then Some (i, ex_expires e) else Some (j, x)
        | None => Some (i, ex_expires e)
        end
      else soonest f l (S i)
  end.

Definition add_expectation_locked (n : NatInner) (e : Expectation) (rk : NatRevKey) (target : NatKey) (visit : list Host) (t t' : Z) : NatInner :=
  let n := expire_port n rk t in
  if match reverse n !! rk with Some k => negb (bool_decide (k = target)) | None => false end || bool_decide (is_Some (by_port (tables n) !! rk))
  then n
  else
    match position (fun o => same_expectation o e) (expectations (tables n)) with
    | Some old => with_tables n (default (tables n) (extend (tables n) old (ex_expires e)))
    | None =>
        let h := ex_host e in
        let crowded n := zlen (expectations (tables n)) >=? MAX_EXPECTATIONS in
        let n := if bool_decide (is_Some (exp_full n h)) || crowded n
                 then with_tables n (retain (tables n) (fun e => t' <=? ex_expires e)) else n in
        let victim := match exp_full n h with
                      | Some v => Some v
                      | None => if crowded n then Some <$> busiest (expectations (tables n)) visit else None
                      end in
        let n := match victim with
                 | None => n
                 | Some v =>
                     let mine x := match v with Some h' => bool_decide (ex_host x = h') | None => ex_namespace x =? fst h end in
                     match soonest mine (expectations (tables n)) 0 with
                     | Some (i, _) => with_tables n (default (tables n) (swap_remove (tables n) i))
                     | None => n
                     end
                 end in
        with_tables n (push (tables n) e)
    end.

Definition add_expectation (n : NatInner) (e : Expectation) (visit : list Host) (t t' : Z) : NatInner :=
  add_expectation_locked n e (mkNatRevKey (ex_proto e) (ex_outside_port e))
    (mkNatKey (ex_namespace e) (ex_proto e) (ex_inside_ip e) (ex_inside_port e)) visit t t'.

Definition match_expectation (n : NatInner) (proto port remote_ip remote_port now : Z) : NatInner * option Expectation :=
  match position (fun e => expectation_matches e now proto port remote_ip remote_port) (expectations (tables n)) with
  | None => (n, None)
  | Some i => match remove (tables n) i with
              | Some (t, e) => (with_tables n t, Some e)
              | None => (n, None)
              end
  end.

(** ** Forwards *)

Inductive forward_error := AlreadyExists | AddrInUse.

Definition add_port_forward (n : NatInner) (pf : PortForward) (now : Z) : NatInner * (Z + forward_error) :=
  let rk := mkNatRevKey (pf_proto pf) (pf_outside_port pf) in
  let n := expire_port n rk now in
  let n := match for_endpoint (tables n) (endpoint pf) with
           | Some (other, f) => if lapsed (pf_expires f) now then drop_forward n other else n
           | None => n
           end in
  let existing := by_port (tables n) !! rk in
  if match existing with
     | Some f => negb (pf_inside_ip f =? pf_inside_ip pf) || negb (pf_namespace f =? pf_namespace pf)
     | None => false end
  then (n, inr AlreadyExists)
  else
    let reserved := existsb (fun e => (ex_proto e =? pf_proto pf) && (ex_outside_port e =? pf_outside_port pf) && (now <=? ex_expires e))
                      (expectations (tables n)) in
    let ep := endpoint pf in
    let own := bool_decide (reverse n !! rk = Some ep) in
    let dynamic := bool_decide (is_Some (reverse n !! rk)) && negb (bool_decide (is_Some existing)) && negb own in
    let taken := match for_endpoint (tables n) ep with Some (k, _) => negb (bool_decide (k = rk)) | None => false end in
    if reserved || dynamic || taken then (n, inr AddrInUse)
    else
      let same := match existing with
                  | Some old => (pf_namespace old =? pf_namespace pf) && (pf_inside_ip old =? pf_inside_ip pf)
                                && (pf_inside_port old =? pf_inside_port pf)
                  | None => false end in
      let n := if own then with_mappings n (alter (fun m => with_open m true) ep (mappings n))
               else if negb same then remove_mapping_at n rk else n in
      let id := forward_id n + 1 in
      let pf := mkPortForward (pf_proto pf) (pf_outside_port pf) (pf_inside_ip pf) (pf_inside_port pf) (pf_description pf)
                  (pf_expires pf) (pf_namespace pf) id in
      (mkInner (mappings n) (forward_insert (tables n) rk pf) (next_port n) (next_reclaim n) id (quotas n), inl id).

Definition remove_port_forward (n : NatInner) (proto port : Z) : NatInner :=
  let rk := mkNatRevKey proto port in
  match by_port (tables n) !! rk with Some _ => drop_forward n rk | None => n end.

Definition match_forward (n : NatInner) (proto port now : Z) : NatInner * option PortForward :=
  let rk := mkNatRevKey proto port in
  match by_port (tables n) !! rk with
  | Some f => if lapsed (pf_expires f) now then (drop_forward n rk, None) else (n, Some f)
  | None => (n, None)
  end.

Definition would_translate (n : NatInner) (rk : NatRevKey) (remote : SocketAddr) (now : Z) : bool :=
  bool_decide (is_Some (reverse n !! rk))
  || match by_port (tables n) !! rk with Some f => negb (lapsed (pf_expires f) now) | None => false end
  || existsb (fun e => expectation_matches e now (rk_proto rk) (rk_port rk) (fst remote) (snd remote)) (expectations (tables n)).

(** ** What the gateways ask for *)

Definition create_mapping_in (n : NatInner) (ns proto ip port : Z) (now now' t t' : Z) : NatInner * option Z :=
  let k := mkNatKey ns proto ip port in
  let n := expire_mapping n k now in
  let created := negb (bool_decide (is_Some (mappings n !! k))) in
  match get_or_create n k now' t t' with
  | (n, true) =>
      let n := with_mappings n (alter (fun m => alg_open m created now) k (mappings n)) in
      (n, outside_port <$> mappings n !! k)
  | (n, false) => (n, None)
  end.

(** [first] and [second] differ: its one caller, [alg_sip.rs], sees to it. *)
Definition create_mapping_pair_in (n : NatInner) (ns proto ip first second : Z) (now t t' : Z) : NatInner * option Z :=
  let k1 := mkNatKey ns proto ip first in
  let k2 := mkNatKey ns proto ip second in
  match mappings n !! k1, mappings n !! k2 with
  | Some a, Some b =>
      if (outside_port a mod 2 =? 0) && (outside_port b =? outside_port a + 1) then
        let touch m := alg_open (with_active m now) false now in
        (with_mappings n (alter touch k2 (alter touch k1 (mappings n))), Some (outside_port a))
      else (n, None)
  | None, None =>
      match alloc_pair n t t' with
      | (n, None) => (n, None)
      | (n, Some p) =>
          match new_mapping n k1 p now false with
          | (n, None) => (n, None)
          | (n, Some m1) =>
              match new_mapping n k2 (p + 1) now false with
              | (n, None) => (drop n m1, None)
              | (n, Some m2) => (enter (enter n k1 (with_open m1 true)) k2 (with_open m2 true), Some p)
              end
          end
      end
  | _, _ => (n, None)
  end.

Definition expect_from_in (n : NatInner) (ns proto ip port remote_ip expires : Z) (visit : list Host) (now t t' u u' : Z) : NatInner * option Z :=
  let k := mkNatKey ns proto ip port in
  let n := expire_mapping n k now in
  let pending e := (now <=? ex_expires e) && (ex_proto e =? proto) && (ex_namespace e =? ns) && (ex_inside_ip e =? ip) && (ex_inside_port e =? port) in
  let '(n, out) :=
    match mappings n !! k with
    | Some m => (n, Some (outside_port m))
    | None =>
        match List.find pending (expectations (tables n)) with
        | Some e => (n, Some (ex_outside_port e))
        | None => match forward_port_for n k now with
                  | Some p => (n, Some p)
                  | None => alloc_port n None port t t'
                  end
        end
    end in
  match out with
  | None => (n, None)
  | Some p => (add_expectation_locked n (mkExpectation proto remote_ip 0 ip port p ns expires true) (mkNatRevKey proto p) k visit u u', Some p)
  end.

(** ** Namespaces *)

Definition cleanup_namespace (n : NatInner) (ns : Z) : NatInner :=
  let n := with_tables n (retain (tables n) (fun e => negb (ex_namespace e =? ns))) in
  let n := with_tables n (forward_retain (map_to_list (by_port (tables n))) (fun f => negb (pf_namespace f =? ns)) (tables n)) in
  foldl (fun n '(k, m) => if nk_ns k =? ns then drop (unbind (with_mappings n (delete k (mappings n))) k m) m else n)
    n (map_to_list (mappings n)).

(** ** Traffic *)

(** An outbound packet noted on the side of [k]'s mapping that has [peer]:
    the mapping was just found, [last_active] is now.  The side afterwards. *)
Definition note_outbound (n : NatInner) (k : NatKey) (sel : Mapping -> bool) (peer : SocketAddr) (flags : option Z) : NatInner * option Mapping :=
  match mappings n !! k with
  | None => (n, None)
  | Some m =>
      let now := last_active m in
      let s := with_active (side sel m) now in
      let '(q, ps) := note (quotas n) (host_of (m_key s)) (peers s) peer true flags now in
      let s := with_peers s ps in
      (with_quotas (with_mappings n (<[k := put_side sel m s]> (mappings n))) q, Some s)
  end.

(** [m.for_port(port).note_inbound(..)]: whether the remote is tracked. *)
Definition note_inbound_at (n : NatInner) (k : NatKey) (port : Z) (peer : SocketAddr) (flags : option Z) (now : Z) : NatInner * bool :=
  match mappings n !! k with
  | None => (n, false)
  | Some m =>
      let '(q, s, tracked) := note_inbound (quotas n) (side (for_port port) m) peer flags now in
      (with_quotas (with_mappings n (<[k := put_side (for_port port) m s]> (mappings n))) q, tracked)
  end.

(** The mapping an expectation made for one remote. *)
Definition close_to (n : NatInner) (k : NatKey) (peer : SocketAddr) (flags : option Z) (now : Z) : NatInner :=
  match mappings n !! k with
  | None => n
  | Some m =>
      let m := with_open m false in
      let '(q, ps) := note (quotas n) (host_of (m_key m)) (peers m) peer false flags now in
      with_quotas (with_mappings n (<[k := with_peers m ps]> (mappings n))) q
  end.

(** [tcp_seq_fixup] under the lock: a resize by [delta] recorded, and the
    adjustments of the two directions. *)
Definition seq_fixup (n : NatInner) (k : NatKey) (peer : SocketAddr) (outbound : bool) (seq delta : Z) : NatInner * option (SeqAdj * SeqAdj) :=
  match mappings n !! k with
  | None => (n, None)
  | Some m =>
      let s := side (for_peer peer) m in
      let s := if delta =? 0 then s else with_peers s (record_resize (peers s) peer outbound seq (i32 delta)) in
      (with_mappings n (<[k := put_side (for_peer peer) m s]> (mappings n)), seq_adjust (peers s) peer outbound)
  end.
