(* ===== verification/NatMapInv.v ===== *)
(** * The NAT's mappings, ports and quotas stay in step ([src/src/nat/nat.rs])

    The invariant of [NatInner] and that every operation under the lock keeps
    it: the reverse table leads from each outside port to the one mapping that
    holds it and back, and the quotas count exactly what the mappings hold. *)

From S2P Require Import Prelude Bitmap Ports NatPorts NatRewrite NatTrack NatMap.

(** ** Sums over the mappings *)

Definition msum (f : Mapping -> Z) (m : gmap NatKey Mapping) : Z := map_fold (fun _ x acc => f x + acc) 0 m.

Definition of_opt (f : Mapping -> Z) (o : option Mapping) : Z := match o with Some m => f m | None => 0 end.

(** An entry set, or taken out. *)
Definition put (k : NatKey) (o : option Mapping) (ms : gmap NatKey Mapping) : gmap NatKey Mapping :=
  match o with Some m => <[k := m]> ms | None => delete k ms end.

Lemma lookup_put k o ms k' : put k o ms !! k' = if decide (k' = k) then o else ms !! k'.
Proof.
  unfold put. destruct (decide (k' = k)) as [->|Hne]; destruct o; by rewrite ?lookup_insert_eq, ?lookup_delete_eq, ?lookup_insert_ne, ?lookup_delete_ne.
Qed.

Lemma msum_insert f k m ms : ms !! k = None -> msum f (<[k := m]> ms) = f m + msum f ms.
Proof. intros H. unfold msum. rewrite map_fold_insert_L; [done|intros; lia|done]. Qed.

Lemma msum_delete f k m ms : ms !! k = Some m -> msum f (delete k ms) = msum f ms - f m.
Proof. intros H. rewrite <- (insert_delete_id ms k m H) at 2. rewrite msum_insert by apply lookup_delete_eq. lia. Qed.

Lemma msum_put f k o ms : msum f (put k o ms) = msum f ms - of_opt f (ms !! k) + of_opt f o.
Proof.
  destruct (ms !! k) as [m|] eqn:E; unfold put, of_opt.
  - destruct o as [m'|].
    + rewrite <- insert_delete_eq, msum_insert by apply lookup_delete_eq. rewrite (msum_delete f k m) by done. lia.
    + rewrite (msum_delete f k m) by done. lia.
  - destruct o as [m'|]; [rewrite msum_insert by done; lia|rewrite delete_id by done; lia].
Qed.

Lemma msum_nonneg f ms : (forall k m, ms !! k = Some m -> 0 <= f m) -> 0 <= msum f ms.
Proof.
  induction ms as [|k m ms Hk IH] using map_ind; [done|]. intros H. rewrite msum_insert by done.
  pose proof (H k m ltac:(by rewrite lookup_insert_eq)). assert (0 <= msum f ms); [|lia]. apply IH. intros k' m' E. apply (H k').
  rewrite lookup_insert_ne; [done|]. intros ->. congruence.
Qed.

Lemma msum_le f ms k m : (forall k m, ms !! k = Some m -> 0 <= f m) -> ms !! k = Some m -> f m <= msum f ms.
Proof.
  intros H E. pose proof (msum_put f k None ms) as K. rewrite E in K. cbn [of_opt put] in K.
  assert (0 <= msum f (delete k ms)); [|lia]. apply msum_nonneg. intros k' m' E'. apply lookup_delete_Some in E' as [_ E']. by apply (H k').
Qed.

Lemma msum_ext f g ms : (forall k m, ms !! k = Some m -> f m = g m) -> msum f ms = msum g ms.
Proof.
  induction ms as [|k m ms Hk IH] using map_ind; [done|]. intros H. rewrite !msum_insert by done. f_equal.
  - apply (H k). by rewrite lookup_insert_eq.
  - apply IH. intros k' m' E. apply (H k'). rewrite lookup_insert_ne; [done|]. intros ->. congruence.
Qed.

(** What a mapping counts for: itself and its displaced side, and the
    remotes of both. *)
Fixpoint sides (P : Host -> bool) (m : Mapping) : Z :=
  match m with mkMapping k _ _ _ _ _ a => one_of (host_of k) P + match a with Some a => sides P a | None => 0 end end.

Fixpoint tracked (P : Host -> bool) (m : Mapping) : Z :=
  match m with mkMapping k _ _ ps _ _ a => npeers ps * one_of (host_of k) P + match a with Some a => tracked P a | None => 0 end end.

Lemma one_of_bound h P : 0 <= one_of h P <= 1.
Proof. unfold one_of. destruct (P h); lia. Qed.

Fixpoint Mapping_rect' (Q : Mapping -> Prop) (H : forall k p t ps b u a, (forall a', a = Some a' -> Q a') -> Q (mkMapping k p t ps b u a)) (m : Mapping) : Q m :=
  match m with
  | mkMapping k p t ps b u a =>
      H k p t ps b u a (match a as a0 return forall a', a0 = Some a' -> Q a' with
                        | Some x => fun a' E => match E in _ = y return match y with Some z => Q z | None => True end with eq_refl => Mapping_rect' Q H x end
                        | None => fun a' E => match E in _ = y return match y with Some z => Q z | None => True end with eq_refl => I end
                        end)
  end.

Lemma sides_nonneg P m : 0 <= sides P m.
Proof.
  induction m as [k p t ps b u a IH] using Mapping_rect'. cbn [sides]. pose proof (one_of_bound (host_of k) P).
  destruct a as [a|]; [specialize (IH a eq_refl)|]; lia.
Qed.

Lemma tracked_nonneg P m : 0 <= tracked P m.
Proof.
  induction m as [k p t ps b u a IH] using Mapping_rect'. cbn [tracked]. pose proof (one_of_bound (host_of k) P). pose proof (npeers_nonneg ps).
  destruct a as [a|]; [specialize (IH a eq_refl)|]; nia.
Qed.

Lemma sides_self m : 1 <= sides (hosts_of (host_of (m_key m))) m.
Proof.
  destruct m as [k p t ps b u a]. cbn [sides m_key]. unfold one_of. rewrite hosts_of_same.
  destruct a as [a|]; [pose proof (sides_nonneg (hosts_of (host_of k)) a)|]; lia.
Qed.

(** Dropping a mapping takes exactly its share out. *)
Lemma drop_mapping_inv tm tp q m :
  (forall P, 0 <= tm P) -> quota_inv (fun P => tm P + sides P m) (fun P => tp P + tracked P m) q ->
  quota_inv tm tp (drop_mapping q m) /\ same_hosts q (drop_mapping q m).
Proof.
  revert tm tp q. induction m as [k p t ps b u a IH] using Mapping_rect'. intros tm tp q Htm I. cbn [drop_mapping sides tracked] in *.
  set (h := host_of k) in *.
  set (q1 := match a with Some a => drop_mapping q a | None => q end).
  assert (quota_inv (fun P => tm P + one_of h P) (fun P => tp P + npeers ps * one_of h P) q1 /\ same_hosts q q1) as [I1 S1].
  { unfold q1. destruct a as [a|].
    - apply (IH a eq_refl (fun P => tm P + one_of h P) (fun P => tp P + npeers ps * one_of h P) q).
      + intros P. pose proof (Htm P). pose proof (one_of_bound h P). lia.
      + eapply quota_inv_ext; [| |exact I]; intros P; cbn beta; lia.
    - split; [|done]. eapply quota_inv_ext; [| |exact I]; intros P; cbn beta; lia. }
  clearbody q1. assert (is_Some (hosts q1 !! h)) as Hk.
  { apply (qi_known _ _ _ I1). pose proof (Htm (hosts_of h)). unfold one_of. rewrite hosts_of_same. lia. }
  destruct (pq_give_inv _ _ q1 h (npeers ps) I1 Hk (npeers_nonneg ps)) as [I2 S2].
  destruct (give_mapping_inv _ _ _ h I2 ltac:(by apply (sh_hosts _ _ S2))) as [I3 S3].
  split; [|eapply same_hosts_trans; [exact S1|eapply same_hosts_trans; [exact S2|exact S3]]].
  eapply quota_inv_ext; [| |exact I3]; intros P; cbn beta; lia.
Qed.

(** ** Few enough holders of a port *)

Definition proto_ok (p : Z) : Prop := 0 <= p < 256.

Record tables_small (t : Tables) : Prop := {
  ts_reverse : forall rk k, reverse_table t !! rk = Some k -> proto_ok (rk_proto rk);
  ts_forward : forall rk f, by_port t !! rk = Some f -> proto_ok (rk_proto rk) /\ rk = mkNatRevKey (pf_proto f) (pf_outside_port f);
  ts_exps : zlen (expectations t) <= MAX_EXPECTATIONS;
  ts_pool : pool (ports t) = (NAT_PORT_MIN, NAT_PORT_MAX) }.

(** *** The dynamic range stays what it is *)

Lemma pool_acquire u p : pool (acquire u p) = pool u.
Proof. unfold acquire, add_free. repeat case_match; done. Qed.

Lemma pool_release u p : pool (release u p) = pool u.
Proof. unfold release, add_free. repeat case_match; done. Qed.

Lemma pool_insert {K} (m : gmap NatRevKey K) u rk k : pool (pm_insert m u rk k).1.2 = pool u.
Proof. unfold pm_insert. cbn. case_match; [done|apply pool_acquire]. Qed.

Lemma pool_remove {K} (m : gmap NatRevKey K) u rk : pool (pm_remove m u rk).1.2 = pool u.
Proof. unfold pm_remove. case_match; cbn; [apply pool_release|done]. Qed.

Lemma pool_forward_remove t rk : pool (ports (forward_remove t rk).1) = pool (ports t).
Proof. unfold forward_remove. pose proof (pool_remove (by_port t) (ports t) rk). destruct (pm_remove _ _ _) as [[m u] [f|]]; done. Qed.

Lemma pool_forward_insert t rk f : pool (ports (forward_insert t rk f)) = pool (ports t).
Proof.
  unfold forward_insert. rewrite <- (pool_forward_remove t rk). set (t1 := (forward_remove t rk).1). clearbody t1.
  pose proof (pool_insert (by_port t1) (ports t1) rk f). by destruct (pm_insert _ _ _ _) as [[m u] o].
Qed.

Lemma pool_retain t keep : pool (ports (retain t keep)) = pool (ports t).
Proof.
  unfold retain. assert (forall l u, pool (retain_list keep l u).2 = pool u) as H.
  { induction l as [|e l IH]; intros u; [done|]. cbn. destruct (keep e); [|by rewrite IH, pool_release].
    specialize (IH u). by destruct (retain_list keep l u). }
  specialize (H (expectations t) (ports t)). by destruct (retain_list _ _ _).
Qed.

Lemma pool_forward_retain order keep t : pool (ports (forward_retain order keep t)) = pool (ports t).
Proof.
  unfold forward_retain, pm_retain. assert (forall (m : gmap NatRevKey PortForward) u, pool (foldl (fun '(m, u) '(rk, k) => if keep k then (m, u) else (delete rk m, release u (port rk))) (m, u) order).2 = pool u) as H.
  { induction order as [|[rk f] order IH]; intros m u; [done|]. cbn. destruct (keep f); [apply IH|by rewrite IH, pool_release]. }
  specialize (H (by_port t) (ports t)). by destruct (foldl _ _ _).
Qed.

Lemma pool_purge t now : pool (ports (purge_lapsed t now)) = pool (ports t).
Proof. unfold purge_lapsed. case_match; [done|apply pool_retain]. Qed.

Lemma held_in_256 {K} (m : gmap NatRevKey K) p :
  (forall rk k, m !! rk = Some k -> proto_ok (rk_proto rk)) -> held_in m p <= 256.
Proof.
  intros H. unfold held_in. set (f := filter _ m).
  assert (length (rk_proto <$> (map_to_list f).*1) <= length (seqZ 0 256))%nat as Hl.
  { apply submseteq_length, NoDup_submseteq.
    - apply NoDup_fmap_2_strong; [|apply NoDup_fst_map_to_list].
      intros a b Ha Hb E. apply list_elem_of_fmap in Ha as ([a' ka] & -> & Ha). apply list_elem_of_fmap in Hb as ([b' kb] & -> & Hb).
      apply elem_of_map_to_list, map_lookup_filter_Some in Ha as [_ Ha]. apply elem_of_map_to_list, map_lookup_filter_Some in Hb as [_ Hb].
      destruct a', b'. cbn in *. congruence.
    - intros x Hx. apply list_elem_of_fmap in Hx as (a & -> & Ha). apply list_elem_of_fmap in Ha as ([a' ka] & -> & Ha).
      apply elem_of_map_to_list, map_lookup_filter_Some in Ha as [Ha _]. apply elem_of_seqZ. specialize (H _ _ Ha). unfold proto_ok in H. cbn. lia. }
  rewrite length_fmap, length_fmap, length_map_to_list, length_seqZ in Hl. lia.
Qed.

Lemma exp_held_le l p : exp_held l p <= zlen l.
Proof. induction l as [|e l IH]; [done|]. rewrite exp_held_cons, zlen_cons. destruct (_ =? _); lia. Qed.

Lemma hold_small t p : tables_small t -> hold t p + 1 < 2 ^ 16.
Proof.
  intros [H1 H2 H3 _]. unfold hold. pose proof (held_in_256 (reverse_table t) p H1).
  pose proof (held_in_256 (by_port t) p (fun rk k E => proj1 (H2 rk k E))). pose proof (exp_held_le (expectations t) p).
  unfold MAX_EXPECTATIONS in H3. lia.
Qed.

Definition tables_ok (t : Tables) : Prop := tables_inv t /\ tables_small t.

Lemma reverse_insert_ok t rk k : tables_ok t -> port_ok (rk_port rk) -> proto_ok (rk_proto rk) -> tables_ok (reverse_insert t rk k).
Proof.
  intros [I S] Hp Hpr. split; [apply reverse_insert_inv; [done|done|by apply hold_small]|]. destruct S as [S1 S2 S3 S4].
  split; cbn; [|exact S2|exact S3|etrans; [exact (pool_insert (reverse_table t) (ports t) rk k)|exact S4]].
  intros rk' k' E. apply lookup_insert_Some in E as [[<- _]|[_ E]]; [done|by eapply S1].
Qed.

Lemma reverse_remove_ok t rk : tables_ok t -> tables_ok (reverse_remove t rk).
Proof.
  intros [I S]. split; [by apply reverse_remove_inv|]. destruct S as [S1 S2 S3 S4].
  split; cbn; [|exact S2|exact S3|etrans; [exact (pool_remove (reverse_table t) (ports t) rk)|exact S4]].
  intros rk' k' E. apply lookup_delete_Some in E as [_ E]. by eapply S1.
Qed.

Lemma forward_remove_fields t rk :
  reverse_table (forward_remove t rk).1 = reverse_table t /\ by_port (forward_remove t rk).1 = delete rk (by_port t) /\
  expectations (forward_remove t rk).1 = expectations t.
Proof. unfold forward_remove, pm_remove. by destruct (by_port t !! rk). Qed.

Lemma forward_remove_ok t rk : tables_ok t -> tables_ok (forward_remove t rk).1.
Proof.
  intros [I S]. split; [by apply forward_remove_inv|]. destruct (forward_remove_fields t rk) as (E1 & E2 & E3). destruct S as [S1 S2 S3 S4].
  split; rewrite ?E1, ?E2, ?E3, ?pool_forward_remove; [exact S1| |exact S3|exact S4]. intros rk' f E. apply lookup_delete_Some in E as [_ E]. by apply S2.
Qed.

Lemma forward_insert_fields t rk pf :
  reverse_table (forward_insert t rk pf) = reverse_table t /\ by_port (forward_insert t rk pf) = <[rk := pf]> (by_port t) /\
  expectations (forward_insert t rk pf) = expectations t.
Proof.
  unfold forward_insert. destruct (forward_remove_fields t rk) as (E1 & E2 & E3). set (t1 := (forward_remove t rk).1) in *. clearbody t1.
  unfold pm_insert. cbn. rewrite E1, E2, E3. split_and!; [done| |done]. by rewrite insert_delete_eq.
Qed.

Lemma forward_insert_ok t rk pf :
  tables_ok t -> port_ok (rk_port rk) -> proto_ok (rk_proto rk) -> rk = mkNatRevKey (pf_proto pf) (pf_outside_port pf) -> tables_ok (forward_insert t rk pf).
Proof.
  intros [I S] Hp Hpr Erk. split; [apply forward_insert_inv; [done|done|by apply hold_small]|].
  destruct (forward_insert_fields t rk pf) as (E1 & E2 & E3). destruct S as [S1 S2 S3 S4].
  split; rewrite ?E1, ?E2, ?E3, ?pool_forward_insert; [exact S1| |exact S3|exact S4].
  intros rk' f E. apply lookup_insert_Some in E as [[<- <-]|[_ E]]; [done|by apply S2].
Qed.

Lemma retain_ok t keep : tables_ok t -> tables_ok (retain t keep) /\ reverse_table (retain t keep) = reverse_table t /\ by_port (retain t keep) = by_port t.
Proof.
  intros [I S]. destruct (retain_spec t keep I) as [H1 H2].
  assert (reverse_table (retain t keep) = reverse_table t /\ by_port (retain t keep) = by_port t) as [E1 E2]
    by (unfold retain; by destruct (retain_list _ _ _)).
  split_and!; [|done|done]. split; [done|]. destruct S as [S1 S2 S3 S4]. split; rewrite ?E1, ?E2, ?pool_retain; [done|done| |done].
  rewrite H2. pose proof (length_filter (fun e => keep e = true) (expectations t)). unfold zlen in *. lia.
Qed.

Lemma purge_ok t now : tables_ok t -> tables_ok (purge_lapsed t now) /\ reverse_table (purge_lapsed t now) = reverse_table t /\ by_port (purge_lapsed t now) = by_port t.
Proof.
  intros [I S]. destruct (purge_spec t now I) as [H1 H2].
  assert (reverse_table (purge_lapsed t now) = reverse_table t /\ by_port (purge_lapsed t now) = by_port t) as [E1 E2].
  { unfold purge_lapsed, retain. repeat (case_match; try done). }
  split_and!; [|done|done]. split; [done|]. destruct S as [S1 S2 S3 S4]. split; rewrite ?E1, ?E2, ?pool_purge; [done|done| |done].
  rewrite H2. pose proof (length_filter (fun e => (now <=? ex_expires e) = true) (expectations t)). unfold zlen in *. lia.
Qed.

(** A change of the expectations that does not lengthen the list. *)
Lemma exps_ok t t' :
  tables_ok t -> tables_inv t' -> reverse_table t' = reverse_table t -> by_port t' = by_port t -> zlen (expectations t') <= MAX_EXPECTATIONS ->
  pool (ports t') = pool (ports t) -> tables_ok t'.
Proof. intros [I [S1 S2 S3 S4]] I' E1 E2 Hl Hpl. rewrite <- Hpl in S4. split; [done|]. split; rewrite ?E1, ?E2; done. Qed.

Lemma remove_ok t i t' e :
  tables_ok t -> remove t i = Some (t', e) ->
  tables_ok t' /\ reverse_table t' = reverse_table t /\ by_port t' = by_port t /\ expectations t !! i = Some e /\ expectations t' = delete i (expectations t).
Proof.
  intros [I S] E. destruct (remove_inv t i t' e I E) as (I' & E1 & E2).
  assert (reverse_table t' = reverse_table t /\ by_port t' = by_port t /\ pool (ports t') = pool (ports t)) as (F1 & F2 & F3).
  { unfold remove in E. destruct (expectations t !! i); [|done]. injection E as <- <-. split_and!; [done|done|apply pool_release]. }
  split_and!; try done. apply (exps_ok t); try done. rewrite E2. destruct S as [_ _ S3 _]. pose proof (length_delete (expectations t) i). unfold zlen in *.
  rewrite H by eauto. lia.
Qed.

Lemma swap_remove_ok t i e :
  tables_ok t -> expectations t !! i = Some e ->
  let t' := default t (swap_remove t i) in
  tables_ok t' /\ reverse_table t' = reverse_table t /\ by_port t' = by_port t /\ zlen (expectations t') = zlen (expectations t) - 1.
Proof.
  intros [I S] Ee t'. destruct (swap_remove t i) as [t''|] eqn:E; [|unfold swap_remove in E; rewrite Ee in E; done]. cbn [default] in t'. subst t'.
  pose proof (swap_remove_inv t i t'' I E) as I'. unfold swap_remove in E. rewrite Ee in E. cbn in E. injection E as <-. cbn in *.
  pose proof (swap_out_perm _ _ _ Ee) as Hp. apply Permutation_length in Hp. cbn in Hp. destruct S as [S1 S2 S3 S4]. split_and!; try done.
  - split; [done|]. split; cbn; [done|done| |by rewrite pool_release]. unfold zlen in *. lia.
  - unfold zlen. lia.
Qed.

Lemma extend_ok t i x e :
  tables_ok t -> expectations t !! i = Some e ->
  let t' := default t (extend t i x) in tables_ok t' /\ reverse_table t' = reverse_table t /\ by_port t' = by_port t.
Proof.
  intros [I S] Ee t'. destruct (extend t i x) as [t''|] eqn:E; [|unfold extend in E; rewrite Ee in E; done]. cbn [default] in t'. subst t'.
  pose proof (extend_inv t i x t'' I E) as I'. unfold extend in E. rewrite Ee in E. cbn in E. injection E as <-. cbn in *.
  split_and!; try done. apply (exps_ok t); try done. cbn. destruct S as [_ _ S3 _]. unfold zlen in *. by rewrite length_insert.
Qed.

Lemma push_ok t e :
  tables_ok t -> port_ok (ex_outside_port e) -> zlen (expectations t) < MAX_EXPECTATIONS ->
  tables_ok (push t e) /\ reverse_table (push t e) = reverse_table t /\ by_port (push t e) = by_port t.
Proof.
  intros [I S] Hp Hl. pose proof (exp_push_inv t e I Hp (hold_small t _ S)) as I'.
  assert (reverse_table (push t e) = reverse_table t /\ by_port (push t e) = by_port t /\ expectations (push t e) = expectations t ++ [e]) as (E1 & E2 & E3) by done.
  split_and!; try done. apply (exps_ok t); try done; [|apply pool_acquire]. rewrite E3, zlen_app. change (zlen [e]) with 1. lia.
Qed.

Lemma forward_retain_ok t keep :
  tables_ok t ->
  let t' := forward_retain (map_to_list (by_port t)) keep t in
  tables_ok t' /\ reverse_table t' = reverse_table t /\ (forall rk f, by_port t' !! rk = Some f -> by_port t !! rk = Some f).
Proof.
  intros [I S] t'. destruct (forward_retain_inv (map_to_list (by_port t)) keep t I ltac:(done)) as [I' H]. fold t' in I', H.
  assert (reverse_table t' = reverse_table t /\ expectations t' = expectations t) as [E1 E2].
  { unfold t', forward_retain. by destruct (pm_retain _ _ _ _). }
  assert (forall rk f, by_port t' !! rk = Some f -> by_port t !! rk = Some f) as Hs by (intros rk f E; apply H in E as [E _]; done).
  split_and!; try done. split; [done|]. destruct S as [S1 S2 S3 S4]. split; rewrite ?E1, ?E2; [done| |done|by unfold t'; rewrite pool_forward_retain]. intros rk f E. apply S2. by apply Hs.
Qed.

(** ** The invariant *)

Record map_ok (k : NatKey) (m : Mapping) : Prop := {
  mo_key : m_key m = k;
  mo_port : port_ok (outside_port m);
  mo_alias : forall a, alias m = Some a -> m_key a = k /\ alias a = None /\ port_ok (outside_port a) /\ outside_port a <> outside_port m }.

(** Mapping [k] holds the outside port of [rk]. *)
Definition holds (k : NatKey) (o : option Mapping) (rk : NatRevKey) : Prop :=
  exists m, o = Some m /\ rk_proto rk = nk_proto k /\ rk_port rk ∈ map_ports m.

(** [xm] counts mappings taken from the quotas and not yet in the table. *)
Record nat_inv (xm : (Host -> bool) -> Z) (n : NatInner) : Prop := {
  ni_tables : tables_ok (tables n);
  ni_maps : forall k m, mappings n !! k = Some m -> map_ok k m /\ proto_ok (nk_proto k);
  ni_holder : forall rk k, reverse n !! rk = Some k <-> holds k (mappings n !! k) rk;
  ni_quota : quota_inv (fun P => msum (sides P) (mappings n) + xm P) (fun P => msum (tracked P) (mappings n)) (quotas n) }.

Definition none_inflight : (Host -> bool) -> Z := fun _ => 0.

Lemma tsum_nonneg xm n : (forall P, 0 <= xm P) -> forall P, 0 <= msum (sides P) (mappings n) + xm P.
Proof. intros H P. pose proof (H P). pose proof (msum_nonneg (sides P) (mappings n) (fun k m _ => sides_nonneg P m)). lia. Qed.

(** One entry changed, with the ports it holds and what it counts for. *)
Lemma nat_update xm xm' n n' k o :
  nat_inv xm n -> tables_ok (tables n') -> mappings n' = put k o (mappings n) ->
  (forall m, o = Some m -> map_ok k m /\ proto_ok (nk_proto k)) ->
  (forall rk k', k' <> k -> reverse n' !! rk = Some k' <-> reverse n !! rk = Some k') ->
  (forall rk, reverse n' !! rk = Some k <-> holds k o rk) ->
  quota_inv (fun P => msum (sides P) (mappings n) - of_opt (sides P) (mappings n !! k) + of_opt (sides P) o + xm' P)
    (fun P => msum (tracked P) (mappings n) - of_opt (tracked P) (mappings n !! k) + of_opt (tracked P) o) (quotas n') ->
  nat_inv xm' n'.
Proof.
  intros [I1 I2 I3 I4] Ht Hm Ho Hr1 Hr2 Hq. split; [done| | |].
  - intros k' m E. rewrite Hm, lookup_put in E. destruct (decide (k' = k)) as [->|]; [by apply Ho|by apply I2].
  - intros rk k'. rewrite Hm, lookup_put. destruct (decide (k' = k)) as [->|]; [apply Hr2|]. rewrite Hr1 by done. apply I3.
  - rewrite Hm. eapply quota_inv_ext; [| |exact Hq]; intros P; cbn beta; rewrite msum_put; done.
Qed.

(** ** Hosts come and go *)

Lemma referred_spec ms pinned h : referred ms pinned h = true <-> pinned = Some h \/ exists k m, ms !! k = Some m /\ host_of k = h.
Proof.
  unfold referred. rewrite orb_true_iff, bool_decide_eq_true, existsb_exists. apply or_iff_compat_l. split.
  - intros (k & Hk & E). apply bool_decide_eq_true in E. apply list_elem_of_In, list_elem_of_fmap in Hk as ([k' m] & -> & Hk).
    apply elem_of_map_to_list in Hk. by exists k', m.
  - intros (k & m & Hk & E). exists k. split; [|by apply bool_decide_eq_true]. apply list_elem_of_In, list_elem_of_fmap. exists (k, m).
    split; [done|by apply elem_of_map_to_list].
Qed.

Lemma size_filter_split {K A} `{Countable K} (P Q : K * A -> Prop) `{forall x, Decision (P x)} `{forall x, Decision (Q x)} (m : gmap K A) :
  (size (filter P m) = size (filter P (filter Q m)) + size (filter P (filter (fun x => ~ Q x) m)))%nat.
Proof.
  induction m as [|k a m Hk IH] using map_ind; [by rewrite !map_filter_empty|].
  assert (forall R : K * A -> Prop, forall D : forall x, Decision (R x), filter R m !! k = None) as Hf.
  { intros R D. apply map_lookup_filter_None. by left. }
  destruct (decide (Q (k, a))) as [HQ|HQ].
  - rewrite (map_filter_insert_True Q), (map_filter_insert_False (fun x => ~ Q x)) by (done || tauto). rewrite (delete_id m k) by done.
    destruct (decide (P (k, a))).
    + rewrite !map_filter_insert_True by done. rewrite !map_size_insert_None by (apply Hf || (apply map_lookup_filter_None; left; apply Hf)). lia.
    + rewrite !map_filter_insert_False by done. rewrite (delete_id m k) by done. rewrite (delete_id (filter Q m) k) by apply Hf. lia.
  - rewrite (map_filter_insert_False Q), (map_filter_insert_True (fun x => ~ Q x)) by (done || tauto). rewrite (delete_id m k) by done.
    destruct (decide (P (k, a))).
    + rewrite !map_filter_insert_True by done. rewrite !map_size_insert_None by (apply Hf || (apply map_lookup_filter_None; left; apply Hf)). lia.
    + rewrite !map_filter_insert_False by done. rewrite (delete_id m k) by done. rewrite (delete_id (filter (fun x => ~ Q x) m) k) by apply Hf. lia.
Qed.

Lemma retain_hosts_inv tm tp q keep :
  quota_inv tm tp q -> (forall h, keep h = false -> tm (hosts_of h) = 0) -> quota_inv tm tp (retain_hosts q keep) /\ limits (retain_hosts q keep) = limits q /\
  (forall h, is_Some (hosts (retain_hosts q keep) !! h) <-> is_Some (hosts q !! h) /\ keep h = true).
Proof.
  intros [H1 H2 H3 H4] Hkeep. set (q' := retain_hosts q keep).
  assert (forall h x, hosts q' !! h = Some x <-> hosts q !! h = Some x /\ keep h = true) as Hh by (intros h x; apply map_lookup_filter_Some).
  assert (forall ns x, namespaces q' !! ns = Some x -> exists y, namespaces q !! ns = Some y /\ ns_mappings x = ns_mappings y /\ ns_peers x = ns_peers y /\
    used (ns_hosts x) = used (ns_hosts y) - Z.of_nat (size (filter (fun '(_, x) => h_ns x = Some ns) (filter (fun '(h, _) => keep h = false) (hosts q))))) as Hn.
  { intros ns x E. cbn in E. rewrite map_lookup_imap in E. destruct (namespaces q !! ns) as [y|]; [|done]. cbn in E. injection E as <-. by exists y. }
  split; [split|split; [done|]].
  - intros h x E. apply Hh in E as [E _]. destruct (H1 h x E) as (A1 & A2 & A3 & A4). split_and!; try done. intros Hz. destruct (A4 Hz) as [y Hy].
    cbn. rewrite map_lookup_imap, Hy. cbn. eauto.
  - intros h Hne. destruct (H2 h Hne) as [x Hx]. exists x. apply Hh. split; [done|]. destruct (keep h) eqn:E; [done|]. by apply Hkeep in E.
  - intros ns x E. destruct (Hn ns x E) as (y & Hy & E1 & E2 & E3). destruct (H3 ns y Hy) as (A0 & A1 & A2 & A3). rewrite E1, E2, E3, A3. split_and!; try done.
    unfold hosts_in. rewrite (size_filter_split (fun '(h, _) => fst h = ns) (fun '(h, _) => keep h = true) (hosts q)). cbn [hosts q' retain_hosts].
    assert (filter (fun '(h, _) => fst h = ns) (filter (fun x => ~ (let '(h, _) := x in keep h = true)) (hosts q))
      = filter (fun '(_, x) => h_ns x = Some ns) (filter (fun '(h, _) => keep h = false) (hosts q))) as ->; [|lia].
    apply map_eq. intros h. apply option_eq. intros z. rewrite !map_lookup_filter_Some. split.
    + intros [[Hz Hk] <-]. destruct (H1 h z Hz) as (_ & _ & A4 & _). split_and!; [done|by apply not_true_is_false|].
      rewrite A4. destruct (Z.eqb_spec (fst h) 0); [lia|done].
    + intros [[Hz Hk] Hns]. destruct (H1 h z Hz) as (_ & _ & A4 & _). rewrite A4 in Hns. split_and!; [done|congruence|].
      destruct (fst h =? 0); congruence.
  - done.
  - intros h. split.
    + intros [x Hx]. apply Hh in Hx as [Hx Hk]. eauto.
    + intros [[x Hx] Hk]. exists x. by apply Hh.
Qed.

Lemma retain_namespaces_inv tm tp q : quota_inv tm tp q -> quota_inv tm tp (retain_namespaces q).
Proof.
  intros [H1 H2 H3 H4]. split; [|exact H2| |exact H4].
  - intros h x E. destruct (H1 h x E) as (A1 & A2 & A3 & A4). split_and!; try done. intros Hz. destruct (A4 Hz) as [y Hy]. exists y.
    apply map_lookup_filter_Some. split; [done|]. apply existsb_exists. exists x. split; [|apply bool_decide_eq_true; rewrite A3; destruct (Z.eqb_spec (fst h) 0); [lia|done]].
    apply list_elem_of_In, list_elem_of_fmap. exists (h, x). split; [done|by apply elem_of_map_to_list].
  - intros ns x E. apply map_lookup_filter_Some in E as [E _]. by apply H3.
Qed.

Lemma ns_entry_inv tm tp q ns :
  quota_inv tm tp q -> ns <> 0 -> (forall P, 0 <= tm P) -> (forall P, 0 <= tp P) -> (namespaces q !! ns = None -> tm (in_ns ns) = 0 /\ tp (in_ns ns) = 0) ->
  quota_inv tm tp (ns_entry q ns) /\ is_Some (namespaces (ns_entry q ns) !! ns) /\ hosts (ns_entry q ns) = hosts q /\ limits (ns_entry q ns) = limits q.
Proof.
  intros I Hns Htm Htp Hnew. unfold ns_entry. destruct (namespaces q !! ns) as [x|] eqn:E; [split_and!; eauto|].
  destruct I as [H1 H2 H3 H4]. destruct (Hnew eq_refl) as [N1 N2]. split_and!; [|cbn; rewrite lookup_insert_eq; eauto|done|done]. split; [|exact H2| |exact H4].
  - intros h x Hx. destruct (H1 h x Hx) as (A1 & A2 & A3 & A4). split_and!; try done. intros Hz. destruct (A4 Hz) as [y Hy]. cbn.
    destruct (decide (ns = fst h)) as [->|]; [rewrite lookup_insert_eq; eauto|rewrite lookup_insert_ne by done; eauto].
  - intros ns' x Hx. cbn in Hx. apply lookup_insert_Some in Hx as [[<- <-]|[Hne Hx]]; [|by apply H3].
    cbn. rewrite N1, N2. split_and!; try done. unfold hosts_in. symmetry. cbn. apply (f_equal Z.of_nat (y := 0%nat)).
    apply map_size_empty_iff, map_empty. intros h. apply map_lookup_filter_None. right. intros x Hx Eh.
    destruct (H1 h x Hx) as (_ & _ & _ & A4). destruct (A4 ltac:(lia)) as [y Hy]. rewrite Eh in Hy. congruence.
Qed.

(** A new host, counted by its namespace. *)
Lemma add_host_inv tm tp q h x f :
  quota_inv tm tp q -> hosts q !! h = None -> tm (hosts_of h) = 0 -> tp (hosts_of h) = 0 ->
  used (h_mappings x) = 0 -> used (h_peers x) = 0 -> h_ns x = (if fst h =? 0 then None else Some (fst h)) ->
  (fst h <> 0 -> is_Some (namespaces q !! fst h)) -> (forall y, namespaces q !! fst h = Some y -> used (f (ns_hosts y)) = used (ns_hosts y) + 1) ->
  quota_inv tm tp (add_host (on_ns q (if fst h =? 0 then None else Some (fst h)) (space_hosts f)) h x).
Proof.
  intros I Hh Htm Htp U1 U2 Ux Hns Hf. destruct I as [H1 H2 H3 H4].
  assert (forall ns y, namespaces (on_ns q (if fst h =? 0 then None else Some (fst h)) (space_hosts f)) !! ns = Some y ->
    exists z, namespaces q !! ns = Some z /\ y = (if ns =? fst h then space_hosts f z else z)) as Hn.
  { intros ns y E. destruct (Z.eqb_spec (fst h) 0) as [E0|E0]; cbn in E.
    - exists y. split; [done|]. destruct (Z.eqb_spec ns (fst h)); [|done]. destruct (H3 ns y E). lia.
    - destruct (Z.eqb_spec ns (fst h)) as [->|].
      + rewrite lookup_alter_eq in E. destruct (namespaces q !! fst h) as [z|]; [|done]. injection E as <-. by exists z.
      + rewrite lookup_alter_ne in E by done. by exists y. }
  assert (forall ns, is_Some (namespaces q !! ns) -> is_Some (namespaces (on_ns q (if fst h =? 0 then None else Some (fst h)) (space_hosts f)) !! ns)) as Hs.
  { intros ns [y Hy]. destruct (fst h =? 0); cbn; [eauto|]. destruct (decide (fst h = ns)) as [->|]; [rewrite lookup_alter_eq, Hy; eauto|rewrite lookup_alter_ne, Hy by done; eauto]. }
  assert (hosts (add_host (on_ns q (if fst h =? 0 then None else Some (fst h)) (space_hosts f)) h x) = <[h := x]> (hosts q)) as Ehosts by (by destruct (fst h =? 0)).
  split.
  - intros h' y Hy. rewrite Ehosts in Hy. apply lookup_insert_Some in Hy as [[<- <-]|[Hne Hy]].
    + rewrite Htm, Htp. split_and!; try done. intros Hz. apply Hs. auto.
    + destruct (H1 h' y Hy) as (A1 & A2 & A3 & A4). split_and!; try done. intros Hz. apply Hs. auto.
  - intros h' Hne. rewrite Ehosts. destruct (decide (h = h')) as [->|]; [rewrite lookup_insert_eq; eauto|]. rewrite lookup_insert_ne by done. auto.
  - intros ns y Hy. destruct (Hn ns y Hy) as (z & Hz & ->). destruct (H3 ns z Hz) as (A0 & A1 & A2 & A3). unfold hosts_in. rewrite Ehosts.
    destruct (Z.eqb_spec ns (fst h)) as [->|Hne]; cbn.
    + rewrite (Hf z Hz), A3. split_and!; try done. rewrite map_filter_insert_True by done. rewrite map_size_insert_None; [unfold hosts_in; lia|].
      apply map_lookup_filter_None. by left.
    + rewrite A3. split_and!; try done. unfold hosts_in. rewrite map_filter_insert_False by (cbn; lia). by rewrite delete_id.
  - destruct (fst h =? 0); exact H4.
Qed.

Definition nsides (m : Mapping) : Z := 1 + match alias m with Some _ => 1 | None => 0 end.
Definition ntracked (m : Mapping) : Z := npeers (peers m) + match alias m with Some a => npeers (peers a) | None => 0 end.

Lemma sides_ok k m P : map_ok k m -> sides P m = nsides m * one_of (host_of k) P.
Proof.
  intros [H1 H2 H3]. destruct m as [k' p t ps b u a]. cbn in *. subst k'. unfold nsides. cbn. destruct a as [a|]; [|lia].
  destruct (H3 a eq_refl) as (E1 & E2 & _). destruct a as [ka pa ta psa ba ua aa]. cbn in *. subst. lia.
Qed.

Lemma tracked_ok k m P : map_ok k m -> tracked P m = ntracked m * one_of (host_of k) P.
Proof.
  intros [H1 H2 H3]. destruct m as [k' p t ps b u a]. cbn in *. subst k'. unfold ntracked. cbn. destruct a as [a|]; [|lia].
  destruct (H3 a eq_refl) as (E1 & E2 & _). destruct a as [ka pa ta psa ba ua aa]. cbn in *. subst. lia.
Qed.

Record inflight_ok (xm : (Host -> bool) -> Z) : Prop := {
  if_nonneg : forall P, 0 <= xm P;
  if_ns : forall ns, xm (in_ns ns) <> 0 -> exists h, fst h = ns /\ xm (hosts_of h) <> 0 }.

Lemma inflight_none : inflight_ok none_inflight.
Proof. split; [unfold none_inflight; lia|done]. Qed.

Lemma inflight_add xm h : inflight_ok xm -> inflight_ok (fun P => xm P + one_of h P).
Proof.
  intros [H1 H2]. split.
  - intros P. pose proof (H1 P). pose proof (one_of_bound h P). lia.
  - intros ns Hne. destruct (decide (xm (in_ns ns) = 0)) as [E|E].
    + exists h. rewrite one_of_ns in Hne. pose proof (H1 (hosts_of h)). unfold one_of. rewrite hosts_of_same. destruct (Z.eqb_spec (fst h) ns); [split; [done|lia]|lia].
    + destruct (H2 ns E) as (h' & E' & Hx). exists h'. split; [done|]. pose proof (H1 (hosts_of h')). pose proof (one_of_bound h (hosts_of h')). lia.
Qed.

Section Absent.
Context (xm : (Host -> bool) -> Z) (n : NatInner).
Hypothesis I : nat_inv xm n.
Hypothesis Hx : inflight_ok xm.

(** Every mapping's host has its entry. *)
Lemma mapping_host k m : mappings n !! k = Some m -> is_Some (hosts (quotas n) !! host_of k).
Proof.
  intros E. apply (qi_known _ _ _ (ni_quota _ _ I)). pose proof (if_nonneg _ Hx (hosts_of (host_of k))).
  destruct (ni_maps _ _ I k m E) as [Hok _]. pose proof (sides_self m) as Hs. rewrite (mo_key _ _ Hok) in Hs.
  pose proof (msum_le (sides (hosts_of (host_of k))) (mappings n) k m (fun k m _ => sides_nonneg _ m) E). lia.
Qed.

Lemma msum_zero (f : Mapping -> Z) : (forall k m, mappings n !! k = Some m -> f m = 0) -> msum f (mappings n) = 0.
Proof using.
  intros H. rewrite (msum_ext f (fun _ => 0)) by done. clear H. induction (mappings n) as [|k m ms Hk IH] using map_ind; [done|]. by rewrite msum_insert.
Qed.

Lemma absent_host h : hosts (quotas n) !! h = None ->
  msum (sides (hosts_of h)) (mappings n) + xm (hosts_of h) = 0 /\ msum (tracked (hosts_of h)) (mappings n) = 0.
Proof.
  intros Hh. split.
  - destruct (decide (msum (sides (hosts_of h)) (mappings n) + xm (hosts_of h) = 0)) as [E|E]; [done|].
    apply (qi_known _ _ _ (ni_quota _ _ I)) in E as [x Hx']. congruence.
  - apply msum_zero. intros k m E. destruct (ni_maps _ _ I k m E) as [Hok _]. rewrite (tracked_ok k) by done. rewrite one_of_host.
    case_bool_decide as Eh; [|lia]. destruct (mapping_host k m E) as [x Hx']. rewrite Eh in Hx'. congruence.
Qed.

Lemma absent_ns ns : ns <> 0 -> namespaces (quotas n) !! ns = None ->
  msum (sides (in_ns ns)) (mappings n) + xm (in_ns ns) = 0 /\ msum (tracked (in_ns ns)) (mappings n) = 0.
Proof.
  intros Hz Hn.
  assert (forall h, fst h = ns -> hosts (quotas n) !! h = None) as Hh.
  { intros h Eh. destruct (hosts (quotas n) !! h) as [x|] eqn:E; [|done]. destruct (qi_host _ _ _ (ni_quota _ _ I) h x E) as (_ & _ & _ & A).
    destruct (A ltac:(lia)) as [y Hy]. rewrite Eh in Hy. congruence. }
  assert (forall k m, mappings n !! k = Some m -> one_of (host_of k) (in_ns ns) = 0) as Hk.
  { intros k m E. rewrite one_of_ns. destruct (Z.eqb_spec (fst (host_of k)) ns) as [Ek|]; [|done].
    destruct (mapping_host k m E) as [x Hx']. rewrite Hh in Hx' by done. done. }
  split; [|apply msum_zero; intros k m E; destruct (ni_maps _ _ I k m E) as [Hok _]; rewrite (tracked_ok k), (Hk k m) by done; lia].
  rewrite (msum_zero (sides (in_ns ns))) by (intros k m E; destruct (ni_maps _ _ I k m E) as [Hok _]; rewrite (sides_ok k), (Hk k m) by done; lia).
  destruct (decide (xm (in_ns ns) = 0)) as [E|E]; [lia|]. destruct (if_ns _ Hx ns E) as (h & Eh & Hne).
  destruct (absent_host h (Hh h Eh)) as [A _]. pose proof (if_nonneg _ Hx (hosts_of h)).
  pose proof (msum_nonneg (sides (hosts_of h)) (mappings n) (fun k m _ => sides_nonneg _ m)). lia.
Qed.
End Absent.

Lemma with_quotas_inv xm xm' n q :
  nat_inv xm n -> quota_inv (fun P => msum (sides P) (mappings n) + xm' P) (fun P => msum (tracked P) (mappings n)) q -> nat_inv xm' (with_quotas n q).
Proof. intros [I1 I2 I3 I4] Hq. split; done. Qed.

(** Only the quotas, the clocks or the next port differ. *)
Record same_maps (n n' : NatInner) : Prop := { sm_maps : mappings n' = mappings n; sm_tables : tables n' = tables n }.

Lemma host_locked_inv n h forced :
  nat_inv none_inflight n ->
  let '(n', ok) := host_locked n h forced in
  nat_inv none_inflight n' /\ same_maps n n' /\ (ok = true -> is_Some (hosts (quotas n') !! h)) /\ (forced = true -> ok = true).
Proof.
  intros I. unfold host_locked. destruct (hosts (quotas n) !! h) as [x|] eqn:Eh; [split_and!; eauto; done|].
  destruct (absent_host _ n I inflight_none h Eh) as [A1 A2]. pose proof (ni_quota _ _ I) as Hq.
  destruct (fst h =? 0) eqn:E0.
  { split_and!; [|done|intros _; cbn; rewrite lookup_insert_eq; eauto|done]. apply (with_quotas_inv none_inflight); [done|].
    pose proof (add_host_inv _ _ (quotas n) h (HostQuota_new (limits (quotas n))) (fun x => x) Hq Eh A1 A2 eq_refl eq_refl) as K.
    rewrite E0 in K. apply K; [done|lia|]. bool2prop. intros y Hy. destruct (qi_ns _ _ _ Hq _ _ Hy) as [Hz _]. lia. }
  bool2prop. set (tm := fun P => msum (sides P) (mappings n) + none_inflight P) in *. set (tp := fun P => msum (tracked P) (mappings n)) in *.
  assert (forall P, 0 <= tm P) as Tm by (apply tsum_nonneg; unfold none_inflight; lia).
  assert (forall P, 0 <= tp P) as Tp by (intros P; apply msum_nonneg; intros; apply tracked_nonneg).
  destruct (ns_entry_inv tm tp (quotas n) (fst h) Hq E0 Tm Tp (absent_ns _ n I inflight_none (fst h) E0)) as (I1 & N1 & H1 & L1).
  set (q1 := ns_entry (quotas n) (fst h)) in *.
  assert (forall q f, quota_inv tm tp q -> hosts q !! h = None -> is_Some (namespaces q !! fst h) ->
    (forall y, namespaces q !! fst h = Some y -> used (f (ns_hosts y)) = used (ns_hosts y) + 1) ->
    nat_inv none_inflight (with_quotas n (add_host (on_ns q (Some (fst h)) (space_hosts f)) h (in_namespace (limits q) (fst h))))) as Henter.
  { intros q f Iq Hn Hs Hf. apply (with_quotas_inv none_inflight); [done|]. fold tm tp.
    pose proof (add_host_inv tm tp q h (in_namespace (limits q) (fst h)) f Iq Hn A1 A2 eq_refl eq_refl) as K.
    replace (fst h =? 0) with false in K by lia. by apply K. }
  assert (forall q, is_Some (namespaces q !! fst h) -> admits (ns_hosts <$> namespaces q !! fst h) = true ->
    forall y, namespaces q !! fst h = Some y -> used ((take (ns_hosts y)).1) = used (ns_hosts y) + 1) as Hroom.
  { intros q _ Ha y Hy. rewrite Hy in Ha. by apply take_ok in Ha as [? _]. }
  destruct forced.
  { split_and!; [|done|intros _; cbn; rewrite lookup_insert_eq; eauto|done]. apply Henter; [done|by rewrite H1|done|done]. }
  destruct (admits (ns_hosts <$> namespaces q1 !! fst h)) eqn:Ea.
  { split_and!; [|done|intros _; cbn; rewrite lookup_insert_eq; eauto|done]. apply Henter; [done|by rewrite H1|done|by apply Hroom]. }
  destruct (retain_hosts_inv tm tp q1 (referred (mappings n) None) I1) as (I2 & L2 & S2).
  { intros h' Hr. unfold tm, none_inflight. rewrite (msum_zero n); [lia|]. intros k m E. destruct (ni_maps _ _ I k m E) as [Hok _].
    rewrite (sides_ok k) by done. rewrite one_of_host. case_bool_decide as Ek; [|lia].
    assert (referred (mappings n) None h' = true) as Ht by (apply referred_spec; right; by exists k, m). congruence. }
  set (q2 := retain_hosts q1 (referred (mappings n) None)) in *.
  assert (hosts q2 !! h = None) as Hn2.
  { destruct (hosts q2 !! h) eqn:E2; [|done]. assert (is_Some (hosts q2 !! h)) as Hs by eauto. apply S2 in Hs as [[y Hy] _]. rewrite H1 in Hy. congruence. }
  assert (is_Some (namespaces q2 !! fst h)) as Hs2.
  { unfold q2. cbn. rewrite map_lookup_imap. destruct N1 as [y Hy]. rewrite Hy. cbn. eauto. }
  destruct (admits (ns_hosts <$> namespaces q2 !! fst h)) eqn:Ea2.
  - split_and!; [|done|intros _; cbn; rewrite lookup_insert_eq; eauto|done]. apply Henter; [done|done|done|by apply Hroom].
  - split_and!; [|done|done|done]. by apply (with_quotas_inv none_inflight).
Qed.

Lemma new_mapping_inv xm n k port now forced :
  nat_inv xm n -> xm = none_inflight \/ is_Some (hosts (quotas n) !! host_of k) ->
  let '(n', o) := new_mapping n k port now forced in
  same_maps n n' /\
  match o with
  | Some m => m = Mapping_new k port now /\ nat_inv (fun P => xm P + one_of (host_of k) P) n' /\ is_Some (hosts (quotas n') !! host_of k)
  | None => nat_inv xm n' /\ forced = false
  end.
Proof.
  intros I Hx. unfold new_mapping.
  assert (let '(n', ok) := host_locked n (host_of k) forced in
    nat_inv xm n' /\ same_maps n n' /\ (ok = true -> is_Some (hosts (quotas n') !! host_of k)) /\ (forced = true -> ok = true)) as K.
  { destruct Hx as [-> | [x Ex]]; [by apply host_locked_inv|]. unfold host_locked. rewrite Ex. split_and!; eauto; done. }
  destruct (host_locked n (host_of k) forced) as [n1 ok]. destruct K as (I1 & S1 & Hk & Hf). destruct ok; cbn [negb].
  2:{ split; [done|]. split; [done|]. destruct forced; [by specialize (Hf eq_refl)|done]. }
  specialize (Hk eq_refl).
  pose proof (take_mapping_inv _ _ (quotas n1) (host_of k) forced (ni_quota _ _ I1) Hk) as T.
  destruct (take_mapping (quotas n1) (host_of k) forced) as [q ok]. destruct T as (T1 & T2 & T3 & _).
  split; [by destruct S1|]. destruct ok.
  - split_and!; [done| |by apply (sh_hosts _ _ T1)]. apply (with_quotas_inv xm); [done|]. eapply quota_inv_ext; [| |exact T2]; intros P; cbn beta; lia.
  - subst q. split; [destruct n1; done|]. destruct forced; [by specialize (T3 eq_refl)|done].
Qed.

(** A mapping in flight dropped. *)
Lemma drop_inflight xm n k port now :
  nat_inv (fun P => xm P + one_of (host_of k) P) n -> inflight_ok xm -> nat_inv xm (drop n (Mapping_new k port now)) /\ same_maps n (drop n (Mapping_new k port now)).
Proof.
  intros I Hx. split; [|done]. apply (with_quotas_inv (fun P => xm P + one_of (host_of k) P)); [done|].
  apply (drop_mapping_inv (fun P => msum (sides P) (mappings n) + xm P) (fun P => msum (tracked P) (mappings n))); [by apply tsum_nonneg, Hx|].
  eapply quota_inv_ext; [| |exact (ni_quota _ _ I)]; intros P; cbn; unfold npeers; rewrite ?map_size_empty; lia.
Qed.

(** ** Ports bound and freed *)

Lemma reverse_free n rk : reverse (free_port n rk) = delete rk (reverse n).
Proof. done. Qed.

Lemma reverse_bind n k p : reverse (bind_port n k p) = <[rev_of k p := k]> (reverse n).
Proof. done. Qed.

Lemma map_ports_elem m p : p ∈ map_ports m <-> p = outside_port m \/ exists a, alias m = Some a /\ p = outside_port a.
Proof.
  unfold map_ports. rewrite elem_of_cons. apply or_iff_compat_l. destruct (alias m) as [a|].
  - rewrite list_elem_of_singleton. naive_solver.
  - split; [intros H; by apply not_elem_of_nil in H|by intros (? & ? & _)].
Qed.

Lemma rev_of_eq k p rk : rk = rev_of k p <-> rk_proto rk = nk_proto k /\ rk_port rk = p.
Proof. unfold rev_of. destruct rk. cbn. split; [intros [= -> ->]; done|intros [-> ->]; done]. Qed.

(** A mapping enters the table on a port that is not bound. *)
Lemma enter_inv xm n k m :
  nat_inv (fun P => xm P + one_of (host_of k) P) n -> mappings n !! k = None -> reverse n !! rev_of k (outside_port m) = None ->
  m_key m = k -> alias m = None -> peers m = ∅ -> port_ok (outside_port m) -> proto_ok (nk_proto k) -> nat_inv xm (enter n k m).
Proof.
  intros I Hk Hr Ek Ea Ep Hp Hpr.
  eapply (nat_update _ xm n (enter n k m) k (Some m) I).
  - apply reverse_insert_ok; [apply I|done|done].
  - done.
  - intros m' [= <-]. split; [|done]. split; [done|done|]. intros a E. congruence.
  - intros rk k' Hne. change (reverse (enter n k m)) with (<[rev_of k (outside_port m) := k]> (reverse n)).
    destruct (decide (rev_of k (outside_port m) = rk)) as [<-|]; [|by rewrite lookup_insert_ne]. rewrite lookup_insert_eq, Hr. naive_solver.
  - intros rk. change (reverse (enter n k m)) with (<[rev_of k (outside_port m) := k]> (reverse n)).
    rewrite lookup_insert_Some. split.
    + intros [[<- _]|[Hne E]].
      * exists m. split_and!; [done|done|]. apply map_ports_elem. by left.
      * apply (ni_holder _ _ I) in E as (m' & E & _). congruence.
    + intros (m' & [= <-] & E1 & E2). apply map_ports_elem in E2 as [E2|(a & E2 & _)]; [|congruence]. left. split; [|done].
      symmetry. by apply rev_of_eq.
  - rewrite Hk. cbn [of_opt]. eapply quota_inv_ext; [| |exact (ni_quota _ _ I)].
    + intros P. cbn beta. destruct m as [k' p t ps b u a]. cbn in *. subst. lia.
    + intros P. cbn beta. destruct m as [k' p t ps b u a]. cbn in *. subst. unfold npeers. rewrite map_size_empty. lia.
Qed.

Record frame (n n' : NatInner) : Prop := {
  fr_forwards : by_port (tables n') = by_port (tables n);
  fr_exps : expectations (tables n') = expectations (tables n);
  fr_next : next_port n' = next_port n;
  fr_id : forward_id n' = forward_id n }.

Lemma frame_refl n : frame n n.
Proof. done. Qed.

Lemma frame_trans a b c : frame a b -> frame b c -> frame a c.
Proof. intros [H1 H2 H3 H4] [H5 H6 H7 H8]. split; congruence. Qed.

Lemma unbind_port_spec n k p :
  tables_ok (tables n) ->
  let n' := unbind_port n k p in
  tables_ok (tables n') /\ mappings n' = mappings n /\ quotas n' = quotas n /\ frame n n' /\
  (forall rk k', reverse n' !! rk = Some k' <-> reverse n !! rk = Some k' /\ ~ (k' = k /\ rk = rev_of k p)).
Proof.
  intros Ht n'. unfold n', unbind_port. case_bool_decide as E.
  - split_and!; [by apply reverse_remove_ok|done|done|done|]. intros rk k'. rewrite reverse_free, lookup_delete_Some. split.
    + intros [Hne E']. split; [done|]. intros [_ ->]. done.
    + intros [E' Hn]. split; [|done]. intros <-. apply Hn. split; [congruence|done].
  - split_and!; [done|done|done|done|]. intros rk k'. split; [|tauto]. intros E'. split; [done|]. intros [-> ->]. done.
Qed.

Lemma unbind_spec n k m :
  tables_ok (tables n) ->
  let n' := unbind n k m in
  tables_ok (tables n') /\ mappings n' = mappings n /\ quotas n' = quotas n /\ frame n n' /\
  (forall rk k', reverse n' !! rk = Some k' <-> reverse n !! rk = Some k' /\ ~ (k' = k /\ rk_proto rk = nk_proto k /\ rk_port rk ∈ map_ports m)).
Proof.
  intros Ht n'. unfold n', unbind, map_ports. cbn [foldl].
  destruct (unbind_port_spec n k (outside_port m) Ht) as (T1 & M1 & Q1 & F1 & R1). set (n1 := unbind_port n k (outside_port m)) in *. clearbody n1.
  destruct (alias m) as [a|] eqn:Ea; cbn [foldl].
  - destruct (unbind_port_spec n1 k (outside_port a) T1) as (T2 & M2 & Q2 & F2 & R2). split_and!; [done|congruence|congruence|by eapply frame_trans|].
    intros rk k'. rewrite R2, R1, !rev_of_eq, elem_of_cons, list_elem_of_singleton. naive_solver.
  - split_and!; try done. intros rk k'. rewrite R1, rev_of_eq, list_elem_of_singleton. naive_solver.
Qed.

(** ** Mappings removed *)

Lemma sides_alias P m : sides P m = sides P (with_alias m None) + of_opt (sides P) (alias m).
Proof. destruct m as [k p t ps b u a]. cbn. destruct a; cbn; lia. Qed.

Lemma tracked_alias P m : tracked P m = tracked P (with_alias m None) + of_opt (tracked P) (alias m).
Proof. destruct m as [k p t ps b u a]. cbn. destruct a; cbn; lia. Qed.

(** An entry changed and part of it dropped. *)
Lemma replace_drop xm n n1 k m o d :
  nat_inv xm n -> inflight_ok xm -> mappings n !! k = Some m ->
  tables_ok (tables n1) -> mappings n1 = put k o (mappings n) -> quotas n1 = quotas n ->
  (forall m', o = Some m' -> map_ok k m') ->
  (forall rk k', k' <> k -> reverse n1 !! rk = Some k' <-> reverse n !! rk = Some k') ->
  (forall rk, reverse n1 !! rk = Some k <-> holds k o rk) ->
  (forall P, sides P m = of_opt (sides P) o + sides P d) -> (forall P, tracked P m = of_opt (tracked P) o + tracked P d) ->
  nat_inv xm (drop n1 d).
Proof.
  intros I Hx Hk Ht Hm Hq Ho R1 R2 Hs Htr. destruct (ni_maps _ _ I k m Hk) as [_ Hpr].
  apply (nat_update xm xm n (drop n1 d) k o I); [done|done|intros m' E; split; [by apply Ho|done]|exact R1|exact R2|].
  rewrite Hk. cbn [of_opt]. unfold drop. cbn [quotas with_quotas]. rewrite Hq.
  apply drop_mapping_inv.
  - intros P. pose proof (if_nonneg _ Hx P). pose proof (msum_le (sides P) (mappings n) k m (fun k m _ => sides_nonneg P m) Hk).
    assert (0 <= of_opt (sides P) o) by (destruct o; [apply sides_nonneg|done]). lia.
  - eapply quota_inv_ext; [| |exact (ni_quota _ _ I)]; intros P; cbn beta; [rewrite Hs|rewrite Htr]; lia.
Qed.

Lemma delete_other (rev : gmap NatRevKey NatKey) rk k rk' k' : rev !! rk = Some k -> k' <> k -> delete rk rev !! rk' = Some k' <-> rev !! rk' = Some k'.
Proof. intros E Hne. rewrite lookup_delete_Some. split; [tauto|]. intros E'. split; [|done]. intros <-. congruence. Qed.

Lemma remove_mapping_at_inv xm n rk :
  nat_inv xm n -> inflight_ok xm ->
  let n' := remove_mapping_at n rk in
  nat_inv xm n' /\ frame n n' /\ reverse n' = delete rk (reverse n) /\ next_reclaim n' = next_reclaim n /\
  (forall k, reverse n !! rk <> Some k -> mappings n' !! k = mappings n !! k).
Proof.
  intros I Hx n'. unfold n', remove_mapping_at. destruct (reverse n !! rk) as [k|] eqn:Er.
  2:{ split_and!; try done. by rewrite delete_id. }
  pose proof (proj1 (ni_holder _ _ I rk k) Er) as (m & Em & Hpr & Hpt). change (mappings (free_port n rk)) with (mappings n). rewrite Em.
  destruct (ni_maps _ _ I k m Em) as [Hok _]. pose proof (mo_alias _ _ Hok) as Hal.
  assert (forall o, (forall m', o = Some m' -> map_ok k m') -> (forall p, (exists m', o = Some m' /\ p ∈ map_ports m') <-> p ∈ map_ports m /\ p <> rk_port rk) ->
    forall d, (forall P, sides P m = of_opt (sides P) o + sides P d) -> (forall P, tracked P m = of_opt (tracked P) o + tracked P d) ->
    let n2 := drop (with_mappings (free_port n rk) (put k o (mappings n))) d in
    nat_inv xm n2 /\ frame n n2 /\ reverse n2 = delete rk (reverse n) /\ next_reclaim n2 = next_reclaim n /\ (forall k', Some k <> Some k' -> mappings n2 !! k' = mappings n !! k')) as Hgen.
  { intros o Ho Hp d Hs Ht n2. split_and!; try done.
    - apply (replace_drop xm n (with_mappings (free_port n rk) (put k o (mappings n))) k m o d); try done.
      + apply reverse_remove_ok, I.
      + intros rk' k' Hne. by apply delete_other with (k := k).
      + intros rk'. change (reverse (with_mappings (free_port n rk) (put k o (mappings n)))) with (delete rk (reverse n)).
        rewrite lookup_delete_Some, (ni_holder _ _ I), Em. unfold holds. split.
        * intros [Hne (m' & [= <-] & E1 & E2)]. destruct (proj2 (Hp (rk_port rk'))) as (m' & E3 & E4).
          { split; [done|]. intros E3. apply Hne. destruct rk, rk'. cbn in *. congruence. }
          by exists m'.
        * intros (m' & E1 & E2 & E3). destruct (proj1 (Hp (rk_port rk'))) as [E4 E5]; [eauto|]. split; [|by exists m]. by intros ->.
    - intros k' Hne. cbn. rewrite lookup_put. destruct (decide (k' = k)) as [->|]; [done|done]. }
  apply map_ports_elem in Hpt. destruct (outside_port m =? rk_port rk) eqn:Eo; bool2prop.
  - destruct (alias m) as [a|] eqn:Ea.
    + destruct (Hal a eq_refl) as (A1 & A2 & A3 & A4). apply (Hgen (Some a)).
      * intros m' [= <-]. split; [done|done|]. intros a' Ea'. congruence.
      * intros p. rewrite map_ports_elem. setoid_rewrite map_ports_elem. rewrite Ea. naive_solver congruence.
      * intros P. rewrite sides_alias, Ea. cbn [of_opt]. lia.
      * intros P. rewrite tracked_alias, Ea. cbn [of_opt]. lia.
    + apply (Hgen None); [done| |cbn; lia|cbn; lia]. intros p. rewrite map_ports_elem, Ea. naive_solver congruence.
  - destruct (alias m) as [a|] eqn:Ea; [|destruct Hpt as [?|(? & ? & _)]; congruence].
    destruct (Hal a eq_refl) as (A1 & A2 & A3 & A4).
    assert ((outside_port a =? rk_port rk) = true) as -> by (apply Z.eqb_eq; destruct Hpt as [?|(? & [= <-] & ->)]; congruence).
    apply (Hgen (Some (with_alias m None))).
    + intros m' [= <-]. destruct Hok as [K1 K2 K3]. split; [done|done|done].
    + intros p. rewrite map_ports_elem. setoid_rewrite map_ports_elem. rewrite Ea. naive_solver congruence.
    + intros P. rewrite sides_alias, Ea. cbn [of_opt]. lia.
    + intros P. rewrite tracked_alias, Ea. cbn [of_opt]. lia.
Qed.

(** What a change leaves alone: every mapping but those named. *)
Lemma drop_forward_inv xm n rk :
  nat_inv xm n -> inflight_ok xm ->
  let n' := drop_forward n rk in
  nat_inv xm n' /\ by_port (tables n') = delete rk (by_port (tables n)) /\ expectations (tables n') = expectations (tables n) /\
  next_port n' = next_port n /\ forward_id n' = forward_id n /\ next_reclaim n' = next_reclaim n /\ reverse n' = delete rk (reverse n) /\
  (forall k, reverse n !! rk <> Some k -> mappings n' !! k = mappings n !! k).
Proof.
  intros I Hx n'. unfold n', drop_forward. destruct (forward_remove_fields (tables n) rk) as (E1 & E2 & E3).
  set (n1 := with_tables n (forward_remove (tables n) rk).1).
  assert (reverse n1 = reverse n) as Er by exact E1.
  assert (nat_inv xm n1) as I1.
  { destruct I as [I1 I2 I3 I4]. split; [by apply forward_remove_ok|done| |done]. intros rk' k. rewrite Er. apply I3. }
  destruct (remove_mapping_at_inv xm n1 rk I1 Hx) as (I2 & [F1 F2 F3 F4] & R & NR & K). split_and!; try done.
  - by rewrite F1.
  - by rewrite F2.
  - by rewrite R, Er.
  - intros k Hk. rewrite K; [done|]. by rewrite Er.
Qed.

(** ** Idle mappings *)

(** A side of a mapping that may go at [now]. *)
Definition dead (proto now : Z) (m : Mapping) : bool :=
  bool_decide (live_peers proto now (peers m) = ∅) && (sat_sub now (last_active m) >? base_timeout proto).

Definition pruned (proto now : Z) (m : Mapping) : Mapping := with_peers m (live_peers proto now (peers m)).

Lemma sides_peers P m ps : sides P (with_peers m ps) = sides P m.
Proof. by destruct m. Qed.

Lemma tracked_peers P m ps : tracked P (with_peers m ps) = tracked P m - (npeers (peers m) - npeers ps) * one_of (host_of (m_key m)) P.
Proof. destruct m as [k p t ps' b u a]. cbn. lia. Qed.

Lemma map_ok_peers k m ps : map_ok k m -> map_ok k (with_peers m ps).
Proof. intros [H1 H2 H3]. by split. Qed.

Lemma map_ok_alias_peers k m a ps : map_ok k m -> alias m = Some a -> map_ok k (with_alias m (Some (with_peers a ps))).
Proof. intros [H1 H2 H3] Ea. split; [done|done|]. intros a' [= <-]. cbn. by apply H3. Qed.

Lemma map_ok_no_alias k m : map_ok k m -> map_ok k (with_alias m None).
Proof. intros [H1 H2 H3]. by split. Qed.

(** The displaced side pruned, or gone. *)
Definition after_expire (proto now : Z) (m : Mapping) : Mapping :=
  match alias m with
  | None => m
  | Some a => if dead proto now a then with_alias m None else with_alias m (Some (pruned proto now a))
  end.

Definition expired_port (proto now : Z) (m : Mapping) : option Z :=
  match alias m with Some a => if dead proto now a then Some (outside_port a) else None | None => None end.

Lemma map_expire_inv tm tp q k m proto now :
  (forall P, 0 <= tm P) -> map_ok k m -> quota_inv (fun P => tm P + sides P m) (fun P => tp P + tracked P m) q ->
  let '(q', m', freed) := map_expire q m proto now in
  quota_inv (fun P => tm P + sides P m') (fun P => tp P + tracked P m') q' /\ m' = after_expire proto now m /\ freed = expired_port proto now m /\ map_ok k m'.
Proof.
  intros Htm Hok I. unfold map_expire, after_expire, expired_port. destruct (alias m) as [a|] eqn:Ea; [|done].
  pose proof (mo_alias _ _ Hok a Ea) as (A1 & A2 & A3 & A4). rewrite A1.
  assert (is_Some (hosts q !! host_of k)) as Hk.
  { apply (qi_known _ _ _ I). pose proof (Htm (hosts_of (host_of k))). pose proof (sides_self m) as Hs. rewrite (mo_key _ _ Hok) in Hs. lia. }
  pose proof (peers_expire_inv _ _ q (host_of k) (peers a) proto (last_active a) now I Hk) as K.
  destruct (peers_expire q (host_of k) (peers a) proto (last_active a) now) as [[q1 ps] idle]. destruct K as (K1 & K2 & -> & ->).
  change (bool_decide (live_peers proto now (peers a) = ∅) && _) with (dead proto now a). fold (pruned proto now a).
  assert (forall P, tracked P m - (npeers (peers a) - npeers (live_peers proto now (peers a))) * one_of (host_of k) P
    = tracked P (with_alias m None) + tracked P (pruned proto now a)) as Ht.
  { intros P. unfold pruned. rewrite tracked_peers, A1, (tracked_alias P m), Ea. cbn [of_opt]. lia. }
  destruct (dead proto now a).
  - split_and!; try done; [|by apply map_ok_no_alias]. apply drop_mapping_inv.
    + intros P. pose proof (Htm P). pose proof (sides_nonneg P (with_alias m None)). lia.
    + eapply quota_inv_ext; [| |exact K2]; intros P; cbn beta.
      * unfold pruned. rewrite sides_peers, (sides_alias P m), Ea. cbn [of_opt]. lia.
      * specialize (Ht P). lia.
  - split_and!; try done; [|by apply map_ok_alias_peers].
    eapply quota_inv_ext; [| |exact K2]; intros P; cbn beta.
    + rewrite (sides_alias P m), (sides_alias P (with_alias m (Some _))), Ea. cbn [of_opt alias with_alias]. unfold pruned. rewrite sides_peers. destruct m; cbn. lia.
    + specialize (Ht P). rewrite (tracked_alias P (with_alias m (Some (pruned proto now a)))). cbn [of_opt alias with_alias].
      replace (with_alias (with_alias m (Some (pruned proto now a))) None) with (with_alias m None) by done. lia.
Qed.

Lemma map_idle_inv tm tp q k m proto now :
  (forall P, 0 <= tm P) -> map_ok k m -> quota_inv (fun P => tm P + sides P m) (fun P => tp P + tracked P m) q ->
  let '(q', m', idle) := map_idle q m proto now in
  quota_inv (fun P => tm P + sides P m') (fun P => tp P + tracked P m') q' /\ map_ok k m' /\
  m' = (match alias m with Some _ => m | None => pruned proto now m end) /\ idle = (match alias m with Some _ => false | None => dead proto now m end).
Proof.
  intros Htm Hok I. unfold map_idle. destruct (alias m) as [a|] eqn:Ea; [done|]. rewrite (mo_key _ _ Hok).
  assert (is_Some (hosts q !! host_of k)) as Hk.
  { apply (qi_known _ _ _ I). pose proof (Htm (hosts_of (host_of k))). pose proof (sides_self m) as Hs. rewrite (mo_key _ _ Hok) in Hs. lia. }
  pose proof (peers_expire_inv _ _ q (host_of k) (peers m) proto (last_active m) now I Hk) as K.
  destruct (peers_expire q (host_of k) (peers m) proto (last_active m) now) as [[q1 ps] idle]. destruct K as (K1 & K2 & -> & ->).
  split_and!; try done; [|by apply map_ok_peers]. eapply quota_inv_ext; [| |exact K2]; intros P; cbn beta.
  - by rewrite sides_peers.
  - rewrite tracked_peers, (mo_key _ _ Hok). lia.
Qed.

(** What is left of a mapping once its idle parts have gone. *)
Definition survivor (proto now : Z) (m : Mapping) : option Mapping :=
  let m := after_expire proto now m in
  match alias m with
  | Some _ => Some m
  | None => if dead proto now m then None else Some (pruned proto now m)
  end.

Lemma after_expire_ports proto now m k : map_ok k m ->
  forall p, p ∈ map_ports (after_expire proto now m) <-> p ∈ map_ports m /\ expired_port proto now m <> Some p.
Proof.
  intros Hok p. unfold after_expire, expired_port. rewrite !map_ports_elem. destruct (alias m) as [a|] eqn:Ea; [|rewrite Ea; naive_solver].
  pose proof (mo_alias _ _ Hok a Ea) as (A1 & A2 & A3 & A4). destruct (dead proto now a); cbn; naive_solver congruence.
Qed.

Lemma unbind_reclaim n k m : next_reclaim (unbind n k m) = next_reclaim n.
Proof.
  unfold unbind. generalize (map_ports m). intros l. revert n. induction l as [|p l IH]; intros n; [done|].
  cbn [foldl]. rewrite IH. unfold unbind_port. by case_bool_decide.
Qed.

(** The displaced side's port is freed with it. *)
Lemma freed_spec xm n k m q now :
  nat_inv xm n -> mappings n !! k = Some m ->
  let n' := match expired_port (nk_proto k) now m with Some p => free_port (with_quotas n q) (rev_of k p) | None => with_quotas n q end in
  mappings n' = mappings n /\ quotas n' = q /\ frame n n' /\ next_reclaim n' = next_reclaim n /\ tables_ok (tables n') /\
  forall rk k', reverse n' !! rk = Some k' <->
    reverse n !! rk = Some k' /\ ~ (k' = k /\ rk_proto rk = nk_proto k /\ expired_port (nk_proto k) now m = Some (rk_port rk)).
Proof.
  intros I Em n'. unfold n'. clear n'. destruct (expired_port (nk_proto k) now m) as [p|] eqn:Ep.
  - split_and!; try done; [apply reverse_remove_ok, I|]. intros rk k'. rewrite reverse_free. change (reverse (with_quotas n q)) with (reverse n).
    assert (reverse n !! rev_of k p = Some k) as Ek.
    { apply (ni_holder _ _ I). exists m. split_and!; [done|done|]. cbn. unfold expired_port in Ep. apply map_ports_elem. destruct (alias m) as [a|]; [|done].
      destruct (dead (nk_proto k) now a); [|done]. injection Ep as <-. eauto. }
    rewrite lookup_delete_Some. split.
    + intros [Hne E]. split; [done|]. intros (-> & E1 & [= ->]). apply Hne. symmetry. by apply rev_of_eq.
    + intros [E Hn]. split; [|done]. intros <-. apply Hn. rewrite Ek in E. injection E as <-. done.
  - split_and!; try done; [apply I|]. intros rk k'. split; [|tauto]. intros E. split; [done|]. intros (_ & _ & ?). done.
Qed.

Lemma expire_mapping_inv xm n k now :
  nat_inv xm n -> inflight_ok xm ->
  let n' := expire_mapping n k now in
  nat_inv xm n' /\ frame n n' /\ next_reclaim n' = next_reclaim n /\
  mappings n' = (match mappings n !! k with Some m => put k (survivor (nk_proto k) now m) (mappings n) | None => mappings n end) /\
  (forall rk k', k' <> k -> reverse n' !! rk = Some k' <-> reverse n !! rk = Some k').
Proof.
  intros I Hx n'. unfold n', expire_mapping. destruct (mappings n !! k) as [m|] eqn:Em; [|done].
  destruct (ni_maps _ _ I k m Em) as [Hok Hpr]. set (proto := nk_proto k) in *.
  set (tm := fun P => msum (sides P) (mappings n) - sides P m + xm P). set (tp := fun P => msum (tracked P) (mappings n) - tracked P m).
  assert (forall P, 0 <= tm P) as Htm.
  { intros P. unfold tm. pose proof (if_nonneg _ Hx P). pose proof (msum_le (sides P) (mappings n) k m (fun k m _ => sides_nonneg P m) Em). lia. }
  assert (quota_inv (fun P => tm P + sides P m) (fun P => tp P + tracked P m) (quotas n)) as Hq0.
  { eapply quota_inv_ext; [| |exact (ni_quota _ _ I)]; intros P; unfold tm, tp; cbn beta; lia. }
  pose proof (map_expire_inv tm tp (quotas n) k m proto now Htm Hok Hq0) as K. destruct (map_expire (quotas n) m proto now) as [[q1 m1] freed].
  destruct K as (Q1 & -> & -> & Hok1). set (m1 := after_expire proto now m) in *.
  destruct (freed_spec xm n k m q1 now I Em) as (M1 & Q1' & F1 & C1 & T1 & R1). fold proto in M1, Q1', F1, C1, T1, R1.
  set (n1 := match expired_port proto now m with Some p => _ | None => _ end) in *.
  clearbody n1. rewrite Q1'. pose proof (map_idle_inv tm tp q1 k m1 proto now Htm Hok1 Q1) as K. destruct (map_idle q1 m1 proto now) as [[q2 m2] idle].
  destruct K as (Q2 & Hok2 & Em2 & Ei). 
  assert (map_ports m2 = map_ports m1) as Ep2 by (rewrite Em2; destruct (alias m1) eqn:E; [done|unfold map_ports, pruned; cbn; by rewrite E]).
  assert (forall rk, (reverse n !! rk = Some k /\ ~ (k = k /\ rk_proto rk = proto /\ expired_port proto now m = Some (rk_port rk))) <-> rk_proto rk = proto /\ rk_port rk ∈ map_ports m2) as Hhold.
  { intros rk. rewrite (ni_holder _ _ I), Em. unfold holds. rewrite Ep2. unfold m1. rewrite (after_expire_ports proto now m k Hok). naive_solver. }
  assert (survivor proto now m = if idle then None else Some m2) as Esur.
  { unfold survivor. fold m1. rewrite Em2, Ei. destruct (alias m1); [done|]. by destruct (dead proto now m1). }
  rewrite Esur. destruct idle.
  - set (n2 := with_quotas n1 q2). set (n3 := with_mappings n2 (delete k (mappings n2))).
    destruct (unbind_spec n3 k m2 T1) as (T4 & M4 & Q4 & F4 & R4). split_and!.
    + apply (nat_update xm xm n _ k None I).
      * exact T4.
      * change (mappings (drop ?a ?b)) with (mappings a). rewrite M4. cbn. by rewrite M1.
      * done.
      * intros rk k' Hne. change (reverse (drop ?a ?b)) with (reverse a). rewrite R4. change (reverse n3) with (reverse n1). rewrite R1. naive_solver.
      * intros rk. change (reverse (drop ?a ?b)) with (reverse a). rewrite R4. change (reverse n3) with (reverse n1). rewrite R1. rewrite Hhold. unfold holds. naive_solver.
      * rewrite Em. cbn [of_opt]. unfold drop. change (quotas (with_quotas ?a ?b)) with b. rewrite Q4. cbn [quotas n3 n2 with_mappings with_quotas]. apply drop_mapping_inv.
        -- intros P. specialize (Htm P). unfold tm in Htm. lia.
        -- eapply quota_inv_ext; [| |exact Q2]; intros P; unfold tm, tp; cbn beta; lia.
    + eapply frame_trans; [exact F1|]. destruct F4 as [F5 F6 F7 F8]. by split.
    + change (next_reclaim (drop ?a ?b)) with (next_reclaim a). rewrite unbind_reclaim. exact C1.
    + change (mappings (drop ?a ?b)) with (mappings a). rewrite M4. cbn. by rewrite M1.
    + intros rk k' Hne. change (reverse (drop ?a ?b)) with (reverse a). rewrite R4. change (reverse n3) with (reverse n1). rewrite R1. naive_solver.
  - split_and!.
    + apply (nat_update xm xm n _ k (Some m2) I).
      * exact T1.
      * cbn. by rewrite M1.
      * intros m' [= <-]. done.
      * intros rk k' Hne. cbn. change (reverse (with_mappings _ _)) with (reverse n1). rewrite R1. naive_solver.
      * intros rk. change (reverse (with_mappings _ _)) with (reverse n1). rewrite R1, Hhold. unfold holds. naive_solver.
      * rewrite Em. cbn [of_opt quotas with_mappings with_quotas]. eapply quota_inv_ext; [| |exact Q2]; intros P; unfold tm, tp; cbn beta; lia.
    + destruct F1 as [F5 F6 F7 F8]. by split.
    + exact C1.
    + cbn. by rewrite M1.
    + intros rk k' Hne. change (reverse (with_mappings _ _)) with (reverse n1). rewrite R1. naive_solver.
Qed.
