(* ===== verification/NatExpiry.v ===== *)
(** * Idle NAT mappings and lapsed forwards go, nothing else does ([src/src/nat/nat.rs])

    Expiry at a port, the sweep of every table, and the search for a port that
    runs the sweep when none is free.  Each keeps the invariant; what it
    leaves of the mappings is given exactly. *)

From S2P Require Import Prelude Bitmap Ports NatPorts NatRewrite NatTrack NatMap NatMapInv.

(** ** The tables changed and the mappings not *)

Lemma with_tables_inv xm n t :
  nat_inv xm n -> tables_ok t -> reverse_table t = reverse n -> nat_inv xm (with_tables n t).
Proof. intros [I1 I2 I3 I4] Ht Er. split; [done|done| |done]. intros rk k. change (reverse (with_tables n t)) with (reverse_table t). rewrite Er. apply I3. Qed.

Lemma retain_exps t keep : expectations (retain t keep) = List.filter keep (expectations t).
Proof.
  unfold retain. assert (forall l u, (retain_list keep l u).1 = List.filter keep l) as H.
  { induction l as [|e l IH]; intros u; [done|]. cbn. destruct (keep e); [|apply IH]. specialize (IH u). destruct (retain_list keep l u). cbn in *. by rewrite IH. }
  specialize (H (expectations t) (ports t)). by destruct (retain_list keep (expectations t) (ports t)).
Qed.

(** ** A port looked at *)

Lemma expire_port_inv xm n rk now :
  nat_inv xm n -> inflight_ok xm ->
  let n' := expire_port n rk now in
  nat_inv xm n' /\ expectations (tables n') = expectations (tables n) /\
  by_port (tables n') = (match by_port (tables n) !! rk with Some f => if lapsed (pf_expires f) now then delete rk (by_port (tables n)) else by_port (tables n) | None => by_port (tables n) end) /\
  next_port n' = next_port n /\ forward_id n' = forward_id n /\
  (forall k, reverse n !! rk <> Some k -> mappings n' !! k = mappings n !! k) /\
  (reverse n !! rk = None -> reverse n' !! rk = None).
Proof.
  intros I Hx n'. unfold n', expire_port. clear n'.
  set (n1 := match by_port (tables n) !! rk with Some f => _ | None => n end).
  assert (nat_inv xm n1 /\ expectations (tables n1) = expectations (tables n) /\ next_port n1 = next_port n /\ forward_id n1 = forward_id n /\
    by_port (tables n1) = (match by_port (tables n) !! rk with Some f => if lapsed (pf_expires f) now then delete rk (by_port (tables n)) else by_port (tables n) | None => by_port (tables n) end) /\
    (n1 = n \/ reverse n1 !! rk = None) /\ (forall k, reverse n !! rk <> Some k -> mappings n1 !! k = mappings n !! k)) as (I1 & E1 & X1 & D1 & B1 & R1 & M1).
  { unfold n1. destruct (by_port (tables n) !! rk) as [f|] eqn:Ef; [|split_and!; auto]. destruct (lapsed (pf_expires f) now); [|split_and!; auto].
    destruct (drop_forward_inv xm n rk I Hx) as (J1 & J2 & J3 & J4 & J5 & _ & J6 & J7). fold (drop_forward n rk).
    split_and!; try done. right. by rewrite J6, lookup_delete_eq. }
  clearbody n1. destruct (reverse n1 !! rk) as [k|] eqn:Er.
  - destruct R1 as [->|R1]; [|congruence]. destruct (expire_mapping_inv xm n k now I1 Hx) as (J1 & [F1 F2 F3 F4] & _ & J2 & J3).
    split_and!; try done; try congruence. intros k' Hne. rewrite J2. destruct (mappings n !! k); [|done]. rewrite lookup_put. rewrite decide_False by congruence. done.
  - by split_and!.
Qed.

(** ** The sweep *)

(** Each mapping is looked at on its own. *)
Lemma expire_all xm now l : forall n,
  NoDup l -> nat_inv xm n -> inflight_ok xm ->
  let n' := foldl (fun n k => expire_mapping n k now) n l in
  nat_inv xm n' /\ frame n n' /\ next_reclaim n' = next_reclaim n /\
  (forall k, mappings n' !! k = if decide (k ∈ l) then mappings n !! k ≫= survivor (nk_proto k) now else mappings n !! k).
Proof.
  induction l as [|k0 l IH]; intros n Hnd I Hx.
  - by cbn; split_and!.
  - apply list.NoDup_cons in Hnd as [Hn Hnd]. cbn [foldl]. destruct (expire_mapping_inv xm n k0 now I Hx) as (J1 & J2 & J3 & J4 & _).
    destruct (IH _ Hnd J1 Hx) as (K1 & K2 & K3 & K4). split_and!; [done|by eapply frame_trans|congruence|]. intros k. rewrite K4, J4.
    assert (forall m, mappings n !! k0 = m -> (match m with Some m => put k0 (survivor (nk_proto k0) now m) (mappings n) | None => mappings n end) !! k
      = if decide (k = k0) then m ≫= survivor (nk_proto k0) now else mappings n !! k) as Hl.
    { intros [m|] Em; [by rewrite lookup_put|]. case_decide; [subst; by rewrite Em|done]. }
    rewrite (Hl _ eq_refl). destruct (decide (k = k0)) as [->|Hne].
    + rewrite (decide_False (P := k0 ∈ l)) by done. rewrite decide_True by apply list_elem_of_here. done.
    + destruct (decide (k ∈ l)) as [Hk|Hk].
      * rewrite decide_True by (by apply list_elem_of_further). done.
      * rewrite decide_False; [done|]. intros [|]%elem_of_cons; done.
Qed.

(** Forwards dropped one by one take the mappings on their ports. *)
Lemma drop_forwards xm l : forall n,
  nat_inv xm n -> inflight_ok xm ->
  let n' := foldl drop_forward n l in
  nat_inv xm n' /\ expectations (tables n') = expectations (tables n) /\ next_port n' = next_port n /\ forward_id n' = forward_id n /\ next_reclaim n' = next_reclaim n /\
  (forall rk, by_port (tables n') !! rk = if decide (rk ∈ l) then None else by_port (tables n) !! rk) /\
  (forall rk, reverse n' !! rk = if decide (rk ∈ l) then None else reverse n !! rk) /\
  (forall k, (forall rk, rk ∈ l -> reverse n !! rk <> Some k) -> mappings n' !! k = mappings n !! k).
Proof.
  induction l as [|rk0 l IH]; intros n I Hx.
  - cbn. split_and!; try done; intros rk; by rewrite decide_False by apply not_elem_of_nil.
  - cbn [foldl]. destruct (drop_forward_inv xm n rk0 I Hx) as (J1 & J2 & J3 & J4 & J5 & J6 & J7 & J8).
    destruct (IH _ J1 Hx) as (K1 & K2 & K3 & K4 & K5 & K6 & K7 & K8).
    assert (forall {A} (m : gmap NatRevKey A) rk, (if decide (rk ∈ l) then None else delete rk0 m !! rk) = if decide (rk ∈ rk0 :: l) then None else m !! rk) as Hd.
    { intros A m rk. destruct (decide (rk ∈ l)) as [Hk|Hk]; [by rewrite decide_True by (by apply list_elem_of_further)|].
      destruct (decide (rk = rk0)) as [->|Hne].
      - rewrite lookup_delete_eq, decide_True by apply list_elem_of_here. done.
      - rewrite lookup_delete_ne, decide_False by (done || intros [|]%elem_of_cons; done). done. }
    split_and!; try done; try congruence.
    + intros rk. rewrite K6, J2. apply Hd.
    + intros rk. rewrite K7, J7. apply Hd.
    + intros k Hk. rewrite K8, J8; [done|apply Hk, list_elem_of_here|]. intros rk Hrk. rewrite J7, lookup_delete_Some. intros [_ E].
      by apply (Hk rk); [apply list_elem_of_further|].
Qed.

Lemma survivor_ports k now m m' : map_ok k m -> survivor (nk_proto k) now m = Some m' -> forall p, p ∈ map_ports m' -> p ∈ map_ports m.
Proof.
  intros Hok. unfold survivor. pose proof (after_expire_ports (nk_proto k) now m k Hok) as Hp.
  destruct (alias (after_expire (nk_proto k) now m)) as [a|] eqn:Ea.
  - intros [= <-] p Hin. by apply Hp.
  - destruct (dead _ _ _); [done|]. intros [= <-] p Hin. apply Hp. unfold map_ports, pruned in Hin |- *. cbn in Hin. done.
Qed.

(** Hosts nothing refers to go, with the namespaces nothing refers to. *)
Lemma prune_quotas xm n pinned :
  nat_inv xm n -> inflight_ok xm -> (forall h, xm (hosts_of h) <> 0 -> pinned = Some h) ->
  nat_inv xm (with_quotas n (retain_namespaces (retain_hosts (quotas n) (referred (mappings n) pinned)))).
Proof.
  intros I Hx Hp. apply (with_quotas_inv xm); [done|]. apply retain_namespaces_inv, retain_hosts_inv; [apply I|].
  intros h Hr. destruct (decide (xm (hosts_of h) = 0)) as [E0|E0]; [|exfalso; enough (referred (mappings n) pinned h = true) by congruence; apply referred_spec; left; auto].
  rewrite E0, Z.add_0_r. apply msum_zero. intros k m E. destruct (ni_maps _ _ I k m E) as [Hok _]. rewrite (sides_ok k) by done. unfold one_of, hosts_of.
  case_bool_decide as Eh; [|lia]. exfalso. enough (referred (mappings n) pinned h = true) by congruence. apply referred_spec. right. eauto.
Qed.

Lemma expire_locked_inv xm n pinned now :
  nat_inv xm n -> inflight_ok xm -> (forall h, xm (hosts_of h) <> 0 -> pinned = Some h) ->
  let n' := expire_locked n pinned now in
  nat_inv xm n' /\ next_port n' = next_port n /\ forward_id n' = forward_id n /\ next_reclaim n' = next_reclaim n /\
  expectations (tables n') = List.filter (fun e => now <=? ex_expires e) (expectations (tables n)) /\
  (forall rk, by_port (tables n') !! rk = f ← by_port (tables n) !! rk; if lapsed (pf_expires f) now then None else Some f) /\
  (forall rk k, reverse n' !! rk = Some k -> reverse n !! rk = Some k) /\
  (forall k, mappings n !! k = None -> mappings n' !! k = None) /\
  (forall k m, mappings n !! k = Some m ->
     (forall p f, p ∈ map_ports m -> by_port (tables n) !! rev_of k p = Some f -> lapsed (pf_expires f) now = false) ->
     mappings n' !! k = survivor (nk_proto k) now m).
Proof.
  intros I Hx Hp n'. unfold n', expire_locked. clear n'.
  destruct (expire_all xm now (map_to_list (mappings n)).*1 n (NoDup_fst_map_to_list _) I Hx) as (I1 & [A1 A2 A3 A4] & A5 & A6).
  set (n1 := foldl _ n _) in *. clearbody n1.
  assert (forall k, mappings n1 !! k = mappings n !! k ≫= survivor (nk_proto k) now) as M1.
  { intros k. rewrite A6. case_decide as Hk; [done|]. destruct (mappings n !! k) as [m|] eqn:E; [|done]. exfalso. apply Hk.
    apply list_elem_of_fmap. exists (k, m). split; [done|by apply elem_of_map_to_list]. }
  destruct (retain_ok (tables n1) (fun e => now <=? ex_expires e) (ni_tables _ _ I1)) as (B1 & B2 & B3).
  set (n2 := with_tables n1 _). assert (nat_inv xm n2) as I2 by (by apply with_tables_inv).
  change (by_port (tables n2)) with (by_port (retain (tables n1) (fun e => now <=? ex_expires e))). rewrite B3, A1.
  set (gone := filter _ _).
  destruct (drop_forwards xm gone.*1 n2 I2 Hx) as (I3 & C1 & C2 & C3 & C4 & C5 & C6 & C7). set (n3 := foldl drop_forward n2 _) in *. clearbody n3.
  change (next_port n2) with (next_port n1) in C2. change (forward_id n2) with (forward_id n1) in C3. change (next_reclaim n2) with (next_reclaim n1) in C4.
  assert (forall rk, rk ∈ gone.*1 <-> exists f, by_port (tables n) !! rk = Some f /\ lapsed (pf_expires f) now = true) as Hgone.
  { intros rk. unfold gone. rewrite list_elem_of_fmap. split.
    - intros ([rk' f] & -> & [E1 E2]%list_elem_of_filter). exists f. split; [by apply elem_of_map_to_list|done].
    - intros (f & E1 & E2). exists (rk, f). split; [done|]. apply list_elem_of_filter. split; [done|by apply elem_of_map_to_list]. }
  assert (forall rk k, reverse n1 !! rk = Some k -> reverse n !! rk = Some k) as R1.
  { intros rk k E. apply (ni_holder _ _ I1) in E as (m' & E1 & E2 & E3). rewrite M1 in E1. destruct (mappings n !! k) as [m|] eqn:Em; [|done].
    apply (ni_holder _ _ I). exists m. split_and!; [done|done|]. cbn in E1. eapply survivor_ports; [|exact E1|done]. by apply (ni_maps _ _ I). }
  split_and!.
  - by apply prune_quotas.
  - cbn. congruence.
  - cbn. congruence.
  - cbn. congruence.
  - cbn. rewrite C1. cbn [tables n2 with_tables]. by rewrite retain_exps, A2.
  - intros rk. cbn. rewrite C5. cbn [tables n2 with_tables]. rewrite B3, A1. case_decide as Hg.
    + apply Hgone in Hg as (f & -> & Hl). cbn. by rewrite Hl.
    + destruct (by_port (tables n) !! rk) as [f|] eqn:Ef; [|done]. cbn. destruct (lapsed (pf_expires f) now) eqn:El; [|done]. exfalso. apply Hg, Hgone. eauto.
  - intros rk k. change (reverse (with_quotas n3 _)) with (reverse n3). rewrite C6. case_decide; [done|]. change (reverse n2) with (reverse_table (retain (tables n1) (fun e => now <=? ex_expires e))).
    rewrite B2. apply R1.
  - intros k Ek. cbn. destruct (mappings n3 !! k) as [m|] eqn:E3; [|done]. exfalso.
    destruct (ni_maps _ _ I3 k m E3) as [Hok _]. assert (reverse n3 !! rev_of k (outside_port m) = Some k) as E.
    { apply (ni_holder _ _ I3). exists m. split_and!; [done|done|]. apply map_ports_elem. by left. }
    rewrite C6 in E. case_decide; [done|]. change (reverse n2) with (reverse_table (retain (tables n1) (fun e => now <=? ex_expires e))) in E. rewrite B2 in E.
    apply R1, (ni_holder _ _ I) in E as (m' & E & _). congruence.
  - intros k m Ek Hf. cbn. rewrite C7; [cbn; by rewrite M1, Ek|]. intros rk Hg%Hgone E. destruct Hg as (f & E1 & E2).
    change (reverse n2) with (reverse_table (retain (tables n1) (fun e => now <=? ex_expires e))) in E. rewrite B2 in E. apply R1 in E.
    apply (ni_holder _ _ I) in E as (m' & E & E3 & E4). assert (m' = m) as -> by congruence.
    rewrite (Hf (rk_port rk) f) in E2; [done|done|]. rewrite <- E1. f_equal. symmetry. by apply rev_of_eq.
Qed.

(** ** What the sweep leaves of a mapping *)

(** A mapping once the ports [gone] are taken from it: the displaced side
    takes over when the other one goes. *)
Definition shed (gone : Z -> bool) (m : Mapping) : option Mapping :=
  match alias m with
  | None => if gone (outside_port m) then None else Some m
  | Some a =>
      if gone (outside_port m) then if gone (outside_port a) then None else Some a
      else Some (if gone (outside_port a) then with_alias m None else m)
  end.

Lemma shed_ext f g m : (forall p, p ∈ map_ports m -> f p = g p) -> shed f m = shed g m.
Proof.
  intros H. unfold shed. rewrite (H (outside_port m)) by (apply map_ports_elem; by left). destruct (alias m) as [a|] eqn:E; [|done].
  by rewrite (H (outside_port a)) by (apply map_ports_elem; right; eauto).
Qed.

Lemma shed_id m : shed (fun _ => false) m = Some m.
Proof. unfold shed. by destruct (alias m). Qed.

Lemma shed_shed f g k m : map_ok k m -> shed f m ≫= shed g = shed (fun p => f p || g p) m.
Proof.
  intros Hok. unfold shed at 2 3. destruct (alias m) as [a|] eqn:E.
  - destruct (mo_alias _ _ Hok a E) as (_ & A & _). destruct (f (outside_port m)), (f (outside_port a)); cbn [orb mbind option_bind]; unfold shed; cbn [alias with_alias outside_port]; rewrite ?A, ?E; try done.
  - destruct (f (outside_port m)); [done|]. cbn [orb mbind option_bind]. unfold shed. by rewrite E.
Qed.

Lemma remove_mapping_at_shed xm n rk k :
  nat_inv xm n -> mappings (remove_mapping_at n rk) !! k = mappings n !! k ≫= shed (fun p => bool_decide (rev_of k p = rk)).
Proof.
  intros I. unfold remove_mapping_at.
  assert (reverse n !! rk <> Some k -> mappings n !! k = mappings n !! k ≫= shed (fun p => bool_decide (rev_of k p = rk))) as Hother.
  { intros Hne. destruct (mappings n !! k) as [m|] eqn:Em; [|done]. cbn. symmetry. rewrite <- (shed_id m). apply shed_ext. intros p Hp. apply bool_decide_eq_false. intros <-.
    apply Hne, (ni_holder _ _ I). by exists m. }
  destruct (reverse n !! rk) as [k'|] eqn:Er; [|by apply Hother]. change (mappings (free_port n rk)) with (mappings n).
  pose proof (proj1 (ni_holder _ _ I rk k') Er) as (m & Em & Hpr & Hpt). rewrite Em. destruct (ni_maps _ _ I k' m Em) as [Hok _].
  assert (forall p, bool_decide (rev_of k' p = rk) = (p =? rk_port rk)) as Hb.
  { intros p. destruct (Z.eqb_spec p (rk_port rk)) as [->|Hne]; [apply bool_decide_eq_true|apply bool_decide_eq_false]; [symmetry; by apply rev_of_eq|].
    intros E. symmetry in E. apply rev_of_eq in E as [_ E]. congruence. }
  destruct (decide (k = k')) as [->|Hne].
  - rewrite Em. cbn [mbind option_bind]. unfold shed. rewrite !Hb. destruct (alias m) as [a|] eqn:Ea.
    + destruct (mo_alias _ _ Hok a Ea) as (_ & _ & _ & A). destruct (Z.eqb_spec (outside_port m) (rk_port rk)) as [E|E].
      * cbn. rewrite lookup_insert_eq, Hb. by replace (outside_port a =? rk_port rk) with false by lia.
      * rewrite Hb. destruct (outside_port a =? rk_port rk); cbn; [apply lookup_insert_eq|done].
    + apply map_ports_elem in Hpt as [E|(a & E & _)]; [|congruence]. replace (outside_port m =? rk_port rk) with true by lia. cbn. apply lookup_delete_eq.
  - rewrite <- Hother by congruence. destruct (outside_port m =? rk_port rk), (alias m) as [a|]; cbn; rewrite ?lookup_insert_ne, ?lookup_delete_ne by done; try done.
    destruct (outside_port a =? rk_port rk); cbn; [by rewrite lookup_insert_ne|done].
Qed.

Lemma drop_forwards_shed xm l : forall n, nat_inv xm n -> inflight_ok xm ->
  forall k, mappings (foldl drop_forward n l) !! k = mappings n !! k ≫= shed (fun p => bool_decide (rev_of k p ∈ l)).
Proof.
  induction l as [|rk l IH]; intros n I Hx k; cbn [foldl].
  - destruct (mappings n !! k) as [m|]; [|done]. cbn. symmetry. rewrite <- (shed_id m). apply shed_ext. intros p _. apply bool_decide_eq_false, not_elem_of_nil.
  - destruct (drop_forward_inv xm n rk I Hx) as (J1 & _). rewrite (IH _ J1 Hx k). unfold drop_forward. set (n1 := with_tables n _).
    assert (nat_inv xm n1) as I1. { apply with_tables_inv; [done|by apply forward_remove_ok, I|]. by destruct (forward_remove_fields (tables n) rk) as (E & _). }
    rewrite (remove_mapping_at_shed xm n1 rk k I1). change (mappings n1) with (mappings n). destruct (mappings n !! k) as [m|] eqn:Em; [|done]. cbn [mbind option_bind].
    destruct (ni_maps _ _ I k m Em) as [Hok _]. rewrite (shed_shed _ _ k m Hok). apply shed_ext. intros p _. rewrite (bool_decide_ext (rev_of k p ∈ rk :: l) _ (elem_of_cons _ _ _)).
    symmetry. apply bool_decide_or.
Qed.

(** The port of a forward that has lapsed. *)
Definition forward_lapsed (n : NatInner) (k : NatKey) (now p : Z) : bool :=
  match by_port (tables n) !! rev_of k p with Some f => lapsed (pf_expires f) now | None => false end.

Lemma expire_locked_mappings xm n pinned now :
  nat_inv xm n -> inflight_ok xm ->
  forall k, mappings (expire_locked n pinned now) !! k = (mappings n !! k ≫= survivor (nk_proto k) now) ≫= shed (forward_lapsed n k now).
Proof.
  intros I Hx k. unfold expire_locked. cbn zeta. cbn [mappings with_quotas].
  destruct (expire_all xm now (map_to_list (mappings n)).*1 n (NoDup_fst_map_to_list _) I Hx) as (I1 & [A1 _ _ _] & _ & A6). set (n1 := foldl _ n _) in *. clearbody n1.
  destruct (retain_ok (tables n1) (fun e => now <=? ex_expires e) (ni_tables _ _ I1)) as (B1 & B2 & B3).
  set (n2 := with_tables n1 _). assert (nat_inv xm n2) as I2 by (by apply with_tables_inv).
  change (by_port (tables n2)) with (by_port (retain (tables n1) (fun e => now <=? ex_expires e))). rewrite B3, A1.
  rewrite (drop_forwards_shed xm _ n2 I2 Hx k). change (mappings n2) with (mappings n1).
  assert (mappings n1 !! k = mappings n !! k ≫= survivor (nk_proto k) now) as ->.
  { rewrite A6. case_decide as Hk; [done|]. destruct (mappings n !! k) as [m|] eqn:E; [|done]. exfalso. apply Hk.
    apply list_elem_of_fmap. exists (k, m). split; [done|by apply elem_of_map_to_list]. }
  destruct (mappings n !! k ≫= survivor (nk_proto k) now) as [m|]; [|done]. cbn [mbind option_bind]. apply shed_ext. intros p _. unfold forward_lapsed.
  destruct (by_port (tables n) !! rev_of k p) as [f|] eqn:Ef; [destruct (lapsed (pf_expires f) now) eqn:El; [apply bool_decide_eq_true|]|]; [|apply bool_decide_eq_false..].
  - apply list_elem_of_fmap. exists (rev_of k p, f). split; [done|]. apply list_elem_of_filter. split; [done|by apply elem_of_map_to_list].
  - intros ([rk f'] & E0 & [E1 E2]%list_elem_of_filter)%list_elem_of_fmap. cbn in E0. subst rk. apply elem_of_map_to_list in E2. congruence.
  - intros ([rk f'] & E0 & [E1 E2]%list_elem_of_filter)%list_elem_of_fmap. cbn in E0. subst rk. apply elem_of_map_to_list in E2. congruence.
Qed.

(** The sides of a mapping: itself and the one it displaced. *)
Definition is_side (m s : Mapping) : Prop := s = m \/ alias m = Some s.

(** A side that is not dead outlives the sweep with its live remotes, unless
    its port was a lapsed forward's. *)
Lemma side_survives proto now gone m s :
  is_side m s -> dead proto now s = false -> gone (outside_port s) = false ->
  exists m' s', survivor proto now m ≫= shed gone = Some m' /\ is_side m' s' /\ outside_port s' = outside_port s /\
    forall peer x, live_peers proto now (peers s) !! peer = Some x -> peers s' !! peer = Some x.
Proof.
  intros Hs Hd Hg. assert (forall peer x, live_peers proto now (peers s) !! peer = Some x -> peers s !! peer = Some x) as Hx.
  { intros peer x Hl. by apply map_lookup_filter_Some in Hl as [? _]. }
  unfold survivor, after_expire, is_side. destruct Hs as [->|Ea].
  - destruct (alias m) as [a|] eqn:Ea.
    + destruct (dead proto now a); cbn [alias with_alias].
      * change (dead proto now (with_alias m None)) with (dead proto now m). rewrite Hd. cbn. unfold shed. cbn. rewrite Hg. eexists _, _. split; [done|]. split; [by left|done].
      * cbn. unfold shed. cbn. rewrite Hg. destruct (gone (outside_port a)); eexists _, _; (split; [done|]; split; [by left|done]).
    + rewrite Ea, Hd. cbn. unfold shed. cbn. rewrite Ea, Hg. eexists _, _. split; [done|]. split; [by left|done].
  - rewrite Ea, Hd. cbn [alias with_alias mbind option_bind]. unfold shed. cbn. rewrite Hg. destruct (gone (outside_port m)); eexists _, (pruned proto now s); (split; [done|]; split; [|done]); [by left|by right].
Qed.

(** A mapping with nothing live goes. *)
Lemma dead_goes proto now m : (forall s, is_side m s -> dead proto now s = true) -> survivor proto now m = None.
Proof.
  intros H. unfold survivor, after_expire. destruct (alias m) as [a|] eqn:Ea.
  - rewrite (H a (or_intror Ea)). cbn [alias with_alias]. change (dead proto now (with_alias m None)) with (dead proto now m). by rewrite (H m (or_introl eq_refl)).
  - rewrite Ea. by rewrite (H m (or_introl eq_refl)).
Qed.

(** ** Ports for new mappings *)

(** No protocol's mapping, forward or expectation has the port. *)
Definition unheld (t : Tables) (p : Z) : Prop :=
  (forall rk, rk_port rk = p -> reverse_table t !! rk = None /\ by_port t !! rk = None) /\ Forall (fun e => ex_outside_port e <> p) (expectations t).

Lemma is_free_unheld t p : tables_ok t -> port_ok p -> is_free (ports t) p = true <-> unheld t p.
Proof.
  intros [I _] Hp. rewrite (is_free_spec (hold t)) by (done || apply I). unfold hold, unheld.
  pose proof (held_in_nonneg (reverse_table t) p). pose proof (held_in_nonneg (by_port t) p). pose proof (exp_held_nonneg (expectations t) p).
  pose proof (held_in_pos (reverse_table t) p) as P1. pose proof (held_in_pos (by_port t) p) as P2. pose proof (exp_held_pos (expectations t) p) as P3.
  rewrite Z.eqb_eq. split.
  - intros E. split.
    + intros rk Hrk. split; apply eq_None_not_Some; intros [x Hx'].
      * enough (0 < held_in (reverse_table t) p) by lia. apply P1. by exists rk, x.
      * enough (0 < held_in (by_port t) p) by lia. apply P2. by exists rk, x.
    + apply list.Forall_forall. intros e He Hep. enough (0 < exp_held (expectations t) p) by lia. apply P3. eauto.
  - intros [H3 H4]. assert (~ 0 < held_in (reverse_table t) p).
    { intros (rk & x & E1 & E2)%P1. destruct (H3 rk E2) as [E3 _]. congruence. }
    assert (~ 0 < held_in (by_port t) p).
    { intros (rk & x & E1 & E2)%P2. destruct (H3 rk E2) as [_ E3]. congruence. }
    assert (~ 0 < exp_held (expectations t) p).
    { intros (e & E1 & E2)%P3. rewrite list.Forall_forall in H4. by apply (H4 e). }
    lia.
Qed.

Definition chosen (want : Z) (t : Tables) (p : Z) : Prop :=
  port_ok p /\ unheld t p /\ ((PRESERVE_MIN <= p /\ p = want) \/ NAT_PORT_MIN <= p <= NAT_PORT_MAX).
Definition chosen_pair (t : Tables) (p : Z) : Prop := NAT_PORT_MIN <= p /\ p + 1 <= NAT_PORT_MAX /\ Z.even p = true /\ unheld t p /\ unheld t (p + 1).

(** Every port of the dynamic range is held. *)
Definition exhausted (t : Tables) : Prop := forall p, NAT_PORT_MIN <= p <= NAT_PORT_MAX -> ~ unheld t p.
Definition no_pair (t : Tables) : Prop :=
  forall p, NAT_PORT_MIN <= p -> p + 1 <= NAT_PORT_MAX -> Z.even p = true -> ~ (unheld t p /\ unheld t (p + 1)).

Definition scan_ok (scan : NatInner -> NatInner * option Z) (ok : Tables -> Z -> Prop) (full : Tables -> Prop) : Prop :=
  forall n, tables_ok (tables n) ->
  let '(n', o) := scan n in
  (exists p, n' = with_next n p) /\ match o with Some p => ok (tables n) p | None => full (tables n) end.

Lemma pool_port_ok p : NAT_PORT_MIN <= p <= NAT_PORT_MAX -> port_ok p.
Proof. unfold port_ok, NAT_PORT_MIN, NAT_PORT_MAX. change PORTS with 65536. lia. Qed.

Lemma scan_port_ok want : port_ok want -> scan_ok (fun n => scan_port n want) (chosen want) exhausted.
Proof.
  intros Hw n Ht. pose proof (choose_spec (hold (tables n)) (ports (tables n)) want (next_port n) (ti_use _ (proj1 Ht)) Hw) as C. cbn zeta in C.
  assert (forall p, in_pool (ports (tables n)) p = true <-> NAT_PORT_MIN <= p <= NAT_PORT_MAX) as Hin.
  { intros p. unfold in_pool. rewrite (ts_pool _ (proj2 Ht)). cbn. lia. }
  pose proof pool_port_ok as Hrange. unfold scan_port. destruct (choose _ _ _) as [p|].
  - destruct C as [C1 C2].
    assert ((PRESERVE_MIN <= p /\ p = want) \/ NAT_PORT_MIN <= p <= NAT_PORT_MAX) as Hor.
    { destruct (PRESERVE_MIN <=? want) eqn:E1; cbn [andb] in C2; [|right; apply Hin, C2]. destruct (is_free (ports (tables n)) want); [left; lia|right; apply Hin, C2]. }
    assert (port_ok p) as Hp by (destruct Hor as [[_ ->]|?]; auto).
    split; [|split; [done|split; [by apply is_free_unheld|done]]]. destruct (negb _ && _ && _); [eexists; reflexivity|]. exists (next_port n). by destruct n.
  - split; [exists (next_port n); by destruct n|]. intros p Hp Hu. apply is_free_unheld in Hu; [|done|auto].
    rewrite (proj2 C p) in Hu by (by apply Hin). done.
Qed.

(** With no port left of a parity there is no pair. *)
Lemma no_parity t b : tables_ok t -> pool_free (ports t) (Some b) = 0 ->
  forall p, NAT_PORT_MIN <= p <= NAT_PORT_MAX -> Z.odd p = b -> ~ unheld t p.
Proof.
  intros Ht Hz p Hp Hb Hu. pose proof (ts_pool _ (proj2 Ht)) as Hpool. pose proof (pool_port_ok p Hp) as Hok.
  apply is_free_unheld in Hu; [|done|done]. pose proof (ti_use _ (proj1 Ht)) as I. rewrite (is_free_spec (hold t)) in Hu by done.
  cbn [pool_free] in Hz. rewrite (pi_free _ _ I b), Hpool in Hz.
  eapply (count_zero (hold t) (NAT_PORT_MIN, NAT_PORT_MAX) b); [exact Hz|exact Hp|exact Hb|lia].
Qed.

Lemma scan_pair_ok : scan_ok scan_pair chosen_pair no_pair.
Proof.
  intros n Ht. unfold scan_pair. assert (exists p, n = with_next n p) as Hn by (exists (next_port n); by destruct n).
  pose proof pool_port_ok as Hrange. destruct (_ || _) eqn:Ez.
  { split; [done|]. intros p H1 H2 He [U1 U2]. apply orb_prop in Ez as [Ez|Ez]; bool2prop.
    - apply (no_parity (tables n) false Ht Ez p); [lia| |done]. by rewrite <- Z.negb_even, He.
    - apply (no_parity (tables n) true Ht Ez (p + 1)); [lia| |done]. rewrite Z.add_1_r, Z.odd_succ. done. }
  rewrite (proj2 (port_search_is_scan (hold (tables n)) (ports (tables n)) NAT_PORT_MIN NAT_PORT_MAX (next_port n) None (ti_use _ (proj1 Ht)) ltac:(done) ltac:(done))).
  destruct (first_of _ _) as [p|] eqn:Ef.
  - apply first_of_some in Ef as [E1 E2]. apply rotation_elem in E1; [|done]. bool2prop. split; [by eexists|].
    split_and!; [lia|lia|done|apply is_free_unheld; auto|apply is_free_unheld; auto]. apply Hrange. lia.
  - split; [done|]. intros p H1 H2 He [U1 U2]. pose proof (first_of_complete _ _ Ef p) as K. cbv beta in K.
    apply is_free_unheld in U1, U2; try done; try (apply Hrange; lia). rewrite U1, U2, He in K.
    replace (p + 1 <=? NAT_PORT_MAX) with true in K by lia. discriminate K. apply rotation_elem; [done|lia].
Qed.

(** What the search for a port may have swept away on its way. *)
Record settled (t t' : Z) (n n' : NatInner) : Prop := {
  st_new : forall k, mappings n !! k = None -> mappings n' !! k = None;
  st_reverse : forall rk k, reverse n' !! rk = Some k -> reverse n !! rk = Some k;
  st_map : forall k m, mappings n !! k = Some m ->
    (forall p f, p ∈ map_ports m -> by_port (tables n) !! rev_of k p = Some f -> lapsed (pf_expires f) t' = false) ->
    mappings n' !! k = Some m \/ mappings n' !! k = survivor (nk_proto k) t' m;
  st_forward : forall rk f, by_port (tables n') !! rk = Some f -> by_port (tables n) !! rk = Some f;
  st_live : forall rk f, by_port (tables n) !! rk = Some f -> lapsed (pf_expires f) t' = false -> by_port (tables n') !! rk = Some f;
  st_exps : forall e, e ∈ expectations (tables n') -> e ∈ expectations (tables n);
  st_awaited : forall e, e ∈ expectations (tables n) -> t <= ex_expires e -> t' <= ex_expires e -> e ∈ expectations (tables n') }.

Lemma settled_refl t t' n : settled t t' n n.
Proof. split; auto. Qed.

Lemma settled_same t t' n n' n1 : settled t t' n n' -> mappings n1 = mappings n' -> tables n1 = tables n' -> settled t t' n n1.
Proof. intros [] E1 E2. unfold reverse in *. split; unfold reverse; rewrite ?E1, ?E2; done. Qed.

Lemma purge_exps t now : tables_ok t -> forall e, e ∈ expectations (purge_lapsed t now) <-> e ∈ expectations t /\ now <= ex_expires e.
Proof. intros [I _] e. destruct (purge_spec t now I) as [_ ->]. rewrite list_elem_of_filter. intuition lia. Qed.

Lemma settled_purge t t' n : tables_ok (tables n) -> settled t t' n (with_tables n (purge_lapsed (tables n) t)).
Proof.
  intros Ht. destruct (purge_ok (tables n) t Ht) as (_ & E1 & E2). split; unfold reverse; cbn [mappings tables with_tables]; rewrite ?E1, ?E2; auto.
  - intros e He. by apply purge_exps in He as [].
  - intros e He H1 _. by apply purge_exps.
Qed.

Lemma settled_sweep xm t n n1 pinned t' r :
  settled t t' n n1 -> nat_inv xm n1 -> (forall k m, mappings n !! k = Some m -> mappings n1 !! k = Some m) -> by_port (tables n1) = by_port (tables n) ->
  inflight_ok xm -> (forall h, xm (hosts_of h) <> 0 -> pinned = Some h) ->
  let n2 := mkInner (mappings n1) (tables n1) (next_port n1) r (forward_id n1) (quotas n1) in
  nat_inv xm (expire_locked n2 pinned t') /\ settled t t' n (expire_locked n2 pinned t').
Proof.
  intros [S1 S2 S3 S4 S5 S6 S7] I Hm Hf Hx Hp n2.
  assert (nat_inv xm n2) as I2 by (destruct I; by split).
  destruct (expire_locked_inv xm n2 pinned t' I2 Hx Hp) as (J1 & _ & _ & _ & J5 & J6 & J7 & J8 & J9). split; [done|]. split.
  - intros k Ek. apply J8, S1, Ek.
  - intros rk k E. by apply S2, J7.
  - intros k m Ek Hl. right. apply J9; [by apply Hm|]. intros p f E1 E2. apply (Hl p f E1). cbn in E2. by rewrite <- Hf.
  - intros rk f. rewrite J6. cbn. destruct (by_port (tables n1) !! rk) as [f'|] eqn:E; [|done]. cbn. case_match; [done|]. intros [= <-]. by apply S4.
  - intros rk f E El. rewrite J6. cbn. rewrite (S5 rk f E El). cbn. by rewrite El.
  - intros e. rewrite J5. cbn. intros He. apply list_elem_of_In, filter_In in He as [He _]. apply S6. by apply list_elem_of_In.
  - intros e He H1 H2. rewrite J5. cbn. apply list_elem_of_In, filter_In. split; [apply list_elem_of_In, S7; done|lia].
Qed.

Lemma alloc_inv scan ok full xm n pinned t t' :
  scan_ok scan ok full -> nat_inv xm n -> inflight_ok xm -> (forall h, xm (hosts_of h) <> 0 -> pinned = Some h) ->
  let '(n', o) := alloc scan n pinned t t' in
  nat_inv xm n' /\ settled t t' n n' /\ match o with Some p => ok (tables n') p | None => full (tables n') end.
Proof.
  intros Hs I Hx Hp. unfold alloc. destruct (purge_ok (tables n) t (ni_tables _ _ I)) as (P1 & P2 & P3).
  pose proof (settled_purge t t' n (ni_tables _ _ I)) as S1. set (n1 := with_tables n _) in *.
  assert (nat_inv xm n1) as I1 by (by apply with_tables_inv).
  assert (forall n p, nat_inv xm n -> nat_inv xm (with_next n p)) as Hnext by (intros n0 p []; by split).
  pose proof (Hs n1 P1) as K. destruct (scan n1) as [n2 o]. destruct K as [[p ->] K]. destruct o as [q|].
  { split_and!; [auto|by eapply settled_same|done]. }
  unfold reclaim. destruct (t' <? next_reclaim (with_next n1 p)).
  { split_and!; [auto|by eapply settled_same|done]. }
  destruct (settled_sweep xm t n (with_next n1 p) pinned t' (t' + RECLAIM_INTERVAL)) as [I3 S3]; try done; [by eapply settled_same|auto|].
  set (n3 := expire_locked _ _ _) in *. clearbody n3.
  pose proof (Hs n3 (ni_tables _ _ I3)) as K3. destruct (scan n3) as [n4 o]. destruct K3 as [[p' ->] K3].
  split_and!; [auto|by eapply settled_same|done].
Qed.
