(* ===== verification/NatCreate.v ===== *)
(** * NAT mappings created ([src/src/nat/nat.rs])

    A new mapping gets the port of its forward, or one nothing holds, or is
    refused at a cap or with the ports exhausted; the invariant is kept.  The
    same for mappings installed by forwards and expectations, with the one
    they displace, and for the pairs and ports the gateways ask for. *)

From S2P Require Import Prelude Bitmap Ports NatPorts NatRewrite NatTrack NatMap NatMapInv NatExpiry.

(** ** Caps *)

Definition full (q : Quota) : Prop := qmax q <> 0 /\ qmax q <= used q.

Lemma admits_full q : admits (Some q) = false <-> full q.
Proof. unfold admits, take, full. destruct (Z.eqb_spec (qmax q) 0); cbn; [naive_solver|]. destruct (used q >=? qmax q) eqn:E; cbn; [|naive_solver lia]. split; [lia|done]. Qed.

(** The host has all the mappings it may, or its namespace has all the
    mappings or hosts. *)
Definition capped (q : Quotas) (h : Host) : Prop :=
  (exists x, hosts q !! h = Some x /\ full (h_mappings x)) \/
  (exists y, namespaces q !! fst h = Some y /\ (full (ns_mappings y) \/ (hosts q !! h = None /\ full (ns_hosts y)))).

Lemma host_locked_capped n h : let '(n', ok) := host_locked n h false in ok = false -> capped (quotas n') h.
Proof.
  unfold host_locked. destruct (hosts (quotas n) !! h) as [x|] eqn:Eh; [done|]. destruct (fst h =? 0); [done|].
  destruct (admits _); [done|]. set (q2 := retain_hosts _ _). destruct (admits (ns_hosts <$> namespaces q2 !! fst h)) eqn:Ea; [done|]. intros _.
  right. cbn. destruct (namespaces q2 !! fst h) as [y|] eqn:Ey; [|done]. exists y. split; [done|]. right. split; [|by apply admits_full].
  unfold q2. cbn. apply map_lookup_filter_None. left. unfold ns_entry. by destruct (namespaces (quotas n) !! fst h).
Qed.

Lemma take_mapping_capped tm tp q h :
  quota_inv tm tp q -> is_Some (hosts q !! h) -> let '(q', ok) := take_mapping q h false in ok = false -> capped q' h.
Proof.
  intros I Hk. pose proof (take_mapping_inv tm tp q h false I Hk) as K. destruct (take_mapping q h false) as [q' ok] eqn:E. destruct K as (_ & K & _).
  intros ->. subst q'. unfold take_mapping in E. destruct Hk as [x Ex]. rewrite Ex in E. cbn [fmap option_fmap option_map] in E.
  destruct (admits (Some (h_mappings x))) eqn:Ea; cbn [negb] in E; [|left; exists x; split; [done|by apply admits_full]].
  destruct (negb _) eqn:Ea2 in E; [|done]. apply negb_true_iff in Ea2. unfold ns_of in Ea2. rewrite Ex in Ea2. cbn in Ea2.
  destruct (qi_host _ _ _ I h x Ex) as (_ & _ & En & Hns). rewrite En in Ea2. destruct (Z.eqb_spec (fst h) 0) as [|Hz]; [done|]. cbn in Ea2.
  destruct (Hns Hz) as [y Ey]. rewrite Ey in Ea2. right. exists y. split; [done|]. left. by apply admits_full.
Qed.

Lemma new_mapping_capped xm n k port now :
  nat_inv xm n -> xm = none_inflight \/ is_Some (hosts (quotas n) !! host_of k) ->
  let '(n', o) := new_mapping n k port now false in o = None -> capped (quotas n') (host_of k).
Proof.
  intros I Hx. unfold new_mapping. pose proof (host_locked_capped n (host_of k)) as C.
  assert (let '(n', ok) := host_locked n (host_of k) false in nat_inv xm n' /\ (ok = true -> is_Some (hosts (quotas n') !! host_of k))) as K.
  { destruct Hx as [-> | [x Ex]].
    - pose proof (host_locked_inv n (host_of k) false I) as K. destruct (host_locked _ _ _). naive_solver.
    - unfold host_locked. rewrite Ex. eauto. }
  destruct (host_locked n (host_of k) false) as [n1 ok]. destruct K as [I1 Hk]. destruct ok; cbn [negb]; [|intros _; by apply C].
  pose proof (take_mapping_capped _ _ _ _ (ni_quota _ _ I1) (Hk eq_refl)) as T. destruct (take_mapping _ _ _) as [q ok]. destruct ok; [done|]. intros _. by apply T.
Qed.

(** ** An entry changed in place *)

(** The same key, ports and counts: what the tables and quotas see of a
    mapping. *)
Record alike (m m' : Mapping) : Prop := {
  al_ports : map_ports m' = map_ports m;
  al_key : m_key m' = m_key m;
  al_alias : forall a', alias m' = Some a' -> exists a, alias m = Some a /\ m_key a' = m_key a /\ alias a' = alias a /\ outside_port a' = outside_port a;
  al_sides : forall P, sides P m' = sides P m;
  al_tracked : forall P, tracked P m' = tracked P m }.

Lemma alike_refl m : alike m m.
Proof. split; eauto. Qed.

Lemma alike_trans a b c : alike a b -> alike b c -> alike a c.
Proof.
  intros [P1 K1 A1 S1 T1] [P2 K2 A2 S2 T2]. split; try congruence; try (intros P; by rewrite ?S2, ?T2).
  intros c' (b' & Eb & ? & ? & ?)%A2. destruct (A1 b' Eb) as (a' & ? & ? & ? & ?). exists a'. split_and!; congruence.
Qed.

Lemma alike_active m t : alike m (with_active m t).
Proof. destruct m. split; cbn; eauto. Qed.

Lemma alike_open m b : alike m (with_open m b).
Proof. destruct m. split; cbn; eauto. Qed.

Lemma alike_until m t : alike m (with_until m t).
Proof. destruct m. split; cbn; eauto. Qed.

Lemma alike_alg m b t : alike m (alg_open m b t).
Proof. unfold alg_open. destruct b; [apply alike_open|]. destruct (negb (open m)); [apply alike_until|apply alike_refl]. Qed.

Lemma alike_ok k m m' : alike m m' -> map_ok k m -> map_ok k m'.
Proof.
  intros [P K A _ _] [M1 M2 M3]. injection P as P1 P2. split; [congruence|congruence|]. intros a' E.
  destruct (A a' E) as (a & Ea & ? & ? & ?). destruct (M3 a Ea) as (? & ? & ? & ?). split_and!; congruence.
Qed.

Lemma alike_inv xm n k m m' :
  nat_inv xm n -> mappings n !! k = Some m -> alike m m' -> nat_inv xm (with_mappings n (<[k := m']> (mappings n))).
Proof.
  intros I Em Ha. destruct (ni_maps _ _ I k m Em) as [Hok Hpr]. apply (nat_update xm xm n _ k (Some m') I); try done.
  - apply I.
  - intros m0 [= <-]. split; [by eapply alike_ok|done].
  - intros rk. change (reverse (with_mappings _ _)) with (reverse n). rewrite (ni_holder _ _ I), Em. unfold holds. destruct Ha as [P _ _ _ _].
    split; intros (m0 & [= <-] & E1 & E2); eexists; (split_and!; [done|done|congruence]).
  - rewrite Em. cbn [of_opt quotas with_mappings]. destruct Ha as [_ _ _ Hs Ht].
    eapply quota_inv_ext; [| |exact (ni_quota _ _ I)]; intros P; cbn beta; rewrite ?Hs, ?Ht; lia.
Qed.

Lemma alter_inv xm n k f :
  nat_inv xm n -> (forall m, alike m (f m)) -> nat_inv xm (with_mappings n (alter f k (mappings n))).
Proof.
  intros I Hf. destruct (mappings n !! k) as [m|] eqn:Em.
  - assert (alter f k (mappings n) = <[k := f m]> (mappings n)) as ->; [|by eapply alike_inv].
    apply map_eq. intros k'. destruct (decide (k' = k)) as [->|Hne]; [by rewrite lookup_alter_eq, Em, lookup_insert_eq|by rewrite lookup_alter_ne, lookup_insert_ne].
  - assert (alter f k (mappings n) = mappings n) as ->; [|by destruct n].
    apply map_eq. intros k'. destruct (decide (k' = k)) as [->|Hne]; [by rewrite lookup_alter_eq, Em|by rewrite lookup_alter_ne].
Qed.

(** ** The mapping of an inside endpoint *)

Lemma forward_port_spec n k now p :
  tables_ok (tables n) -> forward_port_for n k now = Some p ->
  port_ok p /\ proto_ok (nk_proto k) /\ reverse n !! rev_of k p = None /\ exists f, by_port (tables n) !! rev_of k p = Some f /\ endpoint f = k /\ lapsed (pf_expires f) now = false.
Proof.
  intros [I S] E. unfold forward_port_for, for_endpoint in E. destruct (by_endpoint (tables n) !! k) as [rk|] eqn:E1; [|done]. cbn in E.
  destruct (by_port (tables n) !! rk) as [f|] eqn:E2; [|done]. cbn in E. destruct (lapsed (pf_expires f) now) eqn:El; [done|]. cbn in E.
  case_bool_decide as E3; [|done]. injection E as <-. destruct (ti_index _ I k rk E1) as (f' & E4 & E5). assert (f' = f) as -> by congruence.
  destruct (ts_forward _ S rk f E2) as [Hp Erk]. assert (rev_of k (rk_port rk) = rk) as Er by (subst k rk; done).
  rewrite Er. split_and!; [by eapply ti_forward|subst k rk; done|done|eauto].
Qed.

(** What became of every other mapping. *)
Definition others_kept (t' : Z) (k : NatKey) (n n' : NatInner) : Prop :=
  forall k' m, k' <> k -> mappings n !! k' = Some m ->
  (forall p f, p ∈ map_ports m -> by_port (tables n) !! rev_of k' p = Some f -> lapsed (pf_expires f) t' = false) ->
  mappings n' !! k' = Some m \/ mappings n' !! k' = survivor (nk_proto k') t' m.

Definition created (n n' : NatInner) (k : NatKey) (now t' : Z) : Prop :=
  match forward_port_for n k now with
  | Some p => mappings n' = <[k := with_open (Mapping_new k p now) true]> (mappings n) /\ tables n' = reverse_insert (tables n) (rev_of k p) k
  | None => exists p n0, chosen (nk_port k) (tables n0) p /\ mappings n' = <[k := Mapping_new k p now]> (mappings n0) /\
      tables n' = reverse_insert (tables n0) (rev_of k p) k /\ others_kept t' k n n'
  end.

Lemma get_or_create_inv n k now t t' :
  nat_inv none_inflight n -> proto_ok (nk_proto k) -> port_ok (nk_port k) ->
  let '(n', ok) := get_or_create n k now t t' in
  nat_inv none_inflight n' /\
  match mappings n !! k with
  | Some m => ok = true /\ n' = with_mappings n (<[k := with_active m now]> (mappings n))
  | None => if ok then created n n' k now t'
            else forward_port_for n k now = None /\ (capped (quotas n') (host_of k) \/ exhausted (tables n'))
  end.
Proof.
  intros I Hpr Hpt. unfold get_or_create, created. destruct (mappings n !! k) as [m|] eqn:Em.
  { split; [|done]. eapply alike_inv; [done|done|apply alike_active]. }
  destruct (forward_port_for n k now) as [p|] eqn:Ef.
  - destruct (forward_port_spec n k now p (ni_tables _ _ I) Ef) as (F1 & _ & F2 & _).
    pose proof (new_mapping_inv none_inflight n k p now true I (or_introl eq_refl)) as K. destruct (new_mapping n k p now true) as [n1 [m|]].
    + destruct K as ([S1 S2] & -> & I1 & _). split.
      * apply enter_inv; try done; [by rewrite S1|]. unfold reverse. by rewrite S2.
      * cbn. rewrite S1, S2. done.
    + by destruct K as (_ & _ & ?).
  - pose proof (new_mapping_inv none_inflight n k 0 now false I (or_introl eq_refl)) as K.
    pose proof (new_mapping_capped none_inflight n k 0 now I (or_introl eq_refl)) as C. destruct (new_mapping n k 0 now false) as [n1 [m|]].
    + destruct K as ([S1 S2] & -> & I1 & _).
      pose proof (alloc_inv _ _ _ _ n1 (Some (host_of k)) t t' (scan_port_ok (nk_port k) Hpt) I1 (inflight_add _ _ inflight_none)) as A.
      unfold alloc_port. destruct (alloc _ n1 _ t t') as [n2 o]. destruct A as (I2 & S & A).
      { intros h. unfold none_inflight, one_of, hosts_of. case_bool_decide; [congruence|lia]. }
      destruct o as [p|].
      * destruct A as (A1 & A2 & A3). assert (mappings n2 !! k = None) as En by (apply (st_new _ _ _ _ S); by rewrite S1).
        split.
        -- apply enter_inv; try done. by apply A2.
        -- exists p, n2. split_and!; try done. intros k' m' Hne E Hf. cbn. rewrite lookup_insert_ne by done.
           apply (st_map _ _ _ _ S); [by rewrite S1|by rewrite S2].
      * destruct (drop_inflight _ n2 k 0 now I2 inflight_none) as [I3 [S3 S4]]. split; [done|]. split; [done|]. right. by rewrite S4.
    + destruct K as (_ & I1 & _). split; [done|]. split; [done|]. left. by apply C.
Qed.

(** ** A mapping installed over another *)

(** Part of a mapping that is out of the table dropped, its ports freed. *)
Lemma unbind_drop tm tp n k d :
  tables_ok (tables n) -> (forall P, 0 <= tm P) ->
  quota_inv (fun P => tm P + sides P d) (fun P => tp P + tracked P d) (quotas n) ->
  let n' := drop (unbind n k d) d in
  tables_ok (tables n') /\ mappings n' = mappings n /\ frame n n' /\ quota_inv tm tp (quotas n') /\
  (forall rk k', reverse n' !! rk = Some k' <-> reverse n !! rk = Some k' /\ ~ (k' = k /\ rk_proto rk = nk_proto k /\ rk_port rk ∈ map_ports d)).
Proof.
  intros Ht Htm Hq n'. destruct (unbind_spec n k d Ht) as (T & M & Q & F & R). unfold n'. split_and!; [done|done|by destruct F| |done].
  unfold drop. change (quotas (with_quotas ?a ?b)) with b. rewrite Q. by apply drop_mapping_inv.
Qed.

Lemma displace_inv xm n k now :
  nat_inv xm n -> inflight_ok xm ->
  let '(n', aside) := displace n k now in
  tables_ok (tables n') /\ mappings n' = delete k (mappings n) /\ frame n n' /\
  (forall rk k', k' <> k -> reverse n' !! rk = Some k' <-> reverse n !! rk = Some k') /\
  (forall rk, reverse n' !! rk = Some k <-> holds k aside rk) /\
  (forall a, aside = Some a -> map_ok k a /\ alias a = None /\ exists m, mappings n !! k = Some m /\ outside_port a = outside_port m) /\
  quota_inv (fun P => msum (sides P) (mappings n) - of_opt (sides P) (mappings n !! k) + of_opt (sides P) aside + xm P)
    (fun P => msum (tracked P) (mappings n) - of_opt (tracked P) (mappings n !! k) + of_opt (tracked P) aside) (quotas n').
Proof.
  intros I Hx. unfold displace. destruct (mappings n !! k) as [old|] eqn:Em.
  2:{ split_and!; try done; [apply I|by rewrite delete_id| |].
    - intros rk. rewrite (ni_holder _ _ I), Em. split; intros (m & ? & _); done.
    - eapply quota_inv_ext; [| |exact (ni_quota _ _ I)]; intros P; cbn; lia. }
  destruct (ni_maps _ _ I k old Em) as [Hok Hpr]. cbn [of_opt].
  set (tm := fun P => msum (sides P) (mappings n) - sides P old + xm P). set (tp := fun P => msum (tracked P) (mappings n) - tracked P old).
  assert (forall P, 0 <= tm P) as Htm.
  { intros P. unfold tm. pose proof (if_nonneg _ Hx P). pose proof (msum_le (sides P) (mappings n) k old (fun k m _ => sides_nonneg P m) Em). lia. }
  set (n0 := with_mappings n _). set (n1 := match alias old with Some older => _ | None => n0 end). set (o1 := with_alias old None).
  assert (tables_ok (tables n1) /\ mappings n1 = delete k (mappings n) /\ frame n n1 /\
    quota_inv (fun P => tm P + sides P o1) (fun P => tp P + tracked P o1) (quotas n1) /\
    (forall rk k', reverse n1 !! rk = Some k' <-> reverse n !! rk = Some k' /\ ~ (k' = k /\ rk_port rk <> outside_port old))) as (T1 & M1 & F1 & Q1 & R1).
  { unfold n1. destruct (alias old) as [a|] eqn:Ea.
    - destruct (unbind_drop (fun P => tm P + sides P o1) (fun P => tp P + tracked P o1) n0 k a) as (U1 & U2 & U3 & U4 & U5); [apply I| | |].
      + intros P. pose proof (Htm P). pose proof (sides_nonneg P o1). lia.
      + eapply quota_inv_ext; [| |exact (ni_quota _ _ I)]; intros P; unfold tm, tp, o1; cbn beta; [rewrite (sides_alias P old), Ea|rewrite (tracked_alias P old), Ea]; cbn [of_opt]; lia.
      + destruct (mo_alias _ _ Hok a Ea) as (A1 & A2 & A3 & A4). split_and!; [done|done|by destruct U3|done|]. intros rk k'. rewrite U5. change (reverse n0) with (reverse n).
        assert (forall p, p ∈ map_ports a <-> p = outside_port a) as Hp by (intros p; rewrite map_ports_elem, A2; naive_solver).
        split; intros [E Hn]; (split; [done|]); intros (-> & H1).
        * apply Hn. apply (ni_holder _ _ I) in E as (m & E & E1 & E2). assert (m = old) as -> by congruence. split_and!; [done|done|]. apply Hp.
          apply map_ports_elem in E2 as [E2|(a' & E2 & E3)]; [done|congruence].
        * destruct H1 as [_ H1]. apply Hn. split; [done|]. apply Hp in H1. congruence.
    - split_and!; try done; [apply I| |].
      + eapply quota_inv_ext; [| |exact (ni_quota _ _ I)]; intros P; unfold tm, tp, o1; cbn beta; [rewrite (sides_alias P old), Ea|rewrite (tracked_alias P old), Ea]; cbn [of_opt]; lia.
      + intros rk k'. split; [|tauto]. intros E. split; [done|]. intros [-> H1]. apply (ni_holder _ _ I) in E as (m & E & E1 & E2).
        assert (m = old) as -> by congruence. apply map_ports_elem in E2 as [E2|(a & E2 & _)]; congruence. }
  clearbody n1. assert (map_ok k o1) as Hok1 by (by apply map_ok_no_alias). rewrite (mo_key _ _ Hok1).
  assert (is_Some (hosts (quotas n1) !! host_of k)) as Hk.
  { apply (qi_known _ _ _ Q1). pose proof (Htm (hosts_of (host_of k))). pose proof (sides_self o1) as Hs. rewrite (mo_key _ _ Hok1) in Hs. lia. }
  pose proof (peers_expire_inv _ _ (quotas n1) (host_of k) (peers o1) (nk_proto k) (last_active o1) now Q1 Hk) as K.
  destruct (peers_expire _ _ _ _ _ _) as [[q2 ps] idle]. destruct K as (_ & Q2 & -> & _). set (ps := live_peers _ _ _) in *. set (o2 := with_peers o1 ps).
  assert (quota_inv (fun P => tm P + sides P o2) (fun P => tp P + tracked P o2) q2) as Q3.
  { eapply quota_inv_ext; [| |exact Q2]; intros P; cbn beta; unfold o2; [by rewrite sides_peers|]. rewrite tracked_peers, (mo_key _ _ Hok1). lia. }
  assert (forall p, p ∈ map_ports o2 <-> p = outside_port old) as Hp2 by (intros p; rewrite map_ports_elem; cbn; naive_solver).
  assert (forall rk, reverse n1 !! rk = Some k <-> rk_proto rk = nk_proto k /\ rk_port rk ∈ map_ports o2) as R2.
  { intros rk. rewrite R1, (ni_holder _ _ I), Em, Hp2. unfold holds. split.
    - intros [(m & [= <-] & E1 & E2) Hn]. split; [done|]. destruct (decide (rk_port rk = outside_port old)); [done|tauto].
    - intros [E1 E2]. split; [|tauto]. exists old. split_and!; [done|done|]. apply map_ports_elem. by left. }
  case_bool_decide as Eps.
  - destruct (unbind_drop tm tp (with_quotas n1 q2) k o2) as (U1 & U2 & U3 & U4 & U5); [done|done|done|].
    split_and!; [done|by rewrite U2|by eapply frame_trans; [|exact U3]; destruct F1| | |done|].
    + intros rk k' Hne. rewrite U5. change (reverse (with_quotas n1 q2)) with (reverse n1). rewrite R1. tauto.
    + intros rk. rewrite U5. change (reverse (with_quotas n1 q2)) with (reverse n1). rewrite R2. unfold holds. naive_solver.
    + eapply quota_inv_ext; [| |exact U4]; intros P; unfold tm, tp; cbn; lia.
  - split_and!; [done|done|by destruct F1| | | |].
    + intros rk k' Hne. change (reverse (with_quotas n1 q2)) with (reverse n1). rewrite R1. tauto.
    + intros rk. change (reverse (with_quotas n1 q2)) with (reverse n1). rewrite R2. unfold holds. naive_solver.
    + intros a [= <-]. split_and!; [by apply map_ok_peers|done|]. exists old. done.
    + eapply quota_inv_ext; [| |exact Q3]; intros P; unfold tm, tp; cbn [of_opt]; lia.
Qed.

Lemma install_mapping_inv n k rk displacing now :
  nat_inv none_inflight n -> reverse n !! rk = None -> rk_proto rk = nk_proto k -> port_ok (rk_port rk) -> proto_ok (nk_proto k) ->
  let '(n', ok) := install_mapping n k rk displacing now in
  nat_inv none_inflight n' /\ ok = (bool_decide (mappings n !! k = None) || displacing) /\
  by_port (tables n') = by_port (tables n) /\ expectations (tables n') = expectations (tables n) /\ (forall k', k' <> k -> mappings n' !! k' = mappings n !! k') /\
  if ok then (exists aside, mappings n' !! k = Some (with_alias (with_open (Mapping_new k (rk_port rk) now) true) aside)) /\ reverse n' !! rk = Some k
  else n' = n.
Proof.
  intros I Hr Epr Hpt Hpr. unfold install_mapping. destruct (bool_decide (is_Some (mappings n !! k)) && negb displacing) eqn:Eg.
  { apply andb_prop in Eg as [E1 E2]. apply bool_decide_eq_true in E1 as [m E1]. apply negb_true_iff in E2 as ->. rewrite E1. split_and!; try done. }
  assert (bool_decide (mappings n !! k = None) || displacing = true) as Eok.
  { destruct (mappings n !! k); [|done]. by destruct displacing. }
  pose proof (new_mapping_inv none_inflight n k (rk_port rk) now true I (or_introl eq_refl)) as K.
  destruct (new_mapping n k (rk_port rk) now true) as [n1 [m|]]; [|by destruct K as (_ & _ & ?)].
  destruct K as ([S1 S2] & -> & I1 & _). pose proof (displace_inv _ n1 k now I1 (inflight_add _ _ inflight_none)) as D.
  destruct (displace n1 k now) as [n2 aside]. destruct D as (T2 & M2 & [F1 F2 _ _] & R2 & R3 & A2 & Q2).
  set (m := with_alias _ aside). set (n3 := with_mappings n2 _).
  assert (reverse n2 !! rk = None) as Hr2.
  { destruct (reverse n2 !! rk) as [k'|] eqn:E; [|done]. exfalso. assert (reverse n1 !! rk = None) as Hr1 by (unfold reverse; by rewrite S2).
    destruct (decide (k' = k)) as [->|Hne]; [|apply R2 in E; [congruence|done]].
    apply R3 in E as (a & -> & E1 & E2). destruct (A2 a eq_refl) as (Ha & Ea & m0 & Em0 & Ep). apply map_ports_elem in E2 as [E2|(? & ? & _)]; [|congruence].
    enough (reverse n1 !! rk = Some k) by congruence. apply (ni_holder _ _ I1). exists m0. split_and!; [done|done|]. apply map_ports_elem. left. congruence. }
  split_and!.
  - apply (nat_update _ _ n1 (with_tables n3 (reverse_insert (tables n3) rk k)) k (Some m) I1).
    + apply reverse_insert_ok; [done|done|congruence].
    + cbn. by rewrite M2, insert_delete_eq.
    + intros m' [= <-]. split; [|done]. split; [done|done|]. intros a Ea. cbn in Ea. destruct (A2 a Ea) as (Ha & Eal & m0 & Em0 & Ep).
      split_and!; [apply Ha|done|apply Ha|]. cbn. intros Eq. enough (reverse n1 !! rk = Some k) as E by (unfold reverse in E; rewrite S2 in E; unfold reverse in Hr; congruence).
      apply (ni_holder _ _ I1). exists m0. split_and!; [done|done|]. apply map_ports_elem. left. congruence.
    + intros rk' k' Hne. change (reverse (with_tables n3 _)) with (<[rk := k]> (reverse n2)). rewrite <- (R2 rk' k' Hne).
      destruct (decide (rk = rk')) as [<-|]; [rewrite lookup_insert_eq, Hr2; naive_solver|by rewrite lookup_insert_ne].
    + intros rk'. change (reverse (with_tables n3 _)) with (<[rk := k]> (reverse n2)). rewrite lookup_insert_Some, R3. unfold holds. split.
      * intros [[<- _]|(Hne & a & -> & E1 & E2)]; exists m; (split_and!; [done|done|]); apply map_ports_elem; [by left|right].
        exists a. split; [done|]. destruct (A2 a eq_refl) as (_ & Ea & _). apply map_ports_elem in E2 as [E2|(? & ? & _)]; [done|congruence].
      * intros (m' & [= <-] & E1 & E2). apply map_ports_elem in E2 as [E2|(a & E2 & E3)].
        -- left. split; [|done]. destruct rk, rk'. cbn in *. congruence.
        -- cbn in E2. subst aside. right. destruct (A2 a eq_refl) as (_ & Ea & m0 & Em0 & Ep). split.
           ++ intros <-. enough (reverse n2 !! rk = Some k) by congruence. apply R3. exists a. split_and!; [done|done|]. apply map_ports_elem. by left.
           ++ exists a. split_and!; [done|done|]. apply map_ports_elem. by left.
    + cbn [quotas with_tables n3 with_mappings of_opt]. eapply quota_inv_ext; [| |exact Q2]; intros P; cbn beta; unfold m, none_inflight.
      * rewrite (sides_alias P (with_alias _ aside)). cbn. destruct aside; cbn; lia.
      * rewrite (tracked_alias P (with_alias _ aside)). cbn. unfold npeers. rewrite map_size_empty. destruct aside; cbn; lia.
  - done.
  - cbn. rewrite F1. by rewrite S2.
  - cbn. rewrite F2. by rewrite S2.
  - intros k' Hne. cbn. rewrite lookup_insert_ne, M2, lookup_delete_ne by done. by rewrite S1.
  - exists aside. cbn. by rewrite lookup_insert_eq.
  - change (reverse (with_tables n3 _)) with (<[rk := k]> (reverse n2)). by rewrite lookup_insert_eq.
Qed.
