(* ===== verification/NatReach.v ===== *)
(** * The NAT's state in every history ([src/src/nat/nat.rs])

    Expectations, forwards, namespaces and the traffic of a mapping keep the
    invariant too, so it holds after any sequence of operations. *)

From S2P Require Import Prelude Bitmap Ports NatPorts NatRewrite NatTrack NatMap NatMapInv NatExpiry NatCreate.

(** ** Expectations *)

Lemma position_spec {A} (f : A -> bool) l i : position f l = Some i -> exists x, l !! i = Some x /\ f x = true.
Proof. unfold position. destruct (list_find _ l) as [[j x]|] eqn:E; [|done]. intros [= <-]. apply list_find_Some in E as (E1 & E2 & _). eauto. Qed.

Lemma position_none {A} (f : A -> bool) l : position f l = None -> forall x, x ∈ l -> f x = false.
Proof.
  unfold position. destruct (list_find _ l) eqn:E; [done|]. intros _ x Hx. apply list_find_None in E. rewrite list.Forall_forall in E.
  specialize (E x Hx). by destruct (f x).
Qed.

Lemma soonest_spec f l : forall i,
  match soonest f l i with
  | Some (j, x) => (i <= j)%nat /\ exists e, l !! (j - i)%nat = Some e /\ f e = true /\ ex_expires e = x /\ forall e', e' ∈ l -> f e' = true -> x <= ex_expires e'
  | None => forall e, e ∈ l -> f e = false
  end.
Proof.
  induction l as [|e l IH]; intros i; cbn [soonest]; [intros e He; by apply not_elem_of_nil in He|].
  specialize (IH (S i)). destruct (soonest f l (S i)) as [[j x]|]; destruct (f e) eqn:Ef.
  - destruct IH as (H1 & e1 & H2 & H3 & H4 & H5). destruct (ex_expires e <=? x) eqn:Ex.
    + split; [done|]. exists e. rewrite Nat.sub_diag. split_and!; try done. intros e' [->|He']%elem_of_cons Hf; [lia|]. specialize (H5 e' He' Hf). lia.
    + split; [lia|]. exists e1. replace (j - i)%nat with (S (j - S i)) by lia. split_and!; try done. intros e' [->|He']%elem_of_cons Hf; [lia|by apply H5].
  - destruct IH as (H1 & e1 & H2 & H3 & H4 & H5). split; [lia|]. exists e1. replace (j - i)%nat with (S (j - S i)) by lia. split_and!; try done.
    intros e' [->|He']%elem_of_cons Hf; [congruence|by apply H5].
  - split; [done|]. exists e. rewrite Nat.sub_diag. split_and!; try done. intros e' [->|He']%elem_of_cons Hf; [lia|]. rewrite IH in Hf; done.
  - intros e' [->|He']%elem_of_cons; [done|by apply IH].
Qed.

Lemma count_if_pos {A} (f : A -> bool) l : 0 < count_if f l <-> exists x, x ∈ l /\ f x = true.
Proof.
  unfold count_if. split.
  - destruct (List.filter f l) as [|x r] eqn:E; [unfold zlen; cbn; lia|]. intros _. exists x. 
    assert (In x (List.filter f l)) as Hx by (rewrite E; by left). apply filter_In in Hx as [H1 H2]. split; [by apply list_elem_of_In|done].
  - intros (x & H1 & H2). assert (In x (List.filter f l)) as Hx by (apply filter_In; split; [by apply list_elem_of_In|done]).
    destruct (List.filter f l); [done|]. unfold zlen. cbn. lia.
Qed.

Lemma busiest_spec l visit :
  match busiest l visit with
  | Some h => h ∈ visit /\ forall h', h' ∈ visit -> count_if (fun e => bool_decide (ex_host e = h')) l <= count_if (fun e => bool_decide (ex_host e = h)) l
  | None => visit = []
  end.
Proof.
  induction visit as [|h visit IH]; [done|]. cbn [busiest]. destruct (busiest l visit) as [h'|].
  - destruct IH as [H1 H2]. destruct (_ >? _) eqn:E.
    + split; [apply list_elem_of_here|]. intros x [->|Hx]%elem_of_cons; [lia|]. specialize (H2 x Hx). lia.
    + split; [by apply list_elem_of_further|]. intros x [->|Hx]%elem_of_cons; [lia|by apply H2].
  - subst visit. split; [apply list_elem_of_here|]. intros x [->|Hx]%elem_of_cons; [lia|by apply not_elem_of_nil in Hx].
Qed.

(** Whenever the table must make room, an expectation can give way. *)
Lemma victim_found n h visit v :
  (forall e, e ∈ expectations (tables n) -> ex_host e ∈ visit) ->
  (exp_full n h = Some v \/ (exp_full n h = None /\ (zlen (expectations (tables n)) >=? MAX_EXPECTATIONS) = true /\ Some <$> busiest (expectations (tables n)) visit = Some v)) ->
  exists e, e ∈ expectations (tables n) /\ match v with Some h' => ex_host e = h' | None => ex_namespace e = fst h end.
Proof.
  intros Hv. unfold exp_full. set (l := expectations (tables n)) in *.
  assert (forall h', 0 < count_if (fun x => bool_decide (ex_host x = h')) l -> exists e, e ∈ l /\ ex_host e = h') as Hh.
  { intros h' (e & E1 & E2)%count_if_pos. apply bool_decide_eq_true in E2. eauto. }
  destruct ((0 <? _) && _) eqn:E1.
  { intros [[= <-]|[? _]]; [|done]. apply Hh. lia. }
  destruct ((0 <? (if fst h =? 0 then 0 else _)) && _) eqn:E2.
  { intros [[= <-]|[? _]]; [|done]. destruct (proj1 (count_if_pos (fun x => ex_namespace x =? fst h) l)) as (e & H1 & H2); [lia|]. exists e. split; [done|lia]. }
  intros [?|(_ & Hc & Hb)]; [done|]. pose proof (busiest_spec l visit) as B. destruct (busiest l visit) as [h'|]; [|done]. injection Hb as <-.
  destruct B as [B1 B2]. apply Hh. destruct l as [|e l'] eqn:El; [done|]. specialize (B2 (ex_host e) (Hv e (list_elem_of_here _ _))).
  assert (0 < count_if (fun x => bool_decide (ex_host x = ex_host e)) (e :: l')); [|lia]. apply count_if_pos. exists e. split; [apply list_elem_of_here|by apply bool_decide_eq_true].
Qed.

(** Room for one more, whoever gives way. *)
Lemma make_room xm n h visit t' :
  nat_inv xm n -> (forall e, e ∈ expectations (tables n) -> ex_host e ∈ visit) ->
  let crowded n := zlen (expectations (tables n)) >=? MAX_EXPECTATIONS in
  let n1 := if bool_decide (is_Some (exp_full n h)) || crowded n then with_tables n (retain (tables n) (fun e => t' <=? ex_expires e)) else n in
  let victim := match exp_full n1 h with Some v => Some v | None => if crowded n1 then Some <$> busiest (expectations (tables n1)) visit else None end in
  let n2 := match victim with
            | None => n1
            | Some v =>
                let mine x := match v with Some h' => bool_decide (ex_host x = h') | None => ex_namespace x =? fst h end in
                match soonest mine (expectations (tables n1)) 0 with
                | Some (i, _) => with_tables n1 (default (tables n1) (swap_remove (tables n1) i))
                | None => n1
                end
            end in
  nat_inv xm n2 /\ mappings n2 = mappings n /\ reverse n2 = reverse n /\ zlen (expectations (tables n2)) < MAX_EXPECTATIONS.
Proof.
  intros I Hv crowded n1 victim n2.
  assert (nat_inv xm n1 /\ mappings n1 = mappings n /\ reverse n1 = reverse n /\ (forall e, e ∈ expectations (tables n1) -> ex_host e ∈ visit)) as (I1 & M1 & R1 & V1).
  { unfold n1. destruct (_ || _); [|done]. destruct (retain_ok (tables n) (fun e => t' <=? ex_expires e) (ni_tables _ _ I)) as (T1 & T2 & T3).
    split_and!; [by apply with_tables_inv|done|done|]. intros e. cbn [tables with_tables]. rewrite retain_exps. intros He.
    apply list_elem_of_In, filter_In in He as [He _]. by apply Hv, list_elem_of_In. }
  clearbody n1. pose proof (ts_exps _ (proj2 (ni_tables _ _ I1))) as Hl.
  destruct victim as [v|] eqn:Ev; unfold victim in Ev.
  - destruct (victim_found n1 h visit v V1) as (e & E1 & E2).
    { destruct (exp_full n1 h); [left; congruence|]. right. split_and!; [done| |]; destruct (crowded n1) eqn:Ec; done. }
    unfold n2. set (mine := fun x => _). pose proof (soonest_spec mine (expectations (tables n1)) 0) as S. destruct (soonest mine _ 0) as [[i x]|].
    + destruct S as (_ & e1 & S1 & _). rewrite Nat.sub_0_r in S1. destruct (swap_remove_ok (tables n1) i e1 (ni_tables _ _ I1) S1) as (W1 & W2 & W3 & W4).
      split_and!; [by apply with_tables_inv|done| |cbn; lia]. unfold reverse in *. cbn. congruence.
    + exfalso. specialize (S e E1). unfold mine in S. destruct v; [by apply bool_decide_eq_false in S|lia].
  - unfold n2. split_and!; try done. destruct (exp_full n1 h); [done|]. destruct (crowded n1) eqn:Ec; [|unfold crowded in Ec; lia].
    pose proof (busiest_spec (expectations (tables n1)) visit) as B. destruct (busiest _ visit) as [h'|]; [done|]. subst visit.
    destruct (expectations (tables n1)) as [|e l]; [done|]. specialize (V1 e (list_elem_of_here _ _)). by apply not_elem_of_nil in V1.
Qed.

Lemma add_expectation_inv n e rk target visit t t' :
  nat_inv none_inflight n -> port_ok (ex_outside_port e) -> (forall x, x ∈ expectations (tables n) -> ex_host x ∈ visit) ->
  let n' := add_expectation_locked n e rk target visit t t' in
  nat_inv none_inflight n' /\ (forall k, reverse n !! rk <> Some k -> mappings n' !! k = mappings n !! k).
Proof.
  intros I Hp Hv n'. unfold n', add_expectation_locked. destruct (expire_port_inv _ n rk t I inflight_none) as (I1 & E1 & _ & _ & _ & M1 & _).
  set (n1 := expire_port n rk t) in *. clearbody n1. destruct (_ || _); [done|].
  destruct (position _ _) as [i|] eqn:Ep.
  - apply position_spec in Ep as (o & Eo & _). destruct (extend_ok (tables n1) i (ex_expires e) o (ni_tables _ _ I1) Eo) as (X1 & X2 & X3).
    split; [by apply with_tables_inv|done].
  - rewrite <- E1 in Hv. destruct (make_room _ n1 (ex_host e) visit t' I1 Hv) as (I2 & M2 & R2 & L2). cbn zeta in *.
    set (n2 := match (match exp_full _ _ with Some _ => _ | None => _ end) with Some _ => _ | None => _ end) in *. clearbody n2.
    destruct (push_ok (tables n2) e (ni_tables _ _ I2) Hp L2) as (P1 & P2 & P3). split; [by apply with_tables_inv|]. intros k Hk. cbn. rewrite M2. by apply M1.
Qed.

Lemma match_expectation_inv n proto port rip rport now :
  nat_inv none_inflight n ->
  let '(n', o) := match_expectation n proto port rip rport now in
  nat_inv none_inflight n' /\ mappings n' = mappings n /\ reverse n' = reverse n /\ by_port (tables n') = by_port (tables n) /\
  match o with
  | Some e => e ∈ expectations (tables n) /\ expectation_matches e now proto port rip rport = true
  | None => n' = n /\ forall e, e ∈ expectations (tables n) -> expectation_matches e now proto port rip rport = false
  end.
Proof.
  intros I. unfold match_expectation. destruct (position _ _) as [i|] eqn:Ep.
  - apply position_spec in Ep as (e & Ee & Em). destruct (remove (tables n) i) as [[t e']|] eqn:Er.
    + destruct (remove_ok _ _ _ _ (ni_tables _ _ I) Er) as (R1 & R2 & R3 & R4 & _). assert (e' = e) as -> by congruence.
      split_and!; [by apply with_tables_inv|done|done|done|by eapply list_elem_of_lookup_2|done].
    + unfold remove in Er. by rewrite Ee in Er.
  - split_and!; try done. by apply position_none.
Qed.

(** ** Forwards *)

Lemma drop_forward_ok n rk : nat_inv none_inflight n -> nat_inv none_inflight (drop_forward n rk).
Proof. intros I. apply (drop_forward_inv _ n rk I inflight_none). Qed.

(** A field that the tables and quotas do not see. *)
Lemma with_id_inv xm n p r i : nat_inv xm n -> nat_inv xm (mkInner (mappings n) (tables n) p r i (quotas n)).
Proof. intros []. by split. Qed.

Lemma add_port_forward_inv n pf now :
  nat_inv none_inflight n -> port_ok (pf_outside_port pf) -> proto_ok (pf_proto pf) -> nat_inv none_inflight (add_port_forward n pf now).1.
Proof.
  intros I Hp Hpr. unfold add_port_forward. set (rk := mkNatRevKey _ _).
  destruct (expire_port_inv _ n rk now I inflight_none) as (I1 & _). set (n1 := expire_port n rk now) in *. clearbody n1.
  set (n2 := match for_endpoint (tables n1) (endpoint pf) with Some _ => _ | None => _ end).
  assert (nat_inv none_inflight n2) as I2.
  { unfold n2. destruct (for_endpoint _ _) as [[other f]|]; [|done]. destruct (lapsed _ _); [by apply drop_forward_ok|done]. }
  clearbody n2. destruct (match by_port (tables n2) !! rk with Some _ => _ | None => _ end); [done|]. destruct (_ || _); [done|].
  set (n3 := if bool_decide _ then _ else _). assert (nat_inv none_inflight n3) as I3.
  { unfold n3. case_bool_decide; [by apply alter_inv; [|intros m; apply alike_open]|]. destruct (negb _); [|done].
    by apply (remove_mapping_at_inv _ n2 rk I2 inflight_none). }
  clearbody n3. cbn [fst]. set (pf' := mkPortForward _ _ _ _ _ _ _ _).
  destruct (forward_insert_fields (tables n3) rk pf') as (E1 & _ & _).
  pose proof (with_tables_inv _ n3 (forward_insert (tables n3) rk pf') I3 (forward_insert_ok (tables n3) rk pf' (ni_tables _ _ I3) Hp Hpr eq_refl) E1) as I4.
  exact (with_id_inv _ _ (next_port n3) (next_reclaim n3) (forward_id n3 + 1) I4).
Qed.

Lemma remove_port_forward_inv n proto port : nat_inv none_inflight n -> nat_inv none_inflight (remove_port_forward n proto port).
Proof. intros I. unfold remove_port_forward. case_match; [by apply drop_forward_ok|done]. Qed.

Lemma match_forward_inv n proto port now :
  nat_inv none_inflight n ->
  let '(n', o) := match_forward n proto port now in
  nat_inv none_inflight n' /\
  match o with
  | Some f => n' = n /\ by_port (tables n) !! mkNatRevKey proto port = Some f /\ lapsed (pf_expires f) now = false
  | None => forall f, by_port (tables n) !! mkNatRevKey proto port = Some f -> lapsed (pf_expires f) now = true
  end.
Proof.
  intros I. unfold match_forward. destruct (by_port (tables n) !! _) as [f|] eqn:Ef; [|done].
  destruct (lapsed (pf_expires f) now) eqn:El; [|done]. split; [by apply drop_forward_ok|]. intros f' [= <-]. done.
Qed.

(** ** What the gateways ask for *)

Lemma create_mapping_in_inv n ns proto ip port now now' t t' :
  nat_inv none_inflight n -> proto_ok proto -> port_ok port -> nat_inv none_inflight (create_mapping_in n ns proto ip port now now' t t').1.
Proof.
  intros I Hpr Hp. unfold create_mapping_in. set (k := mkNatKey ns proto ip port).
  destruct (expire_mapping_inv _ n k now I inflight_none) as (I1 & _). set (n1 := expire_mapping n k now) in *. clearbody n1.
  pose proof (get_or_create_inv n1 k now' t t' I1 Hpr Hp) as G. destruct (get_or_create n1 k now' t t') as [n2 [|]]; [|apply G].
  destruct G as [I2 _]. cbn [fst]. apply alter_inv; [done|]. intros m. apply alike_alg.
Qed.

Lemma create_mapping_pair_in_inv n ns proto ip first second now t t' :
  nat_inv none_inflight n -> proto_ok proto -> port_ok first -> port_ok second -> first <> second ->
  nat_inv none_inflight (create_mapping_pair_in n ns proto ip first second now t t').1.
Proof.
  intros I Hpr Hp1 Hp2 Hne. unfold create_mapping_pair_in. set (k1 := mkNatKey ns proto ip first). set (k2 := mkNatKey ns proto ip second).
  assert (k1 <> k2) as Hk by (unfold k1, k2; congruence).
  destruct (mappings n !! k1) as [a|] eqn:E1; destruct (mappings n !! k2) as [b|] eqn:E2; try done.
  { destruct (_ && _); [|done]. cbn [fst]. set (touch := fun m => _). assert (forall m, alike m (touch m)) as Ht.
    { intros m. eapply alike_trans; [apply alike_active|apply alike_alg]. }
    pose proof (alter_inv _ _ k2 touch (alter_inv _ _ k1 touch I Ht) Ht) as K. exact K. }
  pose proof (alloc_inv _ _ _ _ n None t t' scan_pair_ok I inflight_none ltac:(done)) as A. unfold alloc_pair. destruct (alloc _ n None t t') as [n1 [p|]]; [|apply A].
  destruct A as (I1 & S & A1 & A2 & A3 & A4 & A5). assert (port_ok p /\ port_ok (p + 1)) as [P1 P2] by (split; apply pool_port_ok; lia).
  pose proof (new_mapping_inv none_inflight n1 k1 p now false I1 (or_introl eq_refl)) as K1. destruct (new_mapping n1 k1 p now false) as [n2 [m1|]]; [|apply K1].
  destruct K1 as ([S1 S2] & -> & I2 & Hh). pose proof (new_mapping_inv _ n2 k2 (p + 1) now false I2 (or_intror Hh)) as K2.
  destruct (new_mapping n2 k2 (p + 1) now false) as [n3 [m2|]].
  - destruct K2 as ([S3 S4] & -> & I3 & _). change (host_of k2) with (host_of k1) in I3. cbn [fst].
    assert (mappings n3 = mappings n1 /\ tables n3 = tables n1) as [M3 T3] by (split; congruence).
    apply enter_inv; try done.
    + apply (enter_inv (fun P => none_inflight P + one_of (host_of k1) P)); try done.
      * rewrite M3. by apply (st_new _ _ _ _ S).
      * unfold reverse. rewrite T3. by apply A4.
    + cbn. rewrite lookup_insert_ne by done. rewrite M3. by apply (st_new _ _ _ _ S).
    + change (reverse (enter n3 k1 _)) with (<[rev_of k1 p := k1]> (reverse n3)). rewrite lookup_insert_ne by (cbn; intros [=]; lia).
      unfold reverse. rewrite T3. by apply A5.
  - destruct K2 as (_ & I3 & _). cbn [fst]. by apply (drop_inflight none_inflight n3 k1 p now I3 inflight_none).
Qed.

Lemma expect_from_in_inv n ns proto ip port rip expires visit now t t' u u' :
  nat_inv none_inflight n -> proto_ok proto -> port_ok port -> (forall x, x ∈ expectations (tables n) -> ex_host x ∈ visit) ->
  nat_inv none_inflight (expect_from_in n ns proto ip port rip expires visit now t t' u u').1.
Proof.
  intros I Hpr Hp Hv. unfold expect_from_in. set (k := mkNatKey ns proto ip port). set (pending := fun e => _).
  destruct (expire_mapping_inv _ n k now I inflight_none) as (I1 & [_ X1 _ _] & _). set (n1 := expire_mapping n k now) in *. clearbody n1. rewrite <- X1 in Hv.
  assert (forall n' o, nat_inv none_inflight n' -> (forall x, x ∈ expectations (tables n') -> ex_host x ∈ visit) -> (forall p, o = Some p -> port_ok p) ->
    nat_inv none_inflight (match o with None => (n', None) | Some p => (add_expectation_locked n' (mkExpectation proto rip 0 ip port p ns expires true) (mkNatRevKey proto p) k visit u u', Some p) end).1) as Hend.
  { intros n' [p|] I' V' P'; [|done]. apply add_expectation_inv; [done|by apply P'|done]. }
  destruct (mappings n1 !! k) as [m|] eqn:Em; [apply (Hend n1 (Some (outside_port m))); [done|done|]; intros p [= <-]; by apply (ni_maps _ _ I1 k m)|].
  destruct (List.find pending _) as [e|] eqn:Ee.
  { apply (Hend n1 (Some (ex_outside_port e))); [done|done|]. intros p [= <-]. apply find_some in Ee as [Ee _]. pose proof (ti_exps _ (proj1 (ni_tables _ _ I1))) as F.
    rewrite list.Forall_forall in F. by apply F, list_elem_of_In. }
  destruct (forward_port_for n1 k now) as [p|] eqn:Ef.
  { apply (Hend n1 (Some p)); [done|done|]. intros p' [= <-]. by apply (forward_port_spec n1 k now p (ni_tables _ _ I1)). }
  pose proof (alloc_inv _ _ _ _ n1 None t t' (scan_port_ok port Hp) I1 inflight_none ltac:(done)) as A. unfold alloc_port. destruct (alloc _ n1 None t t') as [n2 o].
  destruct A as (I2 & S & A). apply Hend; [done| |].
  - intros x Hx. apply Hv. by apply (st_exps _ _ _ _ S).
  - intros p ->. apply A.
Qed.

(** ** A namespace leaves *)

Definition leaves (n : NatInner) (ns : Z) (l : list (NatKey * Mapping)) : NatInner :=
  foldl (fun n '(k, m) => if nk_ns k =? ns then drop (unbind (with_mappings n (delete k (mappings n))) k m) m else n) n l.

Lemma leaves_inv ns l : forall n,
  nat_inv none_inflight n -> NoDup l.*1 -> (forall k m, (k, m) ∈ l -> mappings n !! k = Some m) ->
  let n' := leaves n ns l in
  nat_inv none_inflight n' /\ frame n n' /\
  (forall k, mappings n' !! k = if bool_decide (nk_ns k = ns /\ k ∈ l.*1) then None else mappings n !! k).
Proof.
  induction l as [|[k m] l IH]; intros n I Hnd Hin.
  { cbn. split_and!; try done. intros k. rewrite bool_decide_eq_false_2; [done|]. intros [_ H]. by apply not_elem_of_nil in H. }
  cbn [fmap list_fmap fst] in Hnd. apply list.NoDup_cons in Hnd as [Hni Hnd]. pose proof (Hin k m (list_elem_of_here _ _)) as Em.
  unfold leaves. cbn [foldl]. fold (leaves (if nk_ns k =? ns then drop (unbind (with_mappings n (delete k (mappings n))) k m) m else n) ns l).
  set (n1 := if nk_ns k =? ns then _ else _). 
  assert (nat_inv none_inflight n1 /\ frame n n1 /\ mappings n1 = if nk_ns k =? ns then delete k (mappings n) else mappings n) as (I1 & F1 & M1).
  { unfold n1. destruct (nk_ns k =? ns); [|done]. destruct (ni_maps _ _ I k m Em) as [Hok _].
    destruct (unbind_spec (with_mappings n (delete k (mappings n))) k m (ni_tables _ _ I)) as (T & M & Q & F & R). split_and!; [|by destruct F|done].
    apply (replace_drop none_inflight n _ k m None m I inflight_none Em); try done.
    - intros rk k' Hne. rewrite R. change (reverse (with_mappings n _)) with (reverse n). naive_solver.
    - intros rk. rewrite R. change (reverse (with_mappings n _)) with (reverse n). rewrite (ni_holder _ _ I), Em. unfold holds. naive_solver. }
  clearbody n1. destruct (IH n1 I1 Hnd) as (I2 & F2 & M2).
  { intros k' m' Hk'. assert (k' <> k) as Hne by (intros ->; apply Hni, list_elem_of_fmap; by exists (k, m')).
    rewrite M1. destruct (nk_ns k =? ns); [rewrite lookup_delete_ne by done|]; apply Hin; by apply list_elem_of_further. }
  split_and!; [done|by eapply frame_trans|]. intros k'. rewrite M2, M1. cbn [fmap list_fmap fst].
  destruct (decide (k' = k)) as [->|Hne].
  - destruct (nk_ns k =? ns) eqn:En.
    + rewrite lookup_delete_eq, (bool_decide_eq_true_2 (_ /\ k ∈ k :: _)) by (split; [lia|apply list_elem_of_here]). by case_bool_decide.
    + rewrite !bool_decide_eq_false_2 by lia. done.
  - assert (bool_decide (nk_ns k' = ns /\ k' ∈ l.*1) = bool_decide (nk_ns k' = ns /\ k' ∈ k :: l.*1)) as -> by (apply bool_decide_ext; rewrite elem_of_cons; naive_solver).
    case_bool_decide; [done|]. destruct (nk_ns k =? ns); [by rewrite lookup_delete_ne|done].
Qed.

Lemma cleanup_namespace_inv n ns :
  nat_inv none_inflight n ->
  let n' := cleanup_namespace n ns in
  nat_inv none_inflight n' /\
  (forall k, mappings n' !! k = if nk_ns k =? ns then None else mappings n !! k) /\
  expectations (tables n') = List.filter (fun e => negb (ex_namespace e =? ns)) (expectations (tables n)) /\
  (forall rk f, by_port (tables n') !! rk = Some f <-> by_port (tables n) !! rk = Some f /\ pf_namespace f <> ns).
Proof.
  intros I n'. unfold n', cleanup_namespace. destruct (retain_ok (tables n) (fun e => negb (ex_namespace e =? ns)) (ni_tables _ _ I)) as (R1 & R2 & R3).
  set (n1 := with_tables n _). assert (nat_inv none_inflight n1) as I1 by (by apply with_tables_inv).
  destruct (forward_retain_ok (tables n1) (fun f => negb (pf_namespace f =? ns)) (ni_tables _ _ I1)) as (F1 & F2 & _).
  destruct (forward_retain_inv (map_to_list (by_port (tables n1))) (fun f => negb (pf_namespace f =? ns)) (tables n1) (proj1 (ni_tables _ _ I1)) ltac:(done)) as [_ F3].
  set (n2 := with_tables n1 _). assert (nat_inv none_inflight n2) as I2 by (by apply with_tables_inv).
  destruct (leaves_inv ns (map_to_list (mappings n2)) n2 I2 (NoDup_fst_map_to_list _)) as (I3 & [L1 L2 _ _] & L3).
  { intros k m Hk. by apply elem_of_map_to_list. }
  fold (leaves n2 ns (map_to_list (mappings n2))). split_and!; [done| | |].
  - intros k. rewrite L3. change (mappings n2) with (mappings n). destruct (nk_ns k =? ns) eqn:E; [|by rewrite bool_decide_eq_false_2 by lia].
    destruct (mappings n !! k) as [m|] eqn:Em; [|by case_bool_decide]. rewrite bool_decide_eq_true_2; [done|]. split; [lia|].
    apply list_elem_of_fmap. exists (k, m). split; [done|by apply elem_of_map_to_list].
  - rewrite L2. unfold n2. cbn [tables with_tables]. assert (forall order keep t, expectations (forward_retain order keep t) = expectations t) as ->
      by (intros; unfold forward_retain; by destruct (pm_retain _ _ _ _)). unfold n1. cbn [tables with_tables]. apply retain_exps.
  - intros rk f. rewrite L1. unfold n2. cbn [tables with_tables]. rewrite F3. unfold n1. cbn [tables with_tables]. rewrite R3. rewrite negb_true_iff, Z.eqb_neq. done.
Qed.

(** ** Limits *)

Lemma set_limits_inv n l : nat_inv none_inflight n -> nat_inv none_inflight (set_limits n l).
Proof.
  intros I. apply (with_quotas_inv none_inflight); [done|]. destruct (ni_quota _ _ I) as [H1 H2 H3 H4]. split; cbn; [| | |done].
  - intros h x E. rewrite lookup_fmap in E. destruct (hosts (quotas n) !! h) as [y|] eqn:Ey; [|done]. injection E as <-. destruct (H1 h y Ey) as (A1 & A2 & A3 & A4).
    split_and!; try done. intros Hz. rewrite lookup_fmap. destruct (A4 Hz) as [z ->]. eauto.
  - intros h Hh. rewrite lookup_fmap. destruct (H2 h Hh) as [y ->]. eauto.
  - intros ns x E. rewrite lookup_fmap in E. destruct (namespaces (quotas n) !! ns) as [y|] eqn:Ey; [|done]. injection E as <-.
    destruct (H3 ns y Ey) as (A1 & A2 & A3 & A4). split_and!; try done. cbn. rewrite A4. unfold hosts_in. cbn. f_equal.
    rewrite <- (map_size_fmap (fun h => host_set_limits h l) (filter _ (hosts (quotas n)))). f_equal. apply map_eq. intros h.
    rewrite lookup_fmap, !map_lookup_filter, lookup_fmap. destruct (hosts (quotas n) !! h) as [x|]; [|done]. cbn. simplify_option_eq; done.
Qed.

(** ** Traffic *)

Lemma side_key k m sel : map_ok k m -> m_key (side sel m) = k.
Proof.
  intros Hok. unfold side, on_alias. destruct (alias m) as [a|] eqn:Ea; cbn; [|apply Hok]. destruct (sel a); [|apply Hok].
  by destruct (mo_alias _ _ Hok a Ea).
Qed.

(** A side's remotes changed, with what they count for. *)
Lemma side_inv n k m sel s' q' :
  nat_inv none_inflight n -> mappings n !! k = Some m ->
  m_key s' = m_key (side sel m) -> outside_port s' = outside_port (side sel m) -> alias s' = alias (side sel m) ->
  quota_inv (fun P => msum (sides P) (mappings n) + none_inflight P)
    (fun P => msum (tracked P) (mappings n) + (npeers (peers s') - npeers (peers (side sel m))) * one_of (host_of k) P) q' ->
  nat_inv none_inflight (with_quotas (with_mappings n (<[k := put_side sel m s']> (mappings n))) q').
Proof.
  intros I Em E1 E2 E3 Hq. destruct (ni_maps _ _ I k m Em) as [Hok Hpr]. set (m' := put_side sel m s').
  assert (map_ok k m' /\ map_ports m' = map_ports m /\ (forall P, sides P m' = sides P m) /\
    (forall P, tracked P m' = tracked P m + (npeers (peers s') - npeers (peers (side sel m))) * one_of (host_of k) P)) as (Hok' & Hp & Hs & Ht).
  { pose proof (side_key k m sel Hok) as Ek. rewrite Ek in E1. unfold m', put_side, side in *. destruct (on_alias sel m) as [a|] eqn:Ea; cbn [default] in *.
    - assert (alias m = Some a) as Eal by (unfold on_alias in Ea; destruct (alias m) as [a0|]; [|done]; cbn in Ea; by destruct (sel a0); simplify_eq).
      destruct (mo_alias _ _ Hok a Eal) as (A1 & A2 & A3 & A4). split_and!.
      + split; [apply Hok|apply Hok|]. intros a' [= <-]. cbn. rewrite E2, E3; split_and!; done || congruence.
      + unfold map_ports. cbn. by rewrite Eal, E2.
      + intros P. rewrite (sides_alias P m), (sides_alias P (with_alias m (Some s'))), Eal. cbn. f_equal. destruct s', a. cbn in *. subst. done.
      + intros P. rewrite (tracked_alias P m), (tracked_alias P (with_alias m (Some s'))), Eal. cbn. destruct s', a. cbn in *. subst. cbn. lia.
    - destruct m as [k0 p0 la0 ps0 o0 u0 al0], s' as [k1 p1 la1 ps1 o1 u1 al1]. cbn in *. subst. split_and!; try done.
      + destruct Hok as [K1 K2 K3]. by split.
      + intros P. lia. }
  apply (nat_update none_inflight none_inflight n _ k (Some m') I); try done.
  - apply I.
  - intros m0 [= <-]. done.
  - intros rk. change (reverse (with_quotas _ _)) with (reverse n). rewrite (ni_holder _ _ I), Em. unfold holds.
    split; intros (m0 & [= <-] & F1 & F2); eexists; (split_and!; [done|done|congruence]).
  - rewrite Em. cbn [of_opt quotas with_quotas]. eapply quota_inv_ext; [| |exact Hq]; intros P; cbn beta; rewrite ?Hs, ?Ht; lia.
Qed.

Lemma note_outbound_inv n k sel peer flags :
  nat_inv none_inflight n ->
  let '(n', o) := note_outbound n k sel peer flags in
  nat_inv none_inflight n' /\ tables n' = tables n /\ (forall k', k' <> k -> mappings n' !! k' = mappings n !! k') /\
  match mappings n !! k with
  | None => o = None /\ n' = n
  | Some m => exists s, o = Some s /\ mappings n' !! k = Some (put_side sel m s) /\ m_key s = k /\ outside_port s = outside_port (side sel m) /\
      (forall x, x <> peer -> peers s !! x = peers (side sel m) !! x) /\ (is_Some (peers (side sel m) !! peer) -> is_Some (peers s !! peer))
  end.
Proof.
  intros I. unfold note_outbound. destruct (mappings n !! k) as [m|] eqn:Em; [|done]. destruct (ni_maps _ _ I k m Em) as [Hok _].
  assert (m_key (with_active (side sel m) (last_active m)) = k) as Ek by exact (side_key k m sel Hok). rewrite Ek.
  pose proof (note_inv _ _ (quotas n) (host_of k) (peers (with_active (side sel m) (last_active m))) peer true flags (last_active m) (ni_quota _ _ I)
    (mapping_host _ n I inflight_none k m Em)) as K.
  destruct (note _ _ _ _ _ _ _) as [q ps]. destruct K as (_ & K1 & K2 & K3 & _). split_and!; [by apply side_inv|done| |].
  - intros k' Hne. cbn. by rewrite lookup_insert_ne.
  - eexists. split_and!; [done|cbn; by rewrite lookup_insert_eq|exact Ek|done|done|done].
Qed.

Lemma note_inbound_at_inv n k port peer flags now :
  nat_inv none_inflight n ->
  let '(n', tr) := note_inbound_at n k port peer flags now in
  nat_inv none_inflight n' /\ tables n' = tables n /\ (forall k', k' <> k -> mappings n' !! k' = mappings n !! k') /\
  (mappings n !! k = None -> n' = n /\ tr = false) /\
  (forall m, mappings n !! k = Some m -> exists s, mappings n' !! k = Some (put_side (for_port port) m s) /\ tr = contains (peers s) peer /\
     (is_open (side (for_port port) m) now = false -> contains (peers (side (for_port port) m)) peer = false -> s = side (for_port port) m)).
Proof.
  intros I. unfold note_inbound_at. destruct (mappings n !! k) as [m|] eqn:Em; [|done]. destruct (ni_maps _ _ I k m Em) as [Hok _].
  unfold note_inbound. set (sd := side (for_port port) m). assert (m_key sd = k) as Ek by exact (side_key k m _ Hok). rewrite Ek.
  destruct (_ || _) eqn:Eo.
  - pose proof (note_inv _ _ (quotas n) (host_of k) (peers sd) peer false flags now (ni_quota _ _ I) (mapping_host _ n I inflight_none k m Em)) as K.
    destruct (note _ _ _ _ _ _ _) as [q ps]. destruct K as (_ & K1 & _). split_and!; [by apply side_inv|done| |done|].
    + intros k' Hne. cbn. by rewrite lookup_insert_ne.
    + intros m' [= <-]. eexists. split_and!; [cbn; by rewrite lookup_insert_eq|done|]. intros H1 H2. unfold sd in Eo. rewrite H1, H2 in Eo. done.
  - split_and!; [|done| |done|].
    + apply side_inv; try done. eapply quota_inv_ext; [| |exact (ni_quota _ _ I)]; intros P; cbn beta; fold sd; lia.
    + intros k' Hne. cbn. by rewrite lookup_insert_ne.
    + intros m' [= <-]. eexists. split_and!; [cbn; by rewrite lookup_insert_eq|done|done].
Qed.

Lemma close_to_inv n k peer flags now :
  nat_inv none_inflight n ->
  let n' := close_to n k peer flags now in
  nat_inv none_inflight n' /\ tables n' = tables n /\ (forall k', k' <> k -> mappings n' !! k' = mappings n !! k') /\
  (forall m, mappings n !! k = Some m -> exists m', mappings n' !! k = Some m' /\ outside_port m' = outside_port m).
Proof.
  intros I. unfold close_to. destruct (mappings n !! k) as [m|] eqn:Em; [|done]. destruct (ni_maps _ _ I k m Em) as [Hok _].
  assert (m_key (with_open m false) = k) as Ek by apply Hok. rewrite Ek.
  pose proof (note_inv _ _ (quotas n) (host_of k) (peers (with_open m false)) peer false flags now (ni_quota _ _ I) (mapping_host _ n I inflight_none k m Em)) as K.
  destruct (note _ _ _ _ _ _ _) as [q ps]. destruct K as (_ & K1 & _).
  assert (forall s, put_side (fun _ => false) m s = s) as Hput by (intros s; unfold put_side, on_alias; by destruct (alias m)).
  assert (side (fun _ => false) m = m) as Hside by (unfold side, on_alias; by destruct (alias m)).
  split_and!.
  - rewrite <- (Hput (with_peers (with_open m false) ps)). apply side_inv; rewrite ?Hside; done.
  - done.
  - intros k' Hne. cbn. by rewrite lookup_insert_ne.
  - intros m' [= <-]. eexists. split; [cbn; by rewrite lookup_insert_eq|done].
Qed.

Lemma npeers_resize ps peer out seq d : npeers (record_resize ps peer out seq d) = npeers ps.
Proof.
  unfold record_resize, npeers. destruct (ps !! peer) as [p|] eqn:E; [|done]. destruct (default _ _) as [o i]. f_equal. apply map_size_insert_Some. eauto.
Qed.

Lemma seq_fixup_inv n k peer out seq delta :
  nat_inv none_inflight n -> let n' := (seq_fixup n k peer out seq delta).1 in nat_inv none_inflight n' /\ tables n' = tables n.
Proof.
  intros I. unfold seq_fixup. destruct (mappings n !! k) as [m|] eqn:Em; [|done]. cbn [fst]. split; [|done].
  set (s := if delta =? 0 then _ else _).
  assert (npeers (peers s) = npeers (peers (side (for_peer peer) m))) as En by (unfold s; destruct (delta =? 0); [done|apply npeers_resize]).
  pose proof (side_inv n k m (for_peer peer) s (quotas n) I Em) as K.
  assert (with_quotas (with_mappings n (<[k := put_side (for_peer peer) m s]> (mappings n))) (quotas n) = with_mappings n (<[k := put_side (for_peer peer) m s]> (mappings n))) as E by done.
  rewrite E in K. apply K; try (unfold s; by destruct (delta =? 0)).
  eapply quota_inv_ext; [| |exact (ni_quota _ _ I)]; intros P; cbn beta; lia.
Qed.

(** ** Every history *)

(** What happens under the lock, in the code's units: each with the arguments
    a packet, a helper or the caller can give. *)
Inductive nat_step (n : NatInner) : NatInner -> Prop :=
  | do_limits l : nat_step n (set_limits n l)
  | do_get k now t t' : proto_ok (nk_proto k) -> port_ok (nk_port k) -> nat_step n (get_or_create n k now t t').1
  | do_outbound k sel peer flags : nat_step n (note_outbound n k sel peer flags).1
  | do_inbound k port peer flags now : nat_step n (note_inbound_at n k port peer flags now).1
  | do_fixup k peer out seq delta : nat_step n (seq_fixup n k peer out seq delta).1
  | do_install k rk displacing now : reverse n !! rk = None -> rk_proto rk = nk_proto k -> port_ok (rk_port rk) -> proto_ok (nk_proto k) ->
      nat_step n (install_mapping n k rk displacing now).1
  | do_close k peer flags now : nat_step n (close_to n k peer flags now)
  | do_expire k now : nat_step n (expire_mapping n k now)
  | do_sweep now : nat_step n (expire_locked n None now)
  | do_expect e visit t t' : port_ok (ex_outside_port e) -> (forall x, x ∈ expectations (tables n) -> ex_host x ∈ visit) ->
      nat_step n (add_expectation n e visit t t')
  | do_match proto port rip rport now : nat_step n (match_expectation n proto port rip rport now).1
  | do_forward pf now : port_ok (pf_outside_port pf) -> proto_ok (pf_proto pf) -> nat_step n (add_port_forward n pf now).1
  | do_unforward proto port : nat_step n (remove_port_forward n proto port)
  | do_match_forward proto port now : nat_step n (match_forward n proto port now).1
  | do_create ns proto ip port now now' t t' : proto_ok proto -> port_ok port -> nat_step n (create_mapping_in n ns proto ip port now now' t t').1
  | do_pair ns proto ip first second now t t' : proto_ok proto -> port_ok first -> port_ok second -> first <> second ->
      nat_step n (create_mapping_pair_in n ns proto ip first second now t t').1
  | do_expect_from ns proto ip port rip expires visit now t t' u u' : proto_ok proto -> port_ok port ->
      (forall x, x ∈ expectations (tables n) -> ex_host x ∈ visit) ->
      nat_step n (expect_from_in n ns proto ip port rip expires visit now t t' u u').1
  | do_cleanup ns : nat_step n (cleanup_namespace n ns).

Lemma nat_step_inv n n' : nat_step n n' -> nat_inv none_inflight n -> nat_inv none_inflight n'.
Proof.
  intros Hs I. destruct Hs.
  - by apply set_limits_inv.
  - pose proof (get_or_create_inv n k now t t' I) as K. destruct (get_or_create n k now t t'). by apply K.
  - pose proof (note_outbound_inv n k sel peer flags I) as K. destruct (note_outbound n k sel peer flags). apply K.
  - pose proof (note_inbound_at_inv n k port peer flags now I) as K. destruct (note_inbound_at n k port peer flags now). apply K.
  - by apply seq_fixup_inv.
  - pose proof (install_mapping_inv n k rk displacing now I) as K. destruct (install_mapping n k rk displacing now). by apply K.
  - by apply close_to_inv.
  - by apply (expire_mapping_inv _ n k now I inflight_none).
  - by apply (expire_locked_inv _ n None now I inflight_none).
  - by apply add_expectation_inv.
  - pose proof (match_expectation_inv n proto port rip rport now I) as K. destruct (match_expectation n proto port rip rport now). apply K.
  - by apply add_port_forward_inv.
  - by apply remove_port_forward_inv.
  - pose proof (match_forward_inv n proto port now I) as K. destruct (match_forward n proto port now). apply K.
  - by apply create_mapping_in_inv.
  - by apply create_mapping_pair_in_inv.
  - by apply expect_from_in_inv.
  - by apply cleanup_namespace_inv.
Qed.

Lemma nat_new_inv t0 : nat_inv none_inflight (NatInner_new t0).
Proof.
  split.
  - split; [by apply Tables_new_inv|]. split; cbn; done.
  - intros k m E. done.
  - intros rk k. split; [intros E; done|intros (m & E & _); done].
  - split; cbn; [done|intros h Hh; unfold msum in Hh; by rewrite map_fold_empty in Hh|done|unfold msum; by rewrite map_fold_empty].
Qed.

Definition nat_reached (t0 : Z) (n : NatInner) : Prop := rtc nat_step (NatInner_new t0) n.

Lemma nat_reached_inv t0 n : nat_reached t0 n -> nat_inv none_inflight n.
Proof. intros H. pose proof (nat_new_inv t0) as I. unfold nat_reached in H. induction H; [done|]. by eauto using nat_step_inv. Qed.

(** ** The tables agree *)

(** The mapping's sides, and the remotes they track, of the hosts in [P]. *)
Definition mapped (P : Host -> bool) (n : NatInner) : Z := msum (fun m => if P (host_of (m_key m)) then nsides m else 0) (mappings n).
Definition remotes (P : Host -> bool) (n : NatInner) : Z := msum (fun m => if P (host_of (m_key m)) then ntracked m else 0) (mappings n).

Lemma mapped_sides xm n P : nat_inv xm n -> mapped P n = msum (sides P) (mappings n) /\ remotes P n = msum (tracked P) (mappings n).
Proof.
  intros I. split; apply msum_ext; intros k m E; destruct (ni_maps _ _ I k m E) as [Hok _]; rewrite (mo_key _ _ Hok);
    [rewrite (sides_ok k m P Hok)|rewrite (tracked_ok k m P Hok)]; unfold one_of; destruct (P (host_of k)); lia.
Qed.

(** C14: After any history of operations under its lock, the NAT's tables
    agree.  The reverse table holds exactly the outside ports of the
    mappings and of the sides they displaced; no two mappings share a port
    of a protocol, so an arriving packet has one owner.  Every host's,
    namespace's and the global quota count exactly the mappings and remotes
    there are, so nothing leaks when mappings are displaced, expire or are
    dropped.  At most 1024 expectations wait. *)
Theorem nat_tables_agree (t0 : Z) (n : NatInner) :
  nat_reached t0 n ->
  (forall rk k, reverse n !! rk = Some k <-> exists m, mappings n !! k = Some m /\ rk_proto rk = nk_proto k /\ rk_port rk ∈ map_ports m) /\
  (forall k k' m m' p, mappings n !! k = Some m -> mappings n !! k' = Some m' -> nk_proto k = nk_proto k' -> p ∈ map_ports m -> p ∈ map_ports m' -> k = k') /\
  (forall h x, hosts (quotas n) !! h = Some x -> used (h_mappings x) = mapped (hosts_of h) n /\ used (h_peers x) = remotes (hosts_of h) n) /\
  (forall ns x, namespaces (quotas n) !! ns = Some x -> used (ns_mappings x) = mapped (in_ns ns) n /\ used (ns_peers x) = remotes (in_ns ns) n) /\
  used (peer_quota (quotas n)) = remotes anywhere n /\
  zlen (expectations (tables n)) <= MAX_EXPECTATIONS.
Proof.
  intros I%nat_reached_inv. pose proof (mapped_sides none_inflight n) as Hs. pose proof (ni_quota _ _ I) as Q. split_and!.
  - apply I.
  - intros k k' m m' p E E' Ep Hp Hp'. assert (reverse n !! rev_of k p = Some k) as R by (apply (ni_holder _ _ I); by exists m).
    assert (reverse n !! rev_of k p = Some k') as R' by (apply (ni_holder _ _ I); by exists m'). congruence.
  - intros h x E. destruct (Hs (hosts_of h) I) as [-> ->]. destruct (qi_host _ _ _ Q h x E) as (-> & -> & _). unfold none_inflight. lia.
  - intros ns x E. destruct (Hs (in_ns ns) I) as [-> ->]. destruct (qi_ns _ _ _ Q ns x E) as (_ & -> & -> & _). unfold none_inflight. lia.
  - destruct (Hs anywhere I) as [_ ->]. apply Q.
  - apply (ts_exps _ (proj2 (ni_tables _ _ I))).
Qed.

(** A history: a TCP mapping is made, its packet noted, and a forward to the
    same endpoint displaces it when the remote answers on the new port. *)
Definition demo_key : NatKey := mkNatKey 1 6 167772162 5000.
Definition demo_peer : SocketAddr := (134744072, 443).
Definition demo_n1 : NatInner := (get_or_create (NatInner_new 0) demo_key 5 5 5).1.
Definition demo_n2 : NatInner := (note_outbound demo_n1 demo_key (fun _ => false) demo_peer (Some 2)).1.
Definition demo_n3 : NatInner := (install_mapping demo_n2 demo_key (mkNatRevKey 6 8080) true 6).1.

Lemma nat_demo_reached : nat_reached 0 demo_n3.
Proof.
  eapply rtc_l; [apply (do_get _ demo_key 5 5 5); done|]. eapply rtc_l; [apply (do_outbound _ demo_key (fun _ => false) demo_peer (Some 2))|].
  eapply rtc_l; [apply (do_install _ demo_key (mkNatRevKey 6 8080) true 6); [vm_compute; reflexivity|done|done|done]|]. apply rtc_refl.
Qed.

Lemma nat_tables_agree_witness :
  (map_ports <$> mappings demo_n3 !! demo_key) = Some [8080; 5000] /\
  reverse demo_n3 !! mkNatRevKey 6 5000 = Some demo_key /\ used (peer_quota (quotas demo_n3)) = remotes anywhere demo_n3.
Proof.
  split; [vm_compute; reflexivity|]. split; [vm_compute; reflexivity|]. apply (nat_tables_agree 0 demo_n3 nat_demo_reached).
Defined.

(** ** Creation *)

(** Only the mapping of [k] has the port, of all protocols, forwards and
    expectations. *)
Definition sole_holder (n : NatInner) (k : NatKey) (p : Z) : Prop :=
  reverse n !! rev_of k p = Some k /\
  (forall rk, rk_port rk = p -> rk <> rev_of k p -> reverse n !! rk = None) /\
  (forall rk, rk_port rk = p -> by_port (tables n) !! rk = None) /\ Forall (fun e => ex_outside_port e <> p) (expectations (tables n)).

(** C15: In every reachable state, asking for the mapping of an inside
    endpoint gives the one it has, its port unchanged.  An endpoint that has
    none gets the port of its live forward if that is free, and otherwise a
    port that nothing else holds, of any protocol: its own port, if not
    privileged, or one of the dynamic range.  It is refused only when its
    host or namespace is at a cap, or when every port of the dynamic range
    is held; and every other mapping stays, unless it is idle past its
    timeout or on a lapsed forward's port. *)
Theorem mapping_found_or_made (t0 : Z) (n : NatInner) (k : NatKey) (now t t' : Z) :
  nat_reached t0 n -> proto_ok (nk_proto k) -> port_ok (nk_port k) ->
  let '(n', ok) := get_or_create n k now t t' in
  match mappings n !! k, forward_port_for n k now with
  | Some m, _ => ok = true /\ n' = with_mappings n (<[k := with_active m now]> (mappings n))
  | None, Some p => ok = true /\ mappings n' = <[k := with_open (Mapping_new k p now) true]> (mappings n) /\ reverse n' = <[rev_of k p := k]> (reverse n)
  | None, None =>
      if ok then exists p, mappings n' !! k = Some (Mapping_new k p now) /\ sole_holder n' k p /\
        ((PRESERVE_MIN <= p /\ p = nk_port k) \/ NAT_PORT_MIN <= p <= NAT_PORT_MAX) /\ others_kept t' k n n'
      else capped (quotas n') (host_of k) \/ exhausted (tables n')
  end.
Proof.
  intros I%nat_reached_inv Hpr Hpt. pose proof (get_or_create_inv n k now t t' I Hpr Hpt) as K. destruct (get_or_create n k now t t') as [n' ok].
  destruct K as [_ K]. destruct (mappings n !! k) as [m|]; [done|]. unfold created in K.
  destruct (forward_port_for n k now) as [p|]; [destruct ok; [|by destruct K]|destruct ok; [|apply K]].
  - destruct K as [K1 K2]. split_and!; [done|done|]. unfold reverse. by rewrite K2.
  - destruct K as (p & n0 & (C1 & [C2 C3] & C4) & M & T & O). exists p. rewrite M, lookup_insert_eq. split; [done|]. split; [|done].
    unfold sole_holder, reverse. rewrite T. cbn. split_and!; [| | |done].
    + by rewrite lookup_insert_eq.
    + intros rk Hrk Hne. rewrite lookup_insert_ne by done. by apply C2.
    + intros rk Hrk. by apply C2.
Qed.

(** Two hosts want the same port: the first has it, the second another. *)
Definition demo_key2 : NatKey := mkNatKey 1 17 167772163 5000.

Lemma mapping_found_or_made_witness :
  let '(n', ok) := get_or_create demo_n3 demo_key2 7 7 7 in
  ok = true /\ exists p, mappings n' !! demo_key2 = Some (Mapping_new demo_key2 p 7) /\ sole_holder n' demo_key2 p.
Proof.
  assert (proto_ok (nk_proto demo_key2) /\ port_ok (nk_port demo_key2)) as [P1 P2] by (by vm_compute).
  pose proof (mapping_found_or_made 0 demo_n3 demo_key2 7 7 7 nat_demo_reached P1 P2) as K.
  assert (mappings demo_n3 !! demo_key2 = None) as E1 by (vm_compute; reflexivity). rewrite E1 in K.
  assert (forward_port_for demo_n3 demo_key2 7 = None) as E2 by (vm_compute; reflexivity). rewrite E2 in K.
  assert ((get_or_create demo_n3 demo_key2 7 7 7).2 = true) as E by (vm_compute; reflexivity).
  destruct (get_or_create demo_n3 demo_key2 7 7 7) as [n' ok]. cbn [snd] in E. subst ok.
  destruct K as (p & K1 & K2 & _). split; [reflexivity|]. exists p. exact (conj K1 K2).
Defined.

(** ** Expiry *)

(** C16: In every reachable state, the sweep at [now] leaves exactly the
    expectations and the forwards that have not lapsed, and of each mapping
    exactly the following.  A displaced side goes when it has no remote
    within its timeout and has been idle for the base one, and loses its
    lapsed remotes otherwise.  The mapping itself goes, or loses its lapsed
    remotes, the same way once no displaced side is left; while one is, the
    mapping is kept whole, lapsed remotes included.  Then the sides on
    the ports of lapsed forwards go, a displaced side taking the mapping's
    place.  So a TCP session seen both ways and not closed keeps its port and
    its remote for two hours and four minutes after its last packet, other
    TCP sessions for four minutes, UDP for five and echoes for one, unless
    they were on a lapsed forward's port; and a mapping no side of which is
    live goes. *)
Theorem sweep_exact (t0 : Z) (n : NatInner) (now : Z) :
  nat_reached t0 n ->
  let n' := expire_locked n None now in
  expectations (tables n') = List.filter (fun e => now <=? ex_expires e) (expectations (tables n)) /\
  (forall rk f, by_port (tables n') !! rk = Some f <-> by_port (tables n) !! rk = Some f /\ lapsed (pf_expires f) now = false) /\
  (forall k, mappings n' !! k = (mappings n !! k ≫= survivor (nk_proto k) now) ≫= shed (forward_lapsed n k now)) /\
  (forall k m s peer x, mappings n !! k = Some m -> is_side m s -> peers s !! peer = Some x ->
     sat_sub now (last x) <= timeout x (nk_proto k) -> forward_lapsed n k now (outside_port s) = false ->
     exists m' s', mappings n' !! k = Some m' /\ is_side m' s' /\ outside_port s' = outside_port s /\ peers s' !! peer = Some x) /\
  (forall k m, mappings n !! k = Some m -> (forall s, is_side m s -> dead (nk_proto k) now s = true) -> mappings n' !! k = None).
Proof.
  intros I%nat_reached_inv n'. destruct (expire_locked_inv _ n None now I inflight_none ltac:(done)) as (_ & _ & _ & _ & J5 & J6 & _).
  pose proof (expire_locked_mappings _ n None now I inflight_none) as JM. fold n' in J5, J6, JM.
  split_and!; [done| |done| |].
  - intros rk f. rewrite J6. destruct (by_port (tables n) !! rk) as [f'|]; cbn; [|by split; [|intros []]].
    destruct (lapsed (pf_expires f') now) eqn:E; (split; [intros [= <-]|intros [[= <-] ?]]); congruence || done.
  - intros k m s peer x Em Hs Hx Ht Hg. rewrite JM, Em. cbn [mbind option_bind].
    assert (live_peers (nk_proto k) now (peers s) !! peer = Some x) as Hl by (by apply map_lookup_filter_Some).
    destruct (side_survives (nk_proto k) now (forward_lapsed n k now) m s Hs) as (m' & s' & E1 & E2 & E3 & E4); [|done|exists m', s'; split_and!; try done; by apply E4].
    unfold dead. rewrite bool_decide_eq_false_2; [done|]. intros E. by rewrite E in Hl.
  - intros k m Em Hd. rewrite JM, Em. cbn [mbind option_bind]. by rewrite dead_goes.
Qed.

Lemma sweep_exact_witness :
  mappings (expire_locked demo_n2 None (secs 60)) !! demo_key <> None /\
  mappings (expire_locked demo_n2 None (secs 1000)) !! demo_key = None /\
  forall k, mappings (expire_locked demo_n2 None (secs 60)) !! k = (mappings demo_n2 !! k ≫= survivor (nk_proto k) (secs 60)) ≫= shed (forward_lapsed demo_n2 k (secs 60)).
Proof.
  split; [vm_compute; congruence|]. split; [vm_compute; reflexivity|].
  assert (nat_reached 0 demo_n2) as R.
  { eapply rtc_l; [apply (do_get _ demo_key 5 5 5); done|]. apply rtc_once. apply (do_outbound _ demo_key (fun _ => false) demo_peer (Some 2)). }
  destruct (sweep_exact 0 demo_n2 (secs 60) R) as (_ & _ & K & _). exact K.
Defined.

(** ** Namespaces *)

(** C27: A namespace that is disconnected takes with it all its mappings,
    forwards and expectations, and nothing of any other namespace. *)
Theorem namespace_leaves_alone (t0 : Z) (n : NatInner) (ns : Z) :
  nat_reached t0 n ->
  let n' := cleanup_namespace n ns in
  (forall k, mappings n' !! k = if nk_ns k =? ns then None else mappings n !! k) /\
  (forall rk k, reverse n' !! rk = Some k <-> reverse n !! rk = Some k /\ nk_ns k <> ns) /\
  expectations (tables n') = List.filter (fun e => negb (ex_namespace e =? ns)) (expectations (tables n)) /\
  (forall rk f, by_port (tables n') !! rk = Some f <-> by_port (tables n) !! rk = Some f /\ pf_namespace f <> ns).
Proof.
  intros I%nat_reached_inv n'. destruct (cleanup_namespace_inv n ns I) as (J1 & J2 & J3 & J4). split_and!; try done.
  intros rk k. unfold n'. rewrite (ni_holder _ _ J1), (ni_holder _ _ I), J2. unfold holds. destruct (Z.eqb_spec (nk_ns k) ns); naive_solver.
Qed.

Lemma namespace_leaves_alone_witness :
  mappings demo_n3 !! demo_key <> None /\ mappings (cleanup_namespace demo_n3 1) !! demo_key = None /\
  mappings (cleanup_namespace demo_n3 2) !! demo_key = mappings demo_n3 !! demo_key.
Proof.
  split; [vm_compute; congruence|].
  split; [exact (proj1 (namespace_leaves_alone 0 demo_n3 1 nat_demo_reached) demo_key)|exact (proj1 (namespace_leaves_alone 0 demo_n3 2 nat_demo_reached) demo_key)].
Defined.
