(* ===== verification/NatFrag.v ===== *)
(** * Fragments translated one by one ([src/src/nat/frag.rs])

    [FragTable]: the translation of a datagram's first fragment, remembered
    for the others, and the fragments that arrive before it, held.  The table
    is bounded, and what is held comes out when the first fragment does, in
    the order it came in. *)

From S2P Require Import Prelude.

Module FragTable.

Definition FRAG_TIMEOUT : Z := 5 * 10 ^ 9.
Definition MAX_DATAGRAMS : Z := 256.
Definition MAX_HELD_BYTES : Z := 256 * 1024.

Section Table.
Context {K T : Type} `{Countable K}.

Record Entry := mkEntry { target : option T; held : list (list Z); created : Z }.

Record Table := mkTable { map : gmap K Entry; held_bytes : Z }.

Definition empty : Table := mkTable ∅ 0.

(** [iter().map(Vec::len).sum()] *)
Definition total (l : list (list Z)) : Z := foldr (fun f s => zlen f + s) 0 l.

Definition live (e : Entry) (now : Z) : bool := sat_sub now (created e) <=? FRAG_TIMEOUT.

(** What the entries of a table hold. *)
Definition held_in_map (m : gmap K Entry) : Z := map_fold (fun _ e s => total (held e) + s) 0 m.

Definition expire (t : Table) (now : Z) : Table :=
  mkTable (filter (fun '(_, e) => live e now = true) (map t))
    (held_bytes t - held_in_map (filter (fun '(_, e) => live e now = false) (map t))).

Definition resolve (t : Table) (key : K) (tgt : T) (now : Z) : Table * list (list Z) :=
  let t := expire t now in
  match map t !! key with
  | Some e => (mkTable (<[key := mkEntry (Some tgt) [] (created e)]> (map t)) (held_bytes t - total (held e)), held e)
  | None =>
      if Z.of_nat (size (map t)) <? MAX_DATAGRAMS then (mkTable (<[key := mkEntry (Some tgt) [] now]> (map t)) (held_bytes t), [])
      else (t, [])
  end.

Definition later (t : Table) (key : K) (frag : list Z) (now : Z) : Table * option T :=
  let t := expire t now in
  match map t !! key ≫= target with
  | Some tgt => (t, Some tgt)
  | None =>
      if (held_bytes t + zlen frag >? MAX_HELD_BYTES)
         || (bool_decide (map t !! key = None) && (Z.of_nat (size (map t)) >=? MAX_DATAGRAMS))
      then (t, None)
      else
        let e := default (mkEntry None [] now) (map t !! key) in
        (mkTable (<[key := mkEntry (target e) (held e ++ [frag]) (created e)]> (map t)) (held_bytes t + zlen frag), None)
  end.

(** ** Bounds *)

Record table_inv (t : Table) : Prop := {
  tv_bytes : held_bytes t = held_in_map (map t);
  tv_cap : held_bytes t <= MAX_HELD_BYTES;
  tv_size : Z.of_nat (size (map t)) <= MAX_DATAGRAMS;
  tv_target : forall k e, map t !! k = Some e -> target e <> None -> held e = [] }.

Lemma total_cons f l : total (f :: l) = zlen f + total l.
Proof. done. Qed.

Lemma total_app l k : total (l ++ k) = total l + total k.
Proof. induction l as [|f l IH]; [done|]. cbn [app]. rewrite !total_cons. lia. Qed.

Lemma total_nonneg l : 0 <= total l.
Proof. induction l as [|f l IH]; [done|]. rewrite total_cons. pose proof (zlen_nonneg f). lia. Qed.

Lemma held_insert m k e : m !! k = None -> held_in_map (<[k := e]> m) = total (held e) + held_in_map m.
Proof. intros E. unfold held_in_map. rewrite map_fold_insert_L; [done|intros; lia|done]. Qed.

Lemma held_replace m k e e' : m !! k = Some e' -> held_in_map (<[k := e]> m) = held_in_map m - total (held e') + total (held e).
Proof.
  intros E. rewrite <- insert_delete_eq, held_insert by apply lookup_delete_eq.
  rewrite <- (insert_delete_id m k e' E) at 2. rewrite held_insert by apply lookup_delete_eq. lia.
Qed.

Lemma held_filter m (f : Entry -> bool) :
  held_in_map (filter (fun '(_, e) => f e = true) m) + held_in_map (filter (fun '(_, e) => f e = false) m) = held_in_map m.
Proof.
  induction m as [|k e m Hm IH] using map_ind; [done|]. destruct (f e) eqn:E.
  - rewrite map_filter_insert_True by done. rewrite (map_filter_insert_False (fun '(_, e) => f e = false)) by congruence.
    rewrite delete_id, !held_insert; [lia|done|apply map_lookup_filter_None; by left|done].
  - rewrite (map_filter_insert_False (fun '(_, e) => f e = true)) by congruence. rewrite (map_filter_insert_True (fun '(_, e) => f e = false)) by done.
    rewrite delete_id, !held_insert; [lia|done|apply map_lookup_filter_None; by left|done].
Qed.

Lemma held_nonneg m : 0 <= held_in_map m.
Proof. induction m as [|k e m Hm IH] using map_ind; [done|]. rewrite held_insert by done. pose proof (total_nonneg (held e)). lia. Qed.

Lemma expire_inv t now : table_inv t -> table_inv (expire t now).
Proof.
  intros [H1 H2 H3 H4]. pose proof (held_filter (map t) (fun e => live e now)) as Hf. pose proof (held_nonneg (filter (fun '(_, e) => live e now = false) (map t))).
  cbv beta in Hf. split; cbn [held_bytes map expire].
  - lia.
  - lia.
  - pose proof (map_size_filter (fun '(_, e) => live e now = true) (map t)). lia.
  - intros k e E. apply map_lookup_filter_Some in E as [E _]. by eapply H4.
Qed.

Lemma resolve_inv t key tgt now : table_inv t -> table_inv (resolve t key tgt now).1.
Proof.
  intros I%(expire_inv _ now). unfold resolve. set (t1 := expire t now) in *. clearbody t1. destruct I as [H1 H2 H3 H4].
  assert (forall c k e, <[key := mkEntry (Some tgt) [] c]> (map t1) !! k = Some e -> target e <> None -> held e = []) as Ht.
  { intros c k e. rewrite lookup_insert_Some. intros [[_ <-]|[_ E]]; [done|by eapply H4]. }
  destruct (map t1 !! key) as [e|] eqn:E; cbn [fst].
  - pose proof (total_nonneg (held e)). split; cbn [held_bytes map]; [|lia| |apply Ht].
    + rewrite (held_replace _ _ _ e) by done. cbn [held]. change (total []) with 0. lia.
    + rewrite map_size_insert_Some by eauto. done.
  - destruct (Z.of_nat (size (map t1)) <? MAX_DATAGRAMS) eqn:El; [|done]. split; cbn [fst held_bytes map]; [|done| |apply Ht].
    + rewrite held_insert by done. cbn [held]. change (total []) with 0. lia.
    + rewrite map_size_insert_None by done. lia.
Qed.

(** Whether [later] can hold the fragment. *)
Definition room (t : Table) (key : K) (frag : list Z) (now : Z) : bool :=
  let t := expire t now in
  bool_decide (map t !! key ≫= target = None) && (held_bytes t + zlen frag <=? MAX_HELD_BYTES)
  && (bool_decide (is_Some (map t !! key)) || (Z.of_nat (size (map t)) <? MAX_DATAGRAMS)).

Lemma later_spec t key frag now :
  let t1 := expire t now in
  later t key frag now =
    if room t key frag now then
      let e := default (mkEntry None [] now) (map t1 !! key) in
      (mkTable (<[key := mkEntry None (held e ++ [frag]) (created e)]> (map t1)) (held_bytes t1 + zlen frag), None)
    else (t1, map t1 !! key ≫= target).
Proof.
  intros t1. unfold later, room. fold t1. destruct (map t1 !! key ≫= target) as [tgt|] eqn:Et; [by rewrite (bool_decide_eq_false_2 (Some tgt = None))|]. rewrite (bool_decide_eq_true_2 (@None T = None)) by done. cbn [andb].
  assert (target (default (mkEntry None [] now) (map t1 !! key)) = None) as Ee by (by destruct (map t1 !! key)). cbn zeta. rewrite Ee.
  destruct (Z.leb_spec (held_bytes t1 + zlen frag) MAX_HELD_BYTES) as [Hl|Hl].
  - replace (held_bytes t1 + zlen frag >? MAX_HELD_BYTES) with false by lia. cbn [orb andb]. destruct (map t1 !! key) as [e|]; [done|]. cbn [orb].
    rewrite (bool_decide_eq_true_2 (@None Entry = None)), (bool_decide_eq_false_2 (is_Some None)) by (done || by apply is_Some_None). cbn [orb andb].
    rewrite Z.geb_leb, Z.ltb_antisym. by destruct (MAX_DATAGRAMS <=? _).
  - replace (held_bytes t1 + zlen frag >? MAX_HELD_BYTES) with true by lia. done.
Qed.

Lemma later_inv t key frag now : table_inv t -> table_inv (later t key frag now).1.
Proof.
  intros I. rewrite later_spec. pose proof (expire_inv t now I) as I1. destruct (room t key frag now) eqn:Er; [|done].
  unfold room in Er. set (t1 := expire t now) in *. clearbody t1. destruct I1 as [V1 V2 V3 V4]. apply andb_prop in Er as [[_ R1]%andb_prop R2]. cbn zeta. cbn [fst].
  split; cbn [held_bytes map].
  - destruct (map t1 !! key) as [e|] eqn:E; cbn [from_option id default].
    + rewrite (held_replace _ _ _ e) by done. cbn [held]. rewrite total_app, total_cons. change (total []) with 0. lia.
    + rewrite held_insert by done. cbn [held app]. rewrite total_cons. change (total []) with 0. lia.
  - lia.
  - destruct (map t1 !! key) as [e|] eqn:E; [rewrite map_size_insert_Some by eauto; done|rewrite map_size_insert_None by done; cbn in *; lia].
  - intros k e. rewrite lookup_insert_Some. intros [[_ <-]|[_ E]]; [done|by eapply V4].
Qed.

(** ** Histories *)

Inductive op := Later (key : K) (frag : list Z) (now : Z) | Resolve (key : K) (tgt : T) (now : Z) | Expire (now : Z).

Definition op_time (o : op) : Z := match o with Later _ _ now | Resolve _ _ now | Expire now => now end.

Definition apply_op (t : Table) (o : op) : Table :=
  match o with
  | Later key frag now => (later t key frag now).1
  | Resolve key tgt now => (resolve t key tgt now).1
  | Expire now => expire t now
  end.

Definition run (t : Table) (l : list op) : Table := foldl apply_op t l.

(** The fragments of datagram [key] the table took in, in order. *)
Fixpoint taken (t : Table) (key : K) (l : list op) : list (list Z) :=
  match l with
  | [] => []
  | o :: l =>
      match o with
      | Later k frag now => if bool_decide (k = key) && room t k frag now then [frag] else []
      | _ => []
      end ++ taken (apply_op t o) key l
  end.

Definition resolves (key : K) (o : op) : bool := match o with Resolve k _ _ => bool_decide (k = key) | _ => false end.

Lemma frag_run_inv l : forall t, table_inv t -> table_inv (run t l).
Proof.
  induction l as [|o l IH]; intros t I; [done|]. apply IH. destruct o; [by apply later_inv|by apply resolve_inv|by apply expire_inv].
Qed.

Lemma empty_inv : table_inv empty.
Proof. split; done. Qed.

Lemma lookup_expire t now k : map (expire t now) !! k = e ← map t !! k; if live e now then Some e else None.
Proof.
  cbn [expire map]. destruct (map t !! k) as [e|] eqn:E; cbn.
  - destruct (live e now) eqn:El; [by apply map_lookup_filter_Some|]. apply map_lookup_filter_None. right. intros e' E' Hl. congruence.
  - apply map_lookup_filter_None. by left.
Qed.

(** What the table has for a datagram whose first fragment has not come. *)
Definition waiting (t : Table) (key : K) (fs : list (list Z)) (t0 : Z) : Prop :=
  match fs with
  | [] => map t !! key = None
  | _ => exists c, map t !! key = Some (mkEntry None fs c) /\ t0 <= c <= t0 + FRAG_TIMEOUT
  end.

Lemma waiting_expire t key fs t0 now : waiting t key fs t0 -> t0 <= now <= t0 + FRAG_TIMEOUT -> map (expire t now) !! key = map t !! key.
Proof.
  intros Hw Ht. rewrite lookup_expire. unfold waiting in Hw. destruct fs as [|f fs]; [by rewrite Hw|]. destruct Hw as (c & -> & Hc). cbn.
  unfold live. cbn [created]. replace (sat_sub now c <=? FRAG_TIMEOUT) with true; [done|]. unfold sat_sub. lia.
Qed.

Lemma waiting_step t key fs t0 o :
  waiting t key fs t0 -> t0 <= op_time o <= t0 + FRAG_TIMEOUT -> resolves key o = false ->
  waiting (apply_op t o) key (fs ++ taken t key [o]) t0.
Proof.
  intros Hw Ht Hr. assert (forall t', map t' !! key = map t !! key -> waiting t' key fs t0) as Hsame.
  { intros t' E. unfold waiting in *. destruct fs; rewrite E; done. }
  cbn [taken]. rewrite app_nil_r. destruct o as [k frag now|k tgt now|now]; cbn [apply_op op_time resolves] in *.
  - pose proof (waiting_expire t key fs t0 now Hw Ht) as He. rewrite later_spec. cbn zeta. destruct (room t k frag now) eqn:Er; cbn [fst].
    2:{ rewrite andb_false_r, app_nil_r. by apply Hsame. }
    rewrite andb_true_r. case_bool_decide as Ek.
    + subst k. rewrite He. unfold waiting in Hw |- *. destruct fs as [|f fs].
      * rewrite Hw. cbn [from_option id held created app map]. exists now. rewrite lookup_insert_eq. done.
      * destruct Hw as (c & -> & Hc). cbn [from_option id held created map app]. exists c. rewrite lookup_insert_eq. done.
    + rewrite app_nil_r. apply Hsame. cbn [map]. by rewrite lookup_insert_ne.
  - rewrite app_nil_r. apply bool_decide_eq_false in Hr. apply Hsame. unfold resolve. rewrite <- (waiting_expire t key fs t0 now Hw Ht). set (t1 := expire t now).
    destruct (map t1 !! k); cbn [fst map]; [by rewrite lookup_insert_ne|]. destruct (_ <? _); cbn [fst map]; [by rewrite lookup_insert_ne|done].
  - rewrite app_nil_r. apply Hsame. by eapply waiting_expire.
Qed.

Lemma waiting_run l : forall t key fs t0,
  waiting t key fs t0 -> Forall (fun o => t0 <= op_time o <= t0 + FRAG_TIMEOUT /\ resolves key o = false) l ->
  waiting (run t l) key (fs ++ taken t key l) t0.
Proof.
  induction l as [|o l IH]; intros t key fs t0 Hw Hf; [cbn; by rewrite app_nil_r|]. apply Forall_cons_iff in Hf as [[H1 H2] Hf].
  pose proof (waiting_step t key fs t0 o Hw H1 H2) as Hs. specialize (IH _ _ _ _ Hs Hf). cbn [taken] in *. rewrite app_nil_r in IH. by rewrite <- app_assoc in IH.
Qed.
End Table.

Section Contract.
Context {K T : Type} `{Countable K}.

(** C28: Fragments that overtake their datagram's first one wait for it.
    Whatever fragments of whatever datagrams arrive, at most 256 datagrams
    are tracked and 256 KiB held.  The fragments of one datagram the table
    took in over five seconds come out when its first fragment does: those,
    all of them, once, in the order they came; and later ones are given its
    translation at once. *)
Theorem fragments_wait_for_first (before l : list (op (K := K) (T := T))) (key : K) (tgt : T) (frag : list Z) (t0 now now' : Z) :
  let t := run empty before in
  map t !! key = None -> Forall (fun o => t0 <= op_time o <= t0 + FRAG_TIMEOUT /\ resolves key o = false) l ->
  t0 <= now <= t0 + FRAG_TIMEOUT -> now <= now' <= t0 + FRAG_TIMEOUT ->
  let t1 := run t l in
  let '(t2, out) := resolve t1 key tgt now in
  Z.of_nat (size (map t1)) <= MAX_DATAGRAMS /\ held_bytes t1 <= MAX_HELD_BYTES /\ held_bytes t1 = held_in_map (map t1) /\
  out = taken t key l /\
  (Z.of_nat (size (map (expire t1 now))) < MAX_DATAGRAMS \/ out <> [] -> (later t2 key frag now').2 = Some tgt).
Proof.
  intros t Hn Hf Hnow Hnow' t1. pose proof (frag_run_inv l t (frag_run_inv before empty empty_inv)) as [I1 I2 I3 I4]. fold t1 in I1, I2, I3, I4.
  pose proof (waiting_run l t key [] t0 Hn Hf) as Hw. cbn [app] in Hw. fold t1 in Hw. pose proof (waiting_expire _ _ _ _ now Hw Hnow) as He.
  unfold resolve. rewrite He. unfold waiting in Hw.
  assert (forall m b c, t0 <= c <= now' -> (later (mkTable (<[key := mkEntry (Some tgt) [] c]> m) b) key frag now').2 = Some tgt) as Hl.
  { intros m b c Hc. unfold later. rewrite lookup_expire. cbn [map]. rewrite lookup_insert_eq. cbn [mbind option_bind]. unfold live. cbn [created].
    replace (sat_sub now' c <=? FRAG_TIMEOUT) with true by (unfold sat_sub; lia). done. }
  destruct (taken t key l) as [|f fs].
  - rewrite Hw. destruct (_ <? _) eqn:Es; (split_and!; [done|done|done|done|]).
    + intros _. apply Hl. lia.
    + intros [Hlt|?]; [lia|done].
  - destruct Hw as (c & -> & Hc). cbn [held created]. split_and!; [done|done|done|done|]. intros _.
    destruct (Z.le_gt_cases c now') as [Hcn|Hcn]; [apply Hl; lia|]. unfold later. rewrite lookup_expire. cbn [map]. rewrite lookup_insert_eq. cbn [mbind option_bind].
    unfold live. cbn [created]. replace (sat_sub now' c <=? FRAG_TIMEOUT) with true; [done|]. unfold sat_sub. lia.
Qed.
End Contract.

Lemma fragments_wait_for_first_witness :
  let l := [Later 1 [1; 2] 10; Later 2 [9] 11; Later 1 [3] 12] in
  (resolve (run (run (T := Z) (K := Z) empty []) l) 1 7 20).2 = taken (run empty []) 1 l /\ taken (run (T := Z) empty []) 1 l = [[1; 2]; [3]].
Proof.
  pose proof (fragments_wait_for_first (K := Z) (T := Z) [] [Later 1 [1; 2] 10; Later 2 [9] 11; Later 1 [3] 12] 1 7 [4] 10 20 30) as W.
  cbn zeta in *. split; [|vm_compute; reflexivity].
  destruct (resolve _ 1 7 20) as [t2 out]. cbn [snd]. destruct W as (_ & _ & _ & W & _); [vm_compute; reflexivity| | | |exact W].
  - repeat constructor; vm_compute; congruence.
  - split; vm_compute; congruence.
  - split; vm_compute; congruence.
Defined.
End FragTable.
