(* ===== verification/NatDefrag.v ===== *)
(** * The NAT's reassembly ([src/src/nat/defrag.rs])

    [Defragger]: fragments buffered by sender zone, addresses, identification
    and protocol, bounded in datagrams, fragments and memory; a datagram that
    is whole comes out with the size its fragments had ([FragMax]), to be cut
    down to it again once translated.  The size of a buffered fragment's
    bookkeeping ([std::mem::size_of]) and the order in which a hash map is
    walked are parameters. *)

From S2P Require Import Prelude Checksum Packet Fragment.

Module NatDefrag.

Definition DEFRAG_TIMEOUT : Z := 30 * 10 ^ 9.
Definition DEFRAG_MAX_ENTRIES : Z := 256.
Definition DEFRAG_MAX_FRAGS : Z := 256.
Definition DEFRAG_MAX_BYTES : Z := Z.shiftl 4 20.

(** Zone, source, destination, identification, protocol. *)
Abbreviation FragKey := (Z * list Z * list Z * Z * Z)%type.

Record FragData := mkFrag { offset : Z; data : list Z; hdr : option (list Z) }.

Record FragEntry := mkEntry {
  frags : list FragData; created : Z; total : option Z; covered : Z; ecn : Z; charge : Z; max_size : Z; max_df_size : Z }.

Record FragMax := mkMax { size : Z; df : bool }.

Definition set_df (pkt : list Z) (on : bool) : list Z :=
  let old := slice pkt 6 8 in
  let pkt := set_byte pkt 6 (if on then Z.lor pkt.[6] 0x40 else Z.land pkt.[6] 0xBF) in
  splice pkt 10 (be16 (incremental_update (of_be16 pkt.[10] pkt.[11]) old (slice pkt 6 8))).

Definition refragment (m : FragMax) (pkt : list Z) : option (list (list Z)) :=
  if (zlen pkt <=? size m) || (zlen pkt <? 20) then None
  else match fragment_ipv4 (set_df pkt false) (Z.max (size m) MIN_IPV4_MTU) with
       | Fragments parts => Some (if df m then (fun p => set_df p true) <$> parts else parts)
       | _ => None
       end.

Record DefragInner := mkInner { entries : gmap FragKey FragEntry; held : Z }.

Definition Defragger_new : DefragInner := mkInner ∅ 0.

Definition drop_entry (d : DefragInner) (k : FragKey) : DefragInner :=
  match entries d !! k with
  | Some e => mkInner (delete k (entries d)) (held d - charge e)
  | None => d
  end.

Definition live (e : FragEntry) (now : Z) : bool := sat_sub now (created e) <? DEFRAG_TIMEOUT.

Definition charges (m : gmap FragKey FragEntry) : Z := map_fold (fun _ e s => charge e + s) 0 m.

Definition expire (d : DefragInner) (now : Z) : DefragInner :=
  mkInner (filter (fun '(_, e) => live e now = true) (entries d))
    (held d - charges (filter (fun '(_, e) => live e now = false) (entries d))).

Section Reassembly.
Context (iter : gmap FragKey FragEntry -> list (FragKey * FragEntry)) (FRAG_SIZE : Z).

Definition frag_charge (f : FragData) : Z := FRAG_SIZE + zlen (data f) + match hdr f with Some h => zlen h | None => 0 end.

(** [min_by_key]: the first of the oldest. *)
Fixpoint oldest (l : list (FragKey * FragEntry)) : option (FragKey * FragEntry) :=
  match l with
  | [] => None
  | x :: l =>
      match oldest l with
      | Some y => if created y.2 <? created x.2 then Some y else Some x
      | None => Some x
      end
  end.

Definition evict_oldest (d : DefragInner) (keep : FragKey) : DefragInner * bool :=
  match oldest (List.filter (fun x => negb (bool_decide (x.1 = keep))) (iter (entries d))) with
  | Some (k, _) => (drop_entry d k, true)
  | None => (d, false)
  end.

(** [while inner.charge > DEFRAG_MAX_BYTES]: whether the entry of [keep]
    stayed.  Each round takes an entry away. *)
Fixpoint make_room (fuel : nat) (d : DefragInner) (keep : FragKey) : DefragInner * bool :=
  match fuel with
  | O => (d, true)
  | S fuel =>
      if held d >? DEFRAG_MAX_BYTES then
        let '(d', ok) := evict_oldest d keep in
        if ok then make_room fuel d' keep else (drop_entry d' keep, false)
      else (d, true)
  end.

Definition frag_end (f : FragData) : Z := offset f + zlen (data f).

Definition new_entry (now : Z) : FragEntry := mkEntry [] now None 0 0 0 0 0.

(** [partition_point] on offsets. *)
Fixpoint before (l : list FragData) (off : Z) : nat :=
  match l with
  | f :: l => if offset f <? off then S (before l off) else O
  | [] => O
  end.

Definition overlaps (l : list FragData) (at_ : nat) (off fin : Z) : bool :=
  match at_ with O => false | S i => match l !! i with Some f => frag_end f >? off | None => false end end
  || match l !! at_ with Some f => offset f <? fin | None => false end.

(** The payload put together: a zeroed buffer the fragments are copied to. *)
Definition assemble (l : list FragData) (total : Z) : list Z :=
  foldl (fun buf f => let fin := Z.min (frag_end f) total in splice buf (offset f) (ztake (fin - offset f) (data f)))
    (replicate (Z.to_nat total) 0) l.

Definition rebuild (h payload : list Z) (m : FragMax) (e : option Z) : option (list Z) :=
  let total_len := zlen h + zlen payload in
  if total_len >? 65535 then None
  else
    let r := h ++ payload in
    let r := splice r 2 (be16 total_len) in
    let r := splice r 6 [if df m then 0x40 else 0; 0] in
    let r := match e with Some e => set_byte r 1 (Z.lor (Z.land r.[1] 0xFC) e) | None => r end in
    let r := splice r 10 [0; 0] in
    Some (splice r 10 (be16 (checksum (ztake (zlen h) r)))).

(** The entry with one more fragment. *)
Definition add_frag (e : FragEntry) (at_ : nat) (f : FragData) (total_len : Z) (dont : bool) (codepoint : Z) : FragEntry :=
  mkEntry (take at_ (frags e) ++ f :: drop at_ (frags e)) (created e) (total e) (covered e + zlen (data f)) (Z.lor (ecn e) (Z.shiftl 1 codepoint))
    (charge e + frag_charge f) (Z.max (max_size e) total_len) (if dont then Z.max (max_df_size e) total_len else max_df_size e).

Definition with_total (e : FragEntry) (t : option Z) : FragEntry :=
  mkEntry (frags e) (created e) t (covered e) (ecn e) (charge e) (max_size e) (max_df_size e).

Definition put_entry (d : DefragInner) (k : FragKey) (e : FragEntry) : DefragInner := mkInner (<[k := e]> (entries d)) (held d).

(** A datagram that is whole comes out. *)
Definition complete (d : DefragInner) (k : FragKey) : DefragInner * option (list Z * option FragMax) :=
  match entries d !! k with
  | None => (d, None)
  | Some e =>
      match total e with
      | None => (d, None)
      | Some t =>
          if covered e <? t then (d, None)
          else match head (omap hdr (frags e)) with
               | None => (drop_entry d k, None)
               | Some h =>
                   let m := mkMax (max_size e) (max_df_size e =? max_size e) in
                   (drop_entry d k, e' ← reassembled_ecn (ecn e); r ← rebuild h (assemble (frags e) t) m e'; Some (r, Some m))
               end
      end
  end.

Definition frag_key (zone : Z) (pkt : list Z) : FragKey := (zone, slice pkt 12 16, slice pkt 16 20, of_be16 pkt.[4] pkt.[5], pkt.[9]).

(** A fragment as it arrived. *)
Record Arrival := mkArrival { a_key : FragKey; a_frag : FragData; a_more : bool; a_len : Z; a_dont : bool; a_ecn : Z }.

Inductive parsed := Whole | Malformed | Fragment (a : Arrival).

Definition parse_fragment (zone : Z) (pkt : list Z) : parsed :=
  if zlen pkt <? 20 then Whole
  else
    let flags_off := of_be16 pkt.[6] pkt.[7] in
    let mf := negb (Z.land flags_off 0x2000 =? 0) in
    let off := Z.land flags_off 0x1FFF * 8 in
    if negb mf && (off =? 0) then Whole
    else
      let ihl := Z.land pkt.[0] 0x0F * 4 in
      let total_len := of_be16 pkt.[2] pkt.[3] in
      if (ihl <? 20) || (total_len <? ihl) || (zlen pkt <? total_len) then Malformed
      else
        let payload := slice pkt ihl total_len in
        if (mf && negb (zlen payload mod 8 =? 0)) || (zlen payload =? 0) || (ihl + (off + zlen payload) >? 65535) then Malformed
        else Fragment (mkArrival (frag_key zone pkt) (mkFrag off payload (if off =? 0 then Some (ztake ihl pkt) else None)) mf total_len
               (negb (Z.land flags_off 0x4000 =? 0)) (Z.land pkt.[1] 3)).

(** An entry for [k], making room for a new one. *)
Definition entry_for (d : DefragInner) (now : Z) (k : FragKey) : DefragInner * FragEntry :=
  let d := match entries d !! k with
           | Some _ => d
           | None =>
               let d := expire d now in
               if Z.of_nat (base.size (entries d)) >=? DEFRAG_MAX_ENTRIES then (evict_oldest d k).1 else d
           end in
  let e := default (new_entry now) (entries d !! k) in
  (put_entry d k e, e).

Definition accept (d : DefragInner) (now : Z) (a : Arrival) : DefragInner * option (list Z * option FragMax) :=
  let k := a_key a in
  let f := a_frag a in
  let fin := frag_end f in
  let '(d, e) := entry_for d now k in
  if negb (a_more a) && match total e with Some t => negb (t =? fin) | None => false end then (drop_entry d k, None)
  else
    let e := if a_more a then e else with_total e (Some fin) in
    let d := put_entry d k e in
    if match total e with
       | Some t => (fin >? t) || match list.last (frags e) with Some f => frag_end f >? t | None => false end
       | None => false
       end then (drop_entry d k, None)
    else
      let at_ := before (frags e) (offset f) in
      if overlaps (frags e) at_ (offset f) fin || (zlen (frags e) >=? DEFRAG_MAX_FRAGS) then (drop_entry d k, None)
      else
        let e := add_frag e at_ f (a_len a) (a_dont a) (a_ecn a) in
        let d := mkInner (<[k := e]> (entries d)) (held d + frag_charge f) in
        let '(d, stayed) := make_room (base.size (entries d)) d k in
        if stayed then complete d k else (d, None).

Definition reassemble (d : DefragInner) (now zone : Z) (pkt : list Z) : DefragInner * option (list Z * option FragMax) :=
  match parse_fragment zone pkt with
  | Whole => (d, Some (pkt, None))
  | Malformed => (d, None)
  | Fragment a => accept d now a
  end.
End Reassembly.

Definition sweep (d : DefragInner) (now : Z) : DefragInner := expire d now.

(** ** Fragments in order *)

(** Sorted, disjoint and not empty, from [lo] on. *)
Fixpoint sorted_from (lo : Z) (l : list FragData) : Prop :=
  match l with
  | [] => True
  | f :: l => lo <= offset f /\ 0 < zlen (data f) /\ sorted_from (frag_end f) l
  end.

(** One after the other from [lo] up to [hi]. *)
Fixpoint contiguous (lo hi : Z) (l : list FragData) : Prop :=
  match l with
  | [] => lo = hi
  | f :: l => offset f = lo /\ 0 < zlen (data f) /\ contiguous (frag_end f) hi l
  end.

Definition len_sum (l : list FragData) : Z := foldr (fun f s => zlen (data f) + s) 0 l.

Lemma len_sum_cons f l : len_sum (f :: l) = zlen (data f) + len_sum l.
Proof. done. Qed.

Lemma len_sum_app l k : len_sum (l ++ k) = len_sum l + len_sum k.
Proof. induction l as [|f l IH]; [done|]. cbn [app]. rewrite !len_sum_cons. lia. Qed.

Lemma sorted_weaken lo lo' l : lo' <= lo -> sorted_from lo l -> sorted_from lo' l.
Proof. intros Hl. destruct l as [|f l]; [done|]. cbn. intros (H1 & H2 & H3). split_and!; [lia|done|done]. Qed.

(** Insertion at the partition point, with neither neighbour in the way. *)
Lemma insert_sorted f l : forall lo,
  sorted_from lo l -> lo <= offset f -> 0 < zlen (data f) -> overlaps l (before l (offset f)) (offset f) (frag_end f) = false ->
  sorted_from lo (take (before l (offset f)) l ++ f :: drop (before l (offset f)) l).
Proof.
  unfold overlaps. induction l as [|g l IH]; intros lo Hs Hlo Hd Ho; cbn [before take drop app] in *; [done|].
  destruct Hs as (H1 & H2 & H3). destruct (offset g <? offset f) eqn:Eg; cbn [take drop app] in *.
  - split_and!; [done|done|]. apply orb_false_elim in Ho as [Ho1 Ho2]. cbn [lookup list_lookup] in Ho2.
    apply IH; [done| |done|].
    + destruct (before l (offset f)) eqn:Eb; [cbn in Ho1; lia|]. destruct l as [|h l]; [done|]. cbn in Eb. destruct (offset h <? offset f) eqn:Eh; [|done].
      destruct H3 as (H4 & H5 & H6). lia.
    + apply orb_false_intro; [|exact Ho2]. destruct (before l (offset f)) as [|i] eqn:Eb; [done|exact Ho1].
  - cbn [lookup list_lookup] in Ho. split_and!; [done|done|]. cbn. split_and!; [unfold frag_end in *; lia|done|done].
Qed.

Lemma sorted_bound l : forall lo hi, sorted_from lo l -> (forall f, f ∈ l -> frag_end f <= hi) -> lo <= hi -> len_sum l <= hi - lo.
Proof.
  induction l as [|f l IH]; intros lo hi Hs Hh Hlo; [cbn; lia|]. destruct Hs as (H1 & H2 & H3). rewrite len_sum_cons.
  pose proof (Hh f (list_elem_of_here _ _)). specialize (IH (frag_end f) hi H3 (fun g Hg => Hh g (list_elem_of_further _ _ _ Hg)) ltac:(lia)).
  unfold frag_end in *. lia.
Qed.

(** Enough bytes without overlap leave no gap. *)
Lemma sorted_full l : forall lo hi, sorted_from lo l -> (forall f, f ∈ l -> frag_end f <= hi) -> lo <= hi -> hi - lo <= len_sum l -> contiguous lo hi l.
Proof.
  induction l as [|f l IH]; intros lo hi Hs Hh Hlo Hl; [cbn in *; lia|]. destruct Hs as (H1 & H2 & H3). rewrite len_sum_cons in Hl.
  pose proof (Hh f (list_elem_of_here _ _)) as He. pose proof (fun g Hg => Hh g (list_elem_of_further _ _ _ Hg)) as Hh'.
  pose proof (sorted_bound l (frag_end f) hi H3 Hh' ltac:(lia)). cbn [contiguous]. unfold frag_end in *.
  split_and!; [lia|done|]. apply IH; [done|done|lia|lia].
Qed.

Lemma last_end l : forall lo f, sorted_from lo l -> list.last l = Some f -> forall g, g ∈ l -> frag_end g <= frag_end f.
Proof.
  induction l as [|h l IH]; intros lo f Hs Hf g Hg; [done|]. destruct Hs as (H1 & H2 & H3).
  destruct l as [|h' l]; [cbn in Hf; injection Hf as <-; apply elem_of_cons in Hg as [->|Hg]; [lia|by apply not_elem_of_nil in Hg]|].
  change (list.last (h :: h' :: l)) with (list.last (h' :: l)) in Hf.
  pose proof (IH _ _ H3 Hf) as Hl. apply elem_of_cons in Hg as [->|Hg]; [|by apply Hl].
  specialize (Hl h' (list_elem_of_here _ _)). destruct H3 as (H4 & H5 & _). unfold frag_end in *. lia.
Qed.

(** Copying contiguous fragments to a buffer is putting them end to end. *)
Lemma assemble_contiguous l : forall pre lo hi,
  contiguous lo hi l -> zlen pre = lo -> 0 <= lo <= hi ->
  foldl (fun buf f => let fin := Z.min (frag_end f) hi in splice buf (offset f) (ztake (fin - offset f) (data f)))
    (pre ++ replicate (Z.to_nat (hi - lo)) 0) l = pre ++ concat (data <$> l).
Proof.
  induction l as [|f l IH]; intros pre lo hi Hc Hp Hlo.
  - cbn in *. subst. by rewrite Z.sub_diag.
  - destruct Hc as (H1 & H2 & H3). cbn [foldl fmap list_fmap concat].
    assert (frag_end f <= hi) as Hf.
    { clear -H3. revert H3. generalize (frag_end f) as x. induction l as [|g l IH]; intros x Hc; [cbn in Hc; lia|]. destruct Hc as (<- & H2 & H3).
      specialize (IH _ H3). unfold frag_end in IH. lia. }
    replace (Z.min (frag_end f) hi) with (frag_end f) by lia. replace (frag_end f - offset f) with (zlen (data f)) by (unfold frag_end; lia).
    rewrite ztake_all by lia. rewrite H1. unfold frag_end in *. rewrite H1 in *.
    replace (replicate (Z.to_nat (hi - lo)) 0) with (replicate (Z.to_nat (zlen (data f))) 0 ++ replicate (Z.to_nat (hi - (lo + zlen (data f)))) 0)
      by (rewrite <- replicate_add; f_equal; lia).
    rewrite <- Hp at 2. rewrite splice_app by (rewrite zlen_replicate; lia). rewrite app_assoc.
    rewrite (IH (pre ++ data f) (lo + zlen (data f)) hi H3) by (rewrite ?zlen_app; lia). by rewrite <- app_assoc.
Qed.

Lemma assemble_full l t : contiguous 0 t l -> 0 <= t -> assemble l t = concat (data <$> l).
Proof. intros Hc Ht. unfold assemble. pose proof (assemble_contiguous l [] 0 t Hc eq_refl ltac:(lia)) as K. by rewrite Z.sub_0_r in K. Qed.

(** ** What an entry holds *)

Section Sound.
Context (iter : gmap FragKey FragEntry -> list (FragKey * FragEntry)) (FRAG_SIZE : Z).
Hypothesis iter_perm : forall m, iter m ≡ₚ map_to_list m.
Hypothesis size_pos : 0 <= FRAG_SIZE.
Context (R : Arrival -> Prop).

Let chg (l : list FragData) : Z := foldr (fun f s => frag_charge FRAG_SIZE f + s) 0 l.

Record entry_inv (k : FragKey) (e : FragEntry) : Prop := {
  ei_sorted : sorted_from 0 (frags e);
  ei_origin : forall f, f ∈ frags e -> exists a, R a /\ a_key a = k /\ a_frag a = f /\ a_len a <= max_size e;
  ei_count : zlen (frags e) <= DEFRAG_MAX_FRAGS;
  ei_covered : covered e = len_sum (frags e);
  ei_charge : charge e = chg (frags e);
  ei_total : forall t, total e = Some t ->
    (exists a, R a /\ a_key a = k /\ a_more a = false /\ frag_end (a_frag a) = t) /\ forall f, f ∈ frags e -> frag_end f <= t;
  ei_max : 0 < max_size e -> exists a, R a /\ a_key a = k /\ a_len a = max_size e;
  ei_df : 0 < max_df_size e -> exists a, R a /\ a_key a = k /\ a_dont a = true /\ a_len a = max_df_size e }.

Record table_inv (d : DefragInner) : Prop := {
  di_entries : forall k e, entries d !! k = Some e -> entry_inv k e;
  di_held : held d = charges (entries d) }.

Lemma frag_charge_nonneg f : 0 <= frag_charge FRAG_SIZE f.
Proof using size_pos. unfold frag_charge. pose proof (zlen_nonneg (data f)). destruct (hdr f) as [h|]; [pose proof (zlen_nonneg h)|]; lia. Qed.

Lemma chg_nonneg l : 0 <= chg l.
Proof using size_pos. induction l as [|f l IH]; [done|]. cbn. pose proof (frag_charge_nonneg f). unfold chg in IH. lia. Qed.

Lemma chg_app l k : chg (l ++ k) = chg l + chg k.
Proof using. induction l as [|f l IH]; [done|]. unfold chg in *. cbn. lia. Qed.

Lemma chg_insert f l i : chg (take i l ++ f :: drop i l) = chg l + frag_charge FRAG_SIZE f.
Proof using. rewrite <- (take_drop i l) at 3. rewrite !chg_app. unfold chg. cbn. lia. Qed.

Lemma charges_insert m k e : m !! k = None -> charges (<[k := e]> m) = charge e + charges m.
Proof using. intros E. unfold charges. rewrite map_fold_insert_L; [done|intros; lia|done]. Qed.

Lemma charges_delete m k e : m !! k = Some e -> charges (delete k m) = charges m - charge e.
Proof using. intros E. rewrite <- (insert_delete_id m k e E) at 2. rewrite charges_insert by apply lookup_delete_eq. lia. Qed.

Lemma charges_replace m k e e' : m !! k = Some e' -> charges (<[k := e]> m) = charges m - charge e' + charge e.
Proof using. intros E. rewrite <- insert_delete_eq, charges_insert, (charges_delete m k e') by (done || apply lookup_delete_eq). lia. Qed.

Lemma charges_filter m (f : FragEntry -> bool) :
  charges (filter (fun '(_, e) => f e = true) m) + charges (filter (fun '(_, e) => f e = false) m) = charges m.
Proof using.
  induction m as [|k e m Hm IH] using map_ind; [done|]. destruct (f e) eqn:E.
  - rewrite map_filter_insert_True by done. rewrite (map_filter_insert_False (fun '(_, e) => f e = false)) by congruence.
    rewrite delete_id, !charges_insert; [lia|done|apply map_lookup_filter_None; by left|done].
  - rewrite (map_filter_insert_False (fun '(_, e) => f e = true)) by congruence. rewrite (map_filter_insert_True (fun '(_, e) => f e = false)) by done.
    rewrite delete_id, !charges_insert; [lia|done|apply map_lookup_filter_None; by left|done].
Qed.

(** *** Entries go *)

Lemma drop_inv d k : table_inv d -> table_inv (drop_entry d k) /\ entries (drop_entry d k) = delete k (entries d).
Proof using.
  intros [H1 H2]. unfold drop_entry. destruct (entries d !! k) as [e|] eqn:E; [|rewrite delete_id by done; by split].
  split; [|done]. split; cbn [entries held].
  - intros k' e' E'. apply lookup_delete_Some in E' as [_ E']. by apply H1.
  - rewrite (charges_delete _ _ e) by done. lia.
Qed.

Lemma defrag_expire_inv d now : table_inv d -> table_inv (expire d now) /\ (forall k e, entries (expire d now) !! k = Some e -> entries d !! k = Some e).
Proof using.
  intros [H1 H2]. assert (forall k e, entries (expire d now) !! k = Some e -> entries d !! k = Some e) as Hs.
  { intros k e E. by apply map_lookup_filter_Some in E as [E _]. }
  split; [|done]. split; [intros k e E; by apply H1, Hs|]. cbn [expire entries held]. pose proof (charges_filter (entries d) (fun e => live e now)). cbv beta in *. lia.
Qed.

Lemma oldest_some l x : oldest l = Some x -> x ∈ l.
Proof using.
  revert x. induction l as [|y l IH]; intros x; [done|]. cbn. destruct (oldest l) as [z|].
  - destruct (_ <? _); intros [= <-]; [by apply list_elem_of_further, IH|apply list_elem_of_here].
  - intros [= <-]. apply list_elem_of_here.
Qed.

Lemma oldest_none l : oldest l = None -> l = [].
Proof using. destruct l as [|x l]; [done|]. cbn. destruct (oldest l); [by destruct (_ <? _)|done]. Qed.

Lemma evict_inv d keep :
  table_inv d ->
  let '(d', ok) := evict_oldest iter d keep in
  table_inv d' /\ (forall k e, entries d' !! k = Some e -> entries d !! k = Some e) /\ entries d' !! keep = entries d !! keep /\
  (if ok then base.size (entries d) = S (base.size (entries d')) else d' = d /\ forall k, k <> keep -> entries d !! k = None).
Proof using iter_perm.
  intros I. unfold evict_oldest. destruct (oldest _) as [[k e]|] eqn:E.
  - apply oldest_some, list_elem_of_In, filter_In in E as [E1 E2]. cbn in E2. apply negb_true_iff, bool_decide_eq_false in E2.
    assert (entries d !! k = Some e) as Ek. { apply elem_of_map_to_list. rewrite <- (iter_perm (entries d)). by apply list_elem_of_In. }
    destruct (drop_inv d k I) as [I' ->]. split_and!; [done| | |].
    + intros k' e' E'. by apply lookup_delete_Some in E' as [_ E'].
    + by rewrite lookup_delete_ne.
    + rewrite map_size_delete_Some by eauto. assert (base.size (entries d) <> 0)%nat; [|lia]. intros Hz. apply map_size_empty_iff in Hz. by rewrite Hz in Ek.
  - apply oldest_none in E. split_and!; try done. intros k Hk. destruct (entries d !! k) as [e|] eqn:Ek; [|done]. exfalso.
    apply elem_of_map_to_list in Ek. rewrite <- (iter_perm (entries d)) in Ek. apply list_elem_of_In in Ek.
    assert (In (k, e) []) as []. rewrite <- E. apply filter_In. split; [done|]. cbn. by apply negb_true_iff, bool_decide_eq_false.
Qed.

Lemma make_room_inv keep : forall fuel d,
  table_inv d -> is_Some (entries d !! keep) -> (base.size (entries d) <= fuel)%nat ->
  let '(d', ok) := make_room iter fuel d keep in
  table_inv d' /\ (forall k e, entries d' !! k = Some e -> entries d !! k = Some e) /\ held d' <= DEFRAG_MAX_BYTES /\
  (ok = true -> entries d' !! keep = entries d !! keep) /\ (base.size (entries d') <= base.size (entries d))%nat.
Proof using iter_perm size_pos.
  induction fuel as [|fuel IH]; intros d I [e He] Hf.
  { exfalso. assert (entries d = ∅) as E by (apply map_size_empty_iff; lia). by rewrite E in He. }
  cbn [make_room]. destruct (held d >? DEFRAG_MAX_BYTES) eqn:Eh; [|split_and!; try done; lia].
  pose proof (evict_inv d keep I) as K. destruct (evict_oldest iter d keep) as [d1 ok]. destruct K as (I1 & S1 & K1 & Z1). destruct ok.
  - specialize (IH d1 I1 ltac:(rewrite K1; eauto) ltac:(lia)). destruct (make_room iter fuel d1 keep) as [d2 ok2]. destruct IH as (I2 & S2 & H2 & K2 & Z2).
    split_and!; [done|eauto|done| |lia]. intros Hok. rewrite K2 by done. done.
  - destruct Z1 as [-> Z1]. destruct (drop_inv d keep I) as [I2 E2]. split_and!; [done| | |done|].
    + intros k e' E'. rewrite E2 in E'. by apply lookup_delete_Some in E' as [_ E'].
    + rewrite (di_held _ I2). assert (entries (drop_entry d keep) = ∅) as ->.
      { rewrite E2. apply map_empty. intros k. destruct (decide (k = keep)) as [->|Hne]; [apply lookup_delete_eq|rewrite lookup_delete_ne by done; by apply Z1]. }
      done.
    + rewrite E2. rewrite map_size_delete_Some by eauto. lia.
Qed.

(** *** A fragment arrives *)

Record bounded (d : DefragInner) : Prop := {
  bd_table : table_inv d;
  bd_bytes : held d <= DEFRAG_MAX_BYTES;
  bd_entries : Z.of_nat (base.size (entries d)) <= DEFRAG_MAX_ENTRIES }.

Lemma charge_nonneg k e : entry_inv k e -> 0 <= charge e.
Proof using size_pos. intros I. rewrite (ei_charge _ _ I). apply chg_nonneg. Qed.

Lemma charges_nonneg m : (forall k e, m !! k = Some e -> entry_inv k e) -> 0 <= charges m.
Proof using size_pos.
  induction m as [|k e m Hm IH] using map_ind; intros H; [done|]. rewrite charges_insert by done.
  assert (entry_inv k e) as He by (apply H; apply lookup_insert_eq). pose proof (charge_nonneg k e He).
  enough (0 <= charges m) by lia. apply IH. intros k' e' E'. apply H. rewrite lookup_insert_ne; [done|]. intros ->. congruence.
Qed.

Lemma drop_bounded d k : bounded d -> bounded (drop_entry d k).
Proof using size_pos.
  intros [I1 I2 I3]. destruct (drop_inv d k I1) as [J1 J2]. split; [done| |].
  - unfold drop_entry. destruct (entries d !! k) as [e|] eqn:E; [|done]. cbn. pose proof (charge_nonneg k e (di_entries _ I1 k e E)). lia.
  - rewrite J2. destruct (entries d !! k) as [e|] eqn:E; [rewrite map_size_delete_Some by eauto; lia|by rewrite delete_id].
Qed.

Lemma evict_bounded d keep : bounded d -> bounded (evict_oldest iter d keep).1.
Proof using size_pos. intros I. unfold evict_oldest. destruct (oldest _) as [[k e]|]; [by apply drop_bounded|done]. Qed.

Lemma expire_bounded d now : bounded d -> bounded (expire d now).
Proof using size_pos.
  intros [I1 I2 I3]. destruct (defrag_expire_inv d now I1) as [J1 _]. split; [done| |].
  - cbn [expire held]. pose proof (charges_nonneg (filter (fun '(_, e) => live e now = false) (entries d))) as H.
    specialize (H (fun k e E => di_entries _ I1 k e (proj1 (proj1 (map_lookup_filter_Some _ _ _ _) E)))). lia.
  - cbn [expire entries]. pose proof (map_size_filter (fun '(_, e) => live e now = true) (entries d)). lia.
Qed.

Lemma new_entry_inv k now : entry_inv k (new_entry now).
Proof using. split; cbn; try done. intros f Hf. by apply not_elem_of_nil in Hf. Qed.

(** Another entry for [k] with the same charge. *)
Lemma put_inv d k e e' :
  bounded d -> entries d !! k = Some e -> entry_inv k e' -> charge e' = charge e -> bounded (put_entry d k e').
Proof using.
  intros [[I1 I2] I3 I4] Ek He Hc. split; [split|done|]; cbn [put_entry entries held].
  - intros k' e0. rewrite lookup_insert_Some. intros [[<- <-]|[_ E]]; [done|by apply I1].
  - rewrite (charges_replace _ _ _ e) by done. lia.
  - rewrite map_size_insert_Some by eauto. done.
Qed.

Lemma entry_for_inv d now k :
  bounded d -> let '(d', e) := entry_for iter d now k in bounded d' /\ entries d' !! k = Some e.
Proof using iter_perm size_pos.
  intros I. unfold entry_for. set (d1 := match entries d !! k with Some _ => d | None => _ end).
  assert (bounded d1 /\ (entries d1 !! k = None -> Z.of_nat (base.size (entries d1)) < DEFRAG_MAX_ENTRIES)) as [I1 Hn].
  { unfold d1. destruct (entries d !! k) as [e|] eqn:E; [by split; [|rewrite E]|]. pose proof (expire_bounded d now I) as J.
    destruct (defrag_expire_inv d now (bd_table _ I)) as [_ Hs]. set (d2 := expire d now) in *. clearbody d2.
    destruct (_ >=? _) eqn:Eg; [|split; [done|lia]]. split; [by apply evict_bounded|]. intros _.
    pose proof (evict_inv d2 k (bd_table _ J)) as K. destruct (evict_oldest iter d2 k) as [d3 ok]. destruct K as (_ & _ & _ & K). cbn [fst].
    pose proof (bd_entries _ J). destruct ok; [lia|]. destruct K as [-> K]. exfalso. assert (entries d2 = ∅) as Ee.
    { apply map_empty. intros k'. destruct (decide (k' = k)) as [->|]; [|by apply K]. destruct (entries d2 !! k) as [e|] eqn:E2; [|done]. apply Hs in E2. congruence. }
    rewrite Ee, map_size_empty in Eg. done. }
  clearbody d1. split; [|cbn; by rewrite lookup_insert_eq]. destruct (entries d1 !! k) as [e|] eqn:E; cbn [from_option id].
  - apply (put_inv d1 k e e); try done. by apply (di_entries _ (bd_table _ I1)).
  - destruct I1 as [[I1 I2] I3 I4]. specialize (Hn eq_refl). split; [split|done|]; cbn [put_entry entries held].
    + intros k' e0. rewrite lookup_insert_Some. intros [[<- <-]|[_ E']]; [apply new_entry_inv|by apply I1].
    + rewrite charges_insert by done. cbn. lia.
    + rewrite map_size_insert_None by done. lia.
Qed.

Lemma drop_put d k e e' : entries d !! k = Some e -> charge e' = charge e -> drop_entry (put_entry d k e') k = drop_entry d k.
Proof using.
  intros E Hc. unfold drop_entry. cbn [put_entry entries held]. rewrite lookup_insert_eq, E. f_equal; [|lia]. apply delete_insert_eq.
Qed.

(** What makes up a datagram that came out. *)
Record assembled (k : FragKey) (l : list FragData) (t : Z) (m : FragMax) : Prop := {
  as_whole : contiguous 0 t l;
  as_origin : forall f, f ∈ l -> exists a, R a /\ a_key a = k /\ a_frag a = f /\ a_len a <= size m;
  as_last : exists a, R a /\ a_key a = k /\ a_more a = false /\ frag_end (a_frag a) = t;
  as_max : exists a, R a /\ a_key a = k /\ a_len a = size m;
  as_df : df m = true -> exists a, R a /\ a_key a = k /\ a_dont a = true /\ a_len a = size m }.

Lemma complete_inv d k :
  bounded d -> (forall a, R a -> 0 < a_len a /\ 0 < zlen (data (a_frag a)) /\ 0 <= offset (a_frag a)) ->
  let '(d', o) := complete d k in
  bounded d' /\ forall out mm, o = Some (out, mm) ->
    exists m l t h e', mm = Some m /\ assembled k l t m /\ head (omap hdr l) = Some h /\ (e' = None \/ e' = Some 3) /\ rebuild h (concat (data <$> l)) m e' = Some out.
Proof using size_pos.
  intros I HR. unfold complete. destruct (entries d !! k) as [e|] eqn:Ek; [|done]. destruct (total e) as [t|] eqn:Et; [|done].
  destruct (covered e <? t) eqn:Ec; [done|]. pose proof (di_entries _ (bd_table _ I) k e Ek) as [E1 E2 E3 E4 E5 E6 E7 E8].
  destruct (head (omap hdr (frags e))) as [h|] eqn:Eh; [|split; [by apply drop_bounded|done]].
  split; [by apply drop_bounded|]. intros out mm Ho. destruct (reassembled_ecn (ecn e)) as [e'|] eqn:Ee; [|done]. cbn [mbind option_bind] in Ho.
  destruct (E6 t Et) as [(al & L1 & L2 & L3 & L4) Hends]. assert (0 <= t) as Ht by (destruct (HR al L1) as (_ & ? & ?); unfold frag_end in L4; lia).
  assert (contiguous 0 t (frags e)) as Hc by (apply sorted_full; [done|done|done|lia]). rewrite (assemble_full (frags e) t Hc Ht) in Ho.
  destruct (rebuild h _ _ e') as [r|] eqn:Er; [|done]. cbn in Ho. injection Ho as <- <-.
  assert (0 < max_size e) as Hne.
  { destruct (frags e) as [|f l] eqn:E; [done|]. destruct (E2 f (list_elem_of_here _ _)) as (a & A1 & _ & _ & A2). destruct (HR a A1) as (? & _). lia. }
  eexists _, (frags e), t, h, e'. split; [done|]. split; [|split_and!; [done| |done]].
  - split; cbn [size df]; [done|done|by exists al|by apply E7|]. intros Hdf. apply Z.eqb_eq in Hdf. rewrite <- Hdf. apply E8. rewrite Hdf.
    destruct (E7 Hne) as (a & A1 & _ & <-). by apply HR.
  - unfold reassembled_ecn in Ee. destruct (_ && _); [done|]. injection Ee as <-. destruct (negb _); auto.
Qed.

Definition sound_arrival (a : Arrival) : Prop := 0 < a_len a /\ 0 < zlen (data (a_frag a)) /\ 0 <= offset (a_frag a).

Lemma elem_of_inserted {A} (x f : A) l i : x ∈ take i l ++ f :: drop i l <-> x = f \/ x ∈ l.
Proof using. rewrite <- (take_drop i l) at 3. rewrite !elem_of_app, elem_of_cons. tauto. Qed.

(** The entry with the fragment added, past the checks. *)
Lemma add_frag_inv k e a :
  entry_inv k e -> R a -> a_key a = k -> sound_arrival a ->
  let f := a_frag a in
  let e2 := if a_more a then e else with_total e (Some (frag_end f)) in
  match total e2 with
  | Some t => (frag_end f >? t) || match list.last (frags e2) with Some g => frag_end g >? t | None => false end
  | None => false
  end = false ->
  overlaps (frags e2) (before (frags e2) (offset f)) (offset f) (frag_end f) = false -> (zlen (frags e2) >=? DEFRAG_MAX_FRAGS) = false ->
  entry_inv k (add_frag FRAG_SIZE e2 (before (frags e2) (offset f)) f (a_len a) (a_dont a) (a_ecn a)).
Proof using.
  intros [E1 E2 E3 E4 E5 E6 E7 E8] Ha Hk (S1 & S2 & S3) f e2 Ht Ho Hn.
  assert (frags e2 = frags e /\ covered e2 = covered e /\ charge e2 = charge e /\ max_size e2 = max_size e /\ max_df_size e2 = max_df_size e) as (F1 & F2 & F3 & F4 & F5)
    by (unfold e2; by destruct (a_more a)).
  rewrite F1 in *. set (i := before (frags e) (offset f)) in *. split; cbn [add_frag frags covered charge total max_size max_df_size]; rewrite ?F1, ?F2, ?F3, ?F4, ?F5.
  - by apply insert_sorted.
  - intros g [->|Hg]%elem_of_inserted; [exists a; split_and!; [done|done|done|lia]|]. destruct (E2 g Hg) as (b & B1 & B2 & B3 & B4). exists b. split_and!; [done|done|done|lia].
  - rewrite zlen_app, zlen_cons. pose proof (f_equal zlen (take_drop i (frags e))) as Hz. rewrite zlen_app in Hz. lia.
  - rewrite E4. rewrite <- (take_drop i (frags e)) at 1. rewrite !len_sum_app, len_sum_cons. lia.
  - rewrite chg_insert, E5. done.
  - intros t Et. rewrite Et in Ht. apply orb_false_elim in Ht as [Ht1 Ht2].
    assert (forall g, g ∈ frags e -> frag_end g <= t) as Hg.
    { intros g Hg. destruct (list.last (frags e)) as [z|] eqn:Ez; [|apply last_None in Ez; rewrite Ez in Hg; by apply not_elem_of_nil in Hg].
      pose proof (last_end _ _ _ E1 Ez g Hg). lia. }
    split; [|intros g [->|Hg']%elem_of_inserted; [lia|by apply Hg]]. unfold e2 in Et. destruct (a_more a) eqn:Em; [by apply E6|]. injection Et as <-. exists a. done.
  - intros _. destruct (Z.max_spec (max_size e) (a_len a)) as [[_ ->]|[Hle ->]]; [by exists a|]. apply E7. lia.
  - destruct (a_dont a) eqn:Ed; [|apply E8]. intros _. destruct (Z.max_spec (max_df_size e) (a_len a)) as [[_ ->]|[Hle ->]]; [by exists a|]. apply E8. lia.
Qed.

(** The table with the fragment added. *)
Lemma with_frag_inv d k e e2 at_ a :
  bounded d -> entries d !! k = Some e -> charge e2 = charge e ->
  entry_inv k (add_frag FRAG_SIZE e2 at_ (a_frag a) (a_len a) (a_dont a) (a_ecn a)) ->
  let d3 := mkInner (<[k := add_frag FRAG_SIZE e2 at_ (a_frag a) (a_len a) (a_dont a) (a_ecn a)]> (entries (put_entry d k e2)))
    (held (put_entry d k e2) + frag_charge FRAG_SIZE (a_frag a)) in
  table_inv d3 /\ Z.of_nat (base.size (entries d3)) <= DEFRAG_MAX_ENTRIES /\ is_Some (entries d3 !! k).
Proof using.
  intros [[J1 J2] J3 J4] Ek Hc He3 d3. unfold d3. cbn [put_entry entries held]. rewrite insert_insert_eq.
  split_and!; [split; cbn [entries held]| |rewrite lookup_insert_eq; eauto].
  - intros k' e0. rewrite lookup_insert_Some. intros [[<- <-]|[_ E]]; [done|by apply J1].
  - rewrite (charges_replace _ _ _ e) by done. cbn [charge add_frag]. lia.
  - rewrite map_size_insert_Some by eauto. done.
Qed.

Lemma make_room_gone keep : forall fuel d d', make_room iter fuel d keep = (d', false) -> entries d' !! keep = None.
Proof using.
  induction fuel as [|fuel IH]; intros d d'; [done|]. cbn [make_room]. destruct (_ >? _); [|done].
  destruct (evict_oldest iter d keep) as [d1 []]; [apply IH|]. intros [= <-]. unfold drop_entry.
  destruct (entries d1 !! keep) eqn:E; [cbn; by rewrite lookup_delete_eq|done].
Qed.

Lemma arrival_inv d now a :
  bounded d -> R a -> (forall a, R a -> sound_arrival a) ->
  let '(d', o) := accept iter FRAG_SIZE d now a in
  bounded d' /\ forall out mm, o = Some (out, mm) ->
    exists m l t h e', mm = Some m /\ assembled (a_key a) l t m /\ head (omap hdr l) = Some h /\ (e' = None \/ e' = Some 3) /\ rebuild h (concat (data <$> l)) m e' = Some out.
Proof using iter_perm size_pos.
  intros I Ha HR. unfold accept. set (k := a_key a). set (f := a_frag a). pose proof (entry_for_inv d now k I) as K.
  destruct (entry_for iter d now k) as [d1 e]. destruct K as [I1 Ek]. pose proof (di_entries _ (bd_table _ I1) k e Ek) as He.
  destruct (negb (a_more a) && _); [split; [by apply drop_bounded|done]|]. set (e2 := if a_more a then e else _).
  assert (charge e2 = charge e) as Hc by (unfold e2; by destruct (a_more a)).
  destruct (match total e2 with Some _ => _ | None => _ end) eqn:Et; [rewrite (drop_put d1 k e e2) by done; split; [by apply drop_bounded|done]|].
  set (at_ := before (frags e2) (offset f)).
  destruct (overlaps (frags e2) at_ (offset f) (frag_end f) || _) eqn:Eo; [rewrite (drop_put d1 k e e2) by done; split; [by apply drop_bounded|done]|].
  apply orb_false_elim in Eo as [Eo En]. pose proof (add_frag_inv k e a He Ha eq_refl (HR a Ha) Et Eo En) as He3. fold f e2 at_ in He3.
  destruct (with_frag_inv d1 k e e2 at_ a I1 Ek Hc He3) as (I3 & Z3 & K3). fold f in I3, Z3, K3. set (d3 := mkInner _ _) in *.
  clearbody d3. pose proof (make_room_inv k (base.size (entries d3)) d3 I3 K3 (Nat.le_refl _)) as M.
  destruct (make_room iter (base.size (entries d3)) d3 k) as [d4 stayed]. destruct M as (M1 & M2 & M3 & M4 & M5).
  assert (bounded d4) as I4 by (split; [done|done|lia]). destruct stayed; [|done]. apply complete_inv; [done|]. intros b Hb. by apply HR.
Qed.

(** *** No whole datagram waits *)

Definition waiting (d : DefragInner) : Prop := forall k e t, entries d !! k = Some e -> total e = Some t -> covered e < t.

(** All but the entry of [k] were there before. *)
Definition others (k : FragKey) (d d' : DefragInner) : Prop := forall k' e, k' <> k -> entries d' !! k' = Some e -> entries d !! k' = Some e.

Lemma waiting_intro k d d' : waiting d -> others k d d' ->
  (forall e t, entries d' !! k = Some e -> total e = Some t -> covered e < t) -> waiting d'.
Proof using. intros W O K k' e t E Et. destruct (decide (k' = k)) as [->|Hk]; [by eapply K|]. eapply W; [by apply O|done]. Qed.

Lemma drop_waiting k d d' : waiting d -> others k d d' -> waiting (drop_entry d' k).
Proof using.
  intros W O. unfold drop_entry. destruct (entries d' !! k) as [e|] eqn:E.
  - apply (waiting_intro k d); [done| |intros ? ?; cbn; by rewrite lookup_delete_eq].
    intros k' e' Hk. cbn. rewrite lookup_delete_ne by done. by apply O.
  - apply (waiting_intro k d); [done|done|]. intros ? ?. by rewrite E.
Qed.

Lemma entry_for_others d now k : bounded d -> others k d (entry_for iter d now k).1.
Proof using iter_perm size_pos.
  intros I k' e Hk. unfold entry_for. cbn [fst put_entry entries]. rewrite lookup_insert_ne by done.
  destruct (entries d !! k) as [e0|]; [done|]. pose proof (expire_bounded d now I) as J. destruct (defrag_expire_inv d now (bd_table _ I)) as [_ Hs].
  destruct (_ >=? _); [|apply Hs]. pose proof (evict_inv (expire d now) k (bd_table _ J)) as K. destruct (evict_oldest iter _ k) as [d3 ok]. cbn [fst].
  destruct K as (_ & K & _). intros E. by apply Hs, K.
Qed.

Lemma complete_waiting d d' k : waiting d -> others k d d' -> waiting (complete d' k).1.
Proof using.
  intros W O. unfold complete. destruct (entries d' !! k) as [e|] eqn:E; [|apply (waiting_intro k d); [done|done|intros ? ? E2; cbn in E2; congruence]].
  destruct (total e) as [t|] eqn:Et; [|apply (waiting_intro k d); [done|done|intros ? ? E2; cbn in E2; congruence]].
  destruct (covered e <? t) eqn:Ec.
  - apply (waiting_intro k d); [done|done|]. intros e' t' E' Et'. cbn in E'. assert (e' = e) as -> by congruence. assert (t' = t) as -> by congruence. lia.
  - destruct (head _); by apply (drop_waiting k d).
Qed.

Lemma accept_waiting d now a :
  bounded d -> R a -> (forall a, R a -> sound_arrival a) -> waiting d -> waiting (accept iter FRAG_SIZE d now a).1.
Proof using iter_perm size_pos.
  intros I Ha HR W. unfold accept. set (k := a_key a). set (f := a_frag a).
  pose proof (entry_for_inv d now k I) as K. pose proof (entry_for_others d now k I) as O.
  destruct (entry_for iter d now k) as [d1 e]. cbn [fst] in O. destruct K as [I1 Ek]. pose proof (di_entries _ (bd_table _ I1) k e Ek) as He.
  destruct (negb (a_more a) && _); [by apply (drop_waiting k d)|]. set (e2 := if a_more a then e else _).
  assert (others k d (put_entry d1 k e2)) as O2 by (intros k' e' Hk; cbn; rewrite lookup_insert_ne by done; by apply O).
  destruct (match total e2 with Some _ => _ | None => _ end) eqn:Et; [by apply (drop_waiting k d)|].
  set (at_ := before (frags e2) (offset f)).
  destruct (overlaps (frags e2) at_ (offset f) (frag_end f) || _) eqn:Eo; [by apply (drop_waiting k d)|].
  apply orb_false_elim in Eo as [Eo En]. pose proof (add_frag_inv k e a He Ha eq_refl (HR a Ha) Et Eo En) as He3. fold f e2 at_ in He3.
  destruct (with_frag_inv d1 k e e2 at_ a I1 Ek ltac:(unfold e2; by destruct (a_more a)) He3) as (I3 & Z3 & K3). fold f in I3, Z3, K3.
  set (d3 := mkInner _ _) in *.
  assert (others k d d3) as O3 by (intros k' e' Hk; unfold d3; cbn; rewrite !lookup_insert_ne by done; by apply O).
  clearbody d3. pose proof (make_room_inv k (base.size (entries d3)) d3 I3 K3 (Nat.le_refl _)) as M.
  destruct (make_room iter (base.size (entries d3)) d3 k) as [d4 stayed] eqn:Em. destruct M as (M1 & M2 & M3 & M4 & M5).
  assert (others k d d4) as O4 by (intros k' e' Hk E'; by apply O3, M2).
  destruct stayed; [by apply (complete_waiting d)|]. cbn [fst]. apply (waiting_intro k d); [done|done|].
  intros e' t' E'. by rewrite (make_room_gone k _ _ _ Em) in E'.
Qed.
End Sound.

(** ** The datagram that comes out *)

Lemma splice_head (l r : list Z) a x : 0 <= a -> a + zlen x <= zlen l -> splice (l ++ r) a x = splice l a x ++ r.
Proof.
  intros Ha Hx. pose proof (zlen_nonneg x). unfold splice. rewrite ztake_app_le, zdrop_app_le by lia. by rewrite <- !app_assoc.
Qed.

Lemma set_byte_head (l r : list Z) i b : 0 <= i < zlen l -> set_byte (l ++ r) i b = set_byte l i b ++ r.
Proof. intros Hi. unfold set_byte. rewrite insert_app_l; [done|unfold zlen in Hi; lia]. Qed.

Record whole (h payload out : list Z) (m : FragMax) : Prop := {
  wh_len : zlen out = zlen h + zlen payload;
  wh_total : of_be16 out.[2] out.[3] = zlen out;
  wh_flags : of_be16 out.[6] out.[7] = if df m then 0x4000 else 0;
  wh_sum : checksum (ztake (zlen h) out) = 0;
  wh_payload : zdrop (zlen h) out = payload;
  wh_fields : forall i, 0 <= i < zlen h -> i <> 1 -> i <> 2 -> i <> 3 -> i <> 6 -> i <> 7 -> i <> 10 -> i <> 11 -> out.[i] = h.[i] }.

Lemma rebuild_spec h payload m e out :
  bytes_ok h -> 20 <= zlen h -> (e = None \/ e = Some 3) -> rebuild h payload m e = Some out -> whole h payload out m.
Proof.
  intros Hb Hz He. unfold rebuild. destruct (_ >? 65535) eqn:El; [done|]. set (total_len := zlen h + zlen payload) in *. pose proof (zlen_nonneg payload).
  set (fl := [if df m then 0x40 else 0; 0]). assert (zlen fl = 2 /\ bytes_ok fl) as [Hf Hfb].
  { unfold fl. split; [done|]. destruct (df m); repeat constructor; unfold byte_ok; lia. }
  rewrite (splice_head h payload 2) by (rewrite ?zlen_be16; lia). set (h2 := splice h 2 (be16 total_len)).
  assert (zlen h2 = zlen h) as Z2 by (unfold h2; rewrite zlen_splice; rewrite ?zlen_be16; lia).
  rewrite (splice_head h2 payload 6) by lia. set (h3 := splice h2 6 fl). assert (zlen h3 = zlen h) as Z3 by (unfold h3; rewrite zlen_splice; lia).
  set (h4 := match e with Some e => set_byte h3 1 (Z.lor (Z.land h3.[1] 0xFC) e) | None => h3 end).
  assert (bytes_ok h3) as B3 by (unfold h3, h2; bok).
  assert (zlen h4 = zlen h /\ bytes_ok h4 /\ forall i, 0 <= i -> i <> 1 -> h4.[i] = h3.[i]) as (Z4 & B4 & N4).
  { unfold h4. destruct He as [->| ->]; [done|]. split_and!; [by rewrite zlen_set_byte| |intros; by apply byte_at_set_ne; lia].
    apply bytes_ok_set_byte; [done|]. assert (byte_ok h3.[1]) as Hb1 by bok.
    pose proof (byte_forall (fun b => (0 <=? Z.lor (Z.land b 0xFC) 3) && (Z.lor (Z.land b 0xFC) 3 <? 256)) ltac:(vm_compute; reflexivity) _ Hb1) as Hc. cbv beta in Hc.
    bool2prop. unfold byte_ok. lia. }
  replace (match e with Some e0 => set_byte (h3 ++ payload) 1 (Z.lor (Z.land (h3 ++ payload).[1] 0xFC) e0) | None => h3 ++ payload end) with (h4 ++ payload).
  2:{ unfold h4. destruct e; [|done]. rewrite set_byte_head, byte_at_app_l by lia. done. }
  rewrite (splice_head h4 payload 10) by (change (zlen [0; 0]) with 2; lia).
  assert (zlen (splice h4 10 [0; 0]) = zlen h) as Z5 by (rewrite zlen_splice; change (zlen [0; 0]) with 2; lia).
  rewrite <- Z5 at 1. rewrite ztake_app. set (c := checksum (splice h4 10 [0; 0])). rewrite splice_head by (rewrite ?zlen_be16; lia).
  rewrite (splice_splice h4 10 [0; 0] (be16 c)) by (rewrite ?zlen_be16; change (zlen [0; 0]) with 2; lia).
  set (h6 := splice h4 10 (be16 c)). assert (zlen h6 = zlen h) as Z6 by (unfold h6; rewrite zlen_splice; rewrite ?zlen_be16; lia). intros [= <-].
  assert (forall i, 0 <= i < zlen h -> i <> 10 -> i <> 11 -> (h6 ++ payload).[i] = h4.[i]) as N6.
  { intros i Hi H10 H11. rewrite byte_at_app_l by lia. unfold h6. apply byte_at_splice_out; rewrite ?zlen_be16; lia. }
  assert (forall i, 0 <= i < zlen h -> i <> 6 -> i <> 7 -> h3.[i] = h2.[i]) as N3 by (intros; apply byte_at_splice_out; lia).
  split.
  - rewrite zlen_app. lia.
  - rewrite zlen_app, Z6, !N6, !N4, !N3 by lia. unfold h2. rewrite !byte_at_splice_in by (rewrite ?zlen_be16; lia). fold total_len. apply of_be16_be16.
  - rewrite !N6, !N4 by lia. unfold h3. rewrite !byte_at_splice_in by lia. unfold fl. by destruct (df m).
  - rewrite <- Z6, ztake_app. apply splice_checksum_verifies; (done || lia).
  - rewrite <- Z6. apply zdrop_app.
  - intros i Hi H1 H2 H3 H6 H7 H10 H11. rewrite N6, N4, N3 by lia. apply byte_at_splice_out; rewrite ?zlen_be16; lia.
Qed.

(** ** Cutting a datagram down again *)

Definition df_byte (b : Z) (on : bool) : Z := if on then Z.lor b 0x40 else Z.land b 0xBF.

Lemma df_byte_facts b on : byte_ok b ->
  byte_ok (df_byte b on) /\ negb (Z.land (df_byte b on) 0x40 =? 0) = on /\ Z.land (df_byte b on) 0x20 = Z.land b 0x20 /\ df_byte b on mod 32 = b mod 32.
Proof.
  intros Hb. pose proof (byte_forall (fun b => let c := df_byte b on in
    (0 <=? c) && (c <? 256) && eqb (negb (Z.land c 0x40 =? 0)) on && (Z.land c 0x20 =? Z.land b 0x20) && (c mod 32 =? b mod 32))
    ltac:(destruct on; vm_compute; reflexivity) b Hb) as H. cbv beta zeta in H.
  apply andb_true_iff in H as [H H5]. apply andb_true_iff in H as [H H4]. apply andb_true_iff in H as [H H3]. apply eqb_prop in H3.
  bool2prop. unfold byte_ok. split_and!; lia || done.
Qed.

Record same_but_df (p q : list Z) (on : bool) : Prop := {
  sd_bytes : bytes_ok q;
  sd_len : zlen q = zlen p;
  sd_same : forall i, 0 <= i -> i <> 6 -> i <> 10 -> i <> 11 -> q.[i] = p.[i];
  sd_df : ipv4_dont_fragment q = on;
  sd_more : ipv4_more_fragments q = ipv4_more_fragments p;
  sd_off : ipv4_fragment_offset q = ipv4_fragment_offset p;
  sd_hl : ipv4_header_len q = ipv4_header_len p;
  sd_total : ipv4_total_len q = ipv4_total_len p;
  sd_payload : 12 <= ipv4_header_len p -> ipv4_payload q = ipv4_payload p;
  sd_sum : version p = 4 -> 20 <= ipv4_header_len p <= zlen p -> verify_ipv4_checksum p = true -> verify_ipv4_checksum q = true }.

Lemma land_offset b l : byte_ok b -> byte_ok l -> Z.land (of_be16 b l) 0x1FFF = b mod 32 * 256 + l.
Proof.
  intros Hb Hl. unfold byte_ok in *. change 0x1FFF with (Z.ones 13). rewrite Z.land_ones by lia. unfold of_be16.
  pose proof (Z.div_mod b 32 ltac:(lia)). pose proof (Z.mod_pos_bound b 32 ltac:(lia)). change (2 ^ 13) with 8192.
  symmetry. apply (Zmod_unique _ _ (b / 32)); lia.
Qed.

Lemma set_df_same p on : bytes_ok p -> 20 <= zlen p -> same_but_df p (set_df p on) on.
Proof.
  intros Hp Hz. assert (byte_ok p.[6]) as H6 by bok. destruct (df_byte_facts _ on H6) as (D1 & D2 & D3 & D4). set (b := df_byte p.[6] on) in *.
  set (x := [b; p.[7]]). assert (zlen x = 2 /\ bytes_ok x) as [Zx Bx] by (split; [done|unfold x; bok]).
  set (c := incremental_update (of_be16 p.[10] p.[11]) (slice p 6 (6 + 2)) x).
  assert (set_df p on = splice (splice p 6 x) 10 (be16 c)) as ->.
  { unfold set_df, c. change (if on then Z.lor p.[6] 0x40 else Z.land p.[6] 0xBF) with b. rewrite set_byte_splice2 by lia. change (6 + 1) with 7. fold x.
    change 8 with (6 + zlen x) at 2. rewrite slice_splice_in by lia. rewrite !byte_at_splice_out by lia. done. }
  set (q := splice _ 10 _). assert (zlen (splice p 6 x) = zlen p) as Z1 by (rewrite zlen_splice; lia).
  assert (zlen q = zlen p) as Zq by (unfold q; rewrite zlen_splice; rewrite ?zlen_be16; lia).
  assert (forall i, 0 <= i -> i <> 10 -> i <> 11 -> q.[i] = (splice p 6 x).[i]) as Hq by (intros; apply byte_at_splice_out; rewrite ?zlen_be16; lia).
  assert (q.[6] = b /\ q.[7] = p.[7]) as [Q6 Q7] by (rewrite !Hq, !byte_at_splice_in by lia; done).
  assert (forall i, 0 <= i -> i <> 6 -> i <> 10 -> i <> 11 -> q.[i] = p.[i]) as Hs.
  { intros i ????. destruct (decide (i = 7)) as [->|]; [done|]. rewrite Hq, byte_at_splice_out by lia. done. }
  assert (ipv4_header_len q = ipv4_header_len p) as Hhl by (apply header_len_byte; [lia|apply Hs; lia]).
  assert (ipv4_total_len q = ipv4_total_len p) as Htl by (unfold ipv4_total_len; rewrite Zq, !Hs by lia; done).
  assert (0 <= c < 65536) as Hc0.
  { pose proof (of_be16_bound p.[10] p.[11] ltac:(bok) ltac:(bok)) as Ho.
    pose proof (incremental_update_mod (of_be16 p.[10] p.[11]) (slice p 6 (6 + 2)) x ltac:(bok) Bx ltac:(lia)) as [? _]. fold c in H. lia. }
  split; try done.
  - unfold q. bok.
  - unfold ipv4_dont_fragment. rewrite Zq, Q6, D2. replace (7 <=? zlen p) with true by lia. done.
  - unfold ipv4_more_fragments. rewrite Zq, Q6, D3. done.
  - unfold ipv4_fragment_offset. rewrite Zq, Q6, Q7, !land_offset by bok. by rewrite D4.
  - intros H12. unfold ipv4_payload. rewrite Hhl, Htl, Zq. destruct (_ || _ || _) eqn:E; [done|].
    unfold q. rewrite slice_splice_after by (rewrite ?zlen_be16, ?Z1; lia). apply slice_splice_after; lia.
  - intros E4 Hh. unfold verify_ipv4_checksum. rewrite (version_byte q p) by (lia || (apply Hs; lia)). rewrite Hhl, Zq, E4. cbn [Z.eqb Pos.eqb].
    case_if; [done|]. intros Hc. bool2prop. apply Z.eqb_eq. replace (slice p 6 (6 + 2)) with (slice p 6 (6 + zlen x)) in c by (by rewrite Zx).
    apply (header_patch p _ 6 x); try done; try lia. rewrite byte_at_splice_out by lia. apply version_nonzero. lia.
Qed.

(** A piece of the datagram [p]. *)
Record piece (p : list Z) (m : FragMax) (f : list Z) : Prop := {
  pc_bytes : bytes_ok f;
  pc_size : zlen f <= Z.max (size m) MIN_IPV4_MTU;
  pc_df : ipv4_dont_fragment f = df m;
  pc_v4 : version f = 4;
  pc_len : ipv4_total_len f = zlen f;
  pc_sum : verify_ipv4_checksum f = true;
  pc_same : forall i, i = 1 \/ i = 4 \/ i = 5 \/ i = 8 \/ i = 9 \/ 12 <= i < 20 -> f.[i] = p.[i] }.

Lemma chain_set_df on fs : forall off more,
  Forall (fun f => bytes_ok f /\ 20 <= zlen f /\ 20 <= ipv4_header_len f) fs -> chain off more fs ->
  chain off more ((fun f => set_df f on) <$> fs) /\ concat (ipv4_payload <$> ((fun f => set_df f on) <$> fs)) = concat (ipv4_payload <$> fs).
Proof.
  induction fs as [|f fs IH]; intros off more HF; [done|]. apply list.Forall_cons in HF as [(H1 & H2 & H3) HF]. pose proof (set_df_same f on H1 H2) as S.
  cbn [chain fmap list_fmap concat]. rewrite (sd_off _ _ _ S), (sd_more _ _ _ S), (sd_payload _ _ _ S) by lia. intros (C1 & C2 & C3 & C4 & C5).
  destruct (IH _ _ HF C5) as [I1 I2]. rewrite I2. split; [|done]. split_and!; [done|done| | |done].
  - rewrite C3. by destruct fs.
  - intros Hn. apply C4. by destruct fs.
Qed.

Lemma frag_ok_header p mtu f : frag_ok p mtu f -> 20 <= ipv4_header_len f <= zlen f.
Proof. intros []. unfold verify_ipv4_checksum in fo_sum. rewrite fo_v4 in fo_sum. cbn [Z.eqb Pos.eqb] in fo_sum. destruct (_ || _) eqn:E in fo_sum; [done|]. bool2prop. lia. Qed.

Lemma frag_ok_piece p q m f :
  (forall i, 0 <= i -> i <> 6 -> i <> 10 -> i <> 11 -> q.[i] = p.[i]) -> frag_ok q (Z.max (size m) MIN_IPV4_MTU) f ->
  piece p m (if df m then set_df f true else f).
Proof.
  intros Hq F. pose proof (frag_ok_header _ _ _ F). destruct F.
  assert (forall i, i = 1 \/ i = 4 \/ i = 5 \/ i = 8 \/ i = 9 \/ 12 <= i < 20 -> f.[i] = p.[i]) as Hs by (intros i Hi; rewrite fo_same by done; apply Hq; lia).
  destruct (df m) eqn:Ed; [|split; rewrite ?Ed; done].
  pose proof (set_df_same f true fo_bytes ltac:(lia)) as S. destruct S as [S1 S2 S3 S4 S5 S6 S7 S8 S9 S10]. split; rewrite ?Ed; try (done || lia).
  - rewrite <- fo_v4. apply version_byte; [lia|apply S3; lia].
  - apply S10; (done || lia).
  - intros i Hi. rewrite <- Hs by done. apply S3; lia.
Qed.

(** ** Histories *)

Definition defrag_run (iter : gmap FragKey FragEntry -> list (FragKey * FragEntry)) (sz : Z) (hist : list (Z * Z * list Z)) : DefragInner :=
  foldl (fun d '(now, zone, pkt) => (reassemble iter sz d now zone pkt).1) Defragger_new hist.

Definition fragment_arrived (hist : list (Z * Z * list Z)) (a : Arrival) : Prop :=
  exists now zone pkt, (now, zone, pkt) ∈ hist /\ parse_fragment zone pkt = Fragment a.

Lemma parse_sound zone pkt a :
  bytes_ok pkt -> parse_fragment zone pkt = Fragment a ->
  sound_arrival a /\ a_key a = frag_key zone pkt /\ bytes_ok (data (a_frag a)) /\
  forall h, hdr (a_frag a) = Some h -> offset (a_frag a) = 0 /\ bytes_ok h /\ 20 <= zlen h /\ h = ztake (zlen h) pkt.
Proof.
  intros Hb. unfold parse_fragment. destruct (zlen pkt <? 20) eqn:E20; [done|]. cbn zeta. destruct (negb _ && _); [done|].
  destruct ((_ <? 20) || _ || _) eqn:E1; [done|]. destruct (_ && _ || _ || _) eqn:E2; [done|]. intros [= <-]. cbn [a_frag a_key a_len data offset hdr].
  set (off := Z.land (of_be16 pkt.[6] pkt.[7]) 0x1FFF) in *. assert (0 <= off) as Hoff.
  { apply Z.land_nonneg. left. apply of_be16_bound; bok. }
  set (ihl := Z.land pkt.[0] 0x0F * 4) in *. set (pl := slice pkt ihl _) in *. pose proof (zlen_nonneg pl). split_and!.
  - split; cbn [a_len a_frag data offset]; [lia|split; [lia|lia]].
  - done.
  - unfold pl. bok.
  - intros h Hh. destruct (off * 8 =? 0) eqn:E0; [|done]. injection Hh as <-. assert (zlen (ztake ihl pkt) = ihl) as Hz by (rewrite zlen_ztake; lia).
    rewrite Hz. split_and!; [lia|bok|lia|done].
Qed.

Section Runs.
Context (iter : gmap FragKey FragEntry -> list (FragKey * FragEntry)) (sz : Z).
Hypothesis iter_perm : forall m, iter m ≡ₚ map_to_list m.
Hypothesis sz_pos : 0 <= sz.

Lemma run_bounded (R : Arrival -> Prop) : (forall a, R a -> sound_arrival a) -> forall hist d,
  (forall now zone pkt a, (now, zone, pkt) ∈ hist -> parse_fragment zone pkt = Fragment a -> R a) -> bounded sz R d /\ waiting d ->
  (fun d => bounded sz R d /\ waiting d) (foldl (fun d '(now, zone, pkt) => (reassemble iter sz d now zone pkt).1) d hist).
Proof using iter_perm sz_pos.
  intros HR. induction hist as [|[[now zone] pkt] hist IH]; intros d Hh [I W]; [done|]. cbn [foldl]. apply IH.
  - intros now' zone' pkt' a Hin. apply (Hh now'). by apply list_elem_of_further.
  - unfold reassemble. destruct (parse_fragment zone pkt) as [| |a] eqn:E; [done|done|].
    assert (R a) as Ra by exact (Hh _ _ _ a (list_elem_of_here _ _) E). split; [|by apply (accept_waiting iter sz iter_perm sz_pos R)].
    pose proof (arrival_inv iter sz iter_perm sz_pos R d now a I Ra HR) as K. destruct (accept iter sz d now a). apply K.
Qed.

Lemma new_bounded R : bounded sz R Defragger_new /\ waiting Defragger_new.
Proof using. split; [split; [split|..]; cbn; done|]. intros k e t. cbn. by rewrite lookup_empty. Qed.

Lemma head_hdr l h : head (omap hdr l) = Some h -> exists f, f ∈ l /\ hdr f = Some h.
Proof using.
  induction l as [|f l IH]; [done|]. cbn. destruct (hdr f) as [x|] eqn:E; [intros [= <-]; exists f; split; [apply list_elem_of_here|done]|].
  intros (g & G1 & G2)%IH. exists g. split; [by apply list_elem_of_further|done].
Qed.
End Runs.

(** C29: Whatever fragments the NAT's reassembler is given, it keeps at most
    256 datagrams in progress and 4 MiB, counted exactly, and none of those
    in progress is whole.  What it hands on is either the packet it was
    given, that was no fragment, or a datagram put together from fragments
    that arrived, all of one sender zone, pair of addresses, identification
    and protocol: their data one after the other with no gap and no overlap,
    up to the end of one without More Fragments.  It has the header of the
    first fragment with the length and checksum right and the fragment fields
    cleared, and is reported with the size of the largest fragment, marked
    Don't Fragment only if one of that size was. *)
Theorem nat_reassembly_sound iter sz hist now zone pkt :
  (forall m, iter m ≡ₚ map_to_list m) -> 0 <= sz -> Forall (fun x => bytes_ok x.2) hist -> bytes_ok pkt ->
  let d := defrag_run iter sz hist in
  let A := fragment_arrived (hist ++ [(now, zone, pkt)]) in
  let '(d', r) := reassemble iter sz d now zone pkt in
  (held d' = charges (entries d') /\ held d' <= DEFRAG_MAX_BYTES /\ Z.of_nat (base.size (entries d')) <= DEFRAG_MAX_ENTRIES) /\
  (forall k e t, entries d' !! k = Some e -> total e = Some t -> len_sum (frags e) < t) /\
  match r with
  | None => True
  | Some (out, None) => out = pkt /\ d' = d /\ parse_fragment zone pkt = Whole
  | Some (out, Some m) => exists l t h, assembled A (frag_key zone pkt) l t m /\ whole h (concat (data <$> l)) out m /\
      exists f, f ∈ l /\ offset f = 0 /\ hdr f = Some h
  end.
Proof.
  intros Hi Hs Hb Hp d A.
  assert (forall a, A a -> exists zone' pkt', bytes_ok pkt' /\ parse_fragment zone' pkt' = Fragment a) as HA.
  { intros a (n' & z' & p' & [Hin|Hin]%elem_of_app & E).
    - rewrite list.Forall_forall in Hb. exists z', p'. split; [by apply (Hb _ Hin)|done].
    - apply list_elem_of_singleton in Hin as [= -> -> ->]. by exists zone, pkt. }
  assert (forall a, A a -> sound_arrival a) as HAs by (intros a (z' & p' & Hb' & E)%HA; by apply (parse_sound z' p' a Hb' E)).
  assert (bounded sz A d /\ waiting d) as [I W].
  { apply run_bounded; [done|done|done| |apply new_bounded]. intros n' z' p' a Hin E. exists n', z', p'. split; [apply elem_of_app; by left|done]. }
  assert (forall d', bounded sz A d' -> waiting d' -> forall k e t, entries d' !! k = Some e -> total e = Some t -> len_sum (frags e) < t) as HW.
  { intros d' I' W' k e t E Et. rewrite <- (ei_covered _ _ _ _ (di_entries _ _ _ (bd_table _ _ _ I') k e E)). by eapply W'. }
  unfold reassemble. destruct (parse_fragment zone pkt) as [| |a] eqn:E.
  1,2: split; [by destruct I as [[_ I1] I2 I3]|split; [by apply HW|done]].
  assert (A a) as Aa by (exists now, zone, pkt; split; [apply elem_of_app; right; apply list_elem_of_here|done]).
  destruct (parse_sound zone pkt a Hp E) as (_ & Ek & _ & _).
  pose proof (arrival_inv iter sz Hi Hs A d now a I Aa HAs) as K. pose proof (accept_waiting iter sz Hi Hs A d now a I Aa HAs W) as W'.
  destruct (accept iter sz d now a) as [d' r]. destruct K as [I' K]. split; [by destruct I' as [[_ I1] I2 I3]|]. split; [by apply HW|].
  destruct r as [[out mm]|]; [|done].
  destruct (K out mm eq_refl) as (m & l & t & h & e' & -> & As & Hh & He & Hreb). rewrite Ek in As. exists l, t, h. split; [done|].
  apply head_hdr in Hh as (f & F1 & F2). destruct (as_origin _ _ _ _ _ As f F1) as (b & B1 & _ & B2 & _). subst f.
  destruct (HA b B1) as (z' & p' & Hb' & Ep). destruct (parse_sound z' p' b Hb' Ep) as (_ & _ & _ & Hhdr). destruct (Hhdr h F2) as (O & Bh & Zh & _).
  split; [by eapply rebuild_spec|]. by exists (a_frag b).
Qed.

Definition demo_first : list Z := [0x45;0;0;28;0;7;0x60;0;64;17;0;0;10;0;0;1;10;0;0;2;1;2;3;4;5;6;7;8].
Definition demo_last : list Z := [0x45;0;0;22;0;7;0x00;1;64;17;0;0;10;0;0;1;10;0;0;2;9;10].

Definition demo_whole : list Z := [69; 0; 0; 30; 0; 7; 64; 0; 64; 17; 38; 198; 10; 0; 0; 1; 10; 0; 0; 2; 1; 2; 3; 4; 5; 6; 7; 8; 9; 10].

Lemma nat_reassembly_sound_witness :
  (reassemble map_to_list 56 (defrag_run map_to_list 56 [(0, 3, demo_last)]) 1 3 demo_first).2 = Some (demo_whole, Some (mkMax 28 true)) /\
  exists l t, assembled (fragment_arrived ([(0, 3, demo_last)] ++ [(1, 3, demo_first)])) (frag_key 3 demo_first) l t (mkMax 28 true).
Proof.
  assert ((reassemble map_to_list 56 (defrag_run map_to_list 56 [(0, 3, demo_last)]) 1 3 demo_first).2 = Some (demo_whole, Some (mkMax 28 true))) as E
    by (vm_compute; reflexivity).
  split; [exact E|].
  assert (Forall (fun x : Z * Z * list Z => bytes_ok x.2) [(0, 3, demo_last)] /\ bytes_ok demo_first) as [B1 B2].
  { split; [constructor; [|constructor]|]; apply bytes_ok_eval; vm_compute; reflexivity. }
  pose proof (nat_reassembly_sound map_to_list 56 [(0, 3, demo_last)] 1 3 demo_first (fun m => Permutation_refl _) ltac:(lia) B1 B2) as K.
  cbn zeta in K. destruct (reassemble _ _ _ 1 3 demo_first) as [d' o]. cbn [snd] in E. subst o.
  destruct K as (_ & _ & l & t & h & K' & _). exists l, t. exact K'.
Defined.
(** C30: A translated datagram that had arrived in fragments is sent in
    pieces no larger than they were (nor ever smaller than the 68 bytes every
    link carries): valid packets that keep the identification, the hop limit,
    the protocol and the addresses, Don't Fragment on each as the fragments
    had it, gapless from offset 0 with More Fragments on all but the last,
    and with the datagram's payload, whole.  It is sent as it is only when it
    fits. *)
Theorem refragment_fits (m : FragMax) (p : list Z) :
  bytes_ok p -> whole_ipv4 p -> ipv4_total_len p = zlen p -> ipv4_is_fragment p = false ->
  match refragment m p with
  | None => zlen p <= Z.max (size m) MIN_IPV4_MTU
  | Some fs => size m < zlen p /\ Forall (piece p m) fs /\ chain 0 false fs /\ concat (ipv4_payload <$> fs) = ipv4_payload p
  end.
Proof.
  intros Hb (E4 & Hhl & _) Htl Hfr. unfold refragment. destruct (_ || _) eqn:E; [lia|]. apply orb_false_elim in E as [E1 E2]. bool2prop.
  pose proof (set_df_same p false Hb ltac:(lia)) as S. set (q := set_df p false) in *. destruct S as [S1 S2 S3 S4 S5 S6 S7 S8 S9 S10].
  unfold ipv4_is_fragment in Hfr. apply orb_false_elim in Hfr as [Fm Fo]. rewrite negb_false_iff in Fo. bool2prop.
  assert (whole_ipv4 q) as Wq.
  { unfold whole_ipv4. rewrite S7, S8, S2. split_and!; try lia. rewrite <- E4. apply version_byte; [lia|apply S3; lia]. }
  set (mtu := Z.max (size m) MIN_IPV4_MTU). pose proof (fragment_ipv4_ok q mtu S1) as K. destruct (fragment_ipv4 q mtu) as [|fs| |]; cbn [fragmentation_ok] in K.
  - destruct K as [_ K]. fold mtu. lia.
  - destruct K as (_ & _ & _ & _ & K1 & K2 & K3). rewrite S6, Fo, S5, Fm in K2. rewrite S9 in K3 by lia. split; [lia|].
    pose proof (list.Forall_impl _ _ _ K1 (fun f => frag_ok_piece p q m f S3)) as HP. destruct (df m); [|done].
    assert (Forall (fun f => bytes_ok f /\ 20 <= zlen f /\ 20 <= ipv4_header_len f) fs) as HF.
    { apply (list.Forall_impl _ _ _ K1). intros f F. pose proof (frag_ok_header _ _ _ F). split_and!; [apply F|lia|lia]. }
    destruct (chain_set_df true fs 0 false HF K2) as [C1 C2]. rewrite C2. split_and!; [by apply Forall_fmap|done|done].
  - destruct K as (_ & _ & K). congruence.
  - exfalso. unfold MIN_IPV4_MTU in *. destruct K as [K|(_ & _ & [K|K])]; [done|lia|]. rewrite S6, S7, S8, Fo in K. pose proof (of_be16_bound p.[2] p.[3] ltac:(bok) ltac:(bok)).
    assert (ipv4_total_len p < 65536) by (unfold ipv4_total_len; case_if; lia). lia.
Qed.

Definition demo_big : list Z := [69; 0; 0; 120; 0; 7; 64; 0; 64; 17; 38; 108; 10; 0; 0; 1; 10; 0; 0; 2] ++ replicate 100 5.

Lemma refragment_fits_witness :
  option_map length (refragment (mkMax 76 true) demo_big) = Some 2%nat /\
  match refragment (mkMax 76 true) demo_big with Some fs => Forall (fun f => zlen f <= 76 /\ ipv4_dont_fragment f = true) fs | None => False end.
Proof.
  assert (option_map length (refragment (mkMax 76 true) demo_big) = Some 2%nat) as E by (vm_compute; reflexivity). split; [exact E|].
  assert (bytes_ok demo_big) as B by (apply bytes_ok_eval; vm_compute; reflexivity).
  assert (whole_ipv4 demo_big) as W by (vm_compute; split_and!; (reflexivity || discriminate)).
  pose proof (refragment_fits (mkMax 76 true) demo_big B W eq_refl eq_refl) as K.
  destruct (refragment (mkMax 76 true) demo_big) as [fs|]; [|discriminate E]. destruct K as (_ & K & _).
  apply (list.Forall_impl _ _ _ K). intros f [_ F1 F2 _ _ _ _]. exact (conj F1 F2).
Defined.
End NatDefrag.
