(* ===== verification/NatPath.v ===== *)
(** * Packets through the NAT ([src/src/nat/nat.rs])

    The whole NAT ([Nat]): the state under its lock, the fragment tables, the
    reassemblers, the sides and the helpers; and the way of a packet through
    it, from an inside host out ([handle_outbound]), from outside in
    ([handle_inbound]), or from one inside host to another by the public
    address.  Handlers are programs of a state monad: a run reads the clock,
    asks the rate limiters and hands packets over to its sides in order.  The
    clock, the limiters, the order of a hash map and the size of a buffered
    fragment's bookkeeping are in [Env].  A helper (application gateway or
    local service) is what its trait says: operations on the NAT, of which
    [lawful] names what the NAT relies on.  What a side does with a packet it
    is handed comes after the call that handed it over. *)

From S2P Require Import Prelude Ip Checksum Packet Fragment Icmp Bitmap Ports NatPorts NatRewrite NatTrack NatMap NatFrag NatDefrag.

Definition SWEEP_INTERVAL : Z := secs 30.

(** ** Helpers *)

(** The view of a mapping a helper gets. *)
Record NatMapping := mkNatMapping { nm_proto : Z; nm_ip : Z; nm_port : Z; nm_outside_port : Z; nm_ns : Z }.

(** The number tells apart the calls, which may answer differently: helpers
    have state of their own and read the clock. *)
Record PacketHelper := mkPacketHelper {
  match_outbound : Z -> Z -> bool;
  process_outbound : nat -> NatInner -> list Z -> NatMapping -> NatInner * list Z;
  process_inbound : nat -> NatInner -> list Z -> NatMapping -> NatInner * list Z }.

(** What a local helper leaves: the state, packets for inside namespaces,
    timers it asks for. *)
Record LocalOut := mkLocalOut { lo_inner : NatInner; lo_sent : list (Z * list Z); lo_wake : list Z }.

Record LocalHelper := mkLocalHelper {
  handle_local_in : nat -> NatInner -> Z -> list Z -> LocalOut * bool;
  local_tick : nat -> NatInner -> Z -> LocalOut * option Z }.

Inductive HelperKind := PacketKind (h : PacketHelper) | LocalKind (h : LocalHelper).

(** ** State *)

Record Defraggers := mkDefraggers { inbound_defrag : NatDefrag.DefragInner; outbound_defrag : NatDefrag.DefragInner }.

Definition Defraggers_default : Defraggers := mkDefraggers NatDefrag.Defragger_new NatDefrag.Defragger_new.

Abbreviation InTable := (@FragTable.Table (Z * Z * Z) (Z * Z) _ _).
Abbreviation OutTable := (@FragTable.Table (Z * Z * Z * Z * Z) unit _ _).

Record Nat := mkNat {
  inside : IpPrefix; outside : IpPrefix; inner : NatInner; helpers : list HelperKind; defragger : option Defraggers;
  ns_counter : Z; ns_sides : gset Z; seqadj_used : bool; inside_routes : list IpPrefix;
  frags : InTable; out_frags : OutTable; next_sweep : Z; helper_timer : option Z }.

Definition Nat_new (inside_addr outside_addr : IpPrefix) (t0 t1 : Z) : Nat :=
  mkNat inside_addr outside_addr (NatInner_new t0) [] None 0 ∅ false [] FragTable.empty FragTable.empty (t1 + SWEEP_INTERVAL) None.

Definition with_inner (n : Nat) (x : NatInner) : Nat :=
  mkNat (inside n) (outside n) x (helpers n) (defragger n) (ns_counter n) (ns_sides n) (seqadj_used n) (inside_routes n) (frags n) (out_frags n) (next_sweep n) (helper_timer n).
Definition with_helpers (n : Nat) (x : list HelperKind) : Nat :=
  mkNat (inside n) (outside n) (inner n) x (defragger n) (ns_counter n) (ns_sides n) (seqadj_used n) (inside_routes n) (frags n) (out_frags n) (next_sweep n) (helper_timer n).
Definition with_defragger (n : Nat) (x : option Defraggers) : Nat :=
  mkNat (inside n) (outside n) (inner n) (helpers n) x (ns_counter n) (ns_sides n) (seqadj_used n) (inside_routes n) (frags n) (out_frags n) (next_sweep n) (helper_timer n).
Definition with_seqadj (n : Nat) (x : bool) : Nat :=
  mkNat (inside n) (outside n) (inner n) (helpers n) (defragger n) (ns_counter n) (ns_sides n) x (inside_routes n) (frags n) (out_frags n) (next_sweep n) (helper_timer n).
Definition with_routes (n : Nat) (x : list IpPrefix) : Nat :=
  mkNat (inside n) (outside n) (inner n) (helpers n) (defragger n) (ns_counter n) (ns_sides n) (seqadj_used n) x (frags n) (out_frags n) (next_sweep n) (helper_timer n).
Definition with_frags (n : Nat) (x : InTable) : Nat :=
  mkNat (inside n) (outside n) (inner n) (helpers n) (defragger n) (ns_counter n) (ns_sides n) (seqadj_used n) (inside_routes n) x (out_frags n) (next_sweep n) (helper_timer n).
Definition with_out_frags (n : Nat) (x : OutTable) : Nat :=
  mkNat (inside n) (outside n) (inner n) (helpers n) (defragger n) (ns_counter n) (ns_sides n) (seqadj_used n) (inside_routes n) (frags n) x (next_sweep n) (helper_timer n).
Definition with_sweep (n : Nat) (x : Z) : Nat :=
  mkNat (inside n) (outside n) (inner n) (helpers n) (defragger n) (ns_counter n) (ns_sides n) (seqadj_used n) (inside_routes n) (frags n) (out_frags n) x (helper_timer n).
Definition with_timer (n : Nat) (x : option Z) : Nat :=
  mkNat (inside n) (outside n) (inner n) (helpers n) (defragger n) (ns_counter n) (ns_sides n) (seqadj_used n) (inside_routes n) (frags n) (out_frags n) (next_sweep n) x.
Definition with_sides (n : Nat) (c : Z) (x : gset Z) : Nat :=
  mkNat (inside n) (outside n) (inner n) (helpers n) (defragger n) c x (seqadj_used n) (inside_routes n) (frags n) (out_frags n) (next_sweep n) (helper_timer n).
Definition with_addrs (n : Nat) (i o : IpPrefix) : Nat :=
  mkNat i o (inner n) (helpers n) (defragger n) (ns_counter n) (ns_sides n) (seqadj_used n) (inside_routes n) (frags n) (out_frags n) (next_sweep n) (helper_timer n).

(** ** Runs *)

(** Where a packet is handed over. *)
Inductive Side := Outside | Inside (ns : Z).

Record Env := mkEnv {
  clk : nat -> Z;
  grants : nat -> bool;
  frag_order : gmap NatDefrag.FragKey NatDefrag.FragEntry -> list (NatDefrag.FragKey * NatDefrag.FragEntry);
  frag_size : Z }.

(** The NAT, what was read of the clock and asked of the limiters and the
    helpers so far, and what was sent. *)
Record Run := mkRun { st : Nat; reads : nat; asks : nat; calls : nat; sent : list (Side * list Z) }.

Definition M (A : Type) : Type := Run -> Run * A.

#[export] Instance M_ret : MRet M := fun A x r => (r, x).
#[export] Instance M_bind : MBind M := fun A B f m r => let '(r, x) := m r in f x r.

Definition gets {A} (f : Nat -> A) : M A := fun r => (r, f (st r)).
Definition modify (f : Nat -> Nat) : M unit := fun r => (mkRun (f (st r)) (reads r) (asks r) (calls r) (sent r), ()).
Definition send (to : Side) (p : list Z) : M unit := fun r => (mkRun (st r) (reads r) (asks r) (calls r) (sent r ++ [(to, p)]), ()).
Definition call_number : M nat := fun r => (mkRun (st r) (reads r) (asks r) (S (calls r)) (sent r), calls r).

(** An operation under the lock. *)
Definition locked {A} (f : NatInner -> NatInner * A) : M A :=
  fun r => let '(x, a) := f (inner (st r)) in (mkRun (with_inner (st r) x) (reads r) (asks r) (calls r) (sent r), a).

Fixpoint each {A} (f : A -> M unit) (l : list A) : M unit :=
  match l with
  | [] => mret ()
  | x :: l => f x ;; each f l
  end.

(** ** Addresses *)

Definition v4_of (p : IpPrefix) : option Z := match addr p with V4 a => Some a | V6 _ => None end.

Definition inside_addr (n : Nat) : option Z := v4_of (inside n).
Definition outside_addr (n : Nat) : option Z := v4_of (outside n).
Definition is_inside_broadcast (n : Nat) (ip : Z) : bool := is_directed_broadcast (inside n) ip.

Definition served (n : Nat) (ip : Z) : bool := Ip.contains (inside n) (V4 ip) || existsb (fun r => Ip.contains r (V4 ip)) (inside_routes n).

Definition inside_source_ok (n : Nat) (ip : Z) : bool :=
  served n ip && negb (bool_decide (Some ip = inside_addr n)) && negb (is_inside_broadcast n ip).

Definition outside_source_ok (n : Nat) (ip : Z) : bool :=
  let special := NatRewrite.v4_is_loopback ip || (first_octet ip =? 0) || v4_is_multicast ip || (240 <=? first_octet ip) in
  let own := bool_decide (Some ip = outside_addr n) || bool_decide (Some ip = inside_addr n) in
  negb (special || own || served n ip).

Definition ip_at (pkt : list Z) (i : Z) : Z := of_be_bytes (slice pkt i (i + 4)).

(** [pkt[16..20] == a.octets()] *)
Definition is_to (pkt : list Z) (a : Z) : bool := bool_decide (slice pkt 16 20 = octets (V4 a)).

Definition untracked_original (pkt : list Z) (proto : Z) (whole tracked : bool) : option (list Z) :=
  if (proto =? PROTO_TCP) && whole && negb tracked then Some pkt else None.

(** ** Handlers *)

Section Path.
Context (env : Env).

Definition now : M Z := fun r => (mkRun (st r) (S (reads r)) (asks r) (calls r) (sent r), clk env (reads r)).
Definition allow : M bool := fun r => (mkRun (st r) (reads r) (S (asks r)) (calls r) (sent r), grants env (asks r)).

Definition send_ns (ns : Z) (pkt : list Z) : M unit :=
  sides ← gets ns_sides;
  if (ns =? 0) || bool_decide (ns ∈ sides) then send (Inside ns) pkt else mret ().

Definition deliver (to : Side) (pkt : list Z) : M unit := match to with Outside => send Outside pkt | Inside ns => send_ns ns pkt end.

Definition emit (out : list Z) (fmax : option NatDefrag.FragMax) (to : Side) : M unit :=
  match m ← fmax; NatDefrag.refragment m out with
  | Some parts => each (deliver to) parts
  | None => deliver to out
  end.

Definition time_exceeded (pkt : list Z) (from : Z) (to : Side) : M unit :=
  match Icmp.time_exceeded pkt (V4 from) with
  | Some err => ok ← allow; if ok : bool then deliver to err else mret ()
  | None => mret ()
  end.

Definition time_exceeded_outside (pkt : list Z) : M unit :=
  a ← gets outside_addr;
  match a with Some me => time_exceeded pkt me Outside | None => mret () end.

(** *** Helpers *)

Definition wake_helpers_at (at_ : Z) : M unit :=
  modify (fun n => match helper_timer n with
                   | Some t => if at_ <? t then with_timer n (Some at_) else n
                   | None => with_timer n (Some at_)
                   end).

Definition run_local {A} (f : nat -> NatInner -> LocalOut * A) : M A :=
  c ← call_number;
  '(o, a) ← locked (fun n => let '(o, a) := f c n in (lo_inner o, (o, a)));
  each (fun '(ns, p) => send_ns ns p) (lo_sent o) ;;
  each wake_helpers_at (lo_wake o) ;;
  mret a.

Fixpoint try_local (hs : list HelperKind) (ns : Z) (pkt : list Z) : M bool :=
  match hs with
  | [] => mret false
  | LocalKind h :: hs =>
      ok ← run_local (fun c n => handle_local_in h c n ns pkt);
      if ok : bool then mret true else try_local hs ns pkt
  | PacketKind _ :: hs => try_local hs ns pkt
  end.

Definition handle_local (ns : Z) (pkt : list Z) : M bool := hs ← gets helpers; try_local hs ns pkt.

Fixpoint run_helpers (process : PacketHelper -> nat -> NatInner -> list Z -> NatMapping -> NatInner * list Z)
    (hs : list HelperKind) (out : list Z) (m : NatMapping) (proto port : Z) : M (list Z) :=
  match hs with
  | [] => mret out
  | PacketKind h :: hs =>
      if match_outbound h proto port then
        c ← call_number;
        out ← locked (fun n => process h c n out m);
        run_helpers process hs out m proto port
      else run_helpers process hs out m proto port
  | LocalKind _ :: hs => run_helpers process hs out m proto port
  end.

Definition helper_outbound (pkt : list Z) (m : NatMapping) (proto dst_port : Z) : M (list Z) :=
  hs ← gets helpers; run_helpers process_outbound hs pkt m proto dst_port.

Definition helper_inbound (pkt : list Z) (m : NatMapping) (proto remote_port : Z) : M (list Z) :=
  hs ← gets helpers; run_helpers process_inbound hs pkt m proto remote_port.

Fixpoint tick_each (hs : list HelperKind) (t : Z) : M unit :=
  match hs with
  | [] => mret ()
  | LocalKind h :: hs =>
      next ← run_local (fun c n => local_tick h c n t);
      match next with Some next => wake_helpers_at next | None => mret () end ;;
      tick_each hs t
  | PacketKind _ :: hs => tick_each hs t
  end.

Definition tick_helpers_at (t : Z) : M unit :=
  due ← gets (fun n => match helper_timer n with Some x => x <=? t | None => false end);
  if due : bool then
    modify (fun n => with_timer n None) ;;
    hs ← gets helpers;
    tick_each hs t
  else mret ().

(** [tcp_seq_fixup]: the segment as it leaves. *)
Definition tcp_seq_fixup (k : NatKey) (peer : SocketAddr) (outbound : bool) (before : option Z) (out : list Z) (ihl : Z) : M (list Z) :=
  match before, tcp_payload_len out ihl with
  | Some before, Some after =>
      let delta := after - before in
      used ← gets seqadj_used;
      if (delta =? 0) && negb used then mret out
      else
        let seq := read32 out (ihl + 4) in
        '(found, adj) ← locked (fun n => let '(n', adj) := seq_fixup n k peer outbound seq delta in (n', (bool_decide (is_Some (mappings n !! k)), adj)));
        (if (found : bool) && negb (delta =? 0) then modify (fun n => with_seqadj n true) else mret ()) ;;
        mret (match adj with Some (this, other) => adjust_tcp_seq out ihl this other | None => out end)
  | _, _ => mret out
  end.

(** *** Sweeping *)

Definition sweep_defrag (d : Defraggers) (t t' : Z) : Defraggers :=
  mkDefraggers (NatDefrag.sweep (inbound_defrag d) t) (NatDefrag.sweep (outbound_defrag d) t').

Definition sweep_at (t : Z) : M unit :=
  locked (fun n => (expire_locked n None t, ())) ;;
  modify (fun n => with_frags n (FragTable.expire (frags n) t)) ;;
  modify (fun n => with_out_frags n (FragTable.expire (out_frags n) t)) ;;
  d ← gets defragger;
  match d with
  | Some d => t1 ← now; t2 ← now; modify (fun n => with_defragger n (Some (sweep_defrag d t1 t2)))
  | None => mret ()
  end.

Definition sweep : M unit := t ← now; tick_helpers_at t ;; sweep_at t.

Definition tick : M unit := t ← now; tick_helpers_at t.

Definition maybe_sweep : M unit :=
  t ← now;
  tick_helpers_at t ;;
  next ← gets next_sweep;
  if t <? next then mret ()
  else modify (fun n => with_sweep n (t + SWEEP_INTERVAL)) ;; sweep_at t.

(** The packet whole: as it came when reassembly is off; [None] while parts
    are missing. *)
Definition defragment (out : bool) (zone : Z) (pkt : list Z) : M (option (list Z * option NatDefrag.FragMax)) :=
  d ← gets defragger;
  match d with
  | None => mret (Some (pkt, None))
  | Some d =>
      t ← now;
      let '(x, r) := NatDefrag.reassemble (frag_order env) (frag_size env) (if out then outbound_defrag d else inbound_defrag d) t zone pkt in
      modify (fun n => with_defragger n (Some (if out then mkDefraggers (inbound_defrag d) x else mkDefraggers x (outbound_defrag d)))) ;;
      mret r
  end.

(** *** Inbound *)

Definition inbound_later_fragment (target : Z * Z) (pkt : list Z) : M unit :=
  send_ns target.1 (rewrite_later_in pkt (octets (V4 target.2))).

(** The mapping a datagram to outside port [rk] is for: one that is there,
    one an expectation or a forward calls for. *)
Definition inbound_mapping (n : NatInner) (rk : NatRevKey) (remote : SocketAddr) (flags : option Z) (t t_match t_install t_forward : Z) : NatInner * option NatKey :=
  match reverse n !! rk with
  | Some k => (n, Some k)
  | None =>
      match match_expectation n (rk_proto rk) (rk_port rk) remote.1 remote.2 t_match with
      | (n, Some e) =>
          let k := mkNatKey (ex_namespace e) (rk_proto rk) (ex_inside_ip e) (ex_inside_port e) in
          let n := expire_mapping n k t in
          match install_mapping n k rk false t_install with
          | (n, false) => (n, None)
          | (n, true) => (if ex_one_remote e || negb (ex_remote_ip e =? 0) then close_to n k remote flags t else n, Some k)
          end
      | (n, None) =>
          match match_forward n (rk_proto rk) (rk_port rk) t_forward with
          | (n, None) => (n, None)
          | (n, Some pf) =>
              let k := mkNatKey (pf_namespace pf) (rk_proto rk) (pf_inside_ip pf) (pf_inside_port pf) in
              ((install_mapping n k rk true t_install).1, Some k)
          end
      end
  end.

(** The lock held over [inbound_mapping] and the note of the remote. *)
Definition inbound_locked (rk : NatRevKey) (remote : SocketAddr) (flags : option Z) (t t_match t_install t_forward : Z) (n : NatInner) : NatInner * option (NatKey * bool) :=
  match inbound_mapping n rk remote flags t t_match t_install t_forward with
  | (n, None) => (n, None)
  | (n, Some k) => let '(n, tracked) := note_inbound_at n k (rk_port rk) remote flags t in (n, Some (k, tracked))
  end.

Definition inbound_tcpudp (pkt : list Z) (ihl proto : Z) (whole : bool) (fmax : option NatDefrag.FragMax) : M (option (Z * Z)) :=
  if negb whole && negb (l4_header_in pkt ihl proto) then mret None
  else
    let dst_port := w16 pkt (ihl + 2) in
    let src_port := w16 pkt ihl in
    let src_ip := ip_at pkt 12 in
    let rk := mkNatRevKey proto dst_port in
    if pkt.[8] <=? 1 then
      t ← now;
      would ← gets (fun n => would_translate (inner n) rk (src_ip, src_port) t);
      (if would : bool then time_exceeded_outside pkt else mret ()) ;;
      mret None
    else
      t ← now; t1 ← now; t2 ← now; t3 ← now;
      found ← locked (inbound_locked rk (src_ip, src_port) (tcp_flags pkt ihl proto) t t1 t2 t3);
      match found with
      | None => mret None
      | Some (k, tracked) =>
          let out := rewrite_dst pkt ihl proto (octets (V4 (nk_ip k))) (nk_port k) in
          let nm := mkNatMapping (nk_proto k) (nk_ip k) (nk_port k) dst_port (nk_ns k) in
          let before := tcp_payload_len out ihl in
          let orig := untracked_original out proto whole tracked in
          out ← (if whole then helper_inbound out nm proto src_port else mret out);
          let out := match orig with
                     | Some orig => if bool_decide (tcp_payload_len out ihl = before) then out else orig
                     | None => out
                     end in
          out ← (if proto =? PROTO_TCP then tcp_seq_fixup k (src_ip, src_port) false before out ihl else mret out);
          emit out fmax (Inside (nk_ns k)) ;;
          mret (Some (nk_ns k, nk_ip k))
      end.

(** What a quoted packet that left through the NAT says: its outside port
    and its remote. *)
Definition quoted_session (pkt : list Z) (emb_off emb_ihl : Z) : option (Z * SocketAddr) :=
  let emb_proto := pkt.[emb_off + 9] in
  let l4 := emb_off + emb_ihl in
  if (emb_proto =? PROTO_TCP) || (emb_proto =? PROTO_UDP) then Some (w16 pkt l4, (ip_at pkt (emb_off + 16), w16 pkt (l4 + 2)))
  else if (emb_proto =? PROTO_ICMP) && (pkt.[l4] =? 8) then Some (w16 pkt (l4 + 4), (ip_at pkt (emb_off + 16), 0))
  else None.

Definition inbound_icmp_error (pkt : list Z) (outer_ihl : Z) (fmax : option NatDefrag.FragMax) : M unit :=
  if pkt.[8] <=? 1 then mret ()
  else
    match emb_header pkt outer_ihl with
    | None => mret ()
    | Some (emb_off, emb_ihl) =>
        let emb_proto := pkt.[emb_off + 9] in
        match quoted_session pkt emb_off emb_ihl with
        | None => mret ()
        | Some (emb_port, remote) =>
            n ← gets id;
            if negb (bool_decide (Some (ip_at pkt (emb_off + 12)) = outside_addr n)) then mret ()
            else
              match reverse (inner n) !! mkNatRevKey emb_proto emb_port with
              | None => mret ()
              | Some k =>
                  if match mappings (inner n) !! k with Some m => contains (peers (side (for_port emb_port) m)) remote | None => false end
                  then emit (rewrite_error_in pkt outer_ihl emb_ihl emb_proto (octets (V4 (nk_ip k))) emb_port (nk_port k)) fmax (Inside (nk_ns k))
                  else mret ()
              end
        end
    end.

Definition inbound_echo_reply (pkt : list Z) (ihl : Z) (fmax : option NatDefrag.FragMax) : M (option (Z * Z)) :=
  let id_ := w16 pkt (ihl + 4) in
  owner ← gets (fun n => reverse (inner n) !! mkNatRevKey PROTO_ICMP id_);
  match owner with
  | None => mret None
  | Some k =>
      if pkt.[8] <=? 1 then time_exceeded_outside pkt ;; mret None
      else
        t ← now;
        locked (fun n => ((note_inbound_at n k id_ (ip_at pkt 12, 0) None t).1, ())) ;;
        emit (rewrite_echo_in pkt ihl (octets (V4 (nk_ip k))) (nk_port k)) fmax (Inside (nk_ns k)) ;;
        mret (Some (nk_ns k, nk_ip k))
  end.

Definition inbound_icmp (pkt : list Z) (ihl : Z) (whole : bool) (fmax : option NatDefrag.FragMax) : M (option (Z * Z)) :=
  let icmp_type := pkt.[ihl] in
  if icmp_type =? 0 then inbound_echo_reply pkt ihl fmax
  else if ((icmp_type =? 3) || (icmp_type =? 11) || (icmp_type =? 12)) && whole then inbound_icmp_error pkt ihl fmax ;; mret None
  else if (icmp_type =? 8) && whole then
    match echo_reply pkt ihl with
    | Some reply => ok ← allow; (if ok : bool then emit reply fmax Outside else mret ()) ;; mret None
    | None => mret None
    end
  else mret None.

Definition inbound (pkt_in : list Z) (fmax : option NatDefrag.FragMax) : M unit :=
  match ipv4_datagram pkt_in with
  | None => mret ()
  | Some (pkt, ihl) =>
      me ← gets outside_addr;
      if negb (match me with Some a => is_to pkt a | None => false end) then mret ()
      else
        let '(more, offset) := frag_info pkt in
        if negb (offset =? 0) then
          if pkt.[8] <=? 1 then mret ()
          else
            t ← now;
            tbl ← gets frags;
            let '(tbl, target) := FragTable.later tbl (NatRewrite.frag_key pkt) pkt t in
            modify (fun n => with_frags n tbl) ;;
            match target with Some target => inbound_later_fragment target pkt | None => mret () end
        else
          let whole := negb more in
          let proto := pkt.[9] in
          target ← (if ((proto =? PROTO_TCP) || (proto =? PROTO_UDP)) && (ihl + 4 <=? zlen pkt) then inbound_tcpudp pkt ihl proto whole fmax
                    else if (proto =? PROTO_ICMP) && (ihl + 8 <=? zlen pkt) then inbound_icmp pkt ihl whole fmax
                    else mret None);
          match target with
          | Some target =>
              if whole then mret ()
              else
                t ← now;
                tbl ← gets frags;
                let '(tbl, held) := FragTable.resolve tbl (NatRewrite.frag_key pkt) target t in
                modify (fun n => with_frags n tbl) ;;
                each (inbound_later_fragment target) held
          | None => mret ()
          end
  end.

Definition handle_inbound (pkt_in : list Z) : M unit :=
  maybe_sweep ;;
  n ← gets id;
  if negb (outside_source_ok n (ip_at pkt_in 12)) then mret ()
  else
    d ← defragment false 0 pkt_in;
    match d with Some (pkt, fmax) => inbound pkt fmax | None => mret () end.

(** *** Outbound *)

Definition outbound_later_fragment (pkt : list Z) : M unit :=
  me ← gets outside_addr;
  match me with
  | None => mret ()
  | Some outside_ip =>
      let out := rewrite_later_out pkt (octets (V4 outside_ip)) in
      if is_to out outside_ip then inbound out None else send Outside (spend_hop out)
  end.

(** The lock held over the search for the mapping and the note of the
    remote: the outside port, the mapping's key, whether the remote is
    tracked. *)
Definition outbound_locked (k : NatKey) (sel : Mapping -> bool) (peer : SocketAddr) (flags : option Z) (t t' t'' : Z) (n : NatInner) : NatInner * option (Z * NatKey * bool) :=
  match get_or_create n k t t' t'' with
  | (n, false) => (n, None)
  | (n, true) =>
      let '(n, s) := note_outbound n k sel peer flags in
      (n, (fun s => (outside_port s, m_key s, contains (peers s) peer)) <$> s)
  end.

Definition outbound_tcpudp (ns : Z) (pkt : list Z) (ihl proto : Z) (whole : bool) (fmax : option NatDefrag.FragMax) : M bool :=
  if negb whole && negb (l4_header_in pkt ihl proto) then mret false
  else
    let k := mkNatKey ns proto (ip_at pkt 12) (w16 pkt ihl) in
    let peer := (ip_at pkt 16, w16 pkt (ihl + 2)) in
    t ← now; t' ← now; t'' ← now;
    found ← locked (outbound_locked k (for_peer peer) peer (tcp_flags pkt ihl proto) t t' t'');
    match found with
    | None => mret false
    | Some (port, key, tracked) =>
        me ← gets outside_addr;
        match me with
        | None => mret false
        | Some outside_ip =>
            let out := rewrite_src pkt ihl proto (octets (V4 outside_ip)) port in
            let dst_port := w16 out (ihl + 2) in
            let nm := mkNatMapping (nk_proto key) (nk_ip key) (nk_port key) port (nk_ns key) in
            let before := tcp_payload_len out ihl in
            let orig := untracked_original out proto whole tracked in
            out ← (if whole then helper_outbound out nm proto dst_port else mret out);
            let out := match orig with
                       | Some orig => if bool_decide (tcp_payload_len out ihl = before) then out else orig
                       | None => out
                       end in
            out ← (if proto =? PROTO_TCP then tcp_seq_fixup key (ip_at out 16, dst_port) true before out ihl else mret out);
            if is_to out outside_ip then inbound out fmax ;; mret true
            else emit (spend_hop out) fmax Outside ;; mret true
        end
    end.

Definition outbound_icmp_error (ns : Z) (pkt : list Z) (outer_ihl : Z) : M unit :=
  match emb_header pkt outer_ihl with
  | None => mret ()
  | Some (emb_off, emb_ihl) =>
      let emb_proto := pkt.[emb_off + 9] in
      if negb ((emb_proto =? PROTO_TCP) || (emb_proto =? PROTO_UDP)) then mret ()
      else
        let l4 := emb_off + emb_ihl in
        let remote := (ip_at pkt (emb_off + 12), w16 pkt l4) in
        if negb (is_to pkt remote.1) then mret ()
        else
          let k := mkNatKey ns emb_proto (ip_at pkt (emb_off + 16)) (w16 pkt (l4 + 2)) in
          n ← gets id;
          match s ← side (for_peer remote) <$> mappings (inner n) !! k; if contains (peers s) remote then Some (outside_port s) else None with
          | None => mret ()
          | Some port =>
              match outside_addr n with
              | None => mret ()
              | Some outside_ip =>
                  let out := rewrite_error_out pkt outer_ihl emb_ihl emb_proto (octets (V4 outside_ip)) (octets (V4 (nk_ip k))) (nk_port k) port in
                  if is_to out outside_ip then inbound out None else send Outside (spend_hop out)
              end
          end
  end.

(** An echo request to a host outside. *)
Definition outbound_echo (ns : Z) (pkt : list Z) (ihl outside_ip : Z) (fmax : option NatDefrag.FragMax) : M bool :=
  let k := mkNatKey ns PROTO_ICMP (ip_at pkt 12) (w16 pkt (ihl + 4)) in
  t ← now; t' ← now; t'' ← now;
  found ← locked (outbound_locked k (fun _ => false) (ip_at pkt 16, 0) None t t' t'');
  match found with
  | None => mret false
  | Some (port, _, _) => emit (rewrite_echo_out pkt ihl (octets (V4 outside_ip)) port) fmax Outside ;; mret true
  end.

Definition outbound_icmp (ns : Z) (pkt : list Z) (ihl : Z) (whole : bool) (fmax : option NatDefrag.FragMax) : M bool :=
  let icmp_type := pkt.[ihl] in
  if icmp_type =? 8 then
    me ← gets outside_addr;
    match me with
    | None => mret false
    | Some outside_ip =>
        if is_to pkt outside_ip then
          match (if whole then echo_reply pkt ihl else None) with
          | Some reply => emit reply fmax (Inside ns) ;; mret false
          | None => mret false
          end
        else outbound_echo ns pkt ihl outside_ip fmax
    end
  else if ((icmp_type =? 3) || (icmp_type =? 11) || (icmp_type =? 12)) && whole then outbound_icmp_error ns pkt ihl ;; mret false
  else mret false.

(** A datagram, or a fragment of one, the NAT forwards. *)
Definition outbound (ns : Z) (pkt : list Z) (ihl : Z) (fmax : option NatDefrag.FragMax) : M unit :=
  let '(more, offset) := frag_info pkt in
  if negb (offset =? 0) then
    t ← now;
    tbl ← gets out_frags;
    let '(tbl, ok) := FragTable.later tbl (out_frag_key ns pkt) pkt t in
    modify (fun n => with_out_frags n tbl) ;;
    match ok with Some _ => outbound_later_fragment pkt | None => mret () end
  else
    let whole := negb more in
    let proto := pkt.[9] in
    translated ← (if ((proto =? PROTO_TCP) || (proto =? PROTO_UDP)) && (ihl + 4 <=? zlen pkt) then outbound_tcpudp ns pkt ihl proto whole fmax
                  else if (proto =? PROTO_ICMP) && (ihl + 8 <=? zlen pkt) then outbound_icmp ns pkt ihl whole fmax
                  else mret false);
    if negb whole && (translated : bool) then
      t ← now;
      tbl ← gets out_frags;
      let '(tbl, held) := FragTable.resolve tbl (out_frag_key ns pkt) () t in
      modify (fun n => with_out_frags n tbl) ;;
      each outbound_later_fragment held
    else mret ().

(** A datagram for the NAT itself, that no helper took. *)
Definition answer_ping (ns : Z) (pkt : list Z) (ihl : Z) (fmax : option NatDefrag.FragMax) : M unit :=
  if (pkt.[9] =? PROTO_ICMP) && (ihl + 8 <=? zlen pkt) && (pkt.[ihl] =? 8) then
    match echo_reply pkt ihl with Some reply => emit reply fmax (Inside ns) | None => mret () end
  else mret ().

Definition route_outbound (ns : Z) (pkt : list Z) (ihl : Z) (fmax : option NatDefrag.FragMax) : M unit :=
  n ← gets id;
  let dst_ip := ip_at pkt 16 in
  let group := v4_is_multicast dst_ip || v4_is_broadcast dst_ip || is_inside_broadcast n dst_ip in
  let local := group || bool_decide (Some dst_ip = inside_addr n) in
  let '(more, offset) := frag_info pkt in
  let fragment := more || negb (offset =? 0) in
  taken ← (if local then if fragment then mret true else handle_local ns pkt else mret false);
  if (taken : bool) || group then mret ()
  else if local then answer_ping ns pkt ihl fmax
  else
    n ← gets id;
    if negb (forwardable_v4 dst_ip (outside n)) then mret ()
    else
      let own_ping := (pkt.[9] =? PROTO_ICMP) && bool_decide (get pkt ihl = Some 8) && bool_decide (Some dst_ip = outside_addr n) in
      if (pkt.[8] <=? 1) && negb own_ping then
        match inside_addr n with Some me => time_exceeded pkt me (Inside ns) | None => mret () end
      else outbound ns pkt ihl fmax.

Definition handle_outbound (ns : Z) (pkt_in : list Z) : M unit :=
  maybe_sweep ;;
  n ← gets id;
  if negb (inside_source_ok n (ip_at pkt_in 12)) then mret ()
  else
    d ← defragment true ns pkt_in;
    match d with
    | None => mret ()
    | Some (pkt, fmax) => match ipv4_datagram pkt with Some (pkt, ihl) => route_outbound ns pkt ihl fmax | None => mret () end
    end.

(** ** What the sides and the owner do *)

Definition looks_v4 (pkt : list Z) : bool := (20 <=? zlen pkt) && (Z.shiftr pkt.[0] 4 =? 4).

Definition send_inside (ns : Z) (pkt : list Z) : M unit := if looks_v4 pkt then handle_outbound ns pkt else mret ().
Definition send_outside (pkt : list Z) : M unit := if looks_v4 pkt then handle_inbound pkt else mret ().

(** The new side's namespace. *)
Definition connect_l3 : M Z :=
  ns ← gets (fun n => ns_counter n + 1);
  modify (fun n => with_sides n ns (ns_sides n ∪ {[ns]})) ;;
  mret ns.

Definition disconnect (ns : Z) : M unit :=
  modify (fun n => with_sides n (ns_counter n) (ns_sides n ∖ {[ns]})) ;;
  locked (fun n => (cleanup_namespace n ns, ())).

Definition set_inside_routes (routes : list IpPrefix) : M unit :=
  modify (fun n => with_routes n (List.filter (fun r => match addr r with V4 _ => true | V6 _ => false end) routes)).

Definition enable_defrag : M unit := modify (fun n => with_defragger n (Some Defraggers_default)).

Definition add_helper (h : HelperKind) : M unit := modify (fun n => with_helpers n (helpers n ++ [h])).

Definition set_inside_addr (p : IpPrefix) : M unit := modify (fun n => with_addrs n p (outside n)).
Definition set_outside_addr (p : IpPrefix) : M unit := modify (fun n => with_addrs n (inside n) p).
End Path.
