(* ===== verification/NatPathInv.v ===== *)
(** * What a packet may do to the NAT ([src/src/nat/nat.rs])

    Every call of [NatPath]'s handlers changes the state under the lock by the
    operations of [NatReach] alone, keeps the fragment tables and the
    reassemblers within their bounds, and sends nothing outside but from the
    public address.  Programs are judged by [safe], relative to the run a call
    started in; its rules are the [path] hints. *)

From S2P Require Import Prelude Ip Checksum Packet Fragment Build Icmp Bitmap Ports NatPorts NatRewrite NatTrack NatMap NatMapInv NatExpiry NatCreate NatReach NatFrag NatDefrag NatPath.

(** ** Lawful helpers *)

(** A packet helper changes the NAT by its operations, and leaves a datagram
    with the header length, protocol and addresses it had. *)
Record packet_lawful (h : PacketHelper) : Prop := {
  pk_out_steps : forall c n p m, rtc nat_step n (process_outbound h c n p m).1;
  pk_in_steps : forall c n p m, rtc nat_step n (process_inbound h c n p m).1;
  pk_out : forall c n p m ihl, datagram p ihl ->
    let p' := (process_outbound h c n p m).2 in datagram p' ihl /\ p'.[9] = p.[9] /\ forall i, 12 <= i < 20 -> p'.[i] = p.[i] }.

Record local_lawful (h : LocalHelper) : Prop := {
  lc_handle : forall c n ns p, rtc nat_step n (lo_inner (handle_local_in h c n ns p).1);
  lc_tick : forall c n t, rtc nat_step n (lo_inner (local_tick h c n t).1) }.

Definition lawful (h : HelperKind) : Prop := match h with PacketKind h => packet_lawful h | LocalKind h => local_lawful h end.

(** ** Packets from the public address *)

Definition from (a : Z) (p : list Z) : Prop := slice p 12 16 = octets (V4 a).

Lemma slice_four l i j : 0 <= i -> j = i + 4 -> j <= zlen l -> slice l i j = [l.[i]; l.[i + 1]; l.[i + 2]; l.[i + 3]].
Proof.
  intros ? -> ?. rewrite <- (slice_cat l i (i + 2) (i + 4)) by lia. rewrite slice_two by lia. replace (i + 4) with (i + 2 + 2) by lia.
  rewrite slice_two by lia. replace (i + 2 + 1) with (i + 3) by lia. done.
Qed.

Lemma from_bytes a p q : 20 <= zlen p -> 20 <= zlen q -> (forall i, 12 <= i < 16 -> q.[i] = p.[i]) -> from a p -> from a q.
Proof. intros Hp Hq H. unfold from. rewrite (slice_four p 12 16), (slice_four q 12 16), !H by lia. done. Qed.

Lemma is_to_bytes a p q : 20 <= zlen p -> 20 <= zlen q -> (forall i, 16 <= i < 20 -> q.[i] = p.[i]) -> is_to q a = is_to p a.
Proof. intros Hp Hq H. unfold is_to. rewrite (slice_four p 16 20), (slice_four q 16 20), !H by lia. done. Qed.

Lemma piece_len p m f : NatDefrag.piece p m f -> 20 <= zlen f.
Proof.
  intros P. pose proof (NatDefrag.pc_sum _ _ _ P) as H. unfold verify_ipv4_checksum in H. rewrite (NatDefrag.pc_v4 _ _ _ P) in H. cbn [Z.eqb Pos.eqb] in H.
  destruct (_ || _) eqn:E in H; [done|]. bool2prop. lia.
Qed.

Lemma refragment_from m p fs a : bytes_ok p -> from a p -> NatDefrag.refragment m p = Some fs -> Forall (from a) fs.
Proof.
  intros Hb Hf. unfold NatDefrag.refragment. destruct (_ || _) eqn:E; [done|]. apply orb_false_elim in E as [E1 E2]. bool2prop.
  pose proof (NatDefrag.set_df_same p false Hb ltac:(lia)) as S. pose proof (fragment_ipv4_ok (NatDefrag.set_df p false) (Z.max (NatDefrag.size m) MIN_IPV4_MTU) (NatDefrag.sd_bytes _ _ _ S)) as K.
  destruct (fragment_ipv4 _ _) as [|parts| |]; try done. cbn [fragmentation_ok] in K. destruct K as (_ & _ & _ & _ & K & _). intros [= <-].
  pose proof (list.Forall_impl _ _ _ K (fun f => NatDefrag.frag_ok_piece p _ m f (NatDefrag.sd_same _ _ _ S))) as HP. cbv beta in HP.
  assert (forall f, NatDefrag.piece p m f -> from a f) as Hp.
  { intros f P. eapply (from_bytes a p f); [lia|by eapply piece_len| |done]. intros i Hi. apply (NatDefrag.pc_same _ _ _ P). lia. }
  destruct (NatDefrag.df m); [apply Forall_fmap|]; apply (list.Forall_impl _ _ _ HP); intros f Pf; by apply Hp.
Qed.

Lemma spend_hop_outer p : 20 <= zlen p -> zlen (spend_hop p) = zlen p /\ forall i, 12 <= i -> (spend_hop p).[i] = p.[i].
Proof.
  intros H. unfold spend_hop. set (x := sat_sub p.[8] 1). set (c := be16 _). assert (zlen c = 2) as Hc by done. split.
  - rewrite zlen_splice by (rewrite ?zlen_set_byte, ?Hc; lia). apply zlen_set_byte.
  - intros i Hi. rewrite byte_at_splice_out by (rewrite ?zlen_set_byte, ?Hc; lia). apply byte_at_set_ne; lia.
Qed.

Lemma spend_hop_bytes p : bytes_ok p -> 20 <= zlen p -> bytes_ok (spend_hop p).
Proof.
  intros Hb Hl. unfold spend_hop. set (q := set_byte p 8 (sat_sub p.[8] 1)).
  assert (bytes_ok q) as Hq. { apply bytes_ok_set_byte; [done|]. pose proof (byte_at_ok p 8 Hb). unfold byte_ok, sat_sub in *. lia. }
  apply bytes_ok_splice; [done|]. apply bytes_ok_be16.
  pose proof (of_be16_bound q.[10] q.[10 + 1] ltac:(bok) ltac:(bok)). pose proof (of_be16_bound p.[8] p.[8 + 1] ltac:(bok) ltac:(bok)).
  pose proof (of_be16_bound q.[8] q.[8 + 1] ltac:(bok) ltac:(bok)).
  pose proof (adjust_mod (w16 q 10) (w16 p 8) (w16 q 8)) as A. unfold w16 in *. lia.
Qed.

Lemma later_out_facts p a :
  bytes_ok p -> 20 <= zlen p -> let q := rewrite_later_out p (octets (V4 a)) in bytes_ok q /\ zlen q = zlen p /\ from a q.
Proof.
  intros Hb Hl. unfold rewrite_later_out. change (slice p 12 16) with (slice p 12 (12 + 4)). rewrite rewrite_addr_outer.
  destruct (rewrite_addr_facts p 0 12 (octets (V4 a)) 20) as (H1 & H2 & H3 & _); [done|lia|by left|lia|lia|apply bytes_ok_octets|apply zlen_octets|]. done.
Qed.

Lemma echo_reply_from p ihl r a :
  datagram p ihl -> ihl + 8 <= zlen p -> echo_reply p ihl = Some r -> is_to p a = true -> bytes_ok r /\ from a r.
Proof.
  intros Hd Hl. unfold echo_reply. destruct (negb _); [done|]. intros E Ht. apply Some_inj in E. subst r. cbn zeta. unfold is_to in Ht. apply bool_decide_eq_true in Ht.
  pose proof (dg_header p ihl Hd). pose proof (dg_ok p ihl Hd) as Hb. set (icmp := zdrop ihl p). assert (bytes_ok icmp) as Bi by (unfold icmp; bok).
  assert (8 <= zlen icmp) as Li by (unfold icmp; rewrite zlen_zdrop; lia).
  set (pre := [0x45; p.[1]] ++ be16 (u16 (20 + zlen icmp)) ++ [0; 0; 0; 0; 64; PROTO_ICMP; 0; 0]).
  assert (zlen pre = 12) as Lp by done. assert (bytes_ok pre) as Bp by (unfold pre, PROTO_ICMP; bok; apply Z.mod_pos_bound; lia).
  assert (zlen (slice p 16 20) = 4 /\ zlen (slice p 12 16) = 4) as [L1 L2] by (rewrite !zlen_slice; lia).
  replace ([0x45; p.[1]] ++ be16 (u16 (20 + zlen icmp)) ++ [0; 0; 0; 0; 64; PROTO_ICMP; 0; 0] ++ slice p 16 20 ++ slice p 12 16)
    with (pre ++ slice p 16 20 ++ slice p 12 16) by (unfold pre; by rewrite <- !app_assoc).
  set (h := pre ++ _). assert (zlen h = 20) as Lh by (unfold h; rewrite !zlen_app; lia). assert (bytes_ok h) as Bh by (unfold h; bok).
  set (h1 := splice h 10 _). assert (zlen h1 = 20) as L3 by (unfold h1; rewrite zlen_splice; rewrite ?zlen_be16; lia). rewrite L3.
  assert (bytes_ok h1) as Bh1 by (unfold h1; bok; pose proof (checksum_bound h Bh); lia).
  set (q := set_byte (h1 ++ icmp) 20 0). assert (bytes_ok q) as Bq by (unfold q; bok).
  assert (zlen q = 20 + zlen icmp) as Lq by (unfold q; rewrite zlen_set_byte, zlen_app; lia).
  change (20 + 2) with 22. set (q1 := splice q 22 [0; 0]). assert (zlen q1 = zlen q) as Lq1 by (apply zlen_splice; change (zlen [0; 0]) with 2; lia).
  assert (bytes_ok q1) as Bq1 by (unfold q1; bok). split; [bok; pose proof (checksum_bound (zdrop 20 q1) ltac:(bok)); lia|]. unfold from.
  rewrite slice_splice_before by (rewrite ?zlen_be16; lia). unfold q1. rewrite slice_splice_before by (change (zlen [0; 0]) with 2; lia).
  unfold q. rewrite set_byte_splice by (rewrite zlen_app; lia). rewrite slice_splice_before by (rewrite ?zlen_app; change (zlen [0]) with 1; lia).
  rewrite slice_app_l by lia. unfold h1. rewrite slice_splice_after by (rewrite ?zlen_be16; lia). unfold h.
  rewrite slice_app_r, slice_app_l by lia. rewrite Lp, slice_from_0. rewrite ztake_all by lia. done.
Qed.

Lemma time_exceeded_from p a r : bytes_ok p -> 0 <= a < 2 ^ 32 -> Icmp.time_exceeded p (V4 a) = Some r -> bytes_ok r /\ from a r.
Proof.
  intros Hb Ha E. assert (exists err, err_ok err /\ error p (V4 a) err = Some r) as (err & He & E').
  { unfold Icmp.time_exceeded in E. destruct (version p =? 4); [|destruct (version p =? 6); [|done]]; (eexists; split; [|exact E]); done. }
  destruct (error_built p (V4 a) err r Hb Ha He E') as (dst & _ & _ & A). unfold error_about in A. destruct (fields _ _) as [[t c0] rest].
  destruct A as [[c A] _]. pose proof (pt_ok _ _ _ _ _ _ A) as Hr. split; [done|]. pose proof (pt_src _ _ _ _ _ _ A) as S.
  unfold src_addr, ipv4_src_addr, ipv6_src_addr in S. destruct (version r =? 4); [|by destruct (version r =? 6); [destruct (zlen r <? 24)|]].
  destruct (zlen r <? 16) eqn:El; [done|]. bool2prop. injection S as S. unfold from. cbn [octets]. rewrite <- S.
  assert (length (slice r 12 16) = 4%nat) as L. { pose proof (zlen_slice r 12 16) as Hz. unfold zlen at 1 in Hz. lia. }
  rewrite <- L at 1. symmetry. apply be_bytes_of_be_bytes. bok.
Qed.

(** ** Reassembly *)

Definition arrival_ok (a : NatDefrag.Arrival) : Prop := exists zone pkt, bytes_ok pkt /\ NatDefrag.parse_fragment zone pkt = NatDefrag.Fragment a.

Definition defrag_ok (sz : Z) (d : NatDefrag.DefragInner) : Prop := NatDefrag.bounded sz arrival_ok d /\ NatDefrag.waiting d.

Lemma arrival_sound a : arrival_ok a -> NatDefrag.sound_arrival a.
Proof. intros (zone & pkt & Hb & E). by apply (NatDefrag.parse_sound zone pkt a Hb E). Qed.

Lemma rebuild_bytes h payload m e out :
  bytes_ok h -> bytes_ok payload -> e = None \/ e = Some 3 -> 20 <= zlen h -> NatDefrag.rebuild h payload m e = Some out -> bytes_ok out.
Proof.
  intros Hh Hp He Hz. unfold NatDefrag.rebuild. destruct (_ >? 65535) eqn:El; [done|]. intros E. apply Some_inj in E. subst out. cbn zeta.
  pose proof (zlen_nonneg payload). set (r1 := splice (h ++ payload) 2 _). assert (bytes_ok r1) as B1 by (unfold r1; bok).
  set (r2 := splice r1 6 _). assert (bytes_ok r2) as B2 by (unfold r2; destruct (NatDefrag.df m); bok).
  set (r3 := match e with Some _ => _ | None => _ end). assert (bytes_ok r3) as B3.
  { unfold r3. destruct He as [->| ->]; [done|]. apply bytes_ok_set_byte; [done|]. assert (byte_ok r2.[1]) as Hb1 by bok.
    pose proof (byte_forall (fun b => (0 <=? Z.lor (Z.land b 0xFC) 3) && (Z.lor (Z.land b 0xFC) 3 <? 256)) ltac:(vm_compute; reflexivity) _ Hb1) as Hc. cbv beta in Hc.
    bool2prop. unfold byte_ok. lia. }
  assert (bytes_ok (splice r3 10 [0; 0])) as B4 by bok. bok. pose proof (checksum_bound (ztake (zlen h) (splice r3 10 [0; 0])) ltac:(bok)). lia.
Qed.

Lemma new_defrag_ok sz : defrag_ok sz NatDefrag.Defragger_new.
Proof. apply (NatDefrag.new_bounded sz arrival_ok). Qed.

Lemma sweep_defrag_ok sz d t : 0 <= sz -> defrag_ok sz d -> defrag_ok sz (NatDefrag.sweep d t).
Proof.
  intros Hs [I W]. split; [by apply NatDefrag.expire_bounded|]. intros k e x E. apply (W k).
  by apply (NatDefrag.defrag_expire_inv sz arrival_ok d t (NatDefrag.bd_table _ _ _ I)) in E.
Qed.

Section Reassemble.
Context (iter : gmap NatDefrag.FragKey NatDefrag.FragEntry -> list (NatDefrag.FragKey * NatDefrag.FragEntry)) (sz : Z).
Hypothesis iter_perm : forall m, iter m ≡ₚ map_to_list m.
Hypothesis sz_pos : 0 <= sz.

Lemma reassemble_ok d now zone pkt :
  defrag_ok sz d -> bytes_ok pkt ->
  let '(d', r) := NatDefrag.reassemble iter sz d now zone pkt in
  defrag_ok sz d' /\ forall out mm, r = Some (out, mm) -> bytes_ok out.
Proof using iter_perm sz_pos.
  intros [I W] Hb. unfold NatDefrag.reassemble. destruct (NatDefrag.parse_fragment zone pkt) as [| |a] eqn:E; [by split; [|naive_solver]|done|].
  assert (arrival_ok a) as Aa by (by exists zone, pkt).
  pose proof (NatDefrag.arrival_inv iter sz iter_perm sz_pos arrival_ok d now a I Aa arrival_sound) as K.
  pose proof (NatDefrag.accept_waiting iter sz iter_perm sz_pos arrival_ok d now a I Aa arrival_sound W) as W'.
  destruct (NatDefrag.accept iter sz d now a) as [d' r]. destruct K as [I' K]. split; [done|]. intros out mm ->.
  destruct (K out mm eq_refl) as (m & l & t & h & e' & -> & As & Hh & He & Hr). apply NatDefrag.head_hdr in Hh as (f & F1 & F2).
  assert (forall f, f ∈ l -> bytes_ok (NatDefrag.data f) /\ forall h, NatDefrag.hdr f = Some h -> bytes_ok h /\ 20 <= zlen h) as Hf.
  { intros g Hg. destruct (NatDefrag.as_origin _ _ _ _ _ As g Hg) as (b & (z & p & Hp & Ep) & _ & <- & _).
    destruct (NatDefrag.parse_sound z p b Hp Ep) as (_ & _ & D1 & D2). split; [done|]. intros h' Eh. destruct (D2 h' Eh) as (_ & ? & ? & _). done. }
  destruct (Hf f F1) as [_ Hh]. destruct (Hh h F2) as [B Z]. eapply rebuild_bytes; [exact B| |exact He|exact Z|exact Hr].
  apply List.Forall_concat, Forall_fmap, list.Forall_forall. intros g Hg. by apply Hf.
Qed.
End Reassemble.

(** ** Under the lock *)

Lemma steps_inv n n' : rtc nat_step n n' -> nat_inv none_inflight n -> nat_inv none_inflight n'.
Proof. induction 1 as [|x y z H _ IH]; [done|]. intros I. apply IH. by apply (nat_step_inv x y). Qed.

Lemma reverse_after_expire n k t rk :
  nat_inv none_inflight n -> reverse n !! rk = None -> reverse (expire_mapping n k t) !! rk = None.
Proof.
  intros I Hn. destruct (expire_mapping_inv _ n k t I inflight_none) as (I' & _ & _ & Em & Er). destruct (reverse (expire_mapping n k t) !! rk) as [k'|] eqn:E; [|done]. exfalso.
  destruct (decide (k' = k)) as [->|Hne]; [|apply Er in E; [congruence|done]].
  apply (ni_holder _ _ I') in E as (m' & E & Hp & Hin). rewrite Em in E. destruct (mappings n !! k) as [m|] eqn:Ek; [|congruence].
  rewrite lookup_put in E. destruct (decide (k = k)); [|done]. destruct (ni_maps _ _ I k m Ek) as [Hok _].
  enough (reverse n !! rk = Some k) by congruence. apply (ni_holder _ _ I). exists m. split_and!; [done|done|].
  apply (after_expire_ports (nk_proto k) t m k Hok). unfold survivor in E. destruct (alias (after_expire _ _ m)) eqn:Ea; [by injection E as <-|].
  destruct (dead _ _ _); [done|]. injection E as <-. exact Hin.
Qed.

(** Why a datagram to outside port [rk] is let in to [k]: a mapping has the
    port, or a live expectation of this remote or a live forward names it. *)
Definition let_in (n : NatInner) (rk : NatRevKey) (remote : SocketAddr) (t_match t_forward : Z) (k : NatKey) : Prop :=
  reverse n !! rk = Some k \/
  (exists e, e ∈ expectations (tables n) /\ expectation_matches e t_match (rk_proto rk) (rk_port rk) remote.1 remote.2 = true /\
     k = mkNatKey (ex_namespace e) (rk_proto rk) (ex_inside_ip e) (ex_inside_port e)) \/
  (exists f, by_port (tables n) !! rk = Some f /\ lapsed (pf_expires f) t_forward = false /\
     k = mkNatKey (pf_namespace f) (rk_proto rk) (pf_inside_ip f) (pf_inside_port f)).

Lemma inbound_mapping_spec n rk remote flags t t1 t2 t3 :
  nat_inv none_inflight n -> proto_ok (rk_proto rk) -> port_ok (rk_port rk) ->
  let '(n', o) := inbound_mapping n rk remote flags t t1 t2 t3 in
  rtc nat_step n n' /\ match o with Some k => let_in n rk remote t1 t3 k /\ reverse n' !! rk = Some k | None => reverse n !! rk = None end.
Proof.
  intros I Hpr Hpt. unfold inbound_mapping. destruct (reverse n !! rk) as [k|] eqn:Er; [by split_and!; [|left|]|].
  pose proof (match_expectation_inv n (rk_proto rk) (rk_port rk) remote.1 remote.2 t1 I) as K.
  pose proof (do_match n (rk_proto rk) (rk_port rk) remote.1 remote.2 t1) as S1.
  destruct (match_expectation n _ _ _ _ t1) as [n1 [e|]]; cbn [fst] in S1.
  - destruct K as (I1 & _ & R1 & _ & E1 & E2). set (k := mkNatKey _ _ _ _). pose proof (do_expire n1 k t) as S2.
    assert (reverse (expire_mapping n1 k t) !! rk = None) as R2 by (apply reverse_after_expire; [done|by rewrite R1]).
    destruct (expire_mapping_inv _ n1 k t I1 inflight_none) as (I2 & _). set (n2 := expire_mapping n1 k t) in *. clearbody n2.
    pose proof (install_mapping_inv n2 k rk false t2 I2 R2 eq_refl Hpt Hpr) as J. pose proof (do_install n2 k rk false t2 R2 eq_refl Hpt Hpr) as S3.
    destruct (install_mapping n2 k rk false t2) as [n3 [|]]; cbn [fst] in S3; [|split; [by eapply rtc_l, rtc_l, rtc_once|done]].
    destruct J as (I3 & _ & _ & _ & _ & _ & R3). assert (let_in n rk remote t1 t3 k) as L by (right; left; by exists e).
    destruct (_ || _); [|split_and!; [by eapply rtc_l, rtc_l, rtc_once|done|done]]. split_and!; [|done|].
    + eapply rtc_l, rtc_l, rtc_l, rtc_once; [done|done|done|apply do_close].
    + destruct (close_to_inv n3 k remote flags t I3) as (_ & T & _). unfold reverse. by rewrite T.
  - destruct K as (_ & _ & _ & _ & -> & _). pose proof (match_forward_inv n (rk_proto rk) (rk_port rk) t3 I) as K.
    pose proof (do_match_forward n (rk_proto rk) (rk_port rk) t3) as S2. destruct (match_forward n _ _ t3) as [n2 [f|]]; cbn [fst] in S2; [|split; [by apply rtc_once|done]].
    destruct K as (_ & -> & F1 & F2). set (k := mkNatKey _ _ _ _). replace (mkNatRevKey (rk_proto rk) (rk_port rk)) with rk in F1 by by destruct rk.
    pose proof (install_mapping_inv n k rk true t2 I Er eq_refl Hpt Hpr) as J. pose proof (do_install n k rk true t2 Er eq_refl Hpt Hpr) as S3.
    destruct (install_mapping n k rk true t2) as [n3 ok]. destruct J as (_ & Eok & _ & _ & _ & J). rewrite orb_true_r in Eok. subst ok. cbn [fst] in *.
    split_and!; [by apply rtc_once|right; right; by exists f|apply J].
Qed.

Lemma inbound_locked_spec n rk remote flags t t1 t2 t3 :
  nat_inv none_inflight n -> proto_ok (rk_proto rk) -> port_ok (rk_port rk) ->
  let '(n', o) := inbound_locked rk remote flags t t1 t2 t3 n in
  rtc nat_step n n' /\ match o with Some (k, _) => let_in n rk remote t1 t3 k /\ reverse n' !! rk = Some k | None => reverse n !! rk = None end.
Proof.
  intros I Hpr Hpt. unfold inbound_locked. pose proof (inbound_mapping_spec n rk remote flags t t1 t2 t3 I Hpr Hpt) as K.
  destruct (inbound_mapping n rk remote flags t t1 t2 t3) as [n1 [k|]]; [|done]. destruct K as (S & L & R). pose proof (steps_inv _ _ S I) as I1.
  pose proof (note_inbound_at_inv n1 k (rk_port rk) remote flags t I1) as J. pose proof (do_inbound n1 k (rk_port rk) remote flags t) as S1.
  destruct (note_inbound_at n1 k _ remote flags t) as [n2 tr]. cbn [fst] in S1. destruct J as (_ & T & _). split_and!; [by eapply rtc_r|done|]. unfold reverse. by rewrite T.
Qed.

Lemma outbound_locked_spec n k sel peer flags t t' t'' :
  nat_inv none_inflight n -> proto_ok (nk_proto k) -> port_ok (nk_port k) ->
  let '(n', o) := outbound_locked k sel peer flags t t' t'' n in
  rtc nat_step n n' /\ forall port key tracked, o = Some (port, key, tracked) -> key = k /\ port_ok port /\ reverse n' !! rev_of k port = Some k.
Proof.
  intros I Hpr Hpt. unfold outbound_locked. pose proof (get_or_create_inv n k t t' t'' I Hpr Hpt) as K. pose proof (do_get n k t t' t'' Hpr Hpt) as S.
  destruct (get_or_create n k t t' t'') as [n1 [|]]; cbn [fst] in S; [|split; [by apply rtc_once|done]]. destruct K as [I1 _].
  pose proof (note_outbound_inv n1 k sel peer flags I1) as J. pose proof (do_outbound n1 k sel peer flags) as S1.
  destruct (note_outbound n1 k sel peer flags) as [n2 o]. cbn [fst] in S1. destruct J as (I2 & T & _ & J). split; [by eapply rtc_l, rtc_once|].
  intros port key tracked E. destruct (mappings n1 !! k) as [m|] eqn:Em; [|by destruct J as [-> _]]. destruct J as (s & -> & M2 & Ks & Ps & _).
  cbn in E. injection E as <- <- _. split; [done|]. destruct (ni_maps _ _ I1 k m Em) as [Hok _].
  assert (port_ok (outside_port s) /\ outside_port s ∈ map_ports m) as [P1 P2].
  { rewrite Ps. unfold side, on_alias. destruct (alias m) as [a|] eqn:Ea; cbn.
    - destruct (sel a); cbn; [|split; [apply Hok|apply map_ports_elem; by left]]. destruct (mo_alias _ _ Hok a Ea) as (_ & _ & ? & _). split; [done|]. apply map_ports_elem. right. by exists a.
    - split; [apply Hok|apply map_ports_elem; by left]. }
  split; [done|]. unfold reverse. rewrite T. apply (ni_holder _ _ I1). by exists m.
Qed.

(** ** Judging programs *)

Definition env_ok (env : Env) : Prop := (forall m, frag_order env m ≡ₚ map_to_list m) /\ 0 <= frag_size env.

Record good (sz : Z) (n : Nat) : Prop := {
  gd_inner : nat_inv none_inflight (inner n);
  gd_helpers : Forall lawful (helpers n);
  gd_addrs : addr_ok (addr (inside n)) /\ addr_ok (addr (outside n));
  gd_frags : FragTable.table_inv (frags n);
  gd_out_frags : FragTable.table_inv (out_frags n);
  gd_held : forall k e f, FragTable.map (out_frags n) !! k = Some e -> f ∈ FragTable.held e -> bytes_ok f /\ 20 <= zlen f;
  gd_defrag : forall d, defragger n = Some d -> defrag_ok sz (inbound_defrag d) /\ defrag_ok sz (outbound_defrag d) }.

(** What handling a packet leaves as it is. *)
Definition config (n : Nat) : IpPrefix * IpPrefix * list HelperKind * Z * gset Z * list IpPrefix :=
  (inside n, outside n, helpers n, ns_counter n, ns_sides n, inside_routes n).

(** A packet may go inside; outside only from the public address. *)
Definition allowed (me : option Z) (x : Side * list Z) : Prop :=
  match x.1 with Outside => exists a, me = Some a /\ from a x.2 | Inside _ => True end.

Section Judge.
Context (env : Env) (r0 : Run).

Record window (r : Run) : Prop := {
  wd_good : good (frag_size env) (st r);
  wd_config : config (st r) = config (st r0);
  wd_inner : rtc nat_step (inner (st r0)) (inner (st r));
  wd_sent : exists l, sent r = sent r0 ++ l /\ Forall (allowed (outside_addr (st r0))) l }.

Definition safe {A} (m : M A) (P : A -> Prop) : Prop := forall r, window r -> window (m r).1 /\ P (m r).2.

Lemma safe_ret {A} (x : A) (P : A -> Prop) : P x -> safe (mret x) P.
Proof. by intros HP r W. Qed.

Lemma safe_bind {A B} (m : M A) (f : A -> M B) P Q : safe m P -> (forall a, P a -> safe (f a) Q) -> safe (m ≫= f) Q.
Proof. intros Hm Hf r W. unfold mbind, M_bind. pose proof (Hm r W) as K. destruct (m r) as [r1 a]. destruct K as [W1 HP]. by apply Hf. Qed.

Lemma safe_weaken {A} (m : M A) (P Q : A -> Prop) : safe m P -> (forall a, P a -> Q a) -> safe m Q.
Proof. intros Hm H r W. destruct (Hm r W) as [W1 HP]. split; [done|by apply H]. Qed.

Lemma safe_gets {A} (f : Nat -> A) : safe (gets f) (fun a => exists r, window r /\ a = f (st r)).
Proof. intros r W. split; [done|by exists r]. Qed.

Lemma safe_now : safe (now env) (fun _ => True).
Proof. intros r [W1 W2 W3 W4]. by split; [split|]. Qed.

Lemma safe_allow : safe (allow env) (fun _ => True).
Proof. intros r [W1 W2 W3 W4]. by split; [split|]. Qed.

Lemma safe_call : safe call_number (fun _ => True).
Proof. intros r [W1 W2 W3 W4]. by split; [split|]. Qed.

Lemma safe_send to p : allowed (outside_addr (st r0)) (to, p) -> safe (send to p) (fun _ => True).
Proof.
  intros Ha r [W1 W2 W3 (l & W4 & W5)]. split; [|done]. split; cbn [st sent send fst]; try done.
  exists (l ++ [(to, p)]). rewrite W4, app_assoc. split; [done|]. apply list.Forall_app. by split; [|constructor].
Qed.

Lemma safe_locked {A} (f : NatInner -> NatInner * A) P :
  (forall n, nat_inv none_inflight n -> rtc nat_step n (f n).1 /\ P (f n).2) -> safe (locked f) P.
Proof.
  intros Hf r [[] W2 W3 W4]. destruct (Hf (inner (st r)) gd_inner0) as [S HP]. unfold locked.
  destruct (f (inner (st r))) as [x a]. cbn [fst snd] in *. split; [|done]. split; cbn [st sent]; try done.
  - split; cbn; try done. by eapply steps_inv.
  - cbn. by etrans.
Qed.

Lemma safe_modify (f : Nat -> Nat) :
  (forall n, good (frag_size env) n -> config n = config (st r0) -> good (frag_size env) (f n) /\ config (f n) = config n /\ inner (f n) = inner n) ->
  safe (modify f) (fun _ => True).
Proof.
  intros Hf r [W1 W2 W3 W4]. destruct (Hf (st r) W1 W2) as (G & C & E). split; [|done]. split; cbn [st sent modify fst]; try done; by rewrite ?C, ?E.
Qed.

Lemma safe_each {A} (f : A -> M unit) l : (forall x, x ∈ l -> safe (f x) (fun _ => True)) -> safe (each f l) (fun _ => True).
Proof.
  induction l as [|x l IH]; intros H; cbn [each]; [by apply safe_ret|]. eapply safe_bind; [apply H, list_elem_of_here|]. intros _ _.
  apply IH. intros y Hy. by apply H, list_elem_of_further.
Qed.
End Judge.

Create HintDb path.
#[export] Hint Resolve safe_ret safe_gets safe_now safe_allow safe_call : path.

(** One statement after the other; [f] names the value. *)
Ltac bind := eapply safe_bind; [eauto with path|cbv beta; intros ? ?].

Section Handlers.
Context (env : Env) (r0 : Run).
Hypothesis env_good : env_ok env.

Let me : option Z := outside_addr (st r0).
Let safe {A} := @safe env r0 A.
Let T {A} : A -> Prop := fun _ => True.

Lemma window_config r : window env r0 r ->
  outside_addr (st r) = me /\ helpers (st r) = helpers (st r0) /\ Forall lawful (helpers (st r0)) /\ (forall a, me = Some a -> 0 <= a < 2 ^ 32).
Proof using.
  intros [[] C _ _]. unfold config in C. injection C as E1 E2 E3 E4 E5 E6. unfold me, outside_addr. rewrite <- E2, <- E3. split_and!; try done.
  intros a Ea. unfold v4_of in Ea. destruct gd_addrs0 as [_ Ha]. destruct (addr (outside (st r))); [|done]. by injection Ea as <-.
Qed.

Lemma safe_me : safe (gets outside_addr) (fun a => a = me /\ forall x, a = Some x -> 0 <= x < 2 ^ 32).
Proof using. eapply safe_weaken; [apply safe_gets|]. intros a (r & W & ->). destruct (window_config r W) as (-> & _ & _ & H). done. Qed.

Lemma safe_helpers : safe (gets helpers) (fun hs => Forall lawful hs).
Proof using. eapply safe_weaken; [apply safe_gets|]. intros a (r & W & ->). by destruct (window_config r W) as (_ & -> & H & _). Qed.

Lemma safe_send_ns ns p : safe (send_ns ns p) T.
Proof using. unfold send_ns. bind. destruct (_ || _); [by apply safe_send|by apply safe_ret]. Qed.

(** What may go to a side. *)
Definition fit (to : Side) (p : list Z) : Prop := match to with Outside => exists a, me = Some a /\ bytes_ok p /\ from a p | Inside _ => True end.

Lemma safe_deliver to p : fit to p -> safe (deliver to p) T.
Proof using. destruct to as [|ns]; cbn; [intros (a & Ha & _ & Hf)|intros _; apply safe_send_ns]. apply safe_send. by exists a. Qed.

Lemma safe_emit out fmax to : fit to out -> safe (emit out fmax to) T.
Proof using.
  intros Hf. unfold emit. destruct (fmax ≫= _) as [parts|] eqn:E; [|by apply safe_deliver]. apply safe_each. intros f Hin.
  destruct to as [|ns]; [|apply safe_send_ns]. destruct Hf as (a & Ha & Hb & Hf). destruct fmax as [m|]; [|done]. cbn in E.
  pose proof (refragment_from m out parts a Hb Hf E) as F. rewrite list.Forall_forall in F. apply safe_send. exists a. split; [done|by apply F].
Qed.

Lemma safe_time_exceeded p a to : bytes_ok p -> 0 <= a < 2 ^ 32 -> (to = Outside -> me = Some a) -> safe (time_exceeded env p a to) T.
Proof using.
  intros Hb Ha Ht. unfold time_exceeded. destruct (Icmp.time_exceeded p (V4 a)) as [err|] eqn:E; [|by apply safe_ret].
  bind. destruct a0; [|by apply safe_ret]. apply safe_deliver. destruct (time_exceeded_from p a err Hb Ha E) as [B F].
  destruct to; [|done]. exists a. split; [by apply Ht|done].
Qed.

Lemma safe_time_exceeded_outside p : bytes_ok p -> safe (time_exceeded_outside env p) T.
Proof using.
  intros Hb. unfold time_exceeded_outside. eapply safe_bind; [apply safe_me|]. intros [a|] [Ha Hr]; [|by apply safe_ret]. apply safe_time_exceeded; naive_solver.
Qed.

(** *** Helpers and sweeping *)

Lemma safe_wake t : safe (wake_helpers_at t) T.
Proof using. apply safe_modify. intros n G _. destruct G. destruct (helper_timer n) as [x|]; [destruct (t <? x)|]; (split_and!; [by split|done|done]). Qed.

Lemma safe_run_local {A} (f : nat -> NatInner -> LocalOut * A) : (forall c n, rtc nat_step n (lo_inner (f c n).1)) -> safe (run_local f) T.
Proof using.
  intros Hf. unfold run_local. bind. eapply safe_bind; [apply (safe_locked _ _ _ T)|].
  { intros n _. pose proof (Hf a n). by destruct (f a n) as [o x]. }
  intros [o x] _. eapply safe_bind; [apply safe_each; intros [ns p] _; apply safe_send_ns|]. intros _ _.
  eapply safe_bind; [apply safe_each; intros; apply safe_wake|]. intros _ _. by apply safe_ret.
Qed.

Lemma safe_handle_local ns p : safe (handle_local ns p) T.
Proof using.
  unfold handle_local. eapply safe_bind; [apply safe_helpers|]. intros hs Hl. induction hs as [|h hs IH]; cbn [try_local]; [by apply safe_ret|].
  apply list.Forall_cons in Hl as [Hh Hl]. destruct h as [h|h]; [by apply IH|].
  eapply safe_bind; [apply safe_run_local; intros; apply Hh|]. intros [] _; [by apply safe_ret|by apply IH].
Qed.

Lemma safe_tick t : safe (tick_helpers_at t) T.
Proof using.
  unfold tick_helpers_at. bind. destruct a; [|by apply safe_ret].
  eapply safe_bind; [apply safe_modify; intros n G _; destruct G; split_and!; [by split|done|done]|]. intros _ _.
  eapply safe_bind; [apply safe_helpers|]. intros hs Hl. induction hs as [|h hs IH]; cbn [tick_each]; [by apply safe_ret|].
  apply list.Forall_cons in Hl as [Hh Hl]. destruct h as [h|h]; [by apply IH|].
  eapply safe_bind; [apply safe_run_local; intros; apply Hh|]. intros next _.
  eapply safe_bind; [|intros _ _; by apply IH]. destruct next; [apply safe_wake|by apply safe_ret].
Qed.

Lemma expired_held {K V} `{Countable K} (t : @FragTable.Table K V _ _) now k e :
  FragTable.map (FragTable.expire t now) !! k = Some e -> FragTable.map t !! k = Some e.
Proof using. intros E. by apply map_lookup_filter_Some in E as [E _]. Qed.

Lemma safe_sweep_at t : safe (sweep_at env t) T.
Proof using env_good.
  unfold sweep_at. eapply safe_bind; [apply (safe_locked _ _ _ T); intros n _; split; [apply rtc_once, do_sweep|done]|]. intros _ _.
  eapply safe_bind; [apply safe_modify; intros n G _; destruct G; split_and!; [split; cbn; try done; by apply FragTable.expire_inv|done|done]|]. intros _ _.
  eapply safe_bind; [apply safe_modify; intros n G _; destruct G; split_and!; [split; cbn; try done; [by apply FragTable.expire_inv|]|done|done]|].
  { intros k e f E. by apply (gd_held0 k), (expired_held _ t). }
  intros _ _. eapply safe_bind; [apply safe_gets|]. intros d (r & W & Ed). destruct d as [d|]; [|by apply safe_ret]. bind. bind.
  apply safe_modify. intros n G _. destruct (gd_defrag _ _ (wd_good _ _ _ W) d (eq_sym Ed)) as [D1 D2]. destruct G. split_and!; [|done|done]. split; cbn; try done.
  intros d' [= <-]. cbn. split; by apply sweep_defrag_ok; [apply env_good|].
Qed.

Lemma safe_maybe_sweep : safe (maybe_sweep env) T.
Proof using env_good.
  unfold maybe_sweep. bind. eapply safe_bind; [apply safe_tick|]. intros _ _. bind. destruct (_ <? _); [by apply safe_ret|].
  eapply safe_bind; [|intros _ _; apply safe_sweep_at]. apply safe_modify. intros n G _. destruct G. split_and!; [by split|done|done].
Qed.

Lemma safe_defragment out zone p :
  bytes_ok p -> safe (defragment env out zone p) (fun r => forall q mm, r = Some (q, mm) -> bytes_ok q).
Proof using env_good.
  intros Hb. unfold defragment. eapply safe_bind; [apply safe_gets|]. intros d (r & W & Ed). destruct d as [d|]; [|apply safe_ret; naive_solver]. bind.
  destruct (gd_defrag _ _ (wd_good _ _ _ W) d (eq_sym Ed)) as [D1 D2]. destruct env_good as [E1 E2].
  pose proof (reassemble_ok (frag_order env) (frag_size env) E1 E2 (if out then outbound_defrag d else inbound_defrag d) a zone p ltac:(by destruct out) Hb) as K.
  destruct (NatDefrag.reassemble _ _ _ _ _ _) as [x o]. destruct K as [K1 K2].
  eapply safe_bind; [|intros _ _; by apply safe_ret]. apply safe_modify. intros n G _. destruct G. split_and!; [|done|done]. split; cbn; try done.
  intros d' [= <-]. by destruct out.
Qed.
(** *** Inbound *)

(** Header length, protocol and addresses as they were. *)
Definition kept (p q : list Z) (ihl : Z) : Prop := datagram q ihl /\ q.[9] = p.[9] /\ forall i, 12 <= i < 20 -> q.[i] = p.[i].

Lemma kept_refl p ihl : datagram p ihl -> kept p p ihl.
Proof using. by intros. Qed.

Lemma kept_trans p q x ihl : kept p q ihl -> kept q x ihl -> kept p x ihl.
Proof using. intros (H1 & H2 & H3) (K1 & K2 & K3). split_and!; [done|congruence|]. intros i Hi. rewrite K3, H3; done. Qed.

Lemma safe_seq_fixup k peer o before out ihl :
  safe (tcp_seq_fixup k peer o before out ihl) (fun q => datagram out ihl -> out.[9] = PROTO_TCP -> kept out q ihl).
Proof using.
  unfold tcp_seq_fixup. destruct before as [b|]; [|apply safe_ret; intros; by apply kept_refl].
  destruct (tcp_payload_len out ihl) as [x|] eqn:Ex; [|apply safe_ret; intros; by apply kept_refl]. bind.
  destruct (_ && _); [apply safe_ret; intros; by apply kept_refl|]. eapply safe_bind; [apply (safe_locked _ _ _ T)|].
  { intros n _. pose proof (do_fixup n k peer o (read32 out (ihl + 4)) (x - b)) as S. destruct (seq_fixup n k peer o _ _) as [n' adj]. by split; [apply rtc_once|]. }
  intros [found adj] _. eapply (safe_bind _ _ _ _ T).
  { destruct (found && _); [|by apply safe_ret]. apply safe_modify. intros n G _. destruct G. split_and!; [by split|done|done]. }
  intros _ _. apply safe_ret. intros Hd Ht. destruct adj as [[this other]|]; [|by apply kept_refl].
  destruct (adjust_tcp_seq_keeps out ihl this other x Hd Ht Ex) as [S1 S2 S3 _ _ _]. pose proof (dg_header out ihl Hd). split_and!; [done|apply S3; lia|]. intros i Hi. apply S3. lia.
Qed.

Lemma safe_helper_outbound p m proto port : safe (helper_outbound p m proto port) (fun q => forall ihl, datagram p ihl -> kept p q ihl).
Proof using.
  unfold helper_outbound. eapply safe_bind; [apply safe_helpers|]. intros hs Hl. revert p. induction hs as [|h hs IH]; intros p; cbn [run_helpers].
  { apply safe_ret. intros. by apply kept_refl. }
  apply list.Forall_cons in Hl as [Hh Hl]. destruct h as [h|h]; [|by apply IH]. destruct (match_outbound h proto port); [|by apply IH]. bind.
  eapply safe_bind; [apply (safe_locked _ _ _ (fun q => forall ihl, datagram p ihl -> kept p q ihl))|].
  { intros n _. split; [apply Hh|]. intros ihl Hd. by apply (pk_out h Hh). }
  intros q Hq. eapply safe_weaken; [by apply IH|]. intros x Hx ihl Hd. eapply kept_trans; [by apply Hq|]. apply Hx. by apply Hq.
Qed.

Lemma safe_helper_inbound p m proto port : safe (helper_inbound p m proto port) T.
Proof using.
  unfold helper_inbound. eapply safe_bind; [apply safe_helpers|]. intros hs Hl. revert p. induction hs as [|h hs IH]; intros p; cbn [run_helpers]; [by apply safe_ret|].
  apply list.Forall_cons in Hl as [Hh Hl]. destruct h as [h|h]; [|by apply IH]. destruct (match_outbound h proto port); [|by apply IH]. bind.
  eapply safe_bind; [apply (safe_locked _ _ _ T); intros n _; split; [apply Hh|done]|]. intros q _. by apply IH.
Qed.

Lemma w16_port p i : bytes_ok p -> port_ok (w16 p i).
Proof using. intros Hb. unfold port_ok, w16. pose proof (of_be16_bound p.[i] p.[i + 1] ltac:(bok) ltac:(bok)). change PORTS with 65536. lia. Qed.

Lemma safe_inbound_tcpudp p ihl whole fmax : bytes_ok p -> safe (inbound_tcpudp env p ihl p.[9] whole fmax) T.
Proof using.
  intros Hb. unfold inbound_tcpudp. destruct (_ && _); [by apply safe_ret|]. destruct (_ <=? 1).
  { bind. bind. eapply (safe_bind _ _ _ _ T); [|intros _ _; by apply safe_ret]. destruct a0; [by apply safe_time_exceeded_outside|by apply safe_ret]. }
  bind. bind. bind. bind. eapply safe_bind; [apply (safe_locked _ _ _ T)|].
  { intros n I. pose proof (inbound_locked_spec n (mkNatRevKey p.[9] (w16 p (ihl + 2))) (ip_at p 12, w16 p ihl) (tcp_flags p ihl p.[9]) a a0 a1 a2 I) as K.
    destruct (inbound_locked _ _ _ _ _ _ _ n) as [n' o]. split; [|done]. apply K; [|by apply w16_port]. assert (byte_ok p.[9]) as H9 by bok. exact H9. }
  intros [[k tracked]|] _; [|by apply safe_ret]. eapply (safe_bind _ _ _ _ T); [destruct whole; [apply safe_helper_inbound|by apply safe_ret]|]. intros q _.
  set (q' := match untracked_original _ _ _ _ with Some _ => _ | None => _ end). eapply (safe_bind _ _ _ _ T).
  { destruct (p.[9] =? PROTO_TCP); [|by apply safe_ret]. eapply safe_weaken; [apply safe_seq_fixup|done]. }
  intros x _. eapply safe_bind; [by apply safe_emit|]. intros _ _. by apply safe_ret.
Qed.

Lemma safe_inbound_icmp_error p ihl fmax : safe (inbound_icmp_error p ihl fmax) T.
Proof using.
  unfold inbound_icmp_error. destruct (_ <=? 1); [by apply safe_ret|]. destruct (emb_header p ihl) as [[eo eihl]|]; [|by apply safe_ret].
  destruct (quoted_session p eo eihl) as [[port remote]|]; [|by apply safe_ret]. bind. destruct (negb _); [by apply safe_ret|].
  destruct (reverse (inner a) !! _) as [k|]; [|by apply safe_ret]. destruct (match mappings (inner a) !! k with Some _ => _ | None => _ end); [by apply safe_emit|by apply safe_ret].
Qed.

Lemma safe_inbound_echo_reply p ihl fmax : bytes_ok p -> safe (inbound_echo_reply env p ihl fmax) T.
Proof using.
  intros Hb. unfold inbound_echo_reply. bind. destruct a as [k|]; [|by apply safe_ret]. destruct (_ <=? 1).
  { eapply safe_bind; [by apply safe_time_exceeded_outside|]. intros _ _. by apply safe_ret. }
  bind. eapply safe_bind; [apply (safe_locked _ _ _ T); intros n _; split; [apply rtc_once, do_inbound|done]|]. intros _ _.
  eapply safe_bind; [by apply safe_emit|]. intros _ _. by apply safe_ret.
Qed.

Lemma safe_inbound_icmp p ihl whole fmax a :
  datagram p ihl -> ihl + 8 <= zlen p -> me = Some a -> is_to p a = true -> safe (inbound_icmp env p ihl whole fmax) T.
Proof using.
  intros Hd Hl Ha Ht. unfold inbound_icmp. pose proof (dg_ok p ihl Hd). destruct (_ =? 0); [by apply safe_inbound_echo_reply|].
  destruct (_ && whole); [eapply safe_bind; [apply safe_inbound_icmp_error|intros _ _; by apply safe_ret]|].
  destruct (_ && whole); [|by apply safe_ret]. destruct (echo_reply p ihl) as [r|] eqn:Er; [|by apply safe_ret]. bind.
  eapply (safe_bind _ _ _ _ T); [|intros _ _; by apply safe_ret]. destruct a0; [|by apply safe_ret]. apply safe_emit. exists a. split; [done|]. by eapply echo_reply_from.
Qed.

Lemma safe_put_frags tbl : FragTable.table_inv tbl -> safe (modify (fun n => with_frags n tbl)) T.
Proof using. intros Ht. apply safe_modify. intros n G _. destruct G. split_and!; [by split|done|done]. Qed.

Lemma safe_inbound p fmax : bytes_ok p -> safe (inbound env p fmax) T.
Proof using.
  intros Hb. unfold inbound. destruct (ipv4_datagram p) as [[q ihl]|] eqn:Ed; [|by apply safe_ret]. destruct (ipv4_datagram_spec p q ihl Hb Ed) as [Hd _].
  pose proof (dg_ok q ihl Hd) as Hq. eapply safe_bind; [apply safe_me|]. intros a [Ha _]. destruct a as [a|]; [|by apply safe_ret].
  destruct (is_to q a) eqn:Et; [|by apply safe_ret]. cbn [negb]. destruct (frag_info q) as [more offset]. destruct (negb (offset =? 0)).
  - destruct (_ <=? 1); [by apply safe_ret|]. bind. eapply safe_bind; [apply safe_gets|]. intros tbl (r & W & ->).
    pose proof (FragTable.later_inv (frags (st r)) (NatRewrite.frag_key q) q a0 (gd_frags _ _ (wd_good _ _ _ W))) as J.
    destruct (FragTable.later _ _ _ _) as [tbl target]. eapply safe_bind; [by apply safe_put_frags|]. intros _ _.
    destruct target; [apply safe_send_ns|by apply safe_ret].
  - eapply (safe_bind _ _ _ _ T).
    { destruct (_ && _); [by apply safe_inbound_tcpudp|]. destruct (_ && (_ <=? _)) eqn:E8; [|by apply safe_ret]. apply andb_prop in E8 as [_ E8]. eapply safe_inbound_icmp; (done || lia). }
    intros [target|] _; [|by apply safe_ret]. destruct (negb more); [by apply safe_ret|]. bind. eapply safe_bind; [apply safe_gets|]. intros tbl (r & W & ->).
    pose proof (FragTable.resolve_inv (frags (st r)) (NatRewrite.frag_key q) target a0 (gd_frags _ _ (wd_good _ _ _ W))) as J.
    destruct (FragTable.resolve _ _ _ _) as [tbl held]. eapply safe_bind; [by apply safe_put_frags|]. intros _ _. apply safe_each. intros f _. apply safe_send_ns.
Qed.

Lemma safe_handle_inbound p : bytes_ok p -> safe (handle_inbound env p) T.
Proof using env_good.
  intros Hb. unfold handle_inbound. eapply safe_bind; [apply safe_maybe_sweep|]. intros _ _. bind. destruct (negb _); [by apply safe_ret|].
  eapply safe_bind; [by apply safe_defragment|]. intros [[q mm]|] Hq; [|by apply safe_ret]. apply safe_inbound. by eapply Hq.
Qed.
(** *** Outbound *)

Lemma from_hop a p : 20 <= zlen p -> from a p -> from a (spend_hop p).
Proof using. intros Hl. destruct (spend_hop_outer p Hl) as [Z H]. apply from_bytes; [done|lia|]. intros i Hi. apply H. lia. Qed.

Lemma safe_outbound_later p : bytes_ok p -> 20 <= zlen p -> safe (outbound_later_fragment env p) T.
Proof using.
  intros Hb Hl. unfold outbound_later_fragment. eapply safe_bind; [apply safe_me|]. intros [a|] [Ha _]; [|by apply safe_ret].
  destruct (later_out_facts p a Hb Hl) as (Q1 & Q2 & Q3). destruct (is_to _ a); [by apply safe_inbound|]. apply safe_send. exists a. split; [done|]. apply from_hop; [lia|done].
Qed.

Lemma octets_ip_at p i : bytes_ok p -> 0 <= i -> i + 4 <= zlen p -> octets (V4 (ip_at p i)) = slice p i (i + 4).
Proof using.
  intros Hb Hi Hl. cbn [octets]. unfold ip_at. assert (length (slice p i (i + 4)) = 4%nat) as L.
  { pose proof (zlen_slice p i (i + 4)) as Hz. unfold zlen at 1 in Hz. lia. }
  rewrite <- L at 1. apply be_bytes_of_be_bytes. bok.
Qed.

Lemma port_range x : port_ok x -> 0 <= x <= 65535.
Proof using. unfold port_ok. change PORTS with 65536. lia. Qed.

(** The datagram as it leaves, from the public address. *)
Lemma fit_kept a p q ihl : me = Some a -> from a p -> datagram p ihl -> kept p q ihl -> fit Outside (spend_hop q).
Proof using.
  intros Ha Hf Hp (Hd & _ & Hk). pose proof (dg_header q ihl Hd). pose proof (dg_header p ihl Hp). exists a. split; [done|].
  split; [apply spend_hop_bytes; [by apply (dg_ok q ihl)|lia]|]. apply from_hop; [lia|]. eapply (from_bytes a p q); [lia|lia| |done]. intros i Hi. apply Hk. lia.
Qed.

Lemma safe_outbound_tcpudp ns p ihl whole fmax :
  datagram p ihl -> p.[9] = PROTO_TCP \/ p.[9] = PROTO_UDP -> ihl + 4 <= zlen p -> safe (outbound_tcpudp env ns p ihl p.[9] whole fmax) T.
Proof using.
  intros Hd Hpr Hl. pose proof (dg_ok p ihl Hd) as Hb. unfold outbound_tcpudp. destruct (_ && _); [by apply safe_ret|]. bind. bind. bind.
  eapply safe_bind; [apply (safe_locked _ _ _ (fun o => forall port key tracked, o = Some (port, key, tracked) -> port_ok port))|].
  { intros n I. set (k := mkNatKey _ _ _ _). set (peer := (_, _)). pose proof (outbound_locked_spec n k (for_peer peer) peer (tcp_flags p ihl p.[9]) a a0 a1 I) as K.
    destruct (outbound_locked k _ peer _ a a0 a1 n) as [n' o]. destruct K as [K1 K2]; [cbn; assert (byte_ok p.[9]) as H9 by bok; exact H9|by apply w16_port|].
    split; [done|]. intros port key tr E. by apply (K2 port key tr). }
  intros [[[port key] tracked]|] Hport; [|by apply safe_ret]. specialize (Hport port key tracked eq_refl).
  eapply safe_bind; [apply safe_me|]. intros [x|] [Hx _]; [|by apply safe_ret].
  pose proof (endpoint_rewritten p ihl 12 0 (octets (V4 x)) port Hd ltac:(by left) ltac:(by left) Hpr Hl (bytes_ok_octets _) (zlen_octets _) (port_range _ Hport)) as RW.
  set (out := rewrite_src p ihl p.[9] (octets (V4 x)) port). assert (out = rewrite_at p ihl p.[9] 12 0 (octets (V4 x)) port) as Eo by (unfold out, rewrite_src, rewrite_at; by rewrite !Z.add_0_r).
  rewrite <- Eo in RW. pose proof (rw_datagram _ _ _ _ _ _ _ _ _ RW) as Ho. pose proof (rw_addr _ _ _ _ _ _ _ _ _ RW) as Hf. change (12 + 4) with 16 in Hf.
  pose proof (dg_header p ihl Hd) as Hh. assert (out.[9] = p.[9]) as H9 by (apply (rw_rest _ _ _ _ _ _ _ _ _ RW); first [lia|unfold csum_field; case_if; lia]).
  clearbody out. eapply (safe_bind _ _ _ _ (fun q => kept out q ihl)).
  { destruct whole; [|apply safe_ret; by apply kept_refl]. eapply safe_weaken; [apply safe_helper_outbound|]. intros q Hq. by apply Hq. }
  intros q Hq. set (q' := match untracked_original _ _ _ _ with Some _ => _ | None => _ end).
  assert (kept out q' ihl) as Hq'. { unfold q', untracked_original. destruct (_ && _ && _); [|done]. case_bool_decide; [done|by apply kept_refl]. }
  clearbody q'. eapply (safe_bind _ _ _ _ (fun x => kept out x ihl)).
  { destruct (p.[9] =? PROTO_TCP) eqn:Et; [|by apply safe_ret]. bool2prop. eapply safe_weaken; [apply safe_seq_fixup|]. intros y Hy.
    eapply kept_trans; [done|]. destruct Hq' as (K1 & K2 & _). apply Hy; [done|congruence]. }
  intros y Hy. destruct (is_to y x).
  - eapply safe_bind; [apply safe_inbound; by apply (dg_ok y ihl), Hy|]. intros _ _. by apply safe_ret.
  - eapply safe_bind; [apply safe_emit; by apply (fit_kept x out y ihl)|]. intros _ _. by apply safe_ret.
Qed.

Lemma side_port n k m sel : nat_inv none_inflight n -> mappings n !! k = Some m -> port_ok (outside_port (side sel m)).
Proof using.
  intros I E. destruct (ni_maps _ _ I k m E) as [Hok _]. unfold side, on_alias. destruct (alias m) as [a|] eqn:Ea; cbn; [|apply Hok].
  destruct (sel a); cbn; [|apply Hok]. by destruct (mo_alias _ _ Hok a Ea) as (_ & _ & ? & _).
Qed.

Lemma safe_outbound_icmp_error ns p ihl : datagram p ihl -> p.[9] = PROTO_ICMP -> safe (outbound_icmp_error env ns p ihl) T.
Proof using.
  intros Hd Hpr. pose proof (dg_ok p ihl Hd) as Hb. unfold outbound_icmp_error. destruct (emb_header p ihl) as [[eo eihl]|] eqn:Ee; [|by apply safe_ret].
  destruct (emb_bounds p ihl eo eihl Ee) as (-> & E2 & E3). pose proof (dg_header p ihl Hd) as Hh.
  destruct (negb _); [by apply safe_ret|]. destruct (negb _); [by apply safe_ret|]. set (remote := (_, _)). set (k := mkNatKey _ _ _ _).
  eapply safe_bind; [apply safe_gets|]. intros n (r & W & ->). unfold id.
  destruct (mappings (inner (st r)) !! k) as [m|] eqn:Em; [|by apply safe_ret]. cbn [fmap option_fmap option_map mbind option_bind].
  destruct (contains _ remote); [|by apply safe_ret]. destruct (window_config r W) as (Eme & _). rewrite Eme. destruct me as [a|] eqn:Ha; [|by apply safe_ret].
  pose proof (side_port _ k m (for_peer remote) (gd_inner _ _ (wd_good _ _ _ W)) Em) as Hport. set (port := outside_port _) in *.
  assert (octets (V4 (nk_ip k)) = slice p (ihl + 8 + 16) (ihl + 8 + 20)) as Ek by (unfold k; cbn [nk_ip]; rewrite octets_ip_at by (done || lia); f_equal; lia).
  rewrite Ek. pose proof (error_out_rewritten p ihl (ihl + 8) eihl (octets (V4 a)) (nk_port k) port Hd Hpr Ee (bytes_ok_octets _) (zlen_octets _)
    (port_range _ (w16_port p _ Hb)) (port_range _ Hport) p.[ihl + 8 + 9]) as RW.
  set (out := rewrite_error_out _ _ _ _ _ _ _ _) in *. clearbody out. pose proof (er_datagram _ _ _ _ _ _ _ _ _ RW) as Ho.
  destruct (is_to out a); [apply safe_inbound; by apply (dg_ok out ihl)|].
  destruct (fit_kept a out out ihl) as (a' & Ha' & _ & Hf); [done|exact (er_outer _ _ _ _ _ _ _ _ _ RW)|done|by apply kept_refl|].
  apply safe_send. exists a'. done.
Qed.

Lemma safe_outbound_echo ns p ihl a fmax :
  datagram p ihl -> p.[9] = PROTO_ICMP -> p.[ihl] = 8 -> ihl + 8 <= zlen p -> me = Some a -> safe (outbound_echo env ns p ihl a fmax) T.
Proof using.
  intros Hd Hpr Ht Hl Ha. pose proof (dg_ok p ihl Hd) as Hb. unfold outbound_echo. bind. bind. bind.
  eapply safe_bind; [apply (safe_locked _ _ _ (fun o => forall port key tracked, o = Some (port, key, tracked) -> port_ok port))|].
  { intros n I. set (k := mkNatKey _ _ _ _). pose proof (outbound_locked_spec n k (fun _ => false) (ip_at p 16, 0) None a0 a1 a2 I) as K.
    destruct (outbound_locked k _ _ _ a0 a1 a2 n) as [n' o]. destruct K as [K1 K2]; [done|by apply w16_port|]. split; [done|]. intros port key tr E. by apply (K2 port key tr). }
  intros [[[port key] tracked]|] Hport; [|by apply safe_ret]. specialize (Hport port key tracked eq_refl). eapply safe_bind; [|intros _ _; by apply safe_ret].
  apply safe_emit. pose proof (dg_header p ihl Hd) as Hh.
  pose proof (echo_rewritten p ihl 12 (octets (V4 a)) port Hd ltac:(by left) Hpr Hl (bytes_ok_octets _) (zlen_octets _) (port_range _ Hport) ltac:(left; lia)) as RW.
  pose proof (byte_at_ok p 8 Hb) as H8. unfold byte_ok in H8. pose proof (rewritten_then_hop _ _ _ _ _ _ _ _ RW ltac:(by left) ltac:(lia) ltac:(lia)) as RW'.
  change (rewrite_echo_out p ihl (octets (V4 a)) port) with (spend_hop (rewrite_echo_at p ihl 12 (octets (V4 a)) port)). exists a.
  split; [done|]. split; [exact (dg_ok _ _ (rw_datagram _ _ _ _ _ _ _ _ _ RW'))|exact (rw_addr _ _ _ _ _ _ _ _ _ RW')].
Qed.

Lemma safe_outbound_icmp ns p ihl whole fmax :
  datagram p ihl -> p.[9] = PROTO_ICMP -> ihl + 8 <= zlen p -> safe (outbound_icmp env ns p ihl whole fmax) T.
Proof using.
  intros Hd Hpr Hl. unfold outbound_icmp. destruct (p.[ihl] =? 8) eqn:E8; bool2prop.
  - eapply safe_bind; [apply safe_me|]. intros [a|] [Ha _]; [|by apply safe_ret]. destruct (is_to p a) eqn:Et; [|by apply safe_outbound_echo].
    destruct (if whole then echo_reply p ihl else None); [|by apply safe_ret]. eapply safe_bind; [by apply safe_emit|]. intros _ _. by apply safe_ret.
  - destruct (_ && whole); [|by apply safe_ret]. eapply safe_bind; [by apply safe_outbound_icmp_error|]. intros _ _. by apply safe_ret.
Qed.

(** Fragments held for their first one. *)
Definition held_ok (tbl : OutTable) : Prop :=
  FragTable.table_inv tbl /\ forall k e f, FragTable.map tbl !! k = Some e -> f ∈ FragTable.held e -> bytes_ok f /\ 20 <= zlen f.

Lemma safe_put_out_frags tbl : held_ok tbl -> safe (modify (fun n => with_out_frags n tbl)) T.
Proof using. intros [Ht Hh]. apply safe_modify. intros n G _. destruct G. split_and!; [by split|done|done]. Qed.

Lemma later_held tbl key p t : held_ok tbl -> bytes_ok p -> 20 <= zlen p -> held_ok (FragTable.later tbl key p t).1.
Proof using.
  intros [Ht Hh] Hb Hl. split; [by apply FragTable.later_inv|]. unfold FragTable.later.
  assert (forall k e f, FragTable.map (FragTable.expire tbl t) !! k = Some e -> f ∈ FragTable.held e -> bytes_ok f /\ 20 <= zlen f) as Hh'
    by (intros k e f E; apply (Hh k), (expired_held _ t); done).
  destruct (_ ≫= _); [done|]. destruct (_ || _); [done|]. cbn [fst FragTable.map]. intros k e f. rewrite lookup_insert_Some. intros [[<- <-]|[_ E]]; [|by apply (Hh' k)].
  destruct (FragTable.map (FragTable.expire tbl t) !! key) as [e|] eqn:E; cbn; rewrite ?elem_of_app, list_elem_of_singleton; [|by intros ->].
  intros [Hf| ->]; [by apply (Hh' key e)|done].
Qed.

Lemma resolve_held tbl key t : held_ok tbl ->
  let '(tbl', held) := FragTable.resolve tbl key () t in held_ok tbl' /\ forall f, f ∈ held -> bytes_ok f /\ 20 <= zlen f.
Proof using.
  intros [Ht Hh]. pose proof (FragTable.resolve_inv tbl key () t Ht) as Ht'. unfold FragTable.resolve in *.
  assert (forall k e f, FragTable.map (FragTable.expire tbl t) !! k = Some e -> f ∈ FragTable.held e -> bytes_ok f /\ 20 <= zlen f) as Hh'
    by (intros k e f E; apply (Hh k), (expired_held _ t); done).
  destruct (FragTable.map (FragTable.expire tbl t) !! key) as [e|] eqn:E; [|destruct (_ <? _)]; cbn [fst] in Ht'.
  - split; [split; [done|]|intros f; by apply (Hh' key)]. cbn. intros k e' f. rewrite lookup_insert_Some. intros [[<- <-]|[_ E']]; [cbn; by intros ?%not_elem_of_nil|by apply (Hh' k)].
  - split; [split; [done|]|by intros f ?%not_elem_of_nil]. cbn. intros k e' f. rewrite lookup_insert_Some. intros [[<- <-]|[_ E']]; [cbn; by intros ?%not_elem_of_nil|by apply (Hh' k)].
  - split; [by split|by intros f ?%not_elem_of_nil].
Qed.

Lemma safe_outbound ns p ihl fmax : datagram p ihl -> safe (outbound env ns p ihl fmax) T.
Proof using.
  intros Hd. pose proof (dg_ok p ihl Hd) as Hb. pose proof (dg_header p ihl Hd) as Hh. unfold outbound. destruct (frag_info p) as [more offset]. destruct (negb (offset =? 0)).
  - bind. eapply safe_bind; [apply safe_gets|]. intros tbl (r & W & ->). destruct (wd_good _ _ _ W) as [_ _ _ _ G1 G2 _].
    pose proof (later_held (out_frags (st r)) (out_frag_key ns p) p a (conj G1 G2) Hb ltac:(lia)) as J. destruct (FragTable.later _ _ _ _) as [tbl ok].
    eapply safe_bind; [by apply safe_put_out_frags|]. intros _ _. destruct ok; [apply safe_outbound_later; (done || lia)|by apply safe_ret].
  - eapply (safe_bind _ _ _ _ T).
    { destruct (_ && (ihl + 4 <=? _)) eqn:E4.
      - apply andb_prop in E4 as [E4 E5]. apply orb_prop in E4. rewrite !Z.eqb_eq in E4. apply safe_outbound_tcpudp; (done || lia).
      - destruct (_ && (ihl + 8 <=? _)) eqn:E8; [|by apply safe_ret]. apply andb_prop in E8 as [E8 E9]. apply safe_outbound_icmp; (done || lia). }
    intros translated _. destruct (_ && translated); [|by apply safe_ret]. bind. eapply safe_bind; [apply safe_gets|]. intros tbl (r & W & ->).
    destruct (wd_good _ _ _ W) as [_ _ _ _ G1 G2 _]. pose proof (resolve_held (out_frags (st r)) (out_frag_key ns p) a (conj G1 G2)) as J.
    destruct (FragTable.resolve _ _ _ _) as [tbl held]. destruct J as [J1 J2]. eapply safe_bind; [by apply safe_put_out_frags|]. intros _ _.
    apply safe_each. intros f Hf. destruct (J2 f Hf). by apply safe_outbound_later.
Qed.

Lemma safe_route_outbound ns p ihl fmax : datagram p ihl -> safe (route_outbound env ns p ihl fmax) T.
Proof using.
  intros Hd. unfold route_outbound. bind. destruct (frag_info p) as [more offset]. eapply (safe_bind _ _ _ _ T).
  { destruct (_ || _); [|by apply safe_ret]. destruct (more || _); [by apply safe_ret|apply safe_handle_local]. }
  intros taken _. destruct (taken || _); [by apply safe_ret|]. destruct (_ || _).
  { unfold answer_ping. destruct (_ && _ && _); [|by apply safe_ret]. destruct (echo_reply p ihl); [by apply safe_emit|by apply safe_ret]. }
  eapply safe_bind; [apply safe_gets|]. intros n (r & W & ->). unfold id. destruct (negb _); [by apply safe_ret|]. destruct (_ && negb _); [|by apply safe_outbound].
  destruct (inside_addr (st r)) as [x|] eqn:Ex; [|by apply safe_ret]. apply safe_time_exceeded; [by apply (dg_ok p ihl)| |done].
  destruct (gd_addrs _ _ (wd_good _ _ _ W)) as [Hi _]. unfold inside_addr, v4_of in Ex. destruct (addr (inside (st r))); [|done]. by injection Ex as <-.
Qed.

Lemma safe_handle_outbound ns p : bytes_ok p -> safe (handle_outbound env ns p) T.
Proof using env_good.
  intros Hb. unfold handle_outbound. eapply safe_bind; [apply safe_maybe_sweep|]. intros _ _. bind. destruct (negb _); [by apply safe_ret|].
  eapply safe_bind; [by apply safe_defragment|]. intros [[q mm]|] Hq; [|by apply safe_ret].
  destruct (ipv4_datagram q) as [[x ihl]|] eqn:Ed; [|by apply safe_ret]. apply safe_route_outbound. by apply (ipv4_datagram_spec q x ihl (Hq q mm eq_refl)) in Ed as [Ed _].
Qed.
End Handlers.
