(* ===== verification/NatPathReach.v ===== *)
(** * Every history of the NAT ([src/src/nat/nat.rs])

    The calls the sides, the owner and the gateways make, in any order
    ([path_step]); what holds of the NAT and of what it sends after any
    history of them. *)

From S2P Require Import Prelude Ip Checksum Packet Build NatPorts NatRewrite NatTrack NatMap NatMapInv NatReach NatFrag NatDefrag NatPath NatPathInv.

Section Calls.
Context (env : Env).

Inductive path_step (r : Run) : Run -> Prop :=
  | on_inside ns p : bytes_ok p -> path_step r (send_inside env ns p r).1
  | on_outside p : bytes_ok p -> path_step r (send_outside env p r).1
  | on_sweep : path_step r (sweep env r).1
  | on_tick : path_step r (tick env r).1
  | on_connect : path_step r (connect_l3 r).1
  | on_disconnect ns : path_step r (disconnect ns r).1
  | on_routes rs : path_step r (set_inside_routes rs r).1
  | on_defrag : path_step r (enable_defrag r).1
  | on_helper h : lawful h -> path_step r (add_helper h r).1
  | on_inside_addr p : addr_ok (addr p) -> path_step r (set_inside_addr p r).1
  | on_outside_addr p : addr_ok (addr p) -> path_step r (set_outside_addr p r).1
  | on_locked n : nat_step (inner (st r)) n -> path_step r (locked (fun _ => (n, ())) r).1.

Definition fresh (i o : IpPrefix) (t0 t1 : Z) : Run := mkRun (Nat_new i o t0 t1) 0 0 0 [].

Definition path_reached (t0 : Z) (r : Run) : Prop :=
  exists i o t1, addr_ok (addr i) /\ addr_ok (addr o) /\ rtc path_step (fresh i o t0 t1) r.

Hypothesis env_good : env_ok env.

Lemma window_refl r : good (frag_size env) (st r) -> window env r r.
Proof using. intros G. split; try done. exists []. by rewrite app_nil_r. Qed.

(** What one call does. *)
Record stepped (r r' : Run) : Prop := {
  sp_good : good (frag_size env) (st r');
  sp_inner : rtc nat_step (inner (st r)) (inner (st r'));
  sp_sent : exists l, sent r' = sent r ++ l /\ Forall (allowed (outside_addr (st r))) l }.

Lemma safe_stepped {A} (m : M A) P r : good (frag_size env) (st r) -> safe env r m P -> stepped r (m r).1.
Proof using. intros G S. destruct (S r (window_refl r G)) as [[W1 _ W2 W3] _]. by split. Qed.

Lemma stay_stepped r : good (frag_size env) (st r) -> stepped r r.
Proof using. intros G. split; [done|done|]. exists []. by rewrite app_nil_r. Qed.

(** A change of the configuration alone. *)
Lemma config_stepped r n : good (frag_size env) (st r) -> good (frag_size env) n -> inner n = inner (st r) -> stepped r (modify (fun _ => n) r).1.
Proof using. intros G G' E. split; cbn; [done|by rewrite E|]. exists []. by rewrite app_nil_r. Qed.

Lemma path_step_stepped r r' : good (frag_size env) (st r) -> path_step r r' -> stepped r r'.
Proof using env_good.
  intros G H. destruct H as [ns p Hb|p Hb| | | |ns|rs| |h Hh|p Hp|p Hp|n Hn].
  - unfold send_inside. destruct (looks_v4 p); [|by apply stay_stepped]. eapply safe_stepped; [done|by apply safe_handle_outbound].
  - unfold send_outside. destruct (looks_v4 p); [|by apply stay_stepped]. eapply safe_stepped; [done|by apply safe_handle_inbound].
  - eapply safe_stepped; [done|]. unfold sweep. bind. eapply safe_bind; [by apply safe_tick|]. intros _ _. by apply safe_sweep_at.
  - eapply safe_stepped; [done|]. unfold tick. bind. by apply safe_tick.
  - apply (config_stepped r (with_sides (st r) (ns_counter (st r) + 1) (ns_sides (st r) ∪ {[ns_counter (st r) + 1]}))); [done| |done]. destruct G. by split.
  - split; cbn; [|by apply rtc_once, do_cleanup|exists []; by rewrite app_nil_r]. destruct G. split; cbn; try done. by apply (nat_step_inv (inner (st r))); [apply do_cleanup|].
  - apply (config_stepped r); [done| |done]. destruct G. by split.
  - apply (config_stepped r); [done| |done]. destruct G. split; cbn; try done. intros d [= <-]. split; apply new_defrag_ok.
  - apply (config_stepped r); [done| |done]. destruct G. split; cbn; try done. apply list.Forall_app. by split; [|constructor].
  - apply (config_stepped r); [done| |done]. destruct G as [? ? [? ?] ? ? ? ?]. by split.
  - apply (config_stepped r); [done| |done]. destruct G as [? ? [? ?] ? ? ? ?]. by split.
  - split; cbn; [|by apply rtc_once|exists []; by rewrite app_nil_r]. destruct G. split; cbn; try done. by apply (nat_step_inv (inner (st r))).
Qed.

Lemma fresh_good i o t0 t1 : addr_ok (addr i) -> addr_ok (addr o) -> good (frag_size env) (st (fresh i o t0 t1)).
Proof using. intros Hi Ho. split; cbn; [apply nat_new_inv|done|done|apply FragTable.empty_inv|apply FragTable.empty_inv|intros k e f; by rewrite lookup_empty|done]. Qed.

Lemma path_reached_good t0 r : path_reached t0 r -> good (frag_size env) (st r) /\ nat_reached t0 (inner (st r)).
Proof using env_good.
  intros (i & o & t1 & Hi & Ho & H). pose proof (fresh_good i o t0 t1 Hi Ho) as G.
  assert (nat_reached t0 (inner (st (fresh i o t0 t1)))) as N by apply rtc_refl. revert G N. induction H as [x|x y z Hs _ IH]; [done|].
  intros G N. destruct (path_step_stepped x y G Hs) as [G' S _]. apply IH; [done|]. unfold nat_reached in *. by etrans.
Qed.
End Calls.

(** C12: Whatever packets arrive from either side, in whatever order, with
    helpers, reassembly and configuration changing in between, all that
    happens to the NAT's tables is a history of operations under its lock, so
    that everything proved of those histories holds of the running NAT.  The
    fragments it holds in each direction stay within 256 datagrams and
    256 KiB, and each reassembler within 256 datagrams and 4 MiB, all
    counted exactly. *)
Theorem nat_path_refines env t0 r :
  env_ok env -> path_reached env t0 r ->
  nat_reached t0 (inner (st r)) /\
  FragTable.held_bytes (frags (st r)) = FragTable.held_in_map (FragTable.map (frags (st r))) /\
  FragTable.held_bytes (frags (st r)) <= FragTable.MAX_HELD_BYTES /\ Z.of_nat (size (FragTable.map (frags (st r)))) <= FragTable.MAX_DATAGRAMS /\
  FragTable.held_bytes (out_frags (st r)) = FragTable.held_in_map (FragTable.map (out_frags (st r))) /\
  FragTable.held_bytes (out_frags (st r)) <= FragTable.MAX_HELD_BYTES /\ Z.of_nat (size (FragTable.map (out_frags (st r)))) <= FragTable.MAX_DATAGRAMS /\
  forall d x, defragger (st r) = Some d -> x = inbound_defrag d \/ x = outbound_defrag d ->
    NatDefrag.held x = NatDefrag.charges (NatDefrag.entries x) /\ NatDefrag.held x <= NatDefrag.DEFRAG_MAX_BYTES /\
    Z.of_nat (size (NatDefrag.entries x)) <= NatDefrag.DEFRAG_MAX_ENTRIES.
Proof.
  intros He Hr. destruct (path_reached_good env He t0 r Hr) as [[_ _ _ [F1 F2 F3 _] [O1 O2 O3 _] _ D] N]. split_and!; try done.
  intros d x Ed Hx. destruct (D d Ed) as [[[[_ A1] A2 A3] _] [[[_ B1] B2 B3] _]]. by destruct Hx as [->| ->].
Qed.

(** C11: No address of an inside host leaks: whatever call is made of the
    NAT after whatever history, every packet it sends outside has the NAT's
    public address as its source: translated datagrams and fragments, ICMP
    errors passed on, its own errors and echo replies, and the pieces a
    datagram is cut into. *)
Theorem nat_egress_public env t0 r r' :
  env_ok env -> path_reached env t0 r -> path_step env r r' ->
  exists l, sent r' = sent r ++ l /\
    forall p, (Outside, p) ∈ l -> exists a, outside_addr (st r) = Some a /\ slice p 12 16 = octets (V4 a).
Proof.
  intros He Hr Hs. destruct (path_reached_good env He t0 r Hr) as [G _]. destruct (path_step_stepped env He r r' G Hs) as [_ _ (l & E & F)].
  exists l. split; [done|]. intros p Hp. rewrite list.Forall_forall in F. exact (F _ Hp).
Qed.

(** ** A history *)

(** A helper that looks at everything and changes nothing. *)
Definition idle_helper : PacketHelper := mkPacketHelper (fun _ _ => true) (fun _ n p _ => (n, p)) (fun _ n p _ => (n, p)).

Lemma idle_lawful : lawful (PacketKind idle_helper).
Proof. split; intros; cbn; [apply rtc_refl|apply rtc_refl|done]. Qed.

Definition demo_env : Env := mkEnv (fun i => Z.of_nat i) (fun _ => true) map_to_list 56.

Lemma demo_env_ok : env_ok demo_env.
Proof. split; [done|cbn; lia]. Qed.

(** 192.168.0.1/24 inside, 203.0.113.1/24 outside; 192.168.0.10:5000 asks
    8.8.8.8:53. *)
Definition lan : IpPrefix := mkPrefix (V4 3232235521) 24.
Definition wan : IpPrefix := mkPrefix (V4 3405803777) 24.
Definition query : list Z := build_ipv4 3232235530 134744072 17 64 (build_udp (V4 3232235530) (V4 134744072) 5000 53 [1; 2; 3]).
Definition demo_run : Run := (add_helper (PacketKind idle_helper) (fresh lan wan 0 0)).1.
Definition demo_asked : Run := (send_inside demo_env 0 query demo_run).1.

Lemma query_ok : bytes_ok query.
Proof. apply bytes_ok_eval. vm_compute. reflexivity. Qed.

Lemma demo_run_reached : path_reached demo_env 0 demo_run.
Proof. exists lan, wan, 0. split; [done|]. split; [done|]. apply rtc_once, on_helper, idle_lawful. Qed.

Lemma demo_asked_reached : path_reached demo_env 0 demo_asked.
Proof. destruct demo_run_reached as (i & o & t1 & Hi & Ho & H). exists i, o, t1. split; [done|]. split; [done|]. eapply rtc_r; [exact H|]. apply on_inside, query_ok. Qed.

Definition asked_packet : list Z :=
  [69; 0; 0; 31; 0; 0; 0; 0; 63; 17; 47; 189; 203; 0; 113; 1; 8; 8; 8; 8; 19; 136; 0; 53; 0; 11; 156; 7; 1; 2; 3].

Lemma nat_path_refines_witness :
  sent demo_asked = [(Outside, asked_packet)] /\ nat_reached 0 (inner (st demo_asked)).
Proof.
  split; [vm_compute; reflexivity|]. destruct (nat_path_refines demo_env 0 demo_asked demo_env_ok demo_asked_reached) as [H _]. exact H.
Defined.

Lemma nat_egress_public_witness :
  sent demo_asked = sent demo_run ++ [(Outside, asked_packet)] /\
  exists a, outside_addr (st demo_run) = Some a /\ slice asked_packet 12 16 = octets (V4 a).
Proof.
  assert (sent demo_asked = sent demo_run ++ [(Outside, asked_packet)]) as E by (vm_compute; reflexivity). split; [exact E|].
  assert (path_step demo_env demo_run demo_asked) as S by (apply on_inside; exact query_ok).
  destruct (nat_egress_public demo_env 0 demo_run demo_asked demo_env_ok demo_run_reached S) as (l & E' & H).
  assert (l = [(Outside, asked_packet)]) as -> by (rewrite E in E'; apply app_inv_head in E'; congruence).
  apply H. apply list_elem_of_here.
Defined.
