(* ===== verification/NatPathFlow.v ===== *)
(** * A packet there and back ([src/src/nat/nat.rs])

    The exact course of a TCP or UDP datagram through the NAT: where an
    inside host's datagram leaves from, that what comes back to that port
    reaches the host, and what it takes for a datagram from outside to be let
    in at all. *)

From S2P Require Import Prelude Ip Checksum Packet Build Ports NatPorts NatRewrite NatTrack NatMap NatMapInv NatExpiry NatCreate NatReach NatFrag NatDefrag NatPath NatPathInv NatPathReach.

Lemma bind_run {A B} (m : M A) (f : A -> M B) r : (m ≫= f) r = f (m r).2 (m r).1.
Proof. unfold mbind, M_bind. by destruct (m r). Qed.

Lemma ret_run {A} (x : A) r : (mret x : M A) r = (r, x).
Proof. done. Qed.

Lemma locked_run {A} (f : NatInner -> NatInner * A) r :
  locked f r = (mkRun (with_inner (st r) (f (inner (st r))).1) (reads r) (asks r) (calls r) (sent r), (f (inner (st r))).2).
Proof. unfold locked. by destruct (f _). Qed.

(** Steps over a statement that has a value at once. *)
Ltac next := rewrite bind_run; cbn [gets now allow call_number modify fst snd st reads asks calls sent].

(** ** A NAT without helpers and reassembly *)

Definition plain (n : Nat) : Prop := helpers n = [] /\ defragger n = None /\ seqadj_used n = false.

(** Nothing but the tables and the clock moved. *)
Record calm (r r' : Run) : Prop := {
  ca_plain : plain (st r');
  ca_config : config (st r') = config (st r);
  ca_sent : sent r' = sent r }.

(** A whole TCP or UDP datagram from a host the NAT serves to one outside. *)
Record goes_out (n : Nat) (pkt p : list Z) (ihl : Z) : Prop := {
  go_bytes : bytes_ok pkt;
  go_datagram : ipv4_datagram pkt = Some (p, ihl);
  go_whole : frag_info p = (false, 0);
  go_proto : p.[9] = PROTO_TCP \/ p.[9] = PROTO_UDP;
  go_ports : ihl + 4 <= zlen p;
  go_hops : 1 < p.[8];
  go_source : inside_source_ok n (ip_at p 12) = true;
  go_remote : v4_is_multicast (ip_at p 16) || Icmp.v4_is_broadcast (ip_at p 16) || is_inside_broadcast n (ip_at p 16) || bool_decide (Some (ip_at p 16) = inside_addr n) = false;
  go_forwardable : forwardable_v4 (ip_at p 16) (outside n) = true;
  go_elsewhere : outside_addr n <> Some (ip_at p 16) }.

(** The inside endpoint and the remote of a datagram going out. *)
Definition out_key (ns : Z) (p : list Z) (ihl : Z) : NatKey := mkNatKey ns p.[9] (ip_at p 12) (w16 p ihl).
Definition out_peer (p : list Z) (ihl : Z) : SocketAddr := (ip_at p 16, w16 p (ihl + 2)).

(** A whole TCP or UDP datagram from outside to the public address. *)
Record comes_in (n : Nat) (pkt p : list Z) (ihl : Z) : Prop := {
  ci_bytes : bytes_ok pkt;
  ci_datagram : ipv4_datagram pkt = Some (p, ihl);
  ci_whole : frag_info p = (false, 0);
  ci_proto : p.[9] = PROTO_TCP \/ p.[9] = PROTO_UDP;
  ci_ports : ihl + 4 <= zlen p;
  ci_hops : 1 < p.[8];
  ci_source : outside_source_ok n (ip_at p 12) = true;
  ci_here : outside_addr n = Some (ip_at p 16) }.

Section Flow.
Context (env : Env).

Lemma tick_plain t r : plain (st r) -> calm r (tick_helpers_at t r).1 /\ inner (st (tick_helpers_at t r).1) = inner (st r) /\
  next_sweep (st (tick_helpers_at t r).1) = next_sweep (st r) /\ reads (tick_helpers_at t r).1 = reads r.
Proof.
  intros (H1 & H2 & H3). unfold tick_helpers_at. next. destruct (match helper_timer (st r) with Some x => x <=? t | None => false end); [|done].
  next. next. cbn [with_timer helpers]. rewrite H1. done.
Qed.

Lemma maybe_sweep_plain r : plain (st r) ->
  let r' := (maybe_sweep env r).1 in
  calm r r' /\ reads r' = S (reads r) /\ (inner (st r') = inner (st r) \/ inner (st r') = expire_locked (inner (st r)) None (clk env (reads r))).
Proof.
  intros P. unfold maybe_sweep. next. set (r1 := mkRun (st r) _ _ _ _). rewrite bind_run. destruct (tick_plain (clk env (reads r)) r1 P) as ([P2 C2 S2] & I2 & N2 & R2).
  set (r2 := (tick_helpers_at _ r1).1) in *. clearbody r2. next. destruct (_ <? _) eqn:E.
  - rewrite ret_run. split_and!; [done|done|by left].
  - next. unfold sweep_at. rewrite bind_run, locked_run. cbn [fst snd]. next. next. next.
    destruct P2 as (Q1 & Q2 & Q3). cbn [defragger with_sweep with_inner with_frags with_out_frags]. rewrite Q2. rewrite ret_run. split_and!; [split; cbn; [done|exact C2|exact S2]|exact R2|].
    right. cbn. by rewrite I2.
Qed.

Lemma config_addrs n n' : config n' = config n -> outside_addr n' = outside_addr n /\ inside_addr n' = inside_addr n /\ outside n' = outside n /\
  (forall ip, inside_source_ok n' ip = inside_source_ok n ip) /\ (forall ip, outside_source_ok n' ip = outside_source_ok n ip) /\
  (forall ip, is_inside_broadcast n' ip = is_inside_broadcast n ip) /\ ns_sides n' = ns_sides n.
Proof.
  unfold config. intros [= E1 E2 E3 E4 E5 E6]. unfold outside_addr, inside_addr, inside_source_ok, outside_source_ok, is_inside_broadcast, served, inside_addr, outside_addr.
  by rewrite E1, E2, E5, E6.
Qed.

Lemma datagram_head pkt p ihl i : bytes_ok pkt -> ipv4_datagram pkt = Some (p, ihl) -> 0 <= i < 20 -> p.[i] = pkt.[i].
Proof.
  intros Hb E Hi. destruct (ipv4_datagram_spec pkt p ihl Hb E) as [Hd ->]. pose proof (dg_header _ _ Hd) as H. rewrite zlen_ztake in H. apply byte_at_ztake; lia.
Qed.

Lemma datagram_ip pkt p ihl i : bytes_ok pkt -> ipv4_datagram pkt = Some (p, ihl) -> 0 <= i -> i + 4 <= 20 -> ip_at p i = ip_at pkt i.
Proof.
  intros Hb E H0 Hi. destruct (ipv4_datagram_spec pkt p ihl Hb E) as [Hd Hp]. pose proof (dg_header _ _ Hd) as H. assert (20 <= zlen pkt) as Hl.
  { rewrite Hp, zlen_ztake in H. lia. }
  unfold ip_at. rewrite (slice_four p i (i + 4)), (slice_four pkt i (i + 4)) by lia. by rewrite !(datagram_head pkt p ihl) by (done || lia).
Qed.

Lemma datagram_looks pkt p ihl : ipv4_datagram pkt = Some (p, ihl) -> looks_v4 pkt = true.
Proof.
  unfold ipv4_datagram, looks_v4. destruct (_ || _) eqn:E; [done|]. intros _. apply orb_false_elim in E as [E1 E2]. apply negb_false_iff in E2. rewrite E2.
  replace (20 <=? zlen pkt) with true by lia. done.
Qed.

(** The course of a datagram out, through [n'] under the lock. *)
Definition out_result (r r' : Run) (p : list Z) (ihl a : Z) (n' : NatInner) (o : option (Z * NatKey * bool)) : Prop :=
  inner (st r') = n' /\ plain (st r') /\ config (st r') = config (st r) /\
  sent r' = sent r ++ match o with Some (port, _, _) => [(Outside, spend_hop (rewrite_src p ihl p.[9] (octets (V4 a)) port))] | None => [] end.

Lemma rewrite_src_facts p ihl x port :
  datagram p ihl -> p.[9] = PROTO_TCP \/ p.[9] = PROTO_UDP -> ihl + 4 <= zlen p -> port_ok port ->
  rewritten p (rewrite_src p ihl p.[9] (octets (V4 x)) port) ihl 0 12 (octets (V4 x)) ihl port (ihl + csum_field p.[9]).
Proof.
  intros Hd Hpr Hl Hport. pose proof (endpoint_rewritten p ihl 12 0 (octets (V4 x)) port Hd ltac:(by left) ltac:(by left) Hpr Hl (bytes_ok_octets _) (zlen_octets _) (port_range _ Hport)) as RW.
  rewrite Z.add_0_r in RW. unfold rewrite_at in RW. rewrite Z.add_0_r in RW. exact RW.
Qed.

Lemma csum_field_ge proto : 6 <= csum_field proto.
Proof. unfold csum_field. case_if; lia. Qed.

Lemma helper_outbound_plain p m proto port r : helpers (st r) = [] -> helper_outbound p m proto port r = (r, p).
Proof. intros H. unfold helper_outbound. next. by rewrite H. Qed.

Lemma helper_inbound_plain p m proto port r : helpers (st r) = [] -> helper_inbound p m proto port r = (r, p).
Proof. intros H. unfold helper_inbound. next. by rewrite H. Qed.

Lemma seq_fixup_plain k peer o p ihl r : seqadj_used (st r) = false -> tcp_seq_fixup k peer o (tcp_payload_len p ihl) p ihl r = (r, p).
Proof. intros H. unfold tcp_seq_fixup. destruct (tcp_payload_len p ihl) as [x|]; [|done]. next. by rewrite H, Z.sub_diag. Qed.

Lemma outbound_tcpudp_plain ns p ihl a r :
  nat_inv none_inflight (inner (st r)) -> plain (st r) -> datagram p ihl -> p.[9] = PROTO_TCP \/ p.[9] = PROTO_UDP -> ihl + 4 <= zlen p ->
  outside_addr (st r) = Some a -> 0 <= a < 2 ^ 32 -> ip_at p 16 <> a ->
  exists t' t'' n' o, outbound_locked (out_key ns p ihl) (for_peer (out_peer p ihl)) (out_peer p ihl) (tcp_flags p ihl p.[9]) (clk env (reads r)) t' t'' (inner (st r)) = (n', o) /\
    out_result r (outbound_tcpudp env ns p ihl p.[9] true None r).1 p ihl a n' o.
Proof.
  intros I (P1 & P2 & P3) Hd Hpr Hl Ha Hr Hne. pose proof (dg_ok p ihl Hd) as Hb. pose proof (dg_header p ihl Hd) as Hh. unfold outbound_tcpudp. cbn [negb andb]. next. next. next.
  rewrite bind_run, locked_run. fold (out_key ns p ihl) (out_peer p ihl). cbn [fst snd st].
  pose proof (outbound_locked_spec (inner (st r)) (out_key ns p ihl) (for_peer (out_peer p ihl)) (out_peer p ihl) (tcp_flags p ihl p.[9])
    (clk env (reads r)) (clk env (S (reads r))) (clk env (S (S (reads r)))) I) as K.
  exists (clk env (S (reads r))), (clk env (S (S (reads r)))).
  destruct (outbound_locked _ _ _ _ _ _ _ (inner (st r))) as [n' o]. cbn [fst snd]. exists n', o. split; [done|].
  destruct K as [_ K]; [assert (byte_ok p.[9]) as H9 by bok; exact H9|by apply w16_port|].
  destruct o as [[[port key] tracked]|]; [|rewrite ret_run; split_and!; try done; by rewrite app_nil_r].
  destruct (K port key tracked eq_refl) as (-> & Hport & _). next. change (outside_addr (with_inner (st r) n')) with (outside_addr (st r)). rewrite Ha.
  pose proof (rewrite_src_facts p ihl a port Hd Hpr Hl Hport) as RW. set (out := rewrite_src p ihl p.[9] (octets (V4 a)) port) in *.
  pose proof (csum_field_ge p.[9]). assert (forall i, 16 <= i < 20 -> out.[i] = p.[i]) as Hsame by (intros i Hi; apply (rw_rest _ _ _ _ _ _ _ _ _ RW); lia).
  rewrite bind_run, helper_outbound_plain by done. cbn [fst snd].
  replace (match untracked_original out p.[9] true tracked with Some orig => if bool_decide (tcp_payload_len out ihl = tcp_payload_len out ihl) then out else orig | None => out end) with out
    by (destruct (untracked_original _ _ _ _); [rewrite bool_decide_eq_true_2 by done|]; done).
  rewrite bind_run. set (r1 := mkRun _ _ _ _ _).
  assert ((if p.[9] =? PROTO_TCP then tcp_seq_fixup (out_key ns p ihl) (ip_at out 16, w16 out (ihl + 2)) true (tcp_payload_len out ihl) out ihl else mret out) r1 = (r1, out)) as ->
    by (destruct (p.[9] =? PROTO_TCP); [by apply seq_fixup_plain|done]).
  cbn [fst snd]. assert (is_to out a = false) as ->.
  { pose proof (rw_len _ _ _ _ _ _ _ _ _ RW) as Lo. rewrite (is_to_bytes a p out) by (done || lia). unfold is_to. apply bool_decide_eq_false. intros E. apply Hne.
    unfold ip_at. change (16 + 4) with 20. rewrite E. by apply (of_be_bytes_octets (V4 a)). }
  rewrite bind_run. cbn. unfold out_result. cbn. done.
Qed.
Hypothesis env_good : env_ok env.

(** The sweep before the packet is looked at. *)
Lemma swept r : good (frag_size env) (st r) -> plain (st r) ->
  let r1 := (maybe_sweep env r).1 in
  calm r r1 /\ good (frag_size env) (st r1) /\ rtc nat_step (inner (st r)) (inner (st r1)) /\ reads r1 = S (reads r) /\
  (inner (st r1) = inner (st r) \/ inner (st r1) = expire_locked (inner (st r)) None (clk env (reads r))).
Proof using env_good.
  intros G P r1. destruct (maybe_sweep_plain r P) as (C & R & I). destruct (safe_maybe_sweep env r env_good r (window_refl env r G)) as [[G1 _ S1 _] _]. done.
Qed.

Lemma defragment_plain out zone pkt r : plain (st r) -> defragment env out zone pkt r = (r, Some (pkt, None)).
Proof using. intros (_ & P & _). unfold defragment. next. by rewrite P. Qed.

Lemma send_inside_plain ns pkt p ihl a r :
  good (frag_size env) (st r) -> plain (st r) -> goes_out (st r) pkt p ihl -> outside_addr (st r) = Some a ->
  exists n1 t' t'' n' o, rtc nat_step (inner (st r)) n1 /\ nat_inv none_inflight n1 /\
    outbound_locked (out_key ns p ihl) (for_peer (out_peer p ihl)) (out_peer p ihl) (tcp_flags p ihl p.[9]) (clk env (S (reads r))) t' t'' n1 = (n', o) /\
    out_result r (send_inside env ns pkt r).1 p ihl a n' o.
Proof using env_good.
  intros G P O Ha. destruct O. unfold send_inside. rewrite (datagram_looks pkt p ihl go_datagram0). unfold handle_outbound. rewrite bind_run.
  destruct (swept r G P) as ([P1 C1 S1] & G1 & N1 & R1' & _). set (r1 := (maybe_sweep env r).1) in *. clearbody r1.
  destruct (config_addrs _ _ C1) as (E1 & E2 & E3 & E4 & _ & E6 & _). next. unfold id.
  rewrite <- (datagram_ip pkt p ihl 12) by (done || lia). rewrite E4, go_source0. cbn [negb]. rewrite bind_run, defragment_plain by done. cbn [fst snd]. rewrite go_datagram0.
  unfold route_outbound. next. unfold id. rewrite E2, E6, go_whole0. apply orb_false_elim in go_remote0 as [R1 R2]. rewrite R1, R2. cbn [orb]. rewrite bind_run. rewrite ret_run. cbn [fst snd orb].
  next. unfold id. rewrite E3, go_forwardable0. cbn [negb]. replace (p.[8] <=? 1) with false by lia. cbn [andb].
  unfold outbound. rewrite go_whole0. cbn [negb Z.eqb]. rewrite bind_run.
  replace (((p.[9] =? PROTO_TCP) || (p.[9] =? PROTO_UDP)) && (ihl + 4 <=? zlen p)) with true
    by (replace (ihl + 4 <=? zlen p) with true by lia; destruct go_proto0 as [-> | ->]; done).
  destruct (ipv4_datagram_spec pkt p ihl go_bytes0 go_datagram0) as [Hd _].
  assert (0 <= a < 2 ^ 32) as Hr. { destruct (window_config env r r (window_refl env r G)) as (_ & _ & _ & H). by apply H. }
  destruct (outbound_tcpudp_plain ns p ihl a r1 (gd_inner _ _ G1) P1 Hd go_proto0 go_ports0 ltac:(congruence) Hr ltac:(congruence)) as (t' & t'' & n' & o & EL & (X1 & X2 & X3 & X4)).
  rewrite R1' in EL. exists (inner (st r1)), t', t'', n', o. split; [done|]. split; [apply G1|]. split; [done|]. cbn [negb andb]. rewrite ret_run. cbn [fst]. split_and!; [done|done|congruence|congruence].
Qed.

Lemma inbound_locked_known n rk remote flags t t1 t2 t3 k :
  reverse n !! rk = Some k -> exists n' tr, inbound_locked rk remote flags t t1 t2 t3 n = (n', Some (k, tr)).
Proof using. intros E. unfold inbound_locked, inbound_mapping. rewrite E. destruct (note_inbound_at _ _ _ _ _ _) as [n' tr]. by exists n', tr. Qed.

Lemma send_outside_plain pkt p ihl k r :
  good (frag_size env) (st r) -> plain (st r) -> comes_in (st r) pkt p ihl ->
  reverse (inner (st (maybe_sweep env r).1)) !! mkNatRevKey p.[9] (w16 p (ihl + 2)) = Some k -> nk_ns k = 0 \/ nk_ns k ∈ ns_sides (st r) ->
  sent (send_outside env pkt r).1 = sent r ++ [(Inside (nk_ns k), rewrite_dst p ihl p.[9] (octets (V4 (nk_ip k))) (nk_port k))].
Proof using env_good.
  intros G P O Hk Hns. destruct O. unfold send_outside. rewrite (datagram_looks pkt p ihl ci_datagram0). unfold handle_inbound. rewrite bind_run.
  destruct (swept r G P) as ([P1 C1 S1] & G1 & N1 & _). set (r1 := (maybe_sweep env r).1) in *. clearbody r1.
  destruct (config_addrs _ _ C1) as (E1 & _ & _ & _ & E5 & _ & E7). next. unfold id. destruct (ipv4_datagram_spec pkt p ihl ci_bytes0 ci_datagram0) as [Hd _].
  pose proof (dg_ok p ihl Hd) as Hb. pose proof (dg_header p ihl Hd) as Hh.
  rewrite <- (datagram_ip pkt p ihl 12) by (done || lia). rewrite E5, ci_source0. cbn [negb]. rewrite bind_run, defragment_plain by done. cbn [fst snd].
  unfold inbound. rewrite ci_datagram0. next. rewrite E1, ci_here0. assert (is_to p (ip_at p 16) = true) as ->.
  { unfold is_to. apply bool_decide_eq_true. symmetry. apply octets_ip_at; (done || lia). }
  cbn [negb]. rewrite ci_whole0. cbn [negb Z.eqb]. rewrite bind_run.
  replace (((p.[9] =? PROTO_TCP) || (p.[9] =? PROTO_UDP)) && (ihl + 4 <=? zlen p)) with true
    by (replace (ihl + 4 <=? zlen p) with true by lia; destruct ci_proto0 as [-> | ->]; done).
  unfold inbound_tcpudp. cbn [negb andb]. replace (p.[8] <=? 1) with false by lia. next. next. next. next. rewrite bind_run, locked_run. cbn [fst snd st].
  destruct (inbound_locked_known (inner (st r1)) (mkNatRevKey p.[9] (w16 p (ihl + 2))) (ip_at p 12, w16 p ihl) (tcp_flags p ihl p.[9]) (clk env (reads r1)) (clk env (S (reads r1)))
    (clk env (S (S (reads r1)))) (clk env (S (S (S (reads r1))))) k Hk) as (n' & tr & ->). cbn [fst snd].
  set (out := rewrite_dst _ _ _ _ _). destruct P1 as (Q1 & Q2 & Q3). rewrite bind_run, helper_inbound_plain by done. cbn [fst snd].
  replace (match untracked_original out p.[9] true tr with Some orig => if bool_decide (tcp_payload_len out ihl = tcp_payload_len out ihl) then out else orig | None => out end) with out
    by (destruct (untracked_original _ _ _ _); [rewrite bool_decide_eq_true_2 by done|]; done).
  rewrite bind_run. set (r2 := mkRun _ _ _ _ _).
  assert ((if p.[9] =? PROTO_TCP then tcp_seq_fixup k (ip_at p 12, w16 p ihl) false (tcp_payload_len out ihl) out ihl else mret out) r2 = (r2, out)) as ->
    by (destruct (p.[9] =? PROTO_TCP); [by apply seq_fixup_plain|done]).
  cbn [fst snd]. rewrite bind_run. unfold emit. cbn [mbind option_bind deliver]. unfold send_ns. rewrite bind_run. cbn [gets fst snd].
  change (ns_sides (st r2)) with (ns_sides (st r1)). rewrite E7.
  assert ((nk_ns k =? 0) || bool_decide (nk_ns k ∈ ns_sides (st r)) = true) as ->.
  { destruct Hns as [->|Hns]; [done|]. rewrite (bool_decide_eq_true_2 _ Hns). apply orb_true_r. }
  cbn. by rewrite S1.
Qed.
End Flow.

(** ** A mapping just used outlives a sweep *)

Lemma get_or_create_active n k t t' t'' n' : get_or_create n k t t' t'' = (n', true) -> exists m, mappings n' !! k = Some m /\ last_active m = t.
Proof.
  assert (forall n p f n1 m, new_mapping n k p t f = (n1, Some m) -> last_active m = t) as Hn.
  { intros n0 p f n1 m. unfold new_mapping. destruct (host_locked _ _ _) as [x ok]. destruct (negb ok); [done|]. destruct (take_mapping _ _ _) as [q b]. destruct b; [|done]. by intros [= <- <-]. }
  unfold get_or_create. destruct (mappings n !! k) as [m|] eqn:Em; [intros [= <-]; eexists; split; [apply lookup_insert_eq|done]|].
  destruct (forward_port_for n k t) as [p|].
  - destruct (new_mapping n k p t true) as [n1 [m|]] eqn:E; [|done]. intros [= <-]. eexists. split; [apply lookup_insert_eq|]. exact (Hn _ _ _ _ _ E).
  - destruct (new_mapping n k 0 t false) as [n1 [m|]] eqn:E; [|done]. destruct (alloc_port _ _ _ _ _) as [n2 [p|]]; [|done]. intros [= <-].
    eexists. split; [apply lookup_insert_eq|]. exact (Hn _ _ _ _ _ E).
Qed.

(** The side of [m] with outside port [port] was active at [t]. *)
Definition active_at (m : Mapping) (port t : Z) : Prop :=
  last_active m = t /\ (outside_port m = port \/ exists a, alias m = Some a /\ outside_port a = port /\ last_active a = t).

Lemma outbound_active n k sel peer flags t t' t'' n' port key tr :
  outbound_locked k sel peer flags t t' t'' n = (n', Some (port, key, tr)) -> exists m, mappings n' !! k = Some m /\ active_at m port t.
Proof.
  unfold outbound_locked. destruct (get_or_create n k t t' t'') as [n1 [|]] eqn:E; [|done]. destruct (get_or_create_active _ _ _ _ _ _ E) as (m & Em & Ht).
  unfold note_outbound. rewrite Em. set (s := with_active (side sel m) (last_active m)). destruct (note _ _ _ _ _ _ _) as [q ps]. cbn. intros [= <- <- _ _].
  eexists. split; [cbn; apply lookup_insert_eq|]. unfold put_side, s, side. destruct (on_alias sel m) as [a|]; cbn.
  - split; [done|]. right. eexists. split; [done|]. done.
  - split; [done|]. by left.
Qed.

Lemma sweep_keeps n k m port t now :
  nat_inv none_inflight n -> mappings n !! k = Some m -> active_at m port t -> sat_sub now t <= base_timeout (nk_proto k) ->
  forward_lapsed n k now port = false -> reverse (expire_locked n None now) !! rev_of k port = Some k.
Proof.
  intros I Em [Ht Ha] Hb Hf. destruct (expire_locked_inv _ n None now I inflight_none ltac:(done)) as (I' & _). apply (ni_holder _ _ I').
  assert (exists s, is_side m s /\ outside_port s = port /\ last_active s = t) as (s & Hs & <- & Hl).
  { destruct Ha as [Hp|(a & Ea & Hp & La)]; [exists m; by split; [left|]|exists a; by split; [right|]]. }
  destruct (side_survives (nk_proto k) now (forward_lapsed n k now) m s Hs) as (m' & s' & E & Hs' & Hp & _); [|done|].
  { unfold dead. rewrite Hl. replace (sat_sub now t >? base_timeout (nk_proto k)) with false by lia. apply andb_false_r. }
  exists m'. rewrite (expire_locked_mappings _ n None now I inflight_none), Em. split_and!; [exact E|done|]. apply map_ports_elem. cbn [rev_of rk_port].
  destruct Hs' as [->|Ea]; [by left|right; by exists s'].
Qed.

Lemma outbound_refused n k sel peer flags t t' t'' n' :
  nat_inv none_inflight n -> proto_ok (nk_proto k) -> port_ok (nk_port k) -> outbound_locked k sel peer flags t t' t'' n = (n', None) ->
  capped (quotas n') (host_of k) \/ exhausted (tables n').
Proof.
  intros I Hpr Hpt. unfold outbound_locked. pose proof (get_or_create_inv n k t t' t'' I Hpr Hpt) as K. destruct (get_or_create n k t t' t'') as [n1 ok] eqn:E. destruct ok.
  - destruct (get_or_create_active _ _ _ _ _ _ E) as (m & Em & _). unfold note_outbound. rewrite Em. by destruct (note _ _ _ _ _ _ _).
  - intros [= <-]. destruct K as [_ K]. destruct (mappings n !! k); [by destruct K|]. apply K.
Qed.

Lemma rewrite_dst_facts p ihl x port :
  datagram p ihl -> p.[9] = PROTO_TCP \/ p.[9] = PROTO_UDP -> ihl + 4 <= zlen p -> port_ok port ->
  rewritten p (rewrite_dst p ihl p.[9] (octets (V4 x)) port) ihl 1 16 (octets (V4 x)) (ihl + 2) port (ihl + csum_field p.[9]).
Proof.
  intros Hd Hpr Hl Hport. destruct (spend_hop_facts p ihl Hd) as (Sd & Sl & _ & Ss & _). apply hop_then_rewritten; [done|].
  assert ((spend_hop p).[9] = p.[9]) as E9 by (apply Ss; lia). rewrite <- E9 in Hpr |- *.
  apply (endpoint_rewritten (spend_hop p) ihl 16 2 (octets (V4 x)) port); [done|by right|by right|done|lia|apply bytes_ok_octets|apply zlen_octets|by apply port_range].
Qed.

(** C9: A TCP or UDP datagram from an inside host to one outside leaves the
    NAT from its public address and a port, its checksums exactly as valid as
    they were and its TTL one less, or is dropped because a cap is reached or
    no port of the range is free.  Whoever then sends a datagram to that
    port, within the idle timeout of the mapping (four minutes for TCP, five
    for UDP) and unless a port forward of that port has run out, reaches the
    host, whether or not a sweep runs first: it is handed to the host's namespace with the
    host's address and port as its destination, and nothing else changed but
    the TTL and checksums.  This is for a NAT without helpers and reassembly. *)
Theorem nat_round_trip env t0 r ns pkt p ihl a :
  env_ok env -> path_reached env t0 r -> plain (st r) -> ns = 0 \/ ns ∈ ns_sides (st r) -> goes_out (st r) pkt p ihl -> outside_addr (st r) = Some a ->
  let r1 := (send_inside env ns pkt r).1 in
  (sent r1 = sent r /\ (capped (quotas (inner (st r1))) (ns, ip_at p 12) \/ exhausted (tables (inner (st r1))))) \/
  exists port out, port_ok port /\ sent r1 = sent r ++ [(Outside, out)] /\
    rewritten p out ihl 1 12 (octets (V4 a)) ihl port (ihl + csum_field p.[9]) /\
    forall reply q qihl, comes_in (st r1) reply q qihl -> q.[9] = p.[9] -> w16 q (qihl + 2) = port ->
      sat_sub (clk env (reads r1)) (clk env (S (reads r))) <= base_timeout p.[9] ->
      (forall f, by_port (tables (inner (st r1))) !! mkNatRevKey p.[9] port = Some f -> lapsed (pf_expires f) (clk env (reads r1)) = false) ->
      exists back, sent (send_outside env reply r1).1 = sent r1 ++ [(Inside ns, back)] /\
        rewritten q back qihl 1 16 (slice p 12 16) (qihl + 2) (w16 p ihl) (qihl + csum_field q.[9]).
Proof.
  intros He Hreach P Hns O Ha r1. destruct (path_reached_good env He t0 r Hreach) as [G _].
  destruct (send_inside_plain env He ns pkt p ihl a r G P O Ha) as (n1 & t' & t'' & n' & o & _ & I1 & EL & (X1 & X2 & X3 & X4)). fold r1 in X1, X2, X3, X4.
  pose proof (sp_good _ _ _ (path_step_stepped env He r r1 G (on_inside env r ns pkt (go_bytes _ _ _ _ O)))) as G1.
  destruct (ipv4_datagram_spec pkt p ihl (go_bytes _ _ _ _ O) (go_datagram _ _ _ _ O)) as [Hd _]. pose proof (dg_ok p ihl Hd) as Hb. pose proof (dg_header p ihl Hd) as Hh.
  assert (proto_ok (nk_proto (out_key ns p ihl))) as Hpr by (assert (byte_ok p.[9]) as H9 by bok; exact H9).
  assert (port_ok (nk_port (out_key ns p ihl))) as Hpt by (by apply w16_port).
  destruct o as [[[port key] tr]|]; [right|left; split; [by rewrite X4, app_nil_r|rewrite X1; by eapply outbound_refused in EL]].
  pose proof (outbound_locked_spec n1 (out_key ns p ihl) (for_peer (out_peer p ihl)) (out_peer p ihl) (tcp_flags p ihl p.[9]) (clk env (S (reads r))) t' t'' I1 Hpr Hpt) as K.
  rewrite EL in K. destruct K as [_ K]. destruct (K port key tr eq_refl) as (_ & Hport & Hrev).
  exists port, (spend_hop (rewrite_src p ihl p.[9] (octets (V4 a)) port)). split; [done|]. split; [done|]. split.
  { apply rewritten_then_hop; [apply rewrite_src_facts; try done; apply O|by left|lia|]. pose proof (byte_at_ok p 8 Hb) as H8. unfold byte_ok in H8. lia. }
  intros reply q qihl C E9 Eport Ht Hf. destruct (swept env He r1 G1 X2) as (_ & _ & _ & _ & Hsw).
  assert (reverse (inner (st (maybe_sweep env r1).1)) !! mkNatRevKey q.[9] (w16 q (qihl + 2)) = Some (out_key ns p ihl)) as Hk.
  { rewrite E9, Eport. change (mkNatRevKey p.[9] port) with (rev_of (out_key ns p ihl) port). destruct Hsw as [-> | ->]; rewrite X1; [done|].
    destruct (outbound_active _ _ _ _ _ _ _ _ _ _ _ _ EL) as (m & Em & Am). rewrite X1 in Hf. eapply sweep_keeps; try done.
    - rewrite <- X1. apply G1.
    - unfold forward_lapsed. change (rev_of (out_key ns p ihl) port) with (mkNatRevKey p.[9] port). destruct (by_port (tables n') !! _) as [f|]; [by apply Hf|done]. }
  destruct (config_addrs _ _ X3) as (_ & _ & _ & _ & _ & _ & Es).
  destruct (ipv4_datagram_spec reply q qihl (ci_bytes _ _ _ _ C) (ci_datagram _ _ _ _ C)) as [Hdq _].
  eexists. split; [apply (send_outside_plain env He reply q qihl (out_key ns p ihl) r1 G1 X2 C Hk); by rewrite Es|].
  cbn [out_key nk_ip nk_port]. change (slice p 12 16) with (slice p 12 (12 + 4)). rewrite <- octets_ip_at by (done || lia).
  apply rewrite_dst_facts; try done; apply C.
Qed.

(** ** What a statement sends *)

Definition adds {A} (P : Side * list Z -> Prop) (m : M A) (Q : A -> Prop) : Prop :=
  forall r, exists l, sent (m r).1 = sent r ++ l /\ Forall P l /\ Q (m r).2.

Section Adds.
Context (P : Side * list Z -> Prop).

Lemma adds_none {A} (m : M A) (Q : A -> Prop) : (forall r, sent (m r).1 = sent r /\ Q (m r).2) -> adds P m Q.
Proof. intros H r. destruct (H r) as [E HQ]. exists []. by rewrite app_nil_r. Qed.

Lemma adds_bind {A B} (m : M A) (f : A -> M B) (Q : A -> Prop) (R : B -> Prop) : adds P m Q -> (forall a, Q a -> adds P (f a) R) -> adds P (m ≫= f) R.
Proof.
  intros Hm Hf r. rewrite bind_run. destruct (Hm r) as (l & E & F & HQ). destruct (Hf _ HQ (m r).1) as (l' & E' & F' & HR).
  exists (l ++ l'). rewrite E', E, app_assoc. split_and!; [done|by apply list.Forall_app|done].
Qed.

Lemma adds_each {A} (f : A -> M unit) l : (forall x, adds P (f x) (fun _ => True)) -> adds P (each f l) (fun _ => True).
Proof. intros H. induction l as [|x l IH]; [by apply adds_none|]. by eapply adds_bind. Qed.

Lemma adds_deliver to p : P (to, p) -> adds P (deliver to p) (fun _ => True).
Proof.
  intros H r. destruct to as [|ns]; cbn [deliver]; [exists [(Outside, p)]; split_and!; [done|by repeat constructor|done]|].
  unfold send_ns. rewrite bind_run. cbn [gets fst snd]. destruct (_ || _); [exists [(Inside ns, p)]|exists []; rewrite app_nil_r]; split_and!; try done; by repeat constructor.
Qed.

Lemma adds_helpers (process : PacketHelper -> nat -> NatInner -> list Z -> NatMapping -> NatInner * list Z) hs p m proto port :
  adds P (run_helpers process hs p m proto port) (fun _ => True).
Proof.
  revert p. induction hs as [|[h|h] hs IH]; intros p; cbn [run_helpers]; [by apply adds_none| |by apply IH].
  destruct (match_outbound h proto port); [|by apply IH]. apply (adds_bind _ _ (fun _ => True)); [by apply adds_none|]. intros c _.
  apply (adds_bind _ _ (fun _ => True)); [apply adds_none; intros r; by rewrite locked_run|]. intros x _. by apply IH.
Qed.

Lemma adds_emit p fmax to : (forall x, P (to, x)) -> adds P (emit p fmax to) (fun _ => True).
Proof. intros H. unfold emit. destruct (m ← fmax; _) as [l|]; [apply adds_each; intros x|]; by apply adds_deliver. Qed.

Lemma adds_seq_fixup k peer o before p ihl : adds P (tcp_seq_fixup k peer o before p ihl) (fun _ => True).
Proof.
  unfold tcp_seq_fixup. destruct before as [x|], (tcp_payload_len p ihl) as [y|]; try by apply adds_none.
  apply (adds_bind _ _ (fun _ => True)); [by apply adds_none|]. intros u _. destruct (_ && _); [by apply adds_none|].
  apply (adds_bind _ _ (fun _ => True)); [apply adds_none; intros r; by rewrite locked_run|]. intros [found adj] _.
  apply (adds_bind _ _ (fun _ => True)); [|intros _ _; by apply adds_none]. apply adds_none. intros r. by destruct (_ && _).
Qed.
End Adds.

(** Whatever goes inside goes to namespace [ns]. *)
Definition only_to (ns : Z) (x : Side * list Z) : Prop := match x.1 with Inside i => i = ns | Outside => True end.

Section Ingress.
Context (env : Env).

Definition lets_in (r : Run) (p : list Z) (ihl : Z) (k : NatKey) : Prop :=
  let_in (inner (st r)) (mkNatRevKey p.[9] (w16 p (ihl + 2))) (ip_at p 12, w16 p ihl) (clk env (S (reads r))) (clk env (S (S (S (reads r))))) k.

Lemma time_exceeded_outside_adds p (P : Side * list Z -> Prop) : (forall x, P (Outside, x)) -> adds P (time_exceeded_outside env p) (fun _ => True).
Proof.
  intros H. unfold time_exceeded_outside. apply (adds_bind _ _ _ (fun _ => True)); [by apply adds_none|]. intros [me|] _; [|by apply adds_none]. unfold time_exceeded.
  destruct (Icmp.time_exceeded _ _) as [err|]; [|by apply adds_none]. apply (adds_bind _ _ _ (fun _ => True)); [by apply adds_none|]. intros [|] _; [by apply adds_deliver|by apply adds_none].
Qed.

(** What [inbound_tcpudp] sends, and that it goes where its result says. *)
Lemma inbound_tcpudp_adds p ihl whole fmax r :
  nat_inv none_inflight (inner (st r)) -> datagram p ihl ->
  let r' := inbound_tcpudp env p ihl p.[9] whole fmax r in
  exists l, sent r'.1 = sent r ++ l /\ match r'.2 with
    | Some target => exists k, lets_in r p ihl k /\ target = (nk_ns k, nk_ip k) /\ Forall (only_to (nk_ns k)) l
    | None => forall ns x, (Inside ns, x) ∉ l
    end.
Proof.
  intros I Hd. pose proof (dg_ok p ihl Hd) as Hb. pose proof (dg_header p ihl Hd) as Hh. unfold inbound_tcpudp.
  destruct (_ && _). { exists []. rewrite app_nil_r. split; [done|]. intros ns x. apply not_elem_of_nil. }
  destruct (p.[8] <=? 1).
  - next. next. rewrite bind_run. match goal with |- context [(if ?b then _ else _) ?r1] => set (ri := r1); destruct b end.
    + destruct (time_exceeded_outside_adds p (fun x => x.1 = Outside) ltac:(done) ri) as (l & E & F & _). exists l. split; [done|]. cbn. intros ns x Hx.
      rewrite list.Forall_forall in F. by apply F in Hx.
    + exists []. rewrite app_nil_r. split; [done|]. intros ns x. apply not_elem_of_nil.
  - next. next. next. next. rewrite bind_run, locked_run. cbn [fst snd st].
    pose proof (inbound_locked_spec (inner (st r)) (mkNatRevKey p.[9] (w16 p (ihl + 2))) (ip_at p 12, w16 p ihl) (tcp_flags p ihl p.[9]) (clk env (reads r)) (clk env (S (reads r)))
      (clk env (S (S (reads r)))) (clk env (S (S (S (reads r))))) I) as K.
    destruct (inbound_locked _ _ _ _ _ _ _ _) as [n' o]. cbn [fst snd].
    destruct K as [_ K]; [assert (byte_ok p.[9]) as H9 by bok; exact H9|by apply w16_port|].
    destruct o as [[k tr]|]; [|exists []; rewrite app_nil_r; split; [done|intros ns x; apply not_elem_of_nil]]. destruct K as [K _].
    match goal with |- context [(?m ≫= ?f) ?r1] => set (mm := m ≫= f); set (ri := r1) end.
    assert (adds (only_to (nk_ns k)) mm (fun t => t = Some (nk_ns k, nk_ip k))) as A.
    { apply (adds_bind _ _ _ (fun _ => True)).
      { destruct whole; [|by apply adds_none]. apply (adds_bind _ _ _ (fun _ => True)); [by apply adds_none|intros hs _; apply adds_helpers]. }
      intros out _. apply (adds_bind _ _ _ (fun _ => True)); [destruct (_ =? _); [apply adds_seq_fixup|by apply adds_none]|].
      intros out' _. apply (adds_bind _ _ _ (fun _ => True)); [by apply adds_emit|intros _ _; by apply adds_none]. }
    destruct (A ri) as (l & E & F & T). exists l. split; [done|]. rewrite T. by exists k.
Qed.

(** A datagram, or the first piece of one, in. *)
Lemma inbound_adds q p ihl fmax r :
  nat_inv none_inflight (inner (st r)) -> bytes_ok q -> ipv4_datagram q = Some (p, ihl) -> (frag_info p).2 = 0 -> p.[9] = PROTO_TCP \/ p.[9] = PROTO_UDP ->
  exists l, sent (inbound env q fmax r).1 = sent r ++ l /\ forall ns x, (Inside ns, x) ∈ l -> exists k, lets_in r p ihl k /\ nk_ns k = ns.
Proof.
  intros I Hb Hdg Hf Hpr. destruct (ipv4_datagram_spec q p ihl Hb Hdg) as [Hd _].
  assert (forall r', sent r' = sent r -> exists l, sent r' = sent r ++ l /\ forall ns x, (Inside ns, x) ∈ l -> exists k, lets_in r p ihl k /\ nk_ns k = ns) as Hnone.
  { intros r' ->. exists []. rewrite app_nil_r. split; [done|]. intros ns x Hx. by apply not_elem_of_nil in Hx. }
  unfold inbound. rewrite Hdg. next. destruct (negb _); [by apply Hnone|]. destruct (frag_info p) as [more off]. cbn [snd] in Hf. subst off. cbn [Z.eqb negb]. rewrite bind_run.
  destruct (ihl + 4 <=? zlen p).
  - assert ((p.[9] =? PROTO_TCP) || (p.[9] =? PROTO_UDP) = true) as -> by (by destruct Hpr as [-> | ->]). cbn [andb].
    destruct (inbound_tcpudp_adds p ihl (negb more) fmax r I Hd) as (l & E & K). set (r' := inbound_tcpudp _ _ _ _ _ _ r) in *. destruct r'.2 as [target|]; [|].
    2:{ exists l. split; [done|]. intros ns x Hx. by apply K in Hx. }
    destruct K as (k & L & -> & F). match goal with |- context [(?m r'.1)] => set (mm := m) end.
    assert (adds (only_to (nk_ns k)) mm (fun _ => True)) as A.
    { unfold mm. destruct (negb more); [by apply adds_none|]. apply (adds_bind _ _ _ (fun _ => True)); [by apply adds_none|]. intros t _.
      apply (adds_bind _ _ _ (fun _ => True)); [by apply adds_none|]. intros tbl _. destruct (FragTable.resolve _ _ _ _) as [tbl' held].
      apply (adds_bind _ _ _ (fun _ => True)); [by apply adds_none|]. intros _ _. apply adds_each. intros x. by apply (adds_deliver _ (Inside (nk_ns k))). }
    destruct (A r'.1) as (l' & E' & F' & _). exists (l ++ l'). rewrite E', E, app_assoc. split; [done|]. intros ns x Hx. exists k. split; [done|].
    assert (Forall (only_to (nk_ns k)) (l ++ l')) as FF by (by apply list.Forall_app). rewrite list.Forall_forall in FF. symmetry. apply (FF _ Hx).
  - rewrite andb_false_r. assert (p.[9] =? PROTO_ICMP = false) as -> by (by destruct Hpr as [-> | ->]). by apply Hnone.
Qed.
End Ingress.

(** C10: Nothing uninvited gets in: when a TCP or UDP datagram, or the first
    fragment of one, has come in from outside, been put together if it had
    to be, and is passed on, then whatever goes inside goes to the namespace
    of an inside endpoint it is meant for.  The endpoint has a mapping with
    that outside port, or a live expectation names the port and this
    remote, or a live port forward leads to it.  So does what a helper makes
    of the datagram, the pieces it is cut into and the fragments that were
    waiting for it; all else is dropped. *)
Theorem nat_ingress_invited env t0 r pkt q fmax p ihl :
  env_ok env -> path_reached env t0 r -> bytes_ok pkt ->
  let (r2, d) := defragment env false 0 pkt (maybe_sweep env r).1 in
  d = Some (q, fmax) -> ipv4_datagram q = Some (p, ihl) -> (frag_info p).2 = 0 -> p.[9] = PROTO_TCP \/ p.[9] = PROTO_UDP ->
  exists l, sent (handle_inbound env pkt r).1 = sent (maybe_sweep env r).1 ++ l /\
    forall ns x, (Inside ns, x) ∈ l -> exists k, lets_in env r2 p ihl k /\ nk_ns k = ns.
Proof.
  intros He Hr Hb. destruct (path_reached_good env He t0 r Hr) as [G _]. destruct (safe_maybe_sweep env r He r (window_refl env r G)) as [W1 _].
  unfold handle_inbound. rewrite bind_run. set (r1 := (maybe_sweep env r).1) in *. clearbody r1. next.
  assert (sent (defragment env false 0 pkt r1).1 = sent r1) as Hs.
  { unfold defragment. next. destruct (defragger (st r1)); [|done]. next. by destruct (NatDefrag.reassemble _ _ _ _ _ _). }
  destruct (safe_defragment env r He false 0 pkt Hb r1 W1) as [W2 Hq].
  destruct (negb _); [|rewrite bind_run]; destruct (defragment env false 0 pkt r1) as [r2 d]; cbn [fst snd] in *; intros -> Hdg Hf Hpr.
  - exists []. rewrite app_nil_r. split; [done|]. intros ns x Hx. by apply not_elem_of_nil in Hx.
  - rewrite <- Hs. apply inbound_adds; try done; [apply W2|by eapply Hq].
Qed.

(** ** A query and its answer *)

(** 8.8.8.8:53 answers 203.0.113.1:5000. *)
Definition answer : list Z := build_ipv4 134744072 3405803777 17 64 (build_udp (V4 134744072) (V4 3405803777) 53 5000 [4; 5]).
Definition answered_packet : list Z :=
  [69; 0; 0; 30; 0; 0; 0; 0; 63; 17; 171; 13; 8; 8; 8; 8; 192; 168; 0; 10; 0; 53; 19; 136; 0; 10; 23; 86; 4; 5].

Definition still_run : Run := fresh lan wan 0 0.
Definition still_asked : Run := (send_inside demo_env 0 query still_run).1.

Lemma still_reached : path_reached demo_env 0 still_run.
Proof. exists lan, wan, 0. split; [done|]. split; [done|]. apply rtc_refl. Qed.

Lemma still_asked_reached : path_reached demo_env 0 still_asked.
Proof. exists lan, wan, 0. split; [done|]. split; [done|]. apply rtc_once, on_inside, query_ok. Qed.

Lemma answer_ok : bytes_ok answer.
Proof. apply bytes_ok_eval. vm_compute. reflexivity. Qed.

Lemma query_goes_out : goes_out (st still_run) query query 20.
Proof. split; try (vm_compute; reflexivity); [exact query_ok|by right|vm_compute; discriminate|vm_compute; discriminate]. Qed.

Lemma answer_comes_in : comes_in (st still_asked) answer answer 20.
Proof. split; try (vm_compute; reflexivity); [exact answer_ok|by right|vm_compute; discriminate]. Qed.

Lemma nat_round_trip_witness :
  sent still_asked = [(Outside, asked_packet)] /\ sent (send_outside demo_env answer still_asked).1 = [(Outside, asked_packet); (Inside 0, answered_packet)] /\
  exists back, sent (send_outside demo_env answer still_asked).1 = sent still_asked ++ [(Inside 0, back)] /\
    rewritten answer back 20 1 16 (slice query 12 16) (20 + 2) (w16 query 20) (20 + csum_field answer.[9]).
Proof.
  assert (sent still_asked = [(Outside, asked_packet)]) as E by (vm_compute; reflexivity).
  split; [exact E|]. split; [vm_compute; reflexivity|].
  assert (plain (st still_run)) as P by (split_and!; reflexivity).
  assert (outside_addr (st still_run) = Some 3405803777) as Ha by reflexivity.
  destruct (nat_round_trip demo_env 0 still_run 0 query query 20 3405803777 demo_env_ok still_reached P (or_introl eq_refl) query_goes_out Ha) as [[N _]|(port & out & Hp & S & RW & Back)].
  - assert (sent still_asked = sent still_run) as N' by exact N. rewrite E in N'. discriminate N'.
  - assert ([(Outside, asked_packet)] = [(Outside, out)]) as Eo by (rewrite <- E; exact S). injection Eo as Eo. subst out.
    apply (Back answer answer 20 answer_comes_in).
    + vm_compute; reflexivity.
    + transitivity (w16 asked_packet 20); [vm_compute; reflexivity|]. exact (rw_port _ _ _ _ _ _ _ _ _ RW).
    + vm_compute; discriminate.
    + assert (by_port (tables (inner (st still_asked))) = ∅) as F by (vm_compute; reflexivity). intros f Hf.
      assert (by_port (tables (inner (st still_asked))) !! mkNatRevKey query.[9] port = Some f) as Hf' by exact Hf. rewrite F, lookup_empty in Hf'. discriminate Hf'.
Defined.

Lemma still_swept : defragment demo_env false 0 answer (maybe_sweep demo_env still_asked).1 = ((maybe_sweep demo_env still_asked).1, Some (answer, None)).
Proof. apply defragment_plain. split_and!; vm_compute; reflexivity. Qed.

Lemma still_answered : sent (handle_inbound demo_env answer still_asked).1 = sent (maybe_sweep demo_env still_asked).1 ++ [(Inside 0, answered_packet)].
Proof. vm_compute. reflexivity. Qed.

Lemma nat_ingress_invited_witness :
  sent (handle_inbound demo_env answer still_asked).1 = sent (maybe_sweep demo_env still_asked).1 ++ [(Inside 0, answered_packet)] /\
  exists k, lets_in demo_env (maybe_sweep demo_env still_asked).1 answer 20 k /\ nk_ns k = 0.
Proof.
  split; [exact still_answered|]. pose proof (nat_ingress_invited demo_env 0 still_asked answer answer None answer 20 demo_env_ok still_asked_reached answer_ok) as K.
  rewrite still_swept in K.
  destruct (K eq_refl (ci_datagram _ _ _ _ answer_comes_in) (f_equal snd (ci_whole _ _ _ _ answer_comes_in)) (ci_proto _ _ _ _ answer_comes_in)) as (l & El & F).
  rewrite still_answered in El. apply app_inv_head in El. apply (F 0 answered_packet). rewrite <- El. apply list_elem_of_here.
Defined.
